(* ===== verification/_CoqProject ===== *)
-Q . S2P
Prelude.v
GoStrings.v
GoPath.v
GoFlags.v
Json.v
Utils.v
Metrics.v
BrokerInfo.v
Config.v
ConfigProps.v
Collector.v
SqlCollector.v
SqlText.v
MysqlCollector.v
PostgresCollector.v
PqTimeouts.v
PqDeadlines.v
CloudWatchCollector.v
Worker.v
Scheduler.v
SchedulerInv.v
SchedulerProps.v
SchedulerLive.v
System.v
SystemProps.v
SystemMonitor.v
Services.v
Main.v
SystemMain.v
TestHelpers.v
TestConfig.v
