(* ===== verification/Prelude.v ===== *)
(** * The RDS metric collector, verified

    This library models the Go program under src/ (alphagov's
    paas-rds-metric-collector) and proves what makes it correct.

    ** The program

    The collector asks AWS which RDS databases belong to a service broker and
    runs, for each database and each matching driver, a worker that collects
    metrics periodically and emits them to loggregator (or to standard output).
    Its parts:
    - main.go loads the configuration, builds the emitter, the three drivers and
      the scheduler, and runs the scheduler behind a locket lock;
    - pkg/config reads the JSON configuration over defaults and validates it;
    - pkg/scheduler keeps the registry of workers: a main loop refreshes the list
      of instances, starts missing workers and cancels superfluous ones; each
      worker is a goroutine with a retry loop; on shutdown a deferred loop drains
      the workers;
    - pkg/brokerinfo lists instances and derives their connection details;
    - pkg/collector has the drivers: generic SQL queries over database/sql, with
      tables of queries for MySQL and PostgreSQL, and CloudWatch;
    - fork/pq-timeouts wraps lib/pq with read and write deadlines;
    - pkg/emitter and pkg/metrics hold the metric types and the emitters;
    - pkg/utils holds small helpers, among them [WithTimeout].

    ** Files

    - Prelude (this file): the [outcome] monad (value, error, panic), 64-bit
      integers as [Z] with [wrap64], the hint databases, lemmas on lists, maps and
      transition systems.
    - GoStrings, GoPath, GoFlags: the functions of [strings], [strconv], [path] and
      [flag] that the program uses.  Json: the text format of encoding/json.
    - Utils: pkg/utils/utils.go.  [WithTimeout] is a transition system of the
      caller, the payload's goroutine, the timer and the channel.
    - Metrics: pkg/metrics, pkg/emitter.  go-loggregator is the class
      [LoggregatorAPI] with its laws.
    - BrokerInfo: pkg/brokerinfo.  The interface is the class [BrokerInfo]; the
      RDS client is the class [RDSInstance]; the password hash is a parameter.
    - Config: pkg/config/config.go, with the struct tags as data.  ConfigProps:
      the documented meaning of the validator's tags, and the theorems.
    - Collector: the interfaces of pkg/collector as records of operations, and the
      part of database/sql used (rows, [Scan] and its conversions).
    - SqlCollector: pkg/collector/sql_collector.go.  MysqlCollector,
      PostgresCollector: the query tables and connection strings, over SqlText,
      which reads the column aliases and quoted names off the SQL texts.
    - PqTimeouts: fork/pq-timeouts (driver.go, dialer.go, conn.go).  PqDeadlines:
      the deadlines of its connections, from the PostgreSQL connection string to
      the network; [pq.ParseURL] is the class [PqURL].
    - CloudWatchCollector: pkg/collector/cloudwatch_collector.go.
    - Worker: the loop of [collectorWorker.run] over the results of collections.
    - Scheduler: the whole of pkg/scheduler/scheduler.go as a labelled transition
      system: [sys] is the shared state (registry, wait group, channel of stopped
      workers, contexts, goroutines with their program counters), [exec] performs
      one atomic action.  SchedulerInv: its invariant.  SchedulerProps: theorems.
      SchedulerLive: that every listed instance gets its collection.
    - System: the scheduler together with a broker, drivers, collectors, an emitter
      and the outside world: [perform] carries out one event by calling the
      component and handing its answer to [exec].  SystemProps: the contracts
      [driver_sound] and [SchedulerClients] between the scheduler and its
      components, and the theorems proved against them.  SystemMonitor: the
      program as an implementation of an abstract monitor.  Services: the contracts
      of the SQL drivers, the CloudWatch driver and the RDS broker, from the
      documented behaviour of the services ([ServicesSpec]).
    - Main: main.go, from the command line to the process group.  SystemMain: the
      program that main.go wires, end to end.
    - TestHelpers: the servers the integration tests use (testhelpers) and
      fakebrokerinfo.  TestConfig: testhelpers/config.go.

    Definitions keep the Go names; where two Go methods share a name the receiver
    is put in front ([sql_Collect], [cw_Collect], [tc_Read], [RDS_ListInstances]).

    ** What the theorems show

    - The program as a whole: every event is a step of an abstract monitor, which
      registers what the broker lists and delivers what registered workers
      collect; it never panics and is
      never stuck where the scheduler is not; it holds one database handle for
      each open SQL collector and no other; what reaches loggregator is exactly
      the collected metrics, each declared for a listed instance; it can always
      be shut down, and then every handle is closed.
    - Scheduler: at most one unfinished worker per driver and instance; the exact
      effect of a refresh; the registry refines an abstract set that only grows by
      what the broker lists and shrinks by finished workers; the wait group counts
      the workers; an instance that stays listed can always get a collection
      again within nine actions; a clean exit closes every collector; shutdown can
      always complete, and goes on for ever only if workers' timers keep firing;
      the emitted envelopes are exactly those of the successful collections, for
      listed instances only.
    - Worker: when it gives up, what it emits, its exponential back-off.
    - Main and Config: when the process starts and with what group, and how it
      exits otherwise; which documents are accepted and what that guarantees;
      defaults; no timer of the running program overflows; two workers per listed
      instance.
    - Collectors: what SQL and CloudWatch collections return on every branch,
      result sets are always closed, the query tables fit their declarations.
    - BrokerInfo, Metrics, Utils: functional behaviour, round trips of identifiers,
      the database behind each listed instance, envelope contents.
    - PqTimeouts, PqDeadlines: how a connection string is taken apart; with
      non-zero timeouts every read and write is performed under its deadline, with
      zero ones the connection is left as it is.
    - Test helpers: the mock locket server follows the mode a test asks for, the
      fake loggregator server receives what was emitted, the temporary
      configuration file is loaded back as it was built.
    - Some theorems state behaviour the code does not prevent: a drain timeout
      that only logs, [Stop] racing with a refresh, [rows.Err()] not consulted, a
      panic on a bare timeout setting or a datapoint without unit, a send on a
      closed channel, configuration settings that validation always rejects.

    ** Bounds and fuel

    The only fuel is that of [parse_value]: [parse_json] gives twice the length of
    the text plus two, and the lemma [parse_value_fuel] shows that more does not
    change any result.  Everything else is structurally recursive or a
    single-step function iterated by a list of labels.  64-bit products are
    computed with [mul64]; Go's implementation-specific result of converting an
    out-of-range float to [int] is the parameter [int_overflow].

    ** Concurrency

    One action of the scheduler is what a goroutine does between two points where
    it synchronises.  A refresh is one action, since only the main goroutine
    touches the registry; its contact with others is [worker.cancel()], which is
    idempotent and monotone.  The environment chooses the results of the broker,
    of [NewCollector] and of [Collect], the iteration order of maps, and which
    ready case a [select] takes.  In the file System the components give these
    results; a call is one event on the world [W], which may contain whatever the
    results depend on, and which may change between events.

    ** Not modelled

    Logging; wall-clock time other than as labels or arguments, so that a refresh
    may happen whenever the main loop runs and [timer.Reset] of its timer has no
    counterpart; the width of a worker's error count, which is at most one more
    than the configured retries; the interleaving of two collections, or of a
    collection and its emissions with others, inside the world (a collection is
    one event); the part of a batch that a blocked [BatchSender] of the fake
    loggregator server has already handed over; AWS sessions,
    the ifrit process group and the locket lock protocol, which are libraries;
    the connection pool of database/sql, TLS and gRPC, which are classes; the fake
    CloudWatch client under pkg/collector/mocks, which is generated; the Unicode
    tables behind [strings.ToLower], [ToUpper], [Fields] and [strconv.Quote] for
    non-ASCII text, and the rendering of floats and times, which are classes.

    ** Plan

    Done: every component above and their composition.  Possible extensions:
    timers and time-outs on an explicit clock, the process group with the locket
    runner, and fairness of the drain. *)

From Stdlib Require Export Ascii.
From stdpp Require Export base tactics numbers strings pretty sorting gmap fin_maps list.
From stdpp Require Import options.

(** Every definition that translates a Go function keeps the Go name. *)

Declare Scope go_scope.
Delimit Scope go_scope with go.
Open Scope string_scope.
Open Scope nat_scope.
Open Scope list_scope.

(** ** Outcomes of a Go call

    A Go function that returns a value and an [error] is modelled by
    [outcome A]: a value with a nil error, a non-nil error (the value that
    accompanies it is discarded by every caller in this program), or a run-time
    panic (nil dereference, index out of range, send on a closed channel). *)

Inductive outcome (A : Type) : Type :=
  | Ok (a : A)
  | Err (e : string)
  | Panic (msg : string).
Arguments Ok {A} a.
Arguments Err {A} e.
Arguments Panic {A} msg.

Global Instance outcome_eq_dec `{EqDecision A} : EqDecision (outcome A).
Proof. solve_decision. Defined.

Global Instance outcome_ret : MRet outcome := @Ok.
Global Instance outcome_bind : MBind outcome := λ A B f m,
  match m with
  | Ok a => f a
  | Err e => Err e
  | Panic p => Panic p
  end.
Global Instance outcome_fmap : FMap outcome := λ A B f m,
  match m with
  | Ok a => Ok (f a)
  | Err e => Err e
  | Panic p => Panic p
  end.

(** [of_option msg o] is Go's "comma ok" idiom turned into an error. *)
Definition of_option {A} (msg : string) (o : option A) : outcome A :=
  match o with Some a => Ok a | None => Err msg end.

Definition is_Ok {A} (m : outcome A) : bool :=
  match m with Ok _ => true | _ => false end.

(** Sequencing over a slice that stops at the first failing element. *)
Fixpoint outcome_mapM {A B} (f : A → outcome B) (l : list A) : outcome (list B) :=
  match l with
  | [] => Ok []
  | x :: l => y ← f x; ys ← outcome_mapM f l; Ok (y :: ys)
  end.

(** ** Machine integers: Go's [int] and [int64] on a 64-bit platform *)

Definition int64_min : Z := (-(2 ^ 63))%Z.
Definition int64_max : Z := (2 ^ 63 - 1)%Z.
Definition in_int64 (z : Z) : Prop := (int64_min ≤ z ≤ int64_max)%Z.

Global Instance in_int64_dec z : Decision (in_int64 z).
Proof. unfold in_int64. apply _. Defined.

(** Two's-complement wrap-around of an exact result. *)
Definition wrap64 (z : Z) : Z := ((z + 2 ^ 63) `mod` (2 ^ 64) - 2 ^ 63)%Z.

Definition mul64 (a b : Z) : Z := wrap64 (a * b).
Definition add64 (a b : Z) : Z := wrap64 (a + b).

Notation "a *ˢ b" := (mul64 a b) (at level 40, left associativity) : go_scope.
Notation "a +ˢ b" := (add64 a b) (at level 50, left associativity) : go_scope.

(** ** Tactics *)

(** Splits every [match]/[if decide] of the goal and simplifies. *)
Ltac go_cases := repeat (case_match || case_decide); simplify_eq/=.

(** Inverts a successful monadic computation [H : (x ← m; k x) = Ok r]. *)
Ltac inv_outcome H :=
  match type of H with
  | mbind _ ?m = Ok _ =>
      let E := fresh "E" in
      destruct m eqn:E; simpl in H; [|discriminate H|discriminate H]
  end.

Ltac unfold_int64 := unfold in_int64, int64_min, int64_max in *.

(** ** Hint databases

    [gocol] holds the resolution lemmas of the development, [goint] rewrites
    machine arithmetic whose result is in range. *)

Create HintDb gocol.
Create Rewrite HintDb goint.

(** ** Generic lemmas *)

Section outcome_lemmas.
Lemma outcome_bind_Ok {A B} (m : outcome A) (f : A → outcome B) b :
  (m ≫= f) = Ok b ↔ ∃ a, m = Ok a ∧ f a = Ok b.
Proof. destruct m; simpl; naive_solver. Qed.

Lemma outcome_bind_Err {A B} (m : outcome A) (f : A → outcome B) e :
  (m ≫= f) = Err e ↔ m = Err e ∨ ∃ a, m = Ok a ∧ f a = Err e.
Proof. destruct m; simpl; naive_solver. Qed.

Lemma of_option_Ok {A} msg (o : option A) a :
  of_option msg o = Ok a ↔ o = Some a.
Proof. destruct o; simpl; naive_solver. Qed.

Lemma outcome_mapM_Ok {A B} (f : A → outcome B) l k :
  outcome_mapM f l = Ok k ↔ Forall2 (λ x y, f x = Ok y) l k.
Proof.
  revert k; induction l as [|x l IH]; intros k; simpl.
  - split; [by intros [= <-]; constructor | by inversion 1].
  - split.
    + intros (y & Hy & (ys & Hys & [= <-])%outcome_bind_Ok)%outcome_bind_Ok.
      constructor; [done|]. by apply IH.
    + inversion 1 as [|? y ? ys Hy Hys]; subst.
      apply IH in Hys. rewrite Hy. simpl. by rewrite Hys.
Qed.

Lemma outcome_mapM_ext {A B} (f g : A → outcome B) l :
  Forall (λ x, f x = g x) l → outcome_mapM f l = outcome_mapM g l.
Proof. induction 1 as [|x l Hx _ IH]; simpl; [done|]. by rewrite Hx, IH. Qed.

Lemma outcome_mapM_map {A B} (f : A → outcome B) (g : A → B) l :
  Forall (λ x, f x = Ok (g x)) l → outcome_mapM f l = Ok (g <$> l).
Proof. induction 1 as [|x l Hx _ IH]; simpl; [done|]. by rewrite Hx; simpl; rewrite IH. Qed.

Lemma outcome_mapM_Err_inv {A B} (f : A → outcome B) l e :
  outcome_mapM f l = Err e → ∃ x, x ∈ l ∧ f x = Err e.
Proof.
  induction l as [|x l IH]; simpl; [done|].
  intros [Hx|(y & Hy & [Hl|(ys & _ & [=])]%outcome_bind_Err)]%outcome_bind_Err.
  - exists x. split; [left|done].
  - destruct (IH Hl) as (z & ? & ?). exists z. split; [by right|done].
Qed.
End outcome_lemmas.

Section int_lemmas.
Local Open Scope Z_scope.

Lemma wrap64_in_range z : in_int64 (wrap64 z).
Proof.
  unfold wrap64. unfold_int64.
  pose proof (Z.mod_pos_bound (z + 2 ^ 63) (2 ^ 64)). lia.
Qed.

Lemma wrap64_id z : in_int64 z → wrap64 z = z.
Proof. unfold wrap64. unfold_int64. intros. rewrite Z.mod_small; lia. Qed.

Lemma mul64_id a b : in_int64 (a * b) → mul64 a b = a * b.
Proof. apply wrap64_id. Qed.

Lemma add64_id a b : in_int64 (a + b) → add64 a b = a + b.
Proof. apply wrap64_id. Qed.

(** A product of bounded non-negative factors stays within the bound's
    product; the side conditions of [mul64_id] come from this lemma. *)
Lemma mul_bounded a b A B :
  0 ≤ a ≤ A → 0 ≤ b ≤ B → A * B ≤ int64_max → in_int64 (a * b).
Proof.
  intros Ha Hb HAB. unfold_int64.
  assert (0 ≤ a * b) by nia. assert (a * b ≤ A * B) by nia. lia.
Qed.
End int_lemmas.

#[export] Hint Resolve wrap64_in_range : gocol.
#[export] Hint Rewrite wrap64_id mul64_id add64_id using (unfold_int64; lia) : goint.

Section list_lemmas.
Context {A B : Type}.

(** Updating a map along a list: the last binding of a key wins. *)
Definition insert_all `{Countable K} (l : list (K * A)) (m : gmap K A) : gmap K A :=
  foldl (λ m p, <[p.1 := p.2]> m) m l.

Lemma lookup_insert_all_notin `{Countable K} (l : list (K * A)) (m : gmap K A) k :
  k ∉ l.*1 → insert_all l m !! k = m !! k.
Proof.
  unfold insert_all. revert m.
  induction l as [|[k' v] l IH]; intros m Hk; simpl in *; [done|].
  apply not_elem_of_cons in Hk as [??].
  rewrite IH by done. by rewrite lookup_insert_ne.
Qed.

Lemma lookup_insert_all_Some `{Countable K} (l : list (K * A)) (m : gmap K A) k v :
  insert_all l m !! k = Some v → (k, v) ∈ l ∨ m !! k = Some v.
Proof.
  unfold insert_all. revert m.
  induction l as [|[k' v'] l IH]; intros m; simpl; [by right|].
  intros [Hin|Hm]%IH; [by left; right|].
  apply lookup_insert_Some in Hm as [[-> ->]|[_ ?]]; [left; left|by right].
Qed.

Lemma lookup_insert_all_is_Some `{Countable K} (l : list (K * A)) (m : gmap K A) k :
  is_Some (insert_all l m !! k) ↔ k ∈ l.*1 ∨ is_Some (m !! k).
Proof.
  unfold insert_all. revert m.
  induction l as [|[k' v'] l IH]; intros m; simpl; [set_solver|].
  rewrite IH, lookup_insert_is_Some', elem_of_cons. naive_solver.
Qed.

Lemma insert_all_app `{Countable K} (l1 l2 : list (K * A)) (m : gmap K A) :
  insert_all (l1 ++ l2) m = insert_all l2 (insert_all l1 m).
Proof. apply foldl_app. Qed.

(** With distinct keys, the stored value is the listed one. *)
Lemma lookup_insert_all_NoDup `{Countable K} (l : list (K * A)) (m : gmap K A) k v :
  NoDup l.*1 → (k, v) ∈ l → insert_all l m !! k = Some v.
Proof.
  revert m. induction l as [|[k' v'] l IH]; intros m; simpl; [set_solver|].
  intros [Hk' Hnd]%NoDup_cons [[= -> ->]|Hin]%elem_of_cons.
  - unfold insert_all; simpl. fold (insert_all l (<[k':=v']> m)).
    by rewrite lookup_insert_all_notin, lookup_insert_eq.
  - by apply IH.
Qed.
End list_lemmas.

Lemma Forall_filter_sub {A} (P Q : A → Prop) `{∀ x, Decision (Q x)} (l : list A) :
  Forall P l → Forall P (filter Q l).
Proof. rewrite !Forall_forall. intros HP x [_ ?]%list_elem_of_filter. auto. Qed.

(** ** Transition systems *)

Section transition_lemmas.
Context {A : Type} (R : relation A).

(** Rule induction for an inductive invariant. *)
Lemma rtc_invariant (I : A → Prop) x y :
  I x → (∀ a b, I a → R a b → I b) → rtc R x y → I y.
Proof. intros Hx Hstep. induction 1; eauto. Qed.

(** A measure that every step of a "helpful" strategy decreases reaches 0. *)
Lemma rtc_measure (I : A → Prop) (μ : A → nat) x :
  I x →
  (∀ a, I a → μ a ≠ 0 → ∃ b, R a b ∧ I b ∧ μ b < μ a) →
  ∃ y, rtc R x y ∧ I y ∧ μ y = 0.
Proof.
  intros Hx Hstep. remember (μ x) as n eqn:Hn. revert x Hx Hn.
  induction (lt_wf n) as [n _ IH]; intros x Hx ->.
  destruct (decide (μ x = 0)) as [H0|H0]; [by exists x; eauto using rtc_refl|].
  destruct (Hstep x Hx H0) as (b & Hb & HIb & Hlt).
  destruct (IH (μ b) Hlt b HIb eq_refl) as (y & ? & ? & ?).
  exists y. split; [by eapply rtc_l|done].
Qed.
End transition_lemmas.

(** ** More on maps and lists *)

Section map_lemmas.
Context {A : Type}.

(** A key bound by a list of bindings to the same value. *)
Lemma lookup_insert_all_const `{Countable K} (l : list (K * A)) (m : gmap K A) k x :
  Forall (λ p, p.2 = x) l → k ∈ l.*1 → insert_all l m !! k = Some x.
Proof.
  intros Hl. revert m. induction Hl as [|[k' v] l Hv Hl IH]; intros m; simpl in *; [set_solver|].
  subst v. intros Hk. unfold insert_all. simpl. fold (insert_all l (<[k':=x]> m)).
  destruct (decide (k ∈ l.*1)) as [Hin|Hnin]; [by apply IH|].
  rewrite lookup_insert_all_notin by done.
  apply elem_of_cons in Hk as [->|?]; [by rewrite lookup_insert_eq|done].
Qed.

(** The value of the last entry with the key [k]. *)
Definition last_named `{EqDecision K} (k : K) (l : list (K * A)) : option A :=
  snd <$> last (filter (λ e, e.1 = k) l).

Lemma lookup_insert_all `{Countable K} (l : list (K * A)) k :
  insert_all l ∅ !! k = last_named k l.
Proof.
  unfold last_named. induction l as [|[k' v] l IH] using rev_ind; [done|].
  rewrite insert_all_app, filter_app, filter_cons, filter_nil. simpl.
  unfold insert_all at 1. simpl. case_decide as Hk; simpl in Hk.
  - subst k'. by rewrite last_snoc, lookup_insert_eq.
  - by rewrite app_nil_r, lookup_insert_ne.
Qed.

Lemma lookup_snoc_Some (l : list A) x i y :
  (l ++ [x]) !! i = Some y ↔ l !! i = Some y ∨ (i = length l ∧ y = x).
Proof.
  rewrite lookup_app_Some, list_lookup_singleton_Some. split.
  - intros [?|(? & ? & ->)]; [by left|right]. split; [lia|done].
  - intros [?|[-> ->]]; [by left|right]. split_and!; [lia|lia|done].
Qed.
End map_lemmas.
