(* ===== verification/GoStrings.v ===== *)
(** * Go's [strings] and [strconv] functions used by the collector

    Go strings are byte sequences, modelled by [string].  Each definition is the
    documented behaviour of the library routine at the arguments the program
    uses: one-byte separators and cut sets, base-10 numbers.  The case mappings,
    [Fields] and [Quote] take the ASCII fast path of the Go implementation when every
    byte is below 0x80; the Unicode tables they consult otherwise are the class
    [UnicodeTables]. *)

From S2P Require Import Prelude.
From stdpp Require Import options.

(** ** Byte predicates and mappings *)

Fixpoint string_all (p : ascii → bool) (s : string) : bool :=
  match s with
  | "" => true
  | String a s => p a && string_all p s
  end.

Fixpoint smap (f : ascii → ascii) (s : string) : string :=
  match s with
  | "" => ""
  | String a s => String (f a) (smap f s)
  end.

Definition is_ascii (a : ascii) : bool := (N_of_ascii a <? 128)%N.
Definition is_upper (a : ascii) : bool := ((65 <=? N_of_ascii a) && (N_of_ascii a <=? 90))%N.
Definition is_lower (a : ascii) : bool := ((97 <=? N_of_ascii a) && (N_of_ascii a <=? 122))%N.

Definition lower (a : ascii) : ascii :=
  if is_upper a then ascii_of_N (N_of_ascii a + 32) else a.
Definition upper (a : ascii) : ascii :=
  if is_lower a then ascii_of_N (N_of_ascii a - 32) else a.

(** The Unicode-aware paths, taken only for strings with a byte above 0x7f. *)
Class UnicodeTables := {
  unicode_ToLower : string → string;
  unicode_ToUpper : string → string;
  unicode_Fields : string → list string;
  unicode_Quote : string → string;
}.

Definition ToLower `{UnicodeTables} (s : string) : string :=
  if string_all is_ascii s then smap lower s else unicode_ToLower s.
Definition ToUpper `{UnicodeTables} (s : string) : string :=
  if string_all is_ascii s then smap upper s else unicode_ToUpper s.

(** [strconv.Quote], which is also the verb [%#v] for strings: double quotes around
    the text, with Go's escapes for quotes, backslashes and control bytes. *)
Definition lower_hex (n : N) : ascii :=
  ascii_of_N (if decide (n < 10)%N then 48 + n else 87 + n)%N.

Definition quote_byte (a : ascii) : string :=
  let esc c := String (ascii_of_N 92) (String c "") in
  match N_of_ascii a with
  | 7 => esc "a"%char | 8 => esc "b"%char | 9 => esc "t"%char | 10 => esc "n"%char
  | 11 => esc "v"%char | 12 => esc "f"%char | 13 => esc "r"%char
  | 34 => esc a | 92 => esc a
  | n => if decide (n < 32 ∨ n = 127)%N
         then esc "x"%char +:+ String (lower_hex (n / 16)) (String (lower_hex (n mod 16)) "")
         else String a ""
  end%N.

Fixpoint quote_bytes (s : string) : string :=
  match s with
  | "" => ""
  | String a s => quote_byte a +:+ quote_bytes s
  end.

Definition Quote `{UnicodeTables} (s : string) : string :=
  if string_all is_ascii s
  then String (ascii_of_N 34) (quote_bytes s +:+ String (ascii_of_N 34) "")
  else unicode_Quote s.

(** [strings.Replace(s, old, new, -1)] for one-byte [old] and [new]. *)
Definition Replace (s : string) (old new : ascii) : string :=
  smap (λ a, if decide (a = old) then new else a) s.

(** ** Prefixes *)

Fixpoint strip_prefix (p s : string) : option string :=
  match p, s with
  | "", _ => Some s
  | String a p, String b s => if decide (a = b) then strip_prefix p s else None
  | String _ _, "" => None
  end.

Definition HasPrefix (s p : string) : bool := bool_decide (is_Some (strip_prefix p s)).
Definition TrimPrefix (s p : string) : string := default s (strip_prefix p s).

(** ** Fields, Split, Trim, Join *)

Definition flush (cur : string) : list string :=
  if decide (cur = "") then [] else [cur].

Fixpoint fields_go (cur s : string) : list string :=
  match s with
  | "" => flush cur
  | String a s =>
      if Ascii.is_space a then flush cur ++ fields_go "" s
      else fields_go (cur +:+ String a "") s
  end.

Definition Fields `{UnicodeTables} (s : string) : list string :=
  if string_all is_ascii s then fields_go "" s else unicode_Fields s.

Fixpoint split_go (sep : ascii) (cur s : string) : list string :=
  match s with
  | "" => [cur]
  | String a s =>
      if decide (a = sep) then cur :: split_go sep "" s
      else split_go sep (cur +:+ String a "") s
  end.
Definition Split (s : string) (sep : ascii) : list string := split_go sep "" s.

Fixpoint trim_left (c : ascii) (s : string) : string :=
  match s with
  | "" => ""
  | String a s' => if decide (a = c) then trim_left c s' else s
  end.
Fixpoint trim_right (c : ascii) (s : string) : string :=
  match s with
  | "" => ""
  | String a s =>
      match trim_right c s with
      | "" => if decide (a = c) then "" else String a ""
      | t => String a t
      end
  end.
Definition Trim (s : string) (c : ascii) : string := trim_right c (trim_left c s).

Fixpoint Join (l : list string) (sep : string) : string :=
  match l with
  | [] => ""
  | [x] => x
  | x :: l => x +:+ sep +:+ Join l sep
  end.

(** What is before and after the first [c]. *)
Fixpoint cut (c : ascii) (s : string) : option (string * string) :=
  match s with
  | "" => None
  | String a s =>
      if decide (a = c) then Some ("", s)
      else '(l, r) ← cut c s; Some (String a l, r)
  end.

(** ** Decimal numbers *)

Fixpoint digits_val (acc : Z) (s : string) : option Z :=
  match s with
  | "" => Some acc
  | String a s =>
      d ← Ascii.is_nat a; digits_val (10 * acc + Z.of_nat d) s
  end.

Definition unsigned_val (s : string) : option Z :=
  match s with "" => None | _ => digits_val 0 s end.

Definition signed_val (s : string) : option Z :=
  match s with
  | String "-" s => Z.opp <$> unsigned_val s
  | String "+" s => unsigned_val s
  | _ => unsigned_val s
  end.

(** [strconv.Atoi]: [None] stands for a syntax or a range error. *)
Definition Atoi (s : string) : option Z :=
  z ← signed_val s; if decide (in_int64 z) then Some z else None.

(** The [%d] verb and [strconv.FormatInt(_, 10)]. *)
Definition Itoa (z : Z) : string := pretty z.

(** ** Lemmas *)

Section string_lemmas.
Lemma sapp_nil_r s : s +:+ "" = s.
Proof. induction s as [|a s IH]; [done|]. unfold String.app in *. simpl. by rewrite IH. Qed.

Lemma sapp_assoc s1 s2 s3 : s1 +:+ (s2 +:+ s3) = (s1 +:+ s2) +:+ s3.
Proof. induction s1 as [|a s IH]; [done|]. unfold String.app in *. simpl. by rewrite IH. Qed.

Lemma sapp_cons a s t : String a s +:+ t = String a (s +:+ t).
Proof. done. Qed.

Lemma sapp_nil_inv s t : s +:+ t = "" → s = "" ∧ t = "".
Proof. destruct s; [done|]. by rewrite sapp_cons. Qed.

Lemma string_all_app p s t :
  string_all p (s +:+ t) = string_all p s && string_all p t.
Proof.
  induction s as [|a s IH]; [done|].
  rewrite sapp_cons. simpl. by rewrite IH, andb_assoc.
Qed.

Lemma string_all_impl (p q : ascii → bool) s :
  (∀ a, p a = true → q a = true) → string_all p s = true → string_all q s = true.
Proof.
  intros Hpq. induction s as [|a s IH]; simpl; [done|].
  intros [Ha Hs]%andb_true_iff. by rewrite (Hpq _ Ha), IH.
Qed.

Lemma smap_app f s t : smap f (s +:+ t) = smap f s +:+ smap f t.
Proof. induction s as [|a s IH]; [done|]. rewrite !sapp_cons. simpl. by rewrite IH. Qed.

Lemma smap_id f s : string_all (λ a, bool_decide (f a = a)) s = true → smap f s = s.
Proof.
  induction s as [|a s IH]; simpl; [done|].
  intros [Ha%bool_decide_eq_true Hs]%andb_true_iff. by rewrite Ha, IH.
Qed.

Lemma smap_all (p : ascii → bool) f s :
  (∀ a, p (f a) = true) → string_all p (smap f s) = true.
Proof. intros Hp. induction s as [|a s IH]; simpl; [done|]. by rewrite Hp, IH. Qed.

Lemma smap_smap f g s : smap f (smap g s) = smap (f ∘ g) s.
Proof. induction s as [|a s IH]; simpl; [done|]. by rewrite IH. Qed.

Lemma smap_ext f g s : (∀ a, f a = g a) → smap f s = smap g s.
Proof. intros Hfg. induction s as [|a s IH]; simpl; [done|]. by rewrite Hfg, IH. Qed.
End string_lemmas.

(** "[c] does not occur in [s]". *)
Definition lacks (c : ascii) (s : string) : bool := string_all (λ a, bool_decide (a ≠ c)) s.

Section replace_lemmas.
Lemma Replace_app s t old new :
  Replace (s +:+ t) old new = Replace s old new +:+ Replace t old new.
Proof. apply smap_app. Qed.

Lemma Replace_id s old new : lacks old s = true → Replace s old new = s.
Proof.
  intros Hs. apply smap_id. eapply string_all_impl, Hs.
  intros a Ha%bool_decide_eq_true. apply bool_decide_eq_true. by rewrite decide_False.
Qed.

Lemma Replace_lacks s old new : old ≠ new → lacks old (Replace s old new) = true.
Proof.
  intros Hne. apply smap_all. intros a. apply bool_decide_eq_true.
  case_decide; congruence.
Qed.

Lemma Replace_idemp s old new :
  old ≠ new → Replace (Replace s old new) old new = Replace s old new.
Proof. intros Hne. by apply Replace_id, Replace_lacks. Qed.
End replace_lemmas.

Section prefix_lemmas.
Lemma strip_prefix_Some p s t : strip_prefix p s = Some t ↔ s = p +:+ t.
Proof.
  revert s. induction p as [|a p IH]; intros s; simpl.
  - split; [by intros [= ->]|by intros ->].
  - destruct s as [|b s]; [split; [done|by rewrite sapp_cons]|].
    rewrite sapp_cons. case_decide; [rewrite IH; naive_solver|naive_solver].
Qed.

Lemma strip_prefix_app p s : strip_prefix p (p +:+ s) = Some s.
Proof. by apply strip_prefix_Some. Qed.

Lemma HasPrefix_true s p : HasPrefix s p = true ↔ ∃ t, s = p +:+ t.
Proof.
  unfold HasPrefix. rewrite bool_decide_eq_true. unfold is_Some.
  setoid_rewrite strip_prefix_Some. done.
Qed.

Lemma TrimPrefix_app p s : TrimPrefix (p +:+ s) p = s.
Proof. unfold TrimPrefix. by rewrite strip_prefix_app. Qed.

Lemma TrimPrefix_no s p : HasPrefix s p = false → TrimPrefix s p = s.
Proof.
  unfold HasPrefix, TrimPrefix. rewrite bool_decide_eq_false, <-eq_None_not_Some.
  by intros ->.
Qed.
End prefix_lemmas.

Section fields_lemmas.
Definition no_space (s : string) : bool := string_all (λ a, negb (Ascii.is_space a)) s.

(** A token that [Fields] returns as it is: non-empty, without white space. *)
Definition token (s : string) : bool := no_space s && bool_decide (s ≠ "").

Lemma fields_go_token cur t s :
  no_space t = true → fields_go cur (t +:+ s) = fields_go (cur +:+ t) s.
Proof.
  revert cur. induction t as [|a t IH]; intros cur Ht.
  - by rewrite sapp_nil_r.
  - rewrite sapp_cons. unfold no_space in Ht. simpl in Ht.
    apply andb_true_iff in Ht as [Ha%negb_true_iff Ht]. simpl.
    rewrite Ha, IH by done. by rewrite <-sapp_assoc.
Qed.

Lemma flush_token t : token t = true → flush t = [t].
Proof.
  unfold token, flush. intros [_ Ht%bool_decide_eq_true]%andb_true_iff.
  by rewrite decide_False.
Qed.

Lemma token_no_space t : token t = true → no_space t = true.
Proof. by intros [? _]%andb_true_iff. Qed.

Lemma fields_go_Join l :
  Forall (λ t, token t = true) l → fields_go "" (Join l " ") = l.
Proof.
  induction 1 as [|t l Ht Hl IH]; [done|].
  destruct l as [|t' l].
  - simpl. rewrite <-(sapp_nil_r t) at 1.
    rewrite fields_go_token by eauto using token_no_space. by apply flush_token.
  - change (Join (t :: t' :: l) " ") with (t +:+ " " +:+ Join (t' :: l) " ").
    rewrite fields_go_token by eauto using token_no_space.
    change (" " +:+ Join (t' :: l) " ") with (String " " (Join (t' :: l) " ")).
    cbn [fields_go Ascii.is_space]. rewrite IH.
    change ("" +:+ t) with t. by rewrite flush_token.
Qed.

Lemma split_go_lacks sep cur s t :
  lacks sep s = true →
  split_go sep cur (s +:+ String sep t) = (cur +:+ s) :: split_go sep "" t.
Proof.
  revert cur. induction s as [|a s IH]; intros cur Hs.
  - change ("" +:+ String sep t) with (String sep t). simpl.
    rewrite decide_True by done. by rewrite sapp_nil_r.
  - rewrite sapp_cons. unfold lacks in Hs. simpl in Hs.
    apply andb_true_iff in Hs as [Ha%bool_decide_eq_true Hs]. simpl.
    rewrite decide_False, IH by done. by rewrite <-sapp_assoc.
Qed.

Lemma split_go_lacks_nil sep cur s :
  lacks sep s = true → split_go sep cur s = [cur +:+ s].
Proof.
  revert cur. induction s as [|a s IH]; intros cur Hs; simpl.
  - by rewrite sapp_nil_r.
  - unfold lacks in Hs. simpl in Hs.
    apply andb_true_iff in Hs as [Ha%bool_decide_eq_true Hs].
    rewrite decide_False, IH by done. by rewrite <-sapp_assoc.
Qed.

Lemma Split_pair sep k v :
  lacks sep k = true → lacks sep v = true → Split (k +:+ String sep v) sep = [k; v].
Proof.
  intros Hk Hv. unfold Split. rewrite split_go_lacks by done.
  by rewrite split_go_lacks_nil.
Qed.

Lemma cut_lacks c s t : lacks c s = true → cut c (s +:+ String c t) = Some (s, t).
Proof.
  induction s as [|a s IH]; simpl; [by rewrite decide_True|].
  unfold lacks. simpl. intros [Ha%bool_decide_eq_true Hs]%andb_true_iff.
  rewrite decide_False by done. by rewrite (IH Hs).
Qed.

Lemma Split_single sep k : lacks sep k = true → Split k sep = [k].
Proof. intros Hk. unfold Split. by rewrite split_go_lacks_nil. Qed.

Lemma Split_head sep s : ∃ h tl, Split s sep = h :: tl.
Proof.
  unfold Split. generalize "" as cur.
  induction s as [|a s IH]; intros cur; simpl; [eauto|]. case_decide; eauto.
Qed.

Lemma trim_left_lacks c s : lacks c s = true → trim_left c s = s.
Proof.
  destruct s as [|a s]; [done|]. unfold lacks. simpl.
  intros [Ha%bool_decide_eq_true _]%andb_true_iff. by rewrite decide_False.
Qed.

Lemma trim_right_lacks c s : lacks c s = true → trim_right c s = s.
Proof.
  induction s as [|a s IH]; [done|]. unfold lacks. simpl.
  intros [Ha%bool_decide_eq_true Hs]%andb_true_iff. rewrite IH by done.
  destruct s; [by rewrite decide_False|done].
Qed.

Lemma trim_right_snoc c s : lacks c s = true → trim_right c (s +:+ String c "") = s.
Proof.
  induction s as [|a s IH].
  - intros _. change ("" +:+ String c "") with (String c ""). simpl. by rewrite decide_True.
  - unfold lacks. cbn [string_all].
    intros [Ha%bool_decide_eq_true Hs]%andb_true_iff.
    rewrite sapp_cons. cbn [trim_right]. rewrite IH by done.
    destruct s; [by rewrite decide_False|done].
Qed.

(** Trimming the quotes of a quoted value gives the value. *)
Lemma Trim_quoted c s :
  lacks c s = true → Trim (String c (s +:+ String c "")) c = s.
Proof.
  intros Hs. unfold Trim. cbn [trim_left]. rewrite decide_True by done.
  destruct s as [|a s].
  - change ("" +:+ String c "") with (String c ""). simpl. by rewrite decide_True.
  - rewrite sapp_cons. assert (a ≠ c) as Ha.
    { unfold lacks in Hs. simpl in Hs. by apply andb_true_iff in Hs as [?%bool_decide_eq_true _]. }
    cbn [trim_left]. rewrite decide_False by done.
    rewrite <-sapp_cons. by apply trim_right_snoc.
Qed.

Lemma Trim_lacks c s : lacks c s = true → Trim s c = s.
Proof. intros Hs. unfold Trim. by rewrite trim_left_lacks, trim_right_lacks. Qed.
End fields_lemmas.

Section number_lemmas.
Lemma is_nat_pretty_char n :
  (n < 10)%N → Ascii.is_nat (pretty_N_char n) = Some (N.to_nat n).
Proof.
  intros Hn.
  assert (n = 0 ∨ n = 1 ∨ n = 2 ∨ n = 3 ∨ n = 4 ∨ n = 5 ∨ n = 6
        ∨ n = 7 ∨ n = 8 ∨ n = 9)%N by lia.
  by destruct_or!; subst.
Qed.

(** Reading the digits that [pretty] wrote in front of [s]. *)
Lemma digits_val_pretty n s :
  digits_val 0 (pretty_N_go n s) = digits_val (Z.of_N n) s.
Proof.
  revert s. induction (N.lt_wf_0 n) as [n _ IH]; intros s.
  destruct (decide (n = 0)%N) as [->|Hn]; [done|].
  rewrite pretty_N_go_step by lia. rewrite IH by (apply N.div_lt; lia). simpl.
  rewrite is_nat_pretty_char by (by apply N.mod_lt). simpl. f_equal.
  pose proof (N.div_mod n 10 ltac:(lia)). lia.
Qed.

Lemma pretty_N_go_cons n s : (0 < n)%N → ∃ d t, (d < 10)%N ∧ pretty_N_go n s = String (pretty_N_char d) t.
Proof.
  revert s. induction (N.lt_wf_0 n) as [n _ IH]; intros s Hn.
  rewrite pretty_N_go_step by done.
  destruct (decide (n `div` 10 = 0)%N) as [->|Hd].
  - rewrite pretty_N_go_0. eexists _, _. split; [|done]. by apply N.mod_lt.
  - apply IH; [by apply N.div_lt|by apply N.neq_0_lt_0].
Qed.

Lemma unsigned_val_pretty (p : positive) :
  unsigned_val (pretty p) = Some (Z.pos p).
Proof.
  unfold pretty, pretty_positive, pretty, pretty_N. rewrite decide_False by done.
  unfold unsigned_val.
  destruct (pretty_N_go_cons (N.pos p) "") as (d & t & _ & Heq); [lia|].
  rewrite Heq, <-Heq. by rewrite digits_val_pretty.
Qed.

Lemma signed_val_Itoa z : signed_val (Itoa z) = Some z.
Proof.
  unfold Itoa. destruct z as [|p|p].
  - done.
  - change (pretty (Z.pos p)) with (pretty p).
    rewrite <-unsigned_val_pretty.
    unfold pretty, pretty_positive, pretty, pretty_N. rewrite decide_False by done.
    destruct (pretty_N_go_cons (N.pos p) "") as (d & t & Hd & ->); [lia|].
    assert (d = 0 ∨ d = 1 ∨ d = 2 ∨ d = 3 ∨ d = 4 ∨ d = 5 ∨ d = 6
        ∨ d = 7 ∨ d = 8 ∨ d = 9)%N by lia.
    by destruct_or!; subst.
  - change (pretty (Z.neg p)) with (String "-" (pretty p)).
    cbn [signed_val]. by rewrite unsigned_val_pretty.
Qed.

Lemma Atoi_Itoa z : in_int64 z → Atoi (Itoa z) = Some z.
Proof. intros Hz. unfold Atoi. rewrite signed_val_Itoa. simpl. by rewrite decide_True. Qed.

(** [Atoi] never returns a value outside the range of [int]. *)
Lemma Atoi_range s z : Atoi s = Some z → in_int64 z.
Proof.
  unfold Atoi. intros (w & _ & Hw)%bind_Some. case_decide; naive_solver.
Qed.
End number_lemmas.

#[export] Hint Resolve Atoi_range : gocol.

(** Tables that leave non-ASCII strings alone, for concrete evaluations. *)
Definition ascii_tables : UnicodeTables := {|
  unicode_ToLower s := s;
  unicode_ToUpper s := s;
  unicode_Fields s := fields_go "" s;
  unicode_Quote s := s;
|}.
