(* ===== verification/GoPath.v ===== *)
(** * Go's [path] functions used by the collector's helpers

    [Clean] and [Join] of the standard package, as documented: [Clean] works on the
    slash-separated elements from left to right, with the elements kept so far on
    a stack, last element first. *)

From S2P Require Import Prelude GoStrings.
From stdpp Require Import options.

(** ** Definitions *)

Definition clean_step (rooted : bool) (stack : list string) (c : string) : list string :=
  if decide (c = "" ∨ c = ".") then stack
  else if decide (c = "..") then
    match stack with
    | [] => if rooted then [] else [".."]
    | t :: rest => if decide (t = "..") then ".." :: stack else rest
    end
  else c :: stack.

Definition clean_stack (p : string) : list string :=
  foldl (clean_step (HasPrefix p "/")) [] (Split p "/").

Definition Clean (p : string) : string :=
  if decide (p = "") then "."
  else
    let out := Join (rev (clean_stack p)) "/" in
    if HasPrefix p "/" then "/" +:+ out else if decide (out = "") then "." else out.

Definition path_buf (elem : list string) : string :=
  foldl (λ buf e, if decide (buf = "") then e else buf +:+ "/" +:+ e) "" elem.

Definition path_Join (elem : list string) : string :=
  if decide (Forall (λ e, e = "") elem) then "" else Clean (path_buf elem).

Example Clean_example :
  Clean <$> [""; "/"; "a//b/./c/"; "/../a"; "../../x"; "a/.."; "/a/b/../../.."] =
  ["."; "/"; "a/b/c"; "/a"; "../../x"; "."; "/"].
Proof. reflexivity. Qed.

(** ** Lemmas *)

(** A file name: one element, neither empty nor special. *)
Definition file_name (f : string) : Prop := lacks "/" f = true ∧ f ≠ "" ∧ f ≠ "." ∧ f ≠ "..".

Global Instance file_name_dec f : Decision (file_name f).
Proof. unfold file_name. apply _. Defined.

Lemma split_go_app sep cur s t :
  split_go sep cur (s +:+ String sep t) = split_go sep cur s ++ split_go sep "" t.
Proof.
  revert cur. induction s as [|a s IH]; intros cur; simpl.
  - by rewrite decide_True.
  - case_decide; [|apply IH]. rewrite IH. done.
Qed.

Lemma Split_app sep s t : Split (s +:+ String sep t) sep = Split s sep ++ Split t sep.
Proof. apply split_go_app. Qed.

Lemma Join_snoc l x sep : l ≠ [] → Join (l ++ [x]) sep = Join l sep +:+ sep +:+ x.
Proof.
  induction l as [|y l IH]; intros Hl; [done|]. destruct l as [|z l]; [done|].
  change (y +:+ sep +:+ Join ((z :: l) ++ [x]) sep = (y +:+ sep +:+ Join (z :: l) sep) +:+ sep +:+ x).
  rewrite IH by done. by rewrite !sapp_assoc.
Qed.

(** Every element that is kept is not empty. *)
Lemma clean_step_nonempty rooted stack c :
  Forall (λ e, e ≠ "") stack → Forall (λ e, e ≠ "") (clean_step rooted stack c).
Proof.
  intros Hs. unfold clean_step. repeat case_decide; [done|..].
  - destruct stack as [|t rest]; [destruct rooted; repeat constructor; done|].
    case_decide; [by constructor|]. by apply Forall_cons in Hs as [_ ?].
  - constructor; [naive_solver|done].
Qed.

Lemma clean_stack_nonempty p : Forall (λ e, e ≠ "") (clean_stack p).
Proof.
  unfold clean_stack. generalize (HasPrefix p "/") as rooted. intros rooted.
  assert (Forall (λ e : string, e ≠ "") []) as Hnil by constructor. revert Hnil.
  generalize (@nil string) as stack.
  induction (Split p "/") as [|c l IH]; intros stack Hs; [done|]. apply IH, clean_step_nonempty, Hs.
Qed.

Lemma Join_nonempty l : Forall (λ e, e ≠ "") l → l ≠ [] → Join l "/" ≠ "".
Proof.
  intros Hl Hne. destruct Hl as [|x l Hx _]; [done|]. destruct l; [done|].
  change (Join (x :: s :: l) "/") with (x +:+ "/" +:+ Join (s :: l) "/").
  by intros [-> _]%sapp_nil_inv.
Qed.

Lemma clean_stack_file d f :
  d ≠ "" → file_name f → clean_stack (d +:+ "/" +:+ f) = f :: clean_stack d.
Proof.
  intros Hd (Hl & H1 & H2 & H3). unfold clean_stack.
  assert (HasPrefix (d +:+ "/" +:+ f) "/" = HasPrefix d "/") as ->.
  { destruct d as [|a d]; [done|]. unfold HasPrefix. simpl. by case_decide. }
  change ("/" +:+ f) with (String "/" f).
  rewrite Split_app, (Split_single "/" f) by done. rewrite foldl_app. simpl.
  unfold clean_step at 1. by rewrite !decide_False by naive_solver.
Qed.

(** Joining a directory and a file name: the elements of the cleaned directory,
    then the file. *)
Lemma path_Join_file d f :
  file_name f →
  path_Join [d; f] =
    (if HasPrefix d "/" then "/" else "") +:+ Join (rev (clean_stack d) ++ [f]) "/".
Proof.
  intros Hf. pose proof Hf as (Hl & H1 & H2 & H3).
  unfold path_Join. rewrite decide_False; [|rewrite !Forall_cons; naive_solver].
  assert (path_buf [d; f] = if decide (d = "") then f else d +:+ "/" +:+ f) as -> by reflexivity.
  assert (∀ p, p ≠ "" → HasPrefix p "/" = HasPrefix d "/" → clean_stack p = f :: clean_stack d →
    Clean p = (if HasPrefix d "/" then "/" else "") +:+ Join (rev (clean_stack d) ++ [f]) "/") as Hgo.
  { intros p Hp Hpre Hst. unfold Clean. rewrite decide_False by done. rewrite Hpre, Hst. cbn [rev].
    destruct (HasPrefix d "/"); [done|]. rewrite decide_False; [done|].
    apply Join_nonempty; [|by destruct (rev (clean_stack d))].
    apply Forall_app. split; [apply Forall_rev, clean_stack_nonempty|by repeat constructor]. }
  case_decide as Hd; apply Hgo; clear Hgo.
  - done.
  - subst d. destruct f as [|a f]; [done|]. unfold HasPrefix, lacks in *. simpl in *.
    apply andb_true_iff in Hl as [Ha%bool_decide_eq_true _]. by rewrite decide_False.
  - subst d. unfold clean_stack. rewrite Split_single by done. simpl. unfold clean_step.
    by rewrite !decide_False by naive_solver.
  - by intros [? _]%sapp_nil_inv.
  - destruct d as [|a d]; [done|]. unfold HasPrefix. simpl. by case_decide.
  - by apply clean_stack_file.
Qed.

Lemma path_Join_file_nonempty d f : file_name f → path_Join [d; f] ≠ "".
Proof.
  intros Hf. rewrite path_Join_file by done. intros [_ HJ]%sapp_nil_inv. revert HJ.
  apply Join_nonempty; [|by destruct (rev (clean_stack d))].
  apply Forall_app. split; [apply Forall_rev, clean_stack_nonempty|].
  repeat constructor. by destruct Hf as (_ & ? & _).
Qed.

(** Bytes: cleaning and joining only drop and insert slashes and dots. *)
Section bytes.
Context (P : ascii → bool) (Hslash : P "/"%char = true) (Hdot : P "."%char = true).

Lemma Split_all sep s : string_all P s = true → Forall (λ e, string_all P e = true) (Split s sep).
Proof.
  unfold Split. assert (string_all P "" = true) as Hcur by done. revert Hcur.
  generalize "" as cur. induction s as [|a s IH]; intros cur Hcur; simpl; [by repeat constructor|].
  intros [Ha Hs]%andb_true_iff. case_decide; [by constructor; auto|].
  apply IH; [|done]. rewrite string_all_app, Hcur. simpl. by rewrite Ha.
Qed.

Lemma Join_all l : Forall (λ e, string_all P e = true) l → string_all P (Join l "/") = true.
Proof using Hslash.
  induction 1 as [|x l Hx Hl IH]; [done|]. destruct l as [|y l]; [done|].
  change (Join (x :: y :: l) "/") with (x +:+ "/" +:+ Join (y :: l) "/").
  rewrite !string_all_app, Hx, IH. simpl. by rewrite Hslash.
Qed.

Lemma clean_stack_all p : string_all P p = true → Forall (λ e, string_all P e = true) (clean_stack p).
Proof using Hdot.
  intros Hp%(Split_all "/"). unfold clean_stack. generalize (HasPrefix p "/") as rooted. intros rooted.
  assert (Forall (λ e : string, string_all P e = true) []) as Hnil by constructor. revert Hnil.
  generalize (@nil string) as stack.
  induction Hp as [|c l Hc _ IH]; intros stack Hs; [done|]. apply IH. unfold clean_step.
  repeat case_decide; [done|..|by constructor].
  assert (string_all P ".." = true) as Hdd by (simpl; by rewrite Hdot).
  destruct stack as [|t rest]; [destruct rooted; by repeat constructor|].
  case_decide; [by constructor|]. by apply Forall_cons in Hs as [_ ?].
Qed.

Lemma path_Join_file_all d f :
  file_name f → string_all P d = true → string_all P f = true → string_all P (path_Join [d; f]) = true.
Proof using Hslash Hdot.
  intros Hf Hd Hp. rewrite path_Join_file, string_all_app by done. apply andb_true_iff. split.
  - case_match; [|done]. simpl. by rewrite Hslash.
  - apply Join_all, Forall_app. split; [by apply Forall_rev, clean_stack_all|by repeat constructor].
Qed.
End bytes.
