(* ===== verification/GoFlags.v ===== *)
(** * Go's [flag] package: string and boolean flags

    [Parse] of the default flag set, which exits on an error: status 0 after the
    help message, 2 otherwise.  A flag set maps the names of the defined flags to
    their current values, which at first are the defaults. *)

From S2P Require Import Prelude GoStrings.
From stdpp Require Import options.

(** ** Definitions *)

Inductive flag_value :=
  | StringFlag (s : string)
  | BoolFlag (b : bool).
Global Instance flag_value_eq_dec : EqDecision flag_value.
Proof. solve_decision. Defined.

Abbreviation FlagSet := (gmap string flag_value).

Inductive flag_error :=
  | BadSyntax (arg : string)
  | NotDefined (name : string)
  | NeedsArgument (name : string)
  | InvalidBool (value name : string)
  | ErrHelp.

(** [strconv.ParseBool] *)
Definition ParseBool (s : string) : option bool :=
  if decide (s ∈ ["1"; "t"; "T"; "true"; "TRUE"; "True"]) then Some true
  else if decide (s ∈ ["0"; "f"; "F"; "false"; "FALSE"; "False"]) then Some false
  else None.

(** The name and the value after an equals sign, which cannot be the first byte. *)
Definition name_value (arg : string) : string * option string :=
  match arg with
  | "" => ("", None)
  | String a rest =>
      match cut "=" rest with
      | Some (l, r) => (String a l, Some r)
      | None => (arg, None)
      end
  end.

Inductive argument :=
  | NonFlag                                        (** the first non-flag argument *)
  | Terminator                                     (** [--] *)
  | Malformed
  | Flag (name : string) (value : option string).

Definition classify (s : string) : argument :=
  match s with
  | String "-" (String "-" "") => Terminator
  | String "-" (String a rest) =>
      let name := if decide (a = "-"%char) then rest else String a rest in
      match name with
      | "" | String "-" _ | String "=" _ => Malformed
      | _ => let '(name, value) := name_value name in Flag name value
      end
  | _ => NonFlag
  end.

Definition set_flag (name value : string) (fs : FlagSet) : flag_error + FlagSet :=
  match fs !! name with
  | None => inl (NotDefined name)
  | Some (StringFlag _) => inr (<[name := StringFlag value]> fs)
  | Some (BoolFlag _) =>
      match ParseBool value with
      | Some b => inr (<[name := BoolFlag b]> fs)
      | None => inl (InvalidBool value name)
      end
  end.

(** The flags after parsing; the arguments left over are not used. *)
Fixpoint Parse (fs : FlagSet) (args : list string) : flag_error + FlagSet :=
  match args with
  | [] => inr fs
  | s :: args =>
      match classify s with
      | NonFlag | Terminator => inr fs
      | Malformed => inl (BadSyntax s)
      | Flag name value =>
          match fs !! name, value with
          | None, _ =>
              if decide (name = "help" ∨ name = "h") then inl ErrHelp else inl (NotDefined name)
          | Some (BoolFlag _), None =>
              match set_flag name "true" fs with inl e => inl e | inr fs => Parse fs args end
          | Some _, Some value =>
              match set_flag name value fs with inl e => inl e | inr fs => Parse fs args end
          | Some (StringFlag _), None =>
              match args with
              | [] => inl (NeedsArgument name)
              | value :: args =>
                  match set_flag name value fs with inl e => inl e | inr fs => Parse fs args end
              end
          end
      end
  end.

(** The exit status of [flag.ExitOnError]. *)
Definition flag_status (e : flag_error) : Z := match e with ErrHelp => 0 | _ => 2 end.

Definition string_flag (name : string) (fs : FlagSet) : string :=
  match fs !! name with Some (StringFlag s) => s | _ => "" end.
Definition bool_flag (name : string) (fs : FlagSet) : bool :=
  match fs !! name with Some (BoolFlag b) => b | _ => false end.

(** ** Lemmas *)

(** The argument [-name=value]. *)
Definition flag_arg (name value : string) : string := "-" +:+ name +:+ "=" +:+ value.

(** A name that can be written on a command line. *)
Definition flag_name (name : string) : bool :=
  match name with
  | "" | String "-" _ => false
  | _ => lacks "=" name
  end.

Lemma classify_flag_arg name value :
  flag_name name = true → classify (flag_arg name value) = Flag name (Some value).
Proof.
  destruct name as [|a name]; [done|]. unfold flag_name. intros Hn.
  assert (a ≠ "-"%char ∧ lacks "=" (String a name) = true) as [Ha Hl].
  { destruct (decide (a = "-"%char)) as [->|?]; [done|]. split; [done|].
    by destruct a as [[] [] [] [] [] [] [] []]. }
  pose proof Hl as [Heq%bool_decide_eq_true Hl']%andb_true_iff.
  change (flag_arg (String a name) value) with (String "-" (String a (name +:+ String "=" value))).
  assert (name_value (String a (name +:+ String "=" value)) = (String a name, Some value)) as Hnv.
  { cbn [name_value]. by rewrite (cut_lacks "=" name value Hl'). }
  revert Hnv. generalize (name +:+ String "=" value) as rest. intros rest Hnv.
  destruct a as [[] [] [] [] [] [] [] []]; try done;
    unfold classify; rewrite decide_False by done; cbv beta iota zeta; by rewrite Hnv.
Qed.

(** Settings written as [-name=value] are read back. *)
Lemma Parse_flag_args (settings : list (string * string)) (fs : FlagSet) :
  Forall (λ p, flag_name p.1 = true ∧ ∃ s, fs !! p.1 = Some (StringFlag s)) settings →
  Parse fs ((λ p, flag_arg p.1 p.2) <$> settings) =
  inr (insert_all (prod_map (λ n, n) StringFlag <$> settings) fs).
Proof.
  revert fs. induction settings as [|[name value] l IH]; intros fs Hall; [done|].
  apply Forall_cons in Hall as [[Hn [s Hs]] Hall]. simpl in Hn, Hs.
  cbn [fmap list_fmap Parse fst snd]. rewrite classify_flag_arg, Hs by done.
  unfold set_flag. rewrite Hs, IH; [done|].
  eapply Forall_impl; [exact Hall|]. intros [n v] [Hn' [s' Hs']]. simpl in *. split; [done|].
  destruct (decide (n = name)) as [->|?]; [rewrite lookup_insert_eq|rewrite lookup_insert_ne by done]; eauto.
Qed.
