(* ===== verification/Json.v ===== *)
(** * encoding/json: the text format

    The scanner of [json.Unmarshal] on bytes: JSON values, string literals with
    their escapes and the treatment of UTF-8, number literals (kept as text, as
    the decoder does until it knows the target type), the nesting limit; and the
    compact form [json.Marshal] writes.  [parse_json] is total: its fuel is twice
    the length of the text, and [parse_value_fuel] shows more changes nothing. *)

From S2P Require Import Prelude GoStrings.
From stdpp Require Import options.

(** ** Data *)

Inductive json :=
  | JNull
  | JBool (b : bool)
  | JNum (lit : string)
  | JStr (s : string)
  | JArr (l : list json)
  | JObj (l : list (string * json)).

Definition code (c : ascii) : N := N_of_ascii c.
Definition byte (n : N) : ascii := ascii_of_N n.

Definition chr_quote : ascii := byte 34.
Definition chr_backslash : ascii := byte 92.

Definition is_ws (c : ascii) : bool :=
  bool_decide (c = " "%char ∨ c = byte 9 ∨ c = byte 10 ∨ c = byte 13).
Definition is_digit (c : ascii) : bool := bool_decide (48 ≤ code c ≤ 57)%N.

Fixpoint skip_ws (s : string) : string :=
  match s with
  | String c s' => if is_ws c then skip_ws s' else s
  | EmptyString => EmptyString
  end.

(** The longest prefix of characters satisfying [p], and the rest. *)
Fixpoint span (p : ascii → bool) (s : string) : string * string :=
  match s with
  | String c s' => if p c then let '(a, b) := span p s' in (String c a, b) else (EmptyString, s)
  | EmptyString => (EmptyString, EmptyString)
  end.

(** ** Numbers *)

(** An optional minus sign; 0 or a number without leading zero; an optional
    fraction; an optional exponent. *)
Definition scan_sign (s : string) : string * string :=
  match s with
  | String "-" s' => ("-", s')
  | _ => ("", s)
  end.
Definition scan_int (s : string) : option (string * string) :=
  match s with
  | String "0" s' => Some ("0", s')
  | _ => let '(d, r) := span is_digit s in if decide (d = "") then None else Some (d, r)
  end.
Definition scan_frac (s : string) : option (string * string) :=
  match s with
  | String "." s' =>
      let '(d, r) := span is_digit s' in
      if decide (d = "") then None else Some (String "." d, r)
  | _ => Some ("", s)
  end.
Definition is_exp (c : ascii) : bool := bool_decide (c = "e"%char ∨ c = "E"%char).
Definition is_pm (c : ascii) : bool := bool_decide (c = "+"%char ∨ c = "-"%char).
Definition scan_pm (s : string) : string * string :=
  match s with
  | String p r => if is_pm p then (String p "", r) else ("", s)
  | EmptyString => ("", s)
  end.
Definition scan_exp (s : string) : option (string * string) :=
  match s with
  | String c s' =>
      if is_exp c then
        let '(sg, s'') := scan_pm s' in
        let '(d, r) := span is_digit s'' in
        if decide (d = "") then None else Some (String c (sg +:+ d), r)
      else Some ("", s)
  | EmptyString => Some ("", s)
  end.

Definition parse_number (s : string) : option (string * string) :=
  let '(sg, s1) := scan_sign s in
  '(i, s2) ← scan_int s1;
  '(f, s3) ← scan_frac s2;
  '(e, s4) ← scan_exp s3;
  Some (sg +:+ i +:+ f +:+ e, s4).

(** ** Strings *)

Definition hex_val (c : ascii) : option N :=
  let n := code c in
  if decide (48 ≤ n ≤ 57)%N then Some (n - 48)%N
  else if decide (97 ≤ n ≤ 102)%N then Some (n - 87)%N
  else if decide (65 ≤ n ≤ 70)%N then Some (n - 55)%N
  else None.

Definition hex4 (a b c d : ascii) : option N :=
  a ← hex_val a; b ← hex_val b; c ← hex_val c; d ← hex_val d;
  Some (a * 4096 + b * 256 + c * 16 + d)%N.

(** [utf8.AppendRune], for a code point below 0x110000. *)
Definition utf8_encode (r : N) : string :=
  if decide (r < 128)%N then String (byte r) ""
  else if decide (r < 2048)%N then
    String (byte (192 + r / 64)) (String (byte (128 + r mod 64)) "")
  else if decide (r < 65536)%N then
    String (byte (224 + r / 4096)) (String (byte (128 + (r / 64) mod 64))
      (String (byte (128 + r mod 64)) ""))
  else
    String (byte (240 + r / 262144)) (String (byte (128 + (r / 4096) mod 64))
      (String (byte (128 + (r / 64) mod 64)) (String (byte (128 + r mod 64)) ""))).

Definition replacement : string := utf8_encode 65533.

Definition is_surrogate (r : N) : bool := bool_decide (55296 ≤ r < 57344)%N.
Definition is_high (r : N) : bool := bool_decide (55296 ≤ r < 56320)%N.
Definition is_low (r : N) : bool := bool_decide (56320 ≤ r < 57344)%N.

Definition in_range (lo hi : N) (c : ascii) : bool := bool_decide (lo ≤ code c ≤ hi)%N.

(** [utf8.DecodeRune] at the byte [c >= 128]: how many continuation bytes of
    [s] complete a valid sequence, [None] for an invalid one. *)
Definition utf8_extra (c : ascii) (s : string) : option nat :=
  let n := code c in
  let second lo hi k :=
    match s with String b _ => if in_range lo hi b then k s else None | _ => None end in
  let third k (s : string) :=
    match s with String _ (String b r) => if in_range 128 191 b then k r else None | _ => None end in
  let fourth (r : string) :=
    match r with String b _ => if in_range 128 191 b then Some 3%nat else None | _ => None end in
  let two lo hi := second lo hi (λ _, Some 1%nat) in
  let three lo hi := second lo hi (third (λ _, Some 2%nat)) in
  let four lo hi := second lo hi (third fourth) in
  if decide (194 ≤ n ≤ 223)%N then two 128%N 191%N
  else if decide (n = 224)%N then three 160%N 191%N
  else if decide (n = 237)%N then three 128%N 159%N
  else if decide (225 ≤ n ≤ 239)%N then three 128%N 191%N
  else if decide (n = 240)%N then four 144%N 191%N
  else if decide (241 ≤ n ≤ 243)%N then four 128%N 191%N
  else if decide (n = 244)%N then four 128%N 143%N
  else None.

Definition simple_escape (e : ascii) : option ascii :=
  if decide (e = chr_quote ∨ e = chr_backslash ∨ e = "/"%char) then Some e
  else if decide (e = "b"%char) then Some (byte 8)
  else if decide (e = "f"%char) then Some (byte 12)
  else if decide (e = "n"%char) then Some (byte 10)
  else if decide (e = "r"%char) then Some (byte 13)
  else if decide (e = "t"%char) then Some (byte 9)
  else None.

Definition prepend (p : string) (o : option (string * string)) : option (string * string) :=
  '(a, r) ← o; Some (p +:+ a, r).

(** The contents of a string literal after its opening quote, and the text after
    its closing quote.  The first [pending] bytes complete a rune. *)
Fixpoint unquote (pending : nat) (s : string) : option (string * string) :=
  match s with
  | EmptyString => None
  | String c s' =>
      match pending with
      | S k => prepend (String c "") (unquote k s')
      | O =>
          if decide (c = chr_quote) then Some ("", s')
          else if decide (c = chr_backslash) then
            match s' with
            | EmptyString => None
            | String e s2 =>
                if decide (e = "u"%char) then
                  match s2 with
                  | String h1 (String h2 (String h3 (String h4 r))) =>
                      match hex4 h1 h2 h3 h4 with
                      | None => None
                      | Some u =>
                          if is_surrogate u then
                            match r with
                            | String b (String e' (String g1 (String g2 (String g3 (String g4 r'))))) =>
                                match hex4 g1 g2 g3 g4 with
                                | Some l =>
                                    if decide (b = chr_backslash ∧ e' = "u"%char ∧
                                               is_high u = true ∧ is_low l = true)
                                    then prepend (utf8_encode
                                           (65536 + (u - 55296) * 1024 + (l - 56320))%N) (unquote 0 r')
                                    else prepend replacement (unquote 0 r)
                                | None => prepend replacement (unquote 0 r)
                                end
                            | _ => prepend replacement (unquote 0 r)
                            end
                          else prepend (utf8_encode u) (unquote 0 r)
                      end
                  | _ => None
                  end
                else match simple_escape e with
                     | Some x => prepend (String x "") (unquote 0 s2)
                     | None => None
                     end
            end
          else if decide (code c < 32)%N then None
          else if decide (code c < 128)%N then prepend (String c "") (unquote 0 s')
          else match utf8_extra c s' with
               | Some k => prepend (String c "") (unquote k s')
               | None => prepend replacement (unquote 0 s')
               end
      end
  end.

(** ** Values *)

Definition maxNestingDepth : Z := 10000.

Definition parse_literal (s : string) : option (json * string) :=
  match strip_prefix "null" s with
  | Some r => Some (JNull, r)
  | None =>
      match strip_prefix "true" s with
      | Some r => Some (JBool true, r)
      | None =>
          match strip_prefix "false" s with
          | Some r => Some (JBool false, r)
          | None => '(lit, r) ← parse_number s; Some (JNum lit, r)
          end
      end
  end.

(** After an element of an array or object: the closing bracket, or a comma and
    the text of the next element. *)
Definition after_element (close : ascii) (s : string) : option (bool * string) :=
  match skip_ws s with
  | String c r =>
      if decide (c = close) then Some (true, r)
      else if decide (c = ","%char) then Some (false, r) else None
  | EmptyString => None
  end.

(** A key with its colon. *)
Definition parse_key (s : string) : option (string * string) :=
  match skip_ws s with
  | String q r =>
      if decide (q = chr_quote) then
        '(k, r) ← unquote 0 r;
        match skip_ws r with
        | String c r => if decide (c = ":"%char) then Some (k, r) else None
        | EmptyString => None
        end
      else None
  | EmptyString => None
  end.

(** Whether the brackets opened just before [s] are closed at once. *)
Definition closed_at_once (close : ascii) (s : string) : option string :=
  match skip_ws s with
  | String c r => if decide (c = close) then Some r else None
  | EmptyString => None
  end.

Fixpoint parse_value (fuel : nat) (depth : Z) (s : string) : option (json * string) :=
  match fuel with
  | O => None
  | S fuel =>
      match skip_ws s with
      | EmptyString => None
      | String c r as t =>
          if decide (c = "{"%char) then
            if decide (depth < maxNestingDepth)%Z then
              match closed_at_once "}" r with
              | Some r => Some (JObj [], r)
              | None => '(ms, r) ← parse_members fuel (depth + 1) r; Some (JObj ms, r)
              end
            else None
          else if decide (c = "["%char) then
            if decide (depth < maxNestingDepth)%Z then
              match closed_at_once "]" r with
              | Some r => Some (JArr [], r)
              | None => '(vs, r) ← parse_elements fuel (depth + 1) r; Some (JArr vs, r)
              end
            else None
          else if decide (c = chr_quote) then '(x, r) ← unquote 0 r; Some (JStr x, r)
          else parse_literal t
      end
  end
with parse_members (fuel : nat) (depth : Z) (s : string) : option (list (string * json) * string) :=
  match fuel with
  | O => None
  | S fuel =>
      '(k, r) ← parse_key s;
      '(v, r) ← parse_value fuel depth r;
      '(last, r) ← after_element "}" r;
      if (last : bool) then Some ([(k, v)], r)
      else '(ms, r) ← parse_members fuel depth r; Some ((k, v) :: ms, r)
  end
with parse_elements (fuel : nat) (depth : Z) (s : string) : option (list json * string) :=
  match fuel with
  | O => None
  | S fuel =>
      '(v, r) ← parse_value fuel depth s;
      '(last, r) ← after_element "]" r;
      if (last : bool) then Some ([v], r)
      else '(vs, r) ← parse_elements fuel depth r; Some (v :: vs, r)
  end.

Definition json_fuel (s : string) : nat := 2 * String.length s + 2.

(** A whole document: one value, then only white space. *)
Definition parse_json (s : string) : option json :=
  '(v, r) ← parse_value (json_fuel s) 0 s;
  if decide (skip_ws r = "") then Some v else None.

(** ** The compact form *)

Definition hex_digit (n : N) : ascii := if decide (n < 10)%N then byte (48 + n) else byte (87 + n).

(** The bytes of an ASCII character inside a literal, as [json.Marshal] writes it. *)
Definition escape (c : ascii) : string :=
  if decide (c = chr_quote ∨ c = chr_backslash) then String chr_backslash (String c "")
  else if decide (c = byte 10) then String chr_backslash "n"
  else if decide (c = byte 13) then String chr_backslash "r"
  else if decide (c = byte 9) then String chr_backslash "t"
  else if decide ((code c < 32)%N ∨ c = "<"%char ∨ c = ">"%char ∨ c = "&"%char) then
    String chr_backslash (String "u" (String "0" (String "0"
      (String (hex_digit (code c / 16)) (String (hex_digit (code c mod 16)) "")))))
  else String c "".

Fixpoint escape_all (s : string) : string :=
  match s with EmptyString => EmptyString | String c s => escape c +:+ escape_all s end.

Definition quote (s : string) : string :=
  String chr_quote (escape_all s +:+ String chr_quote "").

Fixpoint print_json (v : json) : string :=
  match v with
  | JNull => "null"
  | JBool b => if b then "true" else "false"
  | JNum lit => lit
  | JStr s => quote s
  | JArr l =>
      "[" +:+ match l with
              | [] => ""
              | v :: l => print_json v +:+ foldr (λ v acc, "," +:+ print_json v +:+ acc) "" l
              end +:+ "]"
  | JObj l =>
      "{" +:+ match l with
              | [] => ""
              | m :: l => quote m.1 +:+ ":" +:+ print_json m.2 +:+
                          foldr (λ m acc, "," +:+ quote m.1 +:+ ":" +:+ print_json m.2 +:+ acc) "" l
              end +:+ "}"
  end.

(** JSON texts are written below with single quotes for double ones. *)
Definition dq (s : string) : string := Replace s "'" chr_quote.

Example parse_json_example :
  parse_json (dq " { 'a' : [1, -2.5e+3, true], '\u0041\n':null } ") =
  Some (JObj [("a", JArr [JNum "1"; JNum "-2.5e+3"; JBool true]); ("A" +:+ String (byte 10) "", JNull)]).
Proof. reflexivity. Qed.

(** ** Lengths: the scanner always moves forward *)

Abbreviation slen := String.length.

Ltac parse_inv :=
  repeat match goal with
  | H : mbind _ _ = Some _ |- _ =>
      apply bind_Some in H; destruct H as [[? ?] [? H]]; simpl in H
  | H : Some _ = Some _ |- _ => injection H as ?; subst
  | H : None = Some _ |- _ => discriminate H
  | H : (if decide ?P then _ else _) = Some _ |- _ => destruct (decide P)
  | H : (if ?b then _ else _) = Some _ |- _ => destruct b eqn:?
  end.

Lemma slen_app a b : slen (a +:+ b) = slen a + slen b.
Proof. induction a; simpl; auto. Qed.

Lemma skip_ws_len s : slen (skip_ws s) ≤ slen s.
Proof. induction s as [|c s IH]; simpl; [done|]. destruct (is_ws c); simpl; lia. Qed.

Lemma span_app p s a r : span p s = (a, r) → s = a +:+ r.
Proof.
  revert a r. induction s as [|c s IH]; intros a r; simpl; [by intros [= <- <-]|].
  destruct (p c); [|by intros [= <- <-]].
  destruct (span p s) as [a' r'] eqn:E. intros [= <- <-]. simpl. by rewrite (IH a' r').
Qed.

Lemma span_len p s a r : span p s = (a, r) → slen a + slen r = slen s.
Proof. intros ->%span_app. by rewrite slen_app. Qed.

Lemma slen_pos s : s ≠ "" → 0 < slen s.
Proof. destruct s; simpl; [done|lia]. Qed.

Lemma scan_int_len s i r : scan_int s = Some (i, r) → slen r < slen s.
Proof.
  assert ((let '(d, r') := span is_digit s in if decide (d = "") then None else Some (d, r')) = Some (i, r) →
    slen r < slen s) as Hspan.
  { destruct (span is_digit s) as [d r'] eqn:E. case_decide as Hd; [done|]. intros [= <- <-].
    apply span_len in E. apply slen_pos in Hd. lia. }
  unfold scan_int. destruct s as [|c s]; [exact Hspan|].
  destruct c as [[] [] [] [] [] [] [] []]; try exact Hspan. intros [= <- <-]. simpl. lia.
Qed.

Lemma scan_frac_len s f r : scan_frac s = Some (f, r) → slen r ≤ slen s.
Proof.
  unfold scan_frac. destruct s as [|c s]; [by intros [= <- <-]|].
  destruct c as [[] [] [] [] [] [] [] []]; try (by intros [= <- <-]).
  destruct (span is_digit s) as [d r'] eqn:E. case_decide; [done|]. intros [= <- <-].
  apply span_len in E. simpl. lia.
Qed.

Lemma scan_exp_len s e r : scan_exp s = Some (e, r) → slen r ≤ slen s.
Proof.
  unfold scan_exp. destruct s as [|c s]; [by intros [= <- <-]|].
  destruct (is_exp c); [|by intros [= <- <-]].
  assert (slen (scan_pm s).2 ≤ slen s) as Hq.
  { destruct s as [|p s]; simpl; [done|]. destruct (is_pm p); simpl; lia. }
  destruct (scan_pm s) as [sg s'']. simpl in Hq.
  destruct (span is_digit s'') as [d r'] eqn:E. case_decide; [done|]. intros [= <- <-].
  apply span_len in E. simpl. lia.
Qed.

Lemma scan_sign_len s sg r : scan_sign s = (sg, r) → slen r ≤ slen s.
Proof.
  unfold scan_sign. destruct s as [|c s]; [by intros [= <- <-]|].
  destruct c as [[] [] [] [] [] [] [] []]; intros [= <- <-]; simpl; lia.
Qed.

Lemma parse_number_len s lit r : parse_number s = Some (lit, r) → slen r < slen s.
Proof.
  unfold parse_number. destruct (scan_sign s) as [sg s1] eqn:Hs. intros H. parse_inv.
  apply scan_sign_len in Hs.
  repeat match goal with
  | H : scan_int _ = _ |- _ => apply scan_int_len in H
  | H : scan_frac _ = _ |- _ => apply scan_frac_len in H
  | H : scan_exp _ = _ |- _ => apply scan_exp_len in H
  end. lia.
Qed.

Lemma strip_prefix_len p s r : strip_prefix p s = Some r → slen s = slen p + slen r.
Proof. intros ->%strip_prefix_Some. apply slen_app. Qed.

Lemma parse_literal_len s v r : parse_literal s = Some (v, r) → slen r < slen s.
Proof.
  unfold parse_literal. intros H.
  repeat (case_match; [simplify_eq; match goal with
    | E : strip_prefix _ _ = _ |- _ => apply strip_prefix_len in E; simpl in E; lia end|]).
  parse_inv. by eapply parse_number_len.
Qed.

Lemma prepend_len p o a r (n : nat) :
  prepend p o = Some (a, r) → (∀ a' r', o = Some (a', r') → slen r' < n) → slen r < n.
Proof. unfold prepend. intros H Ho. parse_inv. eauto. Qed.

Lemma unquote_len pending s a r : unquote pending s = Some (a, r) → slen r < slen s.
Proof.
  revert pending a r. remember (slen s) as n eqn:Hn. revert s Hn.
  induction n as [n IH] using lt_wf_ind. intros s -> pending a r.
  assert (∀ k p s' a r, slen s' < slen s → prepend p (unquote k s') = Some (a, r) → slen r < slen s) as Hrec.
  { intros k p s' a' r' Hlt Hp. eapply prepend_len; [exact Hp|].
    intros a'' r'' Hu. pose proof (IH (slen s') Hlt s' eq_refl k a'' r'' Hu). lia. }
  destruct s as [|c s]; [done|]. cbn [unquote].
  destruct pending as [|k]; [|apply Hrec; simpl; lia].
  intros H. repeat (case_match || case_decide); try discriminate H;
    try (by injection H as <- <-; simpl; lia); (eapply Hrec; [|exact H]; simpl; lia).
Qed.

Lemma parse_key_len s k r : parse_key s = Some (k, r) → slen r < slen s.
Proof.
  unfold parse_key. pose proof (skip_ws_len s). destruct (skip_ws s) as [|q t]; [done|].
  case_decide; [|done]. intros HH. apply bind_Some in HH. destruct HH as [[k' r'] [Hu Hr]]. apply unquote_len in Hu.
  pose proof (skip_ws_len r'). destruct (skip_ws r') as [|c r'']; [done|]. parse_inv.
  simpl in *. lia.
Qed.

Lemma after_element_len close s b r : after_element close s = Some (b, r) → slen r < slen s.
Proof.
  unfold after_element. pose proof (skip_ws_len s). destruct (skip_ws s) as [|c t]; [done|].
  intros. parse_inv; simpl in *; lia.
Qed.

Lemma closed_at_once_len close s r : closed_at_once close s = Some r → slen r < slen s.
Proof.
  unfold closed_at_once. pose proof (skip_ws_len s). destruct (skip_ws s) as [|c t]; [done|].
  intros. parse_inv. simpl in *. lia.
Qed.

Lemma parse_len fuel :
  (∀ d s v r, parse_value fuel d s = Some (v, r) → slen r < slen s) ∧
  (∀ d s ms r, parse_members fuel d s = Some (ms, r) → slen r < slen s) ∧
  (∀ d s vs r, parse_elements fuel d s = Some (vs, r) → slen r < slen s).
Proof.
  induction fuel as [|fuel (IHv & IHm & IHe)]; [split_and!; done|]. split_and!.
  - intros d s v r. cbn [parse_value]. pose proof (skip_ws_len s) as Hs.
    destruct (skip_ws s) as [|c t]; [done|]. simpl in Hs.
    case_decide; [|case_decide; [|case_decide]].
    + case_decide; [|done]. destruct (closed_at_once "}" t) as [r'|] eqn:Hc.
      * intros [= <- <-]. apply closed_at_once_len in Hc. lia.
      * intros. parse_inv. match goal with H : parse_members _ _ _ = _ |- _ => apply IHm in H end. lia.
    + case_decide; [|done]. destruct (closed_at_once "]" t) as [r'|] eqn:Hc.
      * intros [= <- <-]. apply closed_at_once_len in Hc. lia.
      * intros. parse_inv. match goal with H : parse_elements _ _ _ = _ |- _ => apply IHe in H end. lia.
    + intros. parse_inv. match goal with H : unquote _ _ = _ |- _ => apply unquote_len in H end. lia.
    + intros Hl%parse_literal_len. simpl in Hl. lia.
  - intros d s ms r. cbn [parse_members]. intros ([k r1] & Hk%parse_key_len & H)%bind_Some.
    cbn beta iota in H. apply bind_Some in H as ([v r2] & Hv%IHv & H).
    cbn beta iota in H. apply bind_Some in H as ([l r3] & Ha%after_element_len & H).
    destruct l; parse_inv; [lia|].
    match goal with H : parse_members _ _ _ = _ |- _ => apply IHm in H end. lia.
  - intros d s ms r. cbn [parse_elements]. intros ([v r2] & Hv%IHv & H)%bind_Some.
    cbn beta iota in H. apply bind_Some in H as ([l r3] & Ha%after_element_len & H).
    destruct l; parse_inv; [lia|].
    match goal with H : parse_elements _ _ _ = _ |- _ => apply IHe in H end. lia.
Qed.

(** Binding after equal scans, the continuations agreeing on what was scanned. *)
Lemma bind_eq {A B} (o o' : option A) (f g : A → option B) :
  o = o' → (∀ x, o = Some x → f x = g x) → o ≫= f = o' ≫= g.
Proof. intros <- Hfg. destruct o; simpl; auto. Qed.

(** Fuel: once there is enough for the text, more does not change the result. *)
Lemma parse_fuel f :
  (∀ f' d s, 2 * slen s + 2 ≤ f → 2 * slen s + 2 ≤ f' → parse_value f d s = parse_value f' d s) ∧
  (∀ f' d s, 2 * slen s + 3 ≤ f → 2 * slen s + 3 ≤ f' → parse_members f d s = parse_members f' d s) ∧
  (∀ f' d s, 2 * slen s + 3 ≤ f → 2 * slen s + 3 ≤ f' → parse_elements f d s = parse_elements f' d s).
Proof.
  induction f as [|f (IHv & IHm & IHe)]; [split_and!; intros; lia|].
  split_and!; intros [|f'] d s Hf Hf'; try lia.
  - cbn [parse_value]. pose proof (skip_ws_len s) as Hs.
    destruct (skip_ws s) as [|c t]; [done|]. simpl in Hs.
    repeat case_decide; try done.
    + destruct (closed_at_once "}" t); [done|]. rewrite (IHm f') by lia. done.
    + destruct (closed_at_once "]" t); [done|]. rewrite (IHe f') by lia. done.
  - cbn [parse_members]. apply bind_eq; [done|]. intros [k r] Hk%parse_key_len.
    apply bind_eq; [apply IHv; lia|]. intros [v r2] Hv%(proj1 (parse_len f)).
    apply bind_eq; [done|]. intros [l r3] Ha%after_element_len. destruct l; [done|].
    rewrite (IHm f') by lia. done.
  - cbn [parse_elements]. apply bind_eq; [apply IHv; lia|]. intros [v r2] Hv%(proj1 (parse_len f)).
    apply bind_eq; [done|]. intros [l r3] Ha%after_element_len. destruct l; [done|].
    rewrite (IHe f') by lia. done.
Qed.

Lemma parse_value_fuel f d s : json_fuel s ≤ f → parse_value f d s = parse_value (json_fuel s) d s.
Proof. unfold json_fuel. intros Hf. apply parse_fuel; lia. Qed.

(** ** Round trip *)

(** Values the printer writes faithfully: ASCII strings, number literals of the
    grammar. *)
Fixpoint json_ok (v : json) : bool :=
  match v with
  | JNull | JBool _ => true
  | JNum lit => bool_decide (parse_number lit = Some (lit, ""))
  | JStr s => string_all is_ascii s
  | JArr l => forallb json_ok l
  | JObj l => forallb (λ m, string_all is_ascii m.1 && json_ok m.2) l
  end.

Fixpoint json_depth (v : json) : Z :=
  match v with
  | JArr l => (1 + foldr (λ v acc, Z.max (json_depth v) acc) 0 l)%Z
  | JObj l => (1 + foldr (λ m acc, Z.max (json_depth m.2) acc) 0 l)%Z
  | _ => 0%Z
  end.

(** What follows a value does not continue a number. *)
Definition num_end (rest : string) : Prop :=
  match rest with
  | EmptyString => True
  | String c _ => is_digit c = false ∧ c ≠ "."%char ∧ is_exp c = false
  end.

Lemma unquote_escape c t :
  is_ascii c = true → unquote 0 (escape c +:+ t) = prepend (String c "") (unquote 0 t).
Proof.
  destruct c as [[] [] [] [] [] [] [] []]; intros Ha; try discriminate Ha; reflexivity.
Qed.

Lemma unquote_escape_all s r :
  string_all is_ascii s = true → unquote 0 (escape_all s +:+ String chr_quote r) = Some (s, r).
Proof.
  induction s as [|c s IH]; simpl; [done|]. intros [Hc Hs]%andb_true_iff.
  rewrite <-sapp_assoc, unquote_escape, IH by done. done.
Qed.

Lemma span_ext p s a r rest :
  span p s = (a, r) → (r = "" → match rest with String c _ => p c = false | _ => True end) →
  span p (s +:+ rest) = (a, r +:+ rest).
Proof.
  revert a r. induction s as [|c s IH]; intros a r; simpl.
  - intros [= <- <-] Hr. specialize (Hr eq_refl). destruct rest as [|c rest]; [done|].
    simpl. by rewrite Hr.
  - destruct (p c); [|by intros [= <- <-]].
    destruct (span p s) as [a' r'] eqn:E. intros [= <- <-] Hr. by rewrite (IH a' r').
Qed.

Lemma num_end_digit rest : num_end rest → match rest with String c _ => is_digit c = false | _ => True end.
Proof. destruct rest; [done|]. by intros [? _]. Qed.

Lemma scan_int_ext s i r rest :
  scan_int s = Some (i, r) → num_end rest → scan_int (s +:+ rest) = Some (i, r +:+ rest).
Proof.
  intros Hs He%num_end_digit.
  assert (∀ t, (let '(d, r') := span is_digit t in if decide (d = "") then None else Some (d, r')) = Some (i, r) →
    (let '(d, r') := span is_digit (t +:+ rest) in if decide (d = "") then None else Some (d, r'))
    = Some (i, r +:+ rest)) as Hspan.
  { intros t. destruct (span is_digit t) as [d r'] eqn:E. case_decide; [done|]. intros [= <- <-].
    rewrite (span_ext _ _ _ _ _ E) by done. by rewrite decide_False. }
  destruct s as [|c s]; [done|]. pose proof (Hspan (String c s)) as Hsp.
  destruct c as [[] [] [] [] [] [] [] []]; try exact (Hsp Hs). by injection Hs as <- <-.
Qed.

Lemma scan_frac_ext s f r rest :
  scan_frac s = Some (f, r) → num_end rest → scan_frac (s +:+ rest) = Some (f, r +:+ rest).
Proof.
  intros Hs He. destruct s as [|c s].
  - injection Hs as <- <-. destruct rest as [|c rest]; [done|]. destruct He as (_ & Hc & _).
    simpl. destruct c as [[] [] [] [] [] [] [] []]; try reflexivity. by destruct Hc.
  - destruct c as [[] [] [] [] [] [] [] []]; try (by injection Hs as <- <-).
    change (scan_frac (String "." s +:+ rest)) with
      (let '(d, r) := span is_digit (s +:+ rest) in
       if decide (d = "") then None else Some (String "." d, r)).
    unfold scan_frac in Hs. destruct (span is_digit s) as [d r'] eqn:E.
    case_decide; [done|]. injection Hs as <- <-.
    rewrite (span_ext _ _ _ _ _ E) by (intros; by apply num_end_digit). by rewrite decide_False.
Qed.

Lemma scan_exp_ext s e r rest :
  scan_exp s = Some (e, r) → num_end rest → scan_exp (s +:+ rest) = Some (e, r +:+ rest).
Proof.
  intros Hs He. destruct s as [|c s].
  - injection Hs as <- <-. destruct rest as [|c rest]; [done|]. destruct He as (_ & _ & Hc).
    simpl. by rewrite Hc.
  - unfold scan_exp in *. change (String c s +:+ rest) with (String c (s +:+ rest)). cbv iota in *.
    destruct (is_exp c); [|by injection Hs as <- <-].
    destruct (scan_pm s) as [sg s''] eqn:Epm. destruct (span is_digit s'') as [d r'] eqn:E.
    case_decide as Hd; [done|]. injection Hs as <- <-.
    assert (scan_pm (s +:+ rest) = (sg, s'' +:+ rest)) as ->.
    { destruct s as [|p s]; [injection Epm as <- <-; by injection E as <- <-|].
      unfold scan_pm in *. change (String p s +:+ rest) with (String p (s +:+ rest)). cbv iota in *.
      destruct (is_pm p); by injection Epm as <- <-. }
    rewrite (span_ext _ _ _ _ _ E) by (intros; by apply num_end_digit). by rewrite decide_False.
Qed.

Lemma parse_number_ext lit rest :
  parse_number lit = Some (lit, "") → num_end rest → parse_number (lit +:+ rest) = Some (lit, rest).
Proof.
  unfold parse_number. destruct (scan_sign lit) as [sg s1] eqn:Hsg. intros H He.
  assert (scan_sign (lit +:+ rest) = (sg, s1 +:+ rest)) as ->.
  { destruct lit as [|c l]; [unfold scan_sign in Hsg; by simplify_eq|].
    unfold scan_sign in *. simpl. destruct c as [[] [] [] [] [] [] [] []]; by injection Hsg as <- <-. }
  apply bind_Some in H as [[i s2] [Hi H]]. apply bind_Some in H as [[f s3] [Hf H]].
  apply bind_Some in H as [[e s4] [Hx H]]. injection H as H ->.
  rewrite (scan_int_ext _ _ _ _ Hi He). simpl. rewrite (scan_frac_ext _ _ _ _ Hf He). simpl.
  rewrite (scan_exp_ext _ _ _ _ Hx He). simpl. by rewrite H.
Qed.

Lemma number_first lit r :
  parse_number lit = Some (lit, r) → ∃ c l, lit = String c l ∧ (c = "-"%char ∨ is_digit c = true).
Proof.
  destruct lit as [|c l]; [done|]. intros H. exists c, l. split; [done|].
  destruct (decide (c = "-"%char)) as [|Hne]; [by left|right].
  unfold parse_number in H.
  assert (scan_sign (String c l) = ("", String c l)) as Hs.
  { unfold scan_sign. destruct c as [[] [] [] [] [] [] [] []]; try reflexivity. by destruct Hne. }
  rewrite Hs in H. apply bind_Some in H as [[i s2] [Hi _]].
  destruct (is_digit c) eqn:Hd; [done|]. exfalso. unfold scan_int in Hi.
  destruct c as [[] [] [] [] [] [] [] []]; simpl in Hi; try discriminate Hi; discriminate Hd.
Qed.

(** The first character of a printed value. *)
Definition starts_value (s : string) : Prop :=
  ∃ c t, s = String c t ∧ is_ws c = false ∧ c ≠ "]"%char ∧ c ≠ "}"%char.

Lemma print_json_starts v : json_ok v = true → starts_value (print_json v).
Proof.
  destruct v as [|b|lit|s|l|l]; simpl; intros Hok.
  - by eexists _, _.
  - destruct b; by eexists _, _.
  - apply bool_decide_eq_true in Hok. apply number_first in Hok as (c & l & -> & Hc).
    exists c, l. split; [done|]. destruct Hc as [-> | Hc]; [done|].
    split_and!; [|by intros ->..].
    destruct c as [[] [] [] [] [] [] [] []]; try discriminate Hc; reflexivity.
  - by eexists _, _.
  - by eexists _, _.
  - by eexists _, _.
Qed.

Lemma skip_ws_starts s rest : starts_value s → skip_ws (s +:+ rest) = s +:+ rest.
Proof. intros (c & t & -> & Hc & _). simpl. by rewrite Hc. Qed.

Lemma parse_literal_number lit rest :
  parse_number lit = Some (lit, "") → num_end rest → parse_literal (lit +:+ rest) = Some (JNum lit, rest).
Proof.
  intros Hn He. pose proof (parse_number_ext _ _ Hn He) as Hp.
  apply number_first in Hn as (c & l & -> & Hc).
  assert (∀ a p, a = "n"%char ∨ a = "t"%char ∨ a = "f"%char →
    strip_prefix (String a p) (String c l +:+ rest) = None) as Hno.
  { intros a p Ha. simpl. rewrite decide_False; [done|]. intros <-.
    destruct Hc as [->|Hc]; [by naive_solver|]. destruct Ha as [->|[->| ->]]; done. }
  unfold parse_literal. rewrite !Hno by auto. by rewrite Hp.
Qed.

Definition members_tail (l : list (string * json)) : string :=
  foldr (λ m acc, "," +:+ quote m.1 +:+ ":" +:+ print_json m.2 +:+ acc) "" l.
Definition elements_tail (l : list json) : string :=
  foldr (λ v acc, "," +:+ print_json v +:+ acc) "" l.

Lemma parse_key_quote k rest :
  string_all is_ascii k = true → parse_key (quote k +:+ ":" +:+ rest) = Some (k, rest).
Proof.
  intros Hk. unfold parse_key, quote.
  change (skip_ws (String chr_quote (escape_all k +:+ String chr_quote "") +:+ ":" +:+ rest))
    with (String chr_quote ((escape_all k +:+ String chr_quote "") +:+ ":" +:+ rest)).
  cbv iota. rewrite decide_True by done. rewrite <-sapp_assoc.
  change (String chr_quote "" +:+ ":" +:+ rest) with (String chr_quote (":" +:+ rest)).
  rewrite unquote_escape_all by done. done.
Qed.

Lemma members_tail_end l rest : num_end (members_tail l +:+ "}" +:+ rest).
Proof. by destruct l. Qed.
Lemma elements_tail_end l rest : num_end (elements_tail l +:+ "]" +:+ rest).
Proof. by destruct l. Qed.

Lemma members_tail_after m l rest :
  after_element "}" (members_tail (m :: l) +:+ "}" +:+ rest) =
  Some (false, quote m.1 +:+ ":" +:+ print_json m.2 +:+ members_tail l +:+ "}" +:+ rest).
Proof. unfold members_tail. cbn [foldr]. rewrite <-!sapp_assoc. done. Qed.
Lemma elements_tail_after v l rest :
  after_element "]" (elements_tail (v :: l) +:+ "]" +:+ rest) =
  Some (false, print_json v +:+ elements_tail l +:+ "]" +:+ rest).
Proof. unfold elements_tail. cbn [foldr]. rewrite <-!sapp_assoc. done. Qed.

Lemma print_obj m l rest :
  print_json (JObj (m :: l)) +:+ rest =
  String "{" (quote m.1 +:+ ":" +:+ print_json m.2 +:+ members_tail l +:+ "}" +:+ rest).
Proof. cbn [print_json]. fold (members_tail l). rewrite <-!sapp_assoc. done. Qed.
Lemma print_arr v l rest :
  print_json (JArr (v :: l)) +:+ rest =
  String "[" (print_json v +:+ elements_tail l +:+ "]" +:+ rest).
Proof. cbn [print_json]. fold (elements_tail l). rewrite <-!sapp_assoc. done. Qed.

(** Depth of the members of a list, seen from depth [d]. *)
Definition fits (d : Z) (v : json) : Prop := (d + json_depth v ≤ maxNestingDepth)%Z.

Lemma fits_obj d l : fits d (JObj l) ↔ (d < maxNestingDepth)%Z ∧ Forall (λ m, fits (d + 1) m.2) l.
Proof.
  unfold fits. cbn [json_depth]. induction l as [|m l IH]; cbn [foldr].
  - split; [intros; split; [lia|constructor]|intros [? _]; lia].
  - rewrite Forall_cons. unfold fits in IH |- *. split.
    + intros H. assert (Forall (λ m, (d + 1 + json_depth m.2 ≤ maxNestingDepth)%Z) l) by (apply IH; lia).
      split_and!; [lia|lia|done].
    + intros (Hd & Hm & H). pose proof (proj2 IH (conj Hd H)). lia.
Qed.
Lemma fits_arr d l : fits d (JArr l) ↔ (d < maxNestingDepth)%Z ∧ Forall (fits (d + 1)) l.
Proof.
  unfold fits. cbn [json_depth]. induction l as [|v l IH]; cbn [foldr].
  - split; [intros; split; [lia|constructor]|intros [? _]; lia].
  - rewrite Forall_cons. split.
    + intros H. assert (Forall (λ v, (d + 1 + json_depth v ≤ maxNestingDepth)%Z) l) by (apply IH; lia).
      split_and!; [lia|lia|done].
    + intros (Hd & Hm & H). pose proof (proj2 IH (conj Hd H)). lia.
Qed.

Definition member_ok (m : string * json) : bool := string_all is_ascii m.1 && json_ok m.2.

(** The three statements, at a given amount of fuel. *)
Definition value_rt (fuel : nat) : Prop := ∀ v d rest,
  json_ok v = true → fits d v → num_end rest →
  2 * slen (print_json v +:+ rest) + 2 ≤ fuel →
  parse_value fuel d (print_json v +:+ rest) = Some (v, rest).
Definition members_rt (fuel : nat) : Prop := ∀ m l d rest,
  forallb member_ok (m :: l) = true → Forall (λ m, fits d m.2) (m :: l) →
  2 * slen (quote m.1 +:+ ":" +:+ print_json m.2 +:+ members_tail l +:+ "}" +:+ rest) + 3 ≤ fuel →
  parse_members fuel d (quote m.1 +:+ ":" +:+ print_json m.2 +:+ members_tail l +:+ "}" +:+ rest)
  = Some (m :: l, rest).
Definition elements_rt (fuel : nat) : Prop := ∀ v l d rest,
  forallb json_ok (v :: l) = true → Forall (fits d) (v :: l) →
  2 * slen (print_json v +:+ elements_tail l +:+ "]" +:+ rest) + 3 ≤ fuel →
  parse_elements fuel d (print_json v +:+ elements_tail l +:+ "]" +:+ rest) = Some (v :: l, rest).

Lemma value_rt_S fuel : members_rt fuel → elements_rt fuel → value_rt (S fuel).
Proof.
  intros IHm IHe.
  intros v d rest Hok Hfit Hend Hfuel. cbn [parse_value].
  rewrite skip_ws_starts by (by apply print_json_starts).
  destruct v as [|b|lit|s|[|v l]|[|m l]].
  - done.
  - by destruct b.
  - apply bool_decide_eq_true in Hok. cbn [print_json].
    pose proof (parse_literal_number _ _ Hok Hend) as Hp.
    apply number_first in Hok as (c & t & -> & Hc). cbn [String.app] in *.
    assert (c ≠ "{"%char ∧ c ≠ "["%char ∧ c ≠ chr_quote) as (H1 & H2 & H3)
      by (destruct Hc as [->|Hc]; [done|]; split_and!; intros ->; done).
    change (String c t +:+ rest) with (String c (t +:+ rest)) in *. cbv iota.
    rewrite !decide_False by done. exact Hp.
  - cbn [print_json]. unfold quote.
    change (String chr_quote (escape_all s +:+ String chr_quote "") +:+ rest)
      with (String chr_quote ((escape_all s +:+ String chr_quote "") +:+ rest)).
    rewrite <-sapp_assoc. cbv iota. rewrite decide_False, decide_False, decide_True by done.
    change (String chr_quote "" +:+ rest) with (String chr_quote rest).
    by rewrite unquote_escape_all.
  - apply fits_arr in Hfit as [Hd _].
    change (print_json (JArr []) +:+ rest) with (String "[" (String "]" rest)). cbv iota.
    by rewrite decide_False, decide_True, decide_True by done.
  - apply fits_arr in Hfit as [Hd Hfit]. rewrite print_arr in *. cbv iota.
    rewrite decide_False, decide_True, decide_True by done.
    assert (closed_at_once "]" (print_json v +:+ elements_tail l +:+ "]" +:+ rest) = None) as ->.
    { simpl in Hok. apply andb_true_iff in Hok as [Hv _].
      destruct (print_json_starts v Hv) as (c & t & -> & Hws & Hc & _).
      unfold closed_at_once. simpl. rewrite Hws. by rewrite decide_False. }
    rewrite IHe; [done|done|done|]. simpl in Hfuel. lia.
  - apply fits_obj in Hfit as [Hd _].
    change (print_json (JObj []) +:+ rest) with (String "{" (String "}" rest)). cbv iota.
    by rewrite decide_True, decide_True by done.
  - apply fits_obj in Hfit as [Hd Hfit]. rewrite print_obj in *. cbv iota.
    rewrite decide_True, decide_True by done.
    change (closed_at_once "}" (quote m.1 +:+ ":" +:+ print_json m.2 +:+ members_tail l +:+ "}" +:+ rest))
      with (@None string). cbv iota.
    rewrite IHm; [done|done|done|]. cbn [String.length] in Hfuel. lia.
Qed.

Lemma members_rt_S fuel : value_rt fuel → members_rt fuel → members_rt (S fuel).
Proof.
  intros IHv IHm.
  intros [k v] l d rest Hok Hfit Hfuel. cbn [parse_members fst snd] in *. simpl in Hok.
  apply andb_true_iff in Hok as [[Hk Hv]%andb_true_iff Hl]. apply Forall_cons in Hfit as [Hf Hfit].
  rewrite parse_key_quote by done. cbn [mbind option_bind].
  rewrite !slen_app in Hfuel.
  rewrite IHv; [|done|done|apply members_tail_end|simpl in Hfuel; rewrite !slen_app; simpl; lia].
  cbn [mbind option_bind]. destruct l as [|m' l]; [done|]. rewrite members_tail_after.
  cbn [mbind option_bind]. rewrite IHm; [done|done|done|].
  change (members_tail (m' :: l)) with
    ("," +:+ quote m'.1 +:+ ":" +:+ print_json m'.2 +:+ members_tail l) in Hfuel.
  rewrite !slen_app in *. simpl in *. lia.
Qed.

Lemma elements_rt_S fuel : value_rt fuel → elements_rt fuel → elements_rt (S fuel).
Proof.
  intros IHv IHe.
  intros v l d rest Hok Hfit Hfuel. cbn [parse_elements]. simpl in Hok.
  apply andb_true_iff in Hok as [Hv Hl]. apply Forall_cons in Hfit as [Hf Hfit].
  rewrite IHv; [|done|done|apply elements_tail_end|lia].
  cbn [mbind option_bind]. destruct l as [|v' l]; [done|]. rewrite elements_tail_after.
  cbn [mbind option_bind]. rewrite IHe; [done|done|done|].
  change (elements_tail (v' :: l)) with ("," +:+ print_json v' +:+ elements_tail l) in Hfuel.
  assert (starts_value (print_json v)) as (c & t & Ht & _) by (by apply print_json_starts).
  rewrite Ht in Hfuel. rewrite !slen_app in *. simpl in *. lia.
Qed.

Lemma parse_print fuel : value_rt fuel ∧ members_rt fuel ∧ elements_rt fuel.
Proof.
  induction fuel as [|fuel (IHv & IHm & IHe)].
  - unfold value_rt, members_rt, elements_rt. split_and!; intros; lia.
  - split_and!; eauto using value_rt_S, members_rt_S, elements_rt_S.
Qed.

(** Printing and parsing. *)
Lemma parse_print_json v :
  json_ok v = true → fits 0 v → parse_json (print_json v) = Some v.
Proof.
  intros Hok Hfit. unfold parse_json. rewrite <-(sapp_nil_r (print_json v)).
  rewrite (proj1 (parse_print _)); [done|done|done|done|]. unfold json_fuel. lia.
Qed.

(** ** Integer literals *)

Lemma pretty_char_digit d : (0 < d < 10)%N →
  is_digit (pretty_N_char d) = true ∧ pretty_N_char d ≠ "0"%char ∧ pretty_N_char d ≠ "-"%char.
Proof.
  intros Hd. assert (d = 1 ∨ d = 2 ∨ d = 3 ∨ d = 4 ∨ d = 5 ∨ d = 6
        ∨ d = 7 ∨ d = 8 ∨ d = 9)%N by lia.
  by destruct_or!; subst.
Qed.

Lemma span_all p s : string_all p s = true → span p s = (s, "").
Proof.
  induction s as [|c s IH]; simpl; [done|]. intros [-> Hs]%andb_true_iff. by rewrite IH.
Qed.

(** A positive number is written without a leading zero. *)
Lemma pretty_N_go_digits n s : (0 < n)%N → string_all is_digit s = true →
  ∃ c t, pretty_N_go n s = String c t ∧ c ≠ "0"%char ∧ c ≠ "-"%char ∧
         string_all is_digit (String c t) = true.
Proof.
  revert s. induction (N.lt_wf_0 n) as [n _ IH]; intros s Hn Hs.
  rewrite pretty_N_go_step by done.
  assert (n `mod` 10 < 10)%N as Hm by (by apply N.mod_lt).
  destruct (decide (n `div` 10 = 0)%N) as [Hz|Hd].
  - rewrite Hz, pretty_N_go_0. eexists _, _. split; [done|].
    apply N.div_small_iff in Hz; [|done]. rewrite N.mod_small by done.
    destruct (pretty_char_digit n) as (H1 & H2 & H3); [done|].
    split_and!; [done|done|]. simpl. by rewrite H1.
  - apply IH; [by apply N.div_lt|by apply N.neq_0_lt_0|]. simpl. rewrite Hs, andb_true_r.
    destruct (decide (n `mod` 10 = 0)%N) as [->|Hne]; [done|]. apply pretty_char_digit. split; [by apply N.neq_0_lt_0|done].
Qed.

Lemma scan_int_nonzero c t :
  c ≠ "0"%char → string_all is_digit (String c t) = true → scan_int (String c t) = Some (String c t, "").
Proof.
  intros Hc Hall. apply span_all in Hall.
  assert (scan_int (String c t) =
    let '(d, r) := span is_digit (String c t) in if decide (d = "") then None else Some (d, r)) as ->.
  { destruct c as [[] [] [] [] [] [] [] []]; try reflexivity. by destruct Hc. }
  by rewrite Hall.
Qed.

Lemma scan_int_pretty (p : positive) : scan_int (pretty p) = Some (pretty p : string, "") ∧ scan_sign (pretty p) = ("", pretty p).
Proof.
  unfold pretty, pretty_positive, pretty, pretty_N. rewrite decide_False by done.
  destruct (pretty_N_go_digits (N.pos p) "") as (c & t & -> & H0 & Hm & Hall); [lia|done|].
  split; [by apply scan_int_nonzero|].
  unfold scan_sign. destruct c as [[] [] [] [] [] [] [] []]; try reflexivity. by destruct Hm.
Qed.

Lemma parse_number_Itoa z : parse_number (Itoa z) = Some (Itoa z, "").
Proof.
  unfold Itoa. destruct z as [|p|p]; [done| |]; destruct (scan_int_pretty p) as [Hi Hs].
  - change (pretty (Z.pos p)) with (pretty p). unfold parse_number. rewrite Hs, Hi. simpl.
    by rewrite sapp_nil_r.
  - change (pretty (Z.neg p)) with (String "-" (pretty p)). unfold parse_number.
    change (scan_sign (String "-" (pretty p))) with ("-", pretty p : string). cbv iota.
    rewrite Hi. simpl. by rewrite sapp_nil_r.
Qed.
