(* ===== verification/Utils.v ===== *)
(** * pkg/utils: slices, random strings and [WithTimeout]

    [SliceContainsString] and [RandomString] are pure functions.  [WithTimeout]
    runs its payload in a goroutine and races it against a timer: it is a step
    function over the program counters of both goroutines, the shared flag
    [timeoutHappened] and the channel [ch], one label per atomic action. *)

From S2P Require Import Prelude GoStrings.
From stdpp Require Import options.

(** ** SliceContainsString *)

Fixpoint SliceContainsString (s : list string) (v : string) : bool :=
  match s with
  | [] => false
  | value :: s => if decide (value = v) then true else SliceContainsString s v
  end.

Lemma SliceContainsString_spec s v : SliceContainsString s v = true ↔ v ∈ s.
Proof.
  induction s as [|x s IH]; simpl; [set_solver|].
  rewrite elem_of_cons, <-IH. case_decide; naive_solver.
Qed.

(** ** RandomString *)

Definition letters : string := "abcdefghijklmnopqrstuvwxyz".

(** [intn i] is the value of the [i]-th call of [rand.Intn(len(letters))]. *)
Fixpoint random_runes (intn : nat → nat) (i n : nat) : outcome string :=
  match n with
  | 0 => Ok ""
  | S n =>
      match String.get (intn i) letters with
      | None => Panic "index out of range"
      | Some c => rest ← random_runes intn (S i) n; Ok (String c rest)
      end
  end.

Definition RandomString (intn : nat → nat) (n : Z) : outcome string :=
  if decide (n < 0)%Z then Panic "makeslice: len out of range"
  else random_runes intn 0 (Z.to_nat n).

Lemma letters_get k : (k < 26)%nat → ∃ c, String.get k letters = Some c ∧ is_lower c = true.
Proof.
  intros Hk. unfold letters.
  do 26 (destruct k as [|k]; [by eexists|]). lia.
Qed.

Lemma random_runes_ok intn i n :
  (∀ j, intn j < 26)%nat →
  ∃ s, random_runes intn i n = Ok s ∧ String.length s = n ∧ string_all is_lower s = true.
Proof.
  intros Hintn. revert i. induction n as [|n IH]; intros i; cbn [random_runes]; [by exists ""|].
  destruct (letters_get (intn i) (Hintn i)) as (c & -> & Hc).
  destruct (IH (S i)) as (s & -> & Hlen & Hall). exists (String c s).
  simpl. by rewrite Hlen, Hc, Hall.
Qed.

(** ** WithTimeout *)

Module WithTimeout.
(** Program counter of the goroutine that runs the payload. *)
Inductive gpc := GPayload | GCheck | GSend | GDone | GPanicked.
(** Program counter of the caller: blocked in [select]; in the timer case
    before the assignment; running the deferred [timer.Stop()] and then
    [close(ch)]; returned. *)
Inductive mpc := MSelect | MSetFlag | MStopTimer (ret : bool) | MClose (ret : bool) | MReturned (ret : bool).

Global Instance gpc_eq_dec : EqDecision gpc.
Proof. solve_decision. Defined.
Global Instance mpc_eq_dec : EqDecision mpc.
Proof. solve_decision. Defined.

Record state := State {
  g : gpc;
  m : mpc;
  timeoutHappened : bool;
  ch : list bool;          (** buffer of the channel, capacity 1 *)
  ch_closed : bool;
  timer_fired : bool;
}.

Definition init : state := State GPayload MSelect false [] false false.

Inductive label :=
  | PayloadReturns    (** [payload()] returns *)
  | ReadFlag          (** [if !timeoutHappened] *)
  | SendTrue          (** [ch <- true] *)
  | TimerFires        (** the timeout elapses *)
  | SelectCh          (** [case <-ch: return false] *)
  | SelectTimer       (** [case <-timer.C:] *)
  | SetFlag           (** [timeoutHappened = true] *)
  | DeferStop         (** deferred [timer.Stop()] *)
  | DeferClose.       (** deferred [close(ch)] *)

Definition step (l : label) (s : state) : option state :=
  let '(State g m flag buf closed fired) := s in
  match l, g, m with
  | PayloadReturns, GPayload, _ => Some (State GCheck m flag buf closed fired)
  | ReadFlag, GCheck, _ =>
      Some (State (if flag then GDone else GSend) m flag buf closed fired)
  | SendTrue, GSend, _ =>
      if closed then Some (State GPanicked m flag buf closed fired)
      else if decide (length buf < 1)
           then Some (State GDone m flag (buf ++ [true]) closed fired)
           else None
  | TimerFires, _, _ =>
      match m with
      | MSelect => if fired then None else Some (State g m flag buf closed true)
      | _ => None
      end
  | SelectCh, _, MSelect =>
      match buf with
      | _ :: buf => Some (State g (MStopTimer false) flag buf closed fired)
      | [] => None
      end
  | SelectTimer, _, MSelect =>
      if fired then Some (State g MSetFlag flag buf closed fired) else None
  | SetFlag, _, MSetFlag => Some (State g (MStopTimer true) true buf closed fired)
  | DeferStop, _, MStopTimer r => Some (State g (MClose r) flag buf closed fired)
  | DeferClose, _, MClose r => Some (State g (MReturned r) flag buf true fired)
  | _, _, _ => None
  end.

Definition steps (ls : list label) (s : state) : option state :=
  foldl (λ os l, os ≫= step l) (Some s) ls.

Definition next (s s' : state) : Prop := ∃ l, step l s = Some s'.
Definition reachable : state → Prop := rtc next init.

(** The payload has returned. *)
Definition payload_done (s : state) : bool :=
  match g s with GPayload => false | _ => true end.

(** What every reachable state satisfies. *)
Record inv (s : state) : Prop := {
  inv_flag : timeoutHappened s = true → timer_fired s = true;
  inv_setflag : m s = MSetFlag → timer_fired s = true;
  inv_true : m s = MStopTimer true ∨ m s = MClose true ∨ m s = MReturned true →
    timeoutHappened s = true;
  inv_buf : ch s ≠ [] → g s = GDone;
  inv_false : m s = MStopTimer false ∨ m s = MClose false ∨ m s = MReturned false →
    g s = GDone;
  inv_closed : ch_closed s = true → ∃ r, m s = MReturned r;
  inv_panic : g s = GPanicked → ch_closed s = true;
}.

Lemma wt_inv_init : inv init.
Proof. split; naive_solver. Qed.

Lemma inv_step s s' : inv s → next s s' → inv s'.
Proof.
  intros [] [l Hl]. destruct s as [pg pm flag buf closed fired].
  destruct l; simpl in Hl; repeat case_match; simplify_eq/=;
    split; simpl in *; naive_solver.
Qed.

Lemma wt_reachable_inv s : reachable s → inv s.
Proof.
  apply rtc_invariant; [apply wt_inv_init|]. eauto using inv_step.
Qed.

(** Number of caller steps left once the timer has fired. *)
Definition caller_rank (s : state) : nat :=
  match m s with
  | MSelect => 4 | MSetFlag => 3 | MStopTimer _ => 2 | MClose _ => 1 | MReturned _ => 0
  end.

Definition caller_next (s : state) : label :=
  match m s with
  | MSelect => SelectTimer | MSetFlag => SetFlag | MStopTimer _ => DeferStop
  | _ => DeferClose
  end.

Lemma caller_progress s :
  (m s = MSelect → timer_fired s = true) → caller_rank s ≠ 0 →
  ∃ s', step (caller_next s) s = Some s' ∧ caller_rank s' < caller_rank s ∧ m s' ≠ MSelect.
Proof.
  destruct s as [pg pm flag buf closed fired]; unfold caller_rank, caller_next; simpl.
  intros Hf Hr. destruct pm; simpl in *; try rewrite Hf by done;
    try done; eexists; (split; [by destruct pg|]); simpl; (split; [lia|done]).
Qed.

Lemma caller_returns s :
  (m s = MSelect → timer_fired s = true) → ∃ s' r, rtc next s s' ∧ m s' = MReturned r.
Proof.
  intros Hf.
  destruct (rtc_measure next (λ s, m s = MSelect → timer_fired s = true) caller_rank s)
    as (s' & Hrtc & _ & H0); [done| |].
  - intros a Ha H0. destruct (caller_progress a Ha H0) as (b & Hb & Hlt & Hm).
    exists b. split; [by eexists|]. split; [done|done].
  - exists s'. unfold caller_rank in H0. destruct (m s') eqn:Hm; try done. eauto.
Qed.
End WithTimeout.

(** ** Properties *)

(** C35: [WithTimeout] reports faithfully.  In every interleaving of the caller,
    the payload goroutine and the timer, a returned [false] means the payload
    has run to completion, and a returned [true] means the timeout elapsed and
    the flag that tells the goroutine not to answer is set. *)
Theorem with_timeout_result_sound (s : WithTimeout.state) :
  WithTimeout.reachable s →
  (WithTimeout.m s = WithTimeout.MReturned false → WithTimeout.g s = WithTimeout.GDone) ∧
  (WithTimeout.m s = WithTimeout.MReturned true →
     WithTimeout.timer_fired s = true ∧ WithTimeout.timeoutHappened s = true).
Proof. intros Hs%WithTimeout.wt_reachable_inv. destruct Hs. naive_solver. Qed.

(** The run in which the payload answers before the timeout. *)
Definition wt_fast_run : list WithTimeout.label :=
  [WithTimeout.PayloadReturns; WithTimeout.ReadFlag; WithTimeout.SendTrue;
   WithTimeout.SelectCh; WithTimeout.DeferStop; WithTimeout.DeferClose].

Lemma steps_rtc ls s s' : WithTimeout.steps ls s = Some s' → rtc WithTimeout.next s s'.
Proof.
  revert s. unfold WithTimeout.steps.
  induction ls as [|l ls IH]; intros s; simpl; [by intros [= ->]|].
  destruct (WithTimeout.step l s) as [s1|] eqn:Hl.
  - intros Hs. eapply rtc_l; [by exists l|]. by apply IH.
  - intros Hs. exfalso. clear -Hs. induction ls; simpl in Hs; [done|auto].
Qed.

Lemma with_timeout_result_sound_witness :
  ∃ s, WithTimeout.steps wt_fast_run WithTimeout.init = Some s ∧
       WithTimeout.m s = WithTimeout.MReturned false ∧ WithTimeout.g s = WithTimeout.GDone.
Proof.
  eexists. split; [reflexivity|]. split; [reflexivity|].
  apply with_timeout_result_sound; [|reflexivity].
  apply (steps_rtc wt_fast_run). reflexivity.
Defined.

(** [WithTimeout] always comes back: from every state in which the timer has
    fired, or the caller has left its [select], the caller reaches its return,
    whatever the payload does. *)
Theorem with_timeout_caller_returns (s : WithTimeout.state) :
  WithTimeout.timer_fired s = true ∨ WithTimeout.m s ≠ WithTimeout.MSelect →
  ∃ s' r, rtc WithTimeout.next s s' ∧ WithTimeout.m s' = WithTimeout.MReturned r.
Proof. intros H. apply WithTimeout.caller_returns. naive_solver. Qed.

Lemma with_timeout_caller_returns_witness :
  ∃ s' r, rtc WithTimeout.next
    (WithTimeout.State WithTimeout.GPayload WithTimeout.MSelect false [] false true) s'
    ∧ WithTimeout.m s' = WithTimeout.MReturned r.
Proof.
  apply with_timeout_caller_returns. left. reflexivity.
Defined.

(** The flag does not protect the send.  There is an interleaving in which
    the goroutine reads [timeoutHappened] as false, the timer then fires, the
    caller returns [true] and closes [ch], and the goroutine's send panics on
    the closed channel; a panic can only happen once the caller has returned. *)
Theorem with_timeout_send_on_closed :
  (∃ s, WithTimeout.reachable s ∧ WithTimeout.g s = WithTimeout.GPanicked ∧
        WithTimeout.m s = WithTimeout.MReturned true) ∧
  (∀ s, WithTimeout.reachable s → WithTimeout.g s = WithTimeout.GPanicked →
        WithTimeout.m s = WithTimeout.MReturned true).
Proof.
  split.
  - eexists. split.
    + apply (steps_rtc [WithTimeout.PayloadReturns; WithTimeout.ReadFlag;
        WithTimeout.TimerFires; WithTimeout.SelectTimer; WithTimeout.SetFlag;
        WithTimeout.DeferStop; WithTimeout.DeferClose; WithTimeout.SendTrue]).
      reflexivity.
    + done.
  - intros s Hs%WithTimeout.wt_reachable_inv Hg. destruct Hs.
    destruct inv_closed as [[] Hm]; [auto|done|].
    rewrite inv_false in Hg by auto. done.
Qed.

(** [RandomString n] is a string of exactly [n] lower-case letters, and no
    draw indexes outside the alphabet, for every sequence of results of
    [rand.Intn(26)]. *)
Theorem RandomString_spec (intn : nat → nat) (n : Z) :
  (0 ≤ n)%Z → (∀ j, intn j < 26)%nat →
  ∃ s, RandomString intn n = Ok s ∧ String.length s = Z.to_nat n ∧
       string_all is_lower s = true.
Proof.
  intros Hn Hintn. unfold RandomString. rewrite decide_False by lia.
  by apply random_runes_ok.
Qed.

Lemma RandomString_spec_witness :
  ∃ s, RandomString (λ j, j `mod` 26) 10 = Ok s ∧ String.length s = Z.to_nat 10 ∧
       string_all is_lower s = true.
Proof.
  apply RandomString_spec; [lia|]. intros j. apply Nat.mod_upper_bound. lia.
Defined.
