(* ===== verification/Metrics.v ===== *)
(** * pkg/metrics and pkg/emitter: metrics, envelopes and their emission

    [Metric] and [MetricEnvelope] are the structs of pkg/metrics.  The interface
    [MetricsEmitter] is a class over the emitter's state, with two instances:
    the standard-output emitter (its state is the text written so far) and the
    loggregator emitter (its state is the ingress client of go-loggregator, a
    third-party type described by the class [LoggregatorAPI]). *)

From S2P Require Import Prelude GoStrings.
From Stdlib Require Import SpecFloat.
From stdpp Require Import options.

(** ** Data *)

(** IEEE 754 binary64 values: sign, significand and exponent, as in the
    specification floats of the Standard Library. *)
Abbreviation float64 := spec_float.

Global Instance float64_eq_dec : EqDecision float64.
Proof. solve_decision. Defined.

Definition float64_zero : float64 := S754_zero false.
(** Conversion of an [int64], rounded to nearest even. *)
Definition float64_of_int (z : Z) : float64 := binary_normalize 53 1024 z 0 false.

Record Metric := mkMetric {
  Key : string;
  Timestamp : Z;
  Value : float64;
  Unit : string;
  Tags : gmap string string;
}.

Record MetricEnvelope := mkEnvelope {
  InstanceGUID : string;
  envMetric : Metric;
}.

Global Instance Metric_eq_dec : EqDecision Metric.
Proof. solve_decision. Defined.
Global Instance MetricEnvelope_eq_dec : EqDecision MetricEnvelope.
Proof. solve_decision. Defined.

(** ** The emitter interface

    [Emit now me e] is the effect of [Emit(me)] on the emitter's state [e], with
    [now] the wall clock in nanoseconds at the call. *)
Class MetricsEmitter (E : Type) := Emit : Z → MetricEnvelope → E → outcome E.

(** ** StdOutEmitter *)

Section stdout.
(** The [%v] rendering of a float64. *)
Context (fmt_float : float64 → string).

(** [fmt] prints maps in key order. *)
Definition sorted_tags (tags : gmap string string) : list (string * string) :=
  merge_sort (λ p q, String.le p.1 q.1) (map_to_list tags).

Definition fmt_tags (tags : gmap string string) : string :=
  "map[" +:+ Join ((λ p, p.1 +:+ ":" +:+ p.2) <$> sorted_tags tags) " " +:+ "]".

Definition fmt_Metric (m : Metric) : string :=
  "{" +:+ Join [Key m; Itoa (Timestamp m); fmt_float (Value m); Unit m; fmt_tags (Tags m)] " "
      +:+ "}".

Definition fmt_MetricEnvelope (me : MetricEnvelope) : string :=
  "{" +:+ InstanceGUID me +:+ " " +:+ fmt_Metric (envMetric me) +:+ "}".

Definition newline : string := String (ascii_of_nat 10) "".

(** State: the text already written to standard output. *)
Definition StdOutEmitter_Emit : MetricsEmitter string := λ _ me out,
  Ok (out +:+ "============> " +:+ fmt_MetricEnvelope me +:+ newline).
End stdout.

(** ** LoggregatorEmitter *)

(** go-loggregator and the generated protobuf types, not part of this
    repository.  A gauge option is a function on a [proto.Message], here the
    dynamic type [message]. *)
Class LoggregatorAPI := {
  LEnvelope : Type;
  set_LTimestamp : Z → LEnvelope → LEnvelope;
  IngressClient : Type;
  TLSConfig : Type;
  ClientOption : Type;
  NewIngressTLSConfig : string → string → string → outcome TLSConfig;
  WithAddr : string → ClientOption;
  WithTag : string → string → ClientOption;
  NewIngressClient : TLSConfig → list ClientOption → outcome IngressClient;
  WithGaugeValue : string → float64 → string → LEnvelope → LEnvelope;
  WithGaugeSourceInfo : string → string → LEnvelope → LEnvelope;
  WithEnvelopeTags : gmap string string → LEnvelope → LEnvelope;
  (** The envelope [EmitGauge] allocates, and the hand-over to the sender. *)
  newGaugeEnvelope : IngressClient → Z → LEnvelope;
  enqueue : LEnvelope → IngressClient → IngressClient;
}.

Record LoggregatorEmitterConfig := mkLoggregatorEmitterConfig {
  MetronURL : string;
  CACertPath : string;
  CertPath : string;
  KeyPath : string;
}.

Section loggregator.
Context `{LoggregatorAPI}.

Inductive message :=
  | MEnvelope (e : LEnvelope)
  | MOther (type_name : string).

Definition EmitGaugeOption : Type := message → outcome message.

(** An option of the library, which expects an envelope. *)
Definition lib_option (f : LEnvelope → LEnvelope) : EmitGaugeOption := λ m,
  match m with
  | MEnvelope e => Ok (MEnvelope (f e))
  | MOther t => Panic ("unsupported Message type: " +:+ t)
  end.

Definition WithTimestamp (timestamp : Z) : EmitGaugeOption := λ m,
  match m with
  | MEnvelope e => Ok (MEnvelope (set_LTimestamp timestamp e))
  | MOther t => Panic ("unsupported Message type: " +:+ t)
  end.

(** [EmitGauge] allocates a gauge envelope stamped with the current time,
    applies the options in order and hands the envelope to the sender. *)
Definition EmitGauge (now : Z) (opts : list EmitGaugeOption) (c : IngressClient)
  : outcome IngressClient :=
  m ← foldl (λ om o, om ≫= o) (Ok (MEnvelope (newGaugeEnvelope c now))) opts;
  match m with
  | MEnvelope e => Ok (enqueue e c)
  | MOther t => Panic ("unsupported Message type: " +:+ t)
  end.

Definition NewLoggregatorEmitter (cfg : LoggregatorEmitterConfig) : outcome IngressClient :=
  tlsConfig ← NewIngressTLSConfig (CACertPath cfg) (CertPath cfg) (KeyPath cfg);
  NewIngressClient tlsConfig
    [WithAddr (MetronURL cfg); WithTag "origin" "rds-metrics-collector"].

Definition emit_timestamp (now : Z) (me : MetricEnvelope) : Z :=
  if decide (Timestamp (envMetric me) ≠ 0%Z) then Timestamp (envMetric me) else now.

Definition LoggregatorEmitter_Emit : MetricsEmitter IngressClient := λ now me c,
  let timestamp := emit_timestamp now me in
  EmitGauge now
    [ lib_option (WithGaugeValue (Key (envMetric me)) (Value (envMetric me)) (Unit (envMetric me)));
      lib_option (WithGaugeSourceInfo (InstanceGUID me) "0");
      WithTimestamp timestamp;
      lib_option (WithEnvelopeTags (Tags (envMetric me))) ] c.

Lemma LoggregatorEmitter_Emit_eq now me c :
  LoggregatorEmitter_Emit now me c =
  Ok (enqueue
    (WithEnvelopeTags (Tags (envMetric me))
      (set_LTimestamp (emit_timestamp now me)
        (WithGaugeSourceInfo (InstanceGUID me) "0"
          (WithGaugeValue (Key (envMetric me)) (Value (envMetric me)) (Unit (envMetric me))
            (newGaugeEnvelope c now))))) c).
Proof. done. Qed.
End loggregator.

(** What the documentation of go-loggregator says its options do, stated on the
    fields of the envelope that reach the server. *)
Class LoggregatorLaws `{LoggregatorAPI} := {
  l_timestamp : LEnvelope → Z;
  l_source : LEnvelope → string * string;
  l_gauges : LEnvelope → gmap string (string * float64);
  l_tags : LEnvelope → gmap string string;
  l_queue : IngressClient → list LEnvelope;
  l_enqueue e c : l_queue (enqueue e c) = l_queue c ++ [e];
  l_new c now : l_gauges (newGaugeEnvelope c now) = ∅;
  l_gauge k v u e :
    l_gauges (WithGaugeValue k v u e) = <[k := (u, v)]> (l_gauges e) ∧
    l_tags (WithGaugeValue k v u e) = l_tags e;
  l_src i n e :
    l_source (WithGaugeSourceInfo i n e) = (i, n) ∧
    l_gauges (WithGaugeSourceInfo i n e) = l_gauges e ∧
    l_tags (WithGaugeSourceInfo i n e) = l_tags e;
  l_settime t e :
    l_timestamp (set_LTimestamp t e) = t ∧
    l_source (set_LTimestamp t e) = l_source e ∧
    l_gauges (set_LTimestamp t e) = l_gauges e ∧
    l_tags (set_LTimestamp t e) = l_tags e;
  l_settags g e :
    l_tags (WithEnvelopeTags g e) = g ∪ l_tags e ∧
    l_timestamp (WithEnvelopeTags g e) = l_timestamp e ∧
    l_source (WithEnvelopeTags g e) = l_source e ∧
    l_gauges (WithEnvelopeTags g e) = l_gauges e;
}.

(** A reference implementation of the library's interface: envelopes as records,
    the client as its constant tags and the queue of envelopes to send. *)
Module RefLoggregator.
Record envelope := mk {
  r_time : Z; r_source : string * string;
  r_gauges : gmap string (string * float64); r_tags : gmap string string }.
Record client := mkClient { r_const : gmap string string; r_queue : list envelope }.

Definition set_time t e := mk t (r_source e) (r_gauges e) (r_tags e).
Definition gauge k v u e := mk (r_time e) (r_source e) (<[k := (u, v)]> (r_gauges e)) (r_tags e).
Definition source i n e := mk (r_time e) (i, n) (r_gauges e) (r_tags e).
Definition tags g e := mk (r_time e) (r_source e) (r_gauges e) (g ∪ r_tags e).

Definition mk_client (_ : unit) (opts : list (gmap string string)) : outcome client :=
  Ok (mkClient (foldr (∪) ∅ opts) []).

Definition api : LoggregatorAPI := {|
  LEnvelope := envelope; set_LTimestamp := set_time; IngressClient := client;
  TLSConfig := unit; ClientOption := gmap string string;
  NewIngressTLSConfig ca cert key :=
    if decide (ca = "" ∨ cert = "" ∨ key = "") then Err "open : no such file or directory" else Ok tt;
  WithAddr _ := ∅; WithTag k v := {[k := v]};
  NewIngressClient := mk_client;
  WithGaugeValue := gauge; WithGaugeSourceInfo := source; WithEnvelopeTags := tags;
  newGaugeEnvelope c now := mk now ("", "") ∅ (r_const c);
  enqueue e c := mkClient (r_const c) (r_queue c ++ [e]);
|}.

Definition laws : @LoggregatorLaws api.
Proof.
  refine (@Build_LoggregatorLaws api r_time r_source r_gauges r_tags r_queue
            _ _ _ _ _ _); intros; repeat split; done.
Defined.
End RefLoggregator.

(** ** Properties *)

(** What one [Emit] sends to loggregator.  Exactly one envelope is added to
    the client's queue; it carries the metric's key, value and unit as its only
    gauge, the instance GUID as source with instance index 0, the metric's own
    timestamp when it is not zero and the current time otherwise, and every tag
    of the metric. *)
Theorem LoggregatorEmitter_Emit_envelope `{LoggregatorLaws} now me c :
  ∃ c' e, LoggregatorEmitter_Emit now me c = Ok c' ∧ l_queue c' = l_queue c ++ [e] ∧
    l_gauges e = {[ Key (envMetric me) := (Unit (envMetric me), Value (envMetric me)) ]} ∧
    l_source e = (InstanceGUID me, "0") ∧
    l_timestamp e = (if decide (Timestamp (envMetric me) = 0%Z) then now
                     else Timestamp (envMetric me)) ∧
    Tags (envMetric me) ⊆ l_tags e.
Proof.
  rewrite LoggregatorEmitter_Emit_eq. eexists _, _. split; [done|].
  rewrite l_enqueue. split; [done|].
  destruct me as [guid [k t v u g]]; simpl.
  repeat match goal with
    | |- context [l_gauges (WithEnvelopeTags ?g ?e)] => destruct (l_settags g e) as (-> & -> & -> & ->)
    | |- context [l_gauges (set_LTimestamp ?t ?e)] => destruct (l_settime t e) as (-> & -> & -> & ->)
    | |- context [l_gauges (WithGaugeSourceInfo ?i ?n ?e)] => destruct (l_src i n e) as (-> & -> & ->)
    | |- context [l_gauges (WithGaugeValue ?k ?v ?u ?e)] => destruct (l_gauge k v u e) as (-> & ->)
    end.
  rewrite l_new. split_and!; [done|done| |apply map_union_subseteq_l].
  unfold emit_timestamp; simpl. repeat case_decide; congruence.
Qed.

Lemma LoggregatorEmitter_Emit_envelope_witness :
  let me := mkEnvelope "guid" (mkMetric "cpu" 0 float64_zero "percent" ∅) in
  let c := RefLoggregator.mkClient ∅ [] in
  ∃ c' e, @LoggregatorEmitter_Emit RefLoggregator.api 42%Z me c = Ok c' ∧
    @l_queue _ RefLoggregator.laws c' = @l_queue _ RefLoggregator.laws c ++ [e] ∧
    @l_gauges _ RefLoggregator.laws e = {[ "cpu" := ("percent", float64_zero) ]} ∧
    @l_source _ RefLoggregator.laws e = ("guid", "0") ∧
    @l_timestamp _ RefLoggregator.laws e = 42%Z ∧
    (∅ : gmap string string) ⊆ @l_tags _ RefLoggregator.laws e.
Proof.
  apply (@LoggregatorEmitter_Emit_envelope RefLoggregator.api RefLoggregator.laws 42%Z
           (mkEnvelope "guid" (mkMetric "cpu" 0 float64_zero "percent" ∅))).
Defined.

(** The emitter in use on a concrete metric, with the reference client. *)
Example Emit_example :
  let m := mkMetric "cpu" 0 float64_zero "percent" {["source" := "cloudwatch"]} in
  @LoggregatorEmitter_Emit RefLoggregator.api 42%Z (mkEnvelope "guid" m)
    (RefLoggregator.mkClient {["origin" := "rds-metrics-collector"]} []) =
  Ok (RefLoggregator.mkClient {["origin" := "rds-metrics-collector"]}
    [RefLoggregator.mk 42 ("guid", "0") {["cpu" := ("percent", float64_zero)]}
       ({["source" := "cloudwatch"]} ∪ {["origin" := "rds-metrics-collector"]})]).
Proof. reflexivity. Qed.
