(* ===== verification/BrokerInfo.v ===== *)
(** * pkg/brokerinfo: which instances exist and how to reach them

    The interface [BrokerInfo] is a class over the state [W] of the outside
    world at the time of a call.  [RDSBrokerInfo] implements it on top of the
    third-party interface [awsrds.RDSInstance] and the hash function
    [utils.GenerateHash] of the RDS broker, both parameters here. *)

From S2P Require Import Prelude GoStrings.
From stdpp Require Import options.

(** ** Data and interface (brokerinfo.go) *)

Record InstanceInfo := mkInstanceInfo {
  GUID : string;
  Type_ : string;
}.

Record InstanceConnectionDetails := mkDetails {
  DBAddress : string;
  DBPort : Z;
  DBName : string;
  MasterUsername : string;
  MasterPassword : string;
}.

Global Instance InstanceInfo_eq_dec : EqDecision InstanceInfo.
Proof. solve_decision. Defined.
Global Instance InstanceConnectionDetails_eq_dec : EqDecision InstanceConnectionDetails.
Proof. solve_decision. Defined.

Class BrokerInfo (W : Type) := {
  ListInstances : W → outcome (list InstanceInfo);
  GetInstanceConnectionDetails : InstanceInfo → W → outcome InstanceConnectionDetails;
  GetInstanceName : InstanceInfo → string;
}.

(** ** The AWS types used (pointers are options) *)

Record Endpoint := mkEndpoint {
  Address : option string;
  Port : option Z;
}.

Record DBInstance := mkDBInstance {
  DBInstanceIdentifier : option string;
  Engine : option string;
  EndpointPtr : option Endpoint;
  MasterUsernamePtr : option string;
  DBNamePtr : option string;
}.

Class RDSInstance (W : Type) := {
  DescribeByTag : string → string → W → outcome (list (option DBInstance));
  Describe : string → W → outcome (option DBInstance);
}.

(** ** RDSBrokerInfo (rdsbrokerinfo.go) *)

Definition MasterPasswordLength : Z := 32.

Record RDSBrokerInfoConfig := mkRDSBrokerInfoConfig {
  cfgDBPrefix : string;
  cfgBrokerName : string;
  cfgMasterPasswordSeed : string;
}.

Record RDSBrokerInfo := mkRDSBrokerInfo {
  brokerName : string;
  dbPrefix : string;
  masterPasswordSeed : string;
}.

Definition NewRDSBrokerInfo (c : RDSBrokerInfoConfig) : RDSBrokerInfo :=
  mkRDSBrokerInfo (cfgBrokerName c) (cfgDBPrefix c) (cfgMasterPasswordSeed c).

Definition stringValue (p : option string) : string := default "" p.
Definition int64Value (p : option Z) : Z := default 0%Z p.

Definition getEndpointPort (e : option Endpoint) : Z :=
  match e with Some e => int64Value (Port e) | None => 0%Z end.
Definition getEndpointAddress (e : option Endpoint) : string :=
  match e with Some e => stringValue (Address e) | None => "" end.

Definition hyphenate (s : string) : string := Replace s "_" "-".

Definition dbInstanceIdentifier (r : RDSBrokerInfo) (instanceGUID : string) : string :=
  hyphenate (dbPrefix r) +:+ "-" +:+ hyphenate instanceGUID.

Definition dbInstanceIdentifierToServiceInstanceID (r : RDSBrokerInfo) (id : string) : string :=
  TrimPrefix id (hyphenate (dbPrefix r) +:+ "-").

Definition supported_engine (engine : string) : bool :=
  bool_decide (engine = "postgres") || bool_decide (engine = "mysql").

(** The body of the loop of [ListInstances], accumulating [serviceInstances]. *)
Definition list_step (r : RDSBrokerInfo) (acc : outcome (list InstanceInfo))
    (dbDetails : option DBInstance) : outcome (list InstanceInfo) :=
  serviceInstances ← acc;
  match dbDetails with
  | None => Panic "nil pointer dereference"
  | Some d =>
      let engine := stringValue (Engine d) in
      if negb (supported_engine engine) then Ok serviceInstances
      else Ok (serviceInstances ++
               [mkInstanceInfo
                  (dbInstanceIdentifierToServiceInstanceID r
                     (stringValue (DBInstanceIdentifier d)))
                  engine])
  end.

Section rds.
Context {W : Type} `{RDSInstance W}.
Context (GenerateHash : string → Z → string).
Context (r : RDSBrokerInfo).

Definition RDS_ListInstances (w : W) : outcome (list InstanceInfo) :=
  dbInstanceDetailsList ← DescribeByTag "Broker Name" (brokerName r) w;
  foldl (list_step r) (Ok []) dbInstanceDetailsList.

Definition generateMasterPassword (instanceGUID : string) : string :=
  GenerateHash (masterPasswordSeed r +:+ instanceGUID) MasterPasswordLength.

Definition RDS_GetInstanceConnectionDetails (i : InstanceInfo) (w : W)
  : outcome InstanceConnectionDetails :=
  if negb (bool_decide (Type_ i = "postgres")) && negb (bool_decide (Type_ i = "mysql"))
  then Err ("invalid instance type: " +:+ Type_ i)
  else
    p ← Describe (dbInstanceIdentifier r (GUID i)) w;
    match p with
    | None => Panic "nil pointer dereference"
    | Some d =>
        Ok {| DBAddress := getEndpointAddress (EndpointPtr d);
              DBPort := getEndpointPort (EndpointPtr d);
              MasterUsername := stringValue (MasterUsernamePtr d);
              MasterPassword := generateMasterPassword (GUID i);
              DBName := stringValue (DBNamePtr d) |}
    end.

Definition RDS_GetInstanceName (i : InstanceInfo) : string :=
  dbInstanceIdentifier r (GUID i).

Definition RDSBrokerInfo_BrokerInfo : BrokerInfo W := {|
  ListInstances := RDS_ListInstances;
  GetInstanceConnectionDetails := RDS_GetInstanceConnectionDetails;
  GetInstanceName := RDS_GetInstanceName;
|}.
End rds.

(** ** Lemmas *)

(** The instance info that one database of a supported engine is listed as. *)
Definition info_of (r : RDSBrokerInfo) (d : DBInstance) : InstanceInfo :=
  mkInstanceInfo
    (dbInstanceIdentifierToServiceInstanceID r (stringValue (DBInstanceIdentifier d)))
    (stringValue (Engine d)).

Definition is_supported (d : DBInstance) : Prop := supported_engine (stringValue (Engine d)) = true.
Global Instance is_supported_dec d : Decision (is_supported d).
Proof. unfold is_supported. apply _. Defined.

Section lemmas.
Context (r : RDSBrokerInfo).

Definition engine_type (i : InstanceInfo) : Prop := Type_ i = "postgres" ∨ Type_ i = "mysql".

Lemma list_step_panic p l : foldl (list_step r) (Panic p) l = Panic p.
Proof. by induction l. Qed.

Lemma list_step_types l acc infos :
  Forall engine_type acc → foldl (list_step r) (Ok acc) l = Ok infos → Forall engine_type infos.
Proof.
  revert acc. induction l as [|[d|] l IH]; intros acc Hacc; simpl; [by intros [= <-]| |].
  - destruct (supported_engine (stringValue (Engine d))) eqn:E; simpl; [|by apply IH].
    apply IH. apply Forall_app. split; [done|]. constructor; [|constructor].
    unfold supported_engine in E. apply orb_true_iff in E. rewrite !bool_decide_eq_true in E. done.
  - by rewrite list_step_panic.
Qed.

Lemma list_step_foldl (l : list DBInstance) acc :
  foldl (list_step r) (Ok acc) (Some <$> l) =
  Ok (acc ++ (info_of r <$> filter is_supported l)).
Proof.
  revert acc. induction l as [|d l IH]; intros acc; simpl.
  - by rewrite app_nil_r.
  - rewrite filter_cons. destruct (decide (is_supported d)) as [E|E].
    + unfold is_supported in E. rewrite E. simpl. rewrite IH. simpl.
      by rewrite <-(assoc_L (++)).
    + unfold is_supported in E. apply not_true_is_false in E. rewrite E. simpl.
      apply IH.
Qed.

Lemma supported_engine_true e : supported_engine e = true ↔ e = "postgres" ∨ e = "mysql".
Proof. unfold supported_engine. by rewrite orb_true_iff, !bool_decide_eq_true. Qed.

Lemma identifier_roundtrip guid :
  dbInstanceIdentifierToServiceInstanceID r (dbInstanceIdentifier r guid) = hyphenate guid.
Proof.
  unfold dbInstanceIdentifierToServiceInstanceID, dbInstanceIdentifier.
  by rewrite sapp_assoc, TrimPrefix_app.
Qed.

Lemma hyphenate_fixed s : hyphenate s = s ↔ lacks "_" s = true.
Proof.
  unfold hyphenate. split; [|apply Replace_id].
  intros <-. by apply Replace_lacks.
Qed.
End lemmas.

(** ** What a listing should contain, in terms of AWS *)

(** The databases the collector looks after. *)
Definition supported_db (d : DBInstance) : Prop :=
  Engine d = Some "postgres" ∨ Engine d = Some "mysql".
Global Instance supported_db_dec d : Decision (supported_db d).
Proof. unfold supported_db. apply _. Defined.

(** The identifier of the database of a service instance, with [rest] the GUID. *)
Definition identifier_of (r : RDSBrokerInfo) (rest : string) : string :=
  Replace (dbPrefix r) "_" "-" +:+ "-" +:+ rest.

(** [i] stands for the database [d]: the type is the engine, and the GUID is what
    follows the prefix in the identifier, or all of it without such a prefix. *)
Definition listed_as (r : RDSBrokerInfo) (i : InstanceInfo) (d : DBInstance) : Prop :=
  Engine d = Some (Type_ i) ∧
  let id := default "" (DBInstanceIdentifier d) in
  id = identifier_of r (GUID i) ∨ (GUID i = id ∧ ∀ rest, id ≠ identifier_of r rest).

(** The connection details of [d], the password being [pw]. *)
Definition details_of (d : DBInstance) (pw : string) : InstanceConnectionDetails :=
  mkDetails (default "" (EndpointPtr d ≫= Address)) (default 0%Z (EndpointPtr d ≫= Port))
    (default "" (DBNamePtr d)) (default "" (MasterUsernamePtr d)) pw.

Section spec_lemmas.
Context (r : RDSBrokerInfo).

Lemma is_supported_iff d : is_supported d ↔ supported_db d.
Proof.
  unfold is_supported, supported_db. rewrite supported_engine_true.
  destruct (Engine d); simpl; naive_solver.
Qed.

Lemma info_of_listed d : supported_db d → listed_as r (info_of r d) d.
Proof.
  intros Hd. split; [simpl; by destruct Hd as [-> | ->]|]. simpl.
  unfold dbInstanceIdentifierToServiceInstanceID, stringValue, TrimPrefix, identifier_of.
  set (id := default "" (DBInstanceIdentifier d)).
  destruct (strip_prefix (hyphenate (dbPrefix r) +:+ "-") id) as [rest|] eqn:Hs; simpl.
  - left. apply strip_prefix_Some in Hs. by rewrite sapp_assoc.
  - right. split; [done|]. intros rest Hid. rewrite sapp_assoc in Hid.
    apply strip_prefix_Some in Hid. unfold hyphenate in Hs. congruence.
Qed.

(** A nil database pointer ends the listing in a panic. *)
Lemma list_step_nil (l : list (option DBInstance)) acc :
  None ∈ l → foldl (list_step r) (Ok acc) l = Panic "nil pointer dereference".
Proof.
  revert acc. induction l as [|[d|] l IH]; intros acc Hin; [by apply elem_of_nil in Hin| |].
  - apply elem_of_cons in Hin as [?|Hin]; [done|]. simpl.
    destruct (negb _); by apply IH.
  - simpl. apply list_step_panic.
Qed.
End spec_lemmas.

(** ** A concrete AWS account, for the witnesses: the world is the list of
    databases, tags are not consulted. *)
Definition aws_of_list : RDSInstance (list DBInstance) := {|
  DescribeByTag _ _ w := Ok (Some <$> w);
  Describe id w :=
    match list_find (λ d, DBInstanceIdentifier d = Some id) w with
    | Some (_, d) => Ok (Some d)
    | None => Err "DBInstanceNotFound"
    end;
|}.

Definition sample_broker : RDSBrokerInfo := mkRDSBrokerInfo "mybroker" "rds_broker" "seed".
Definition sample_db : DBInstance :=
  mkDBInstance (Some "rds-broker-aaaa-bbbb") (Some "postgres")
    (Some (mkEndpoint (Some "db.example") (Some 5432%Z))) (Some "admin") (Some "main").
Definition sample_mysql : DBInstance :=
  mkDBInstance (Some "legacy-db") (Some "mysql") None None None.
Definition sample_other : DBInstance :=
  mkDBInstance (Some "rds-broker-cccc") (Some "oracle-ee") None None None.

(** ** Properties *)

(** C26: [ListInstances] returns one instance for each database of the broker's
    tag whose engine is postgres or mysql, in the order AWS lists them, and none
    for the others: its type is the engine, and its GUID is the part of the
    identifier after the hyphenated prefix and a hyphen, or the whole identifier
    when it does not start that way.  An AWS error is returned as it is, and a
    nil pointer in the answer of AWS is a run-time panic. *)
Theorem ListInstances_spec {W} `{RDSInstance W} (r : RDSBrokerInfo) (w : W) :
  (∀ dbs, DescribeByTag "Broker Name" (brokerName r) w = Ok (Some <$> dbs) →
     ∃ infos, RDS_ListInstances r w = Ok infos ∧
       Forall2 (listed_as r) infos (filter supported_db dbs)) ∧
  (∀ dbs, DescribeByTag "Broker Name" (brokerName r) w = Ok dbs → None ∈ dbs →
     RDS_ListInstances r w = Panic "nil pointer dereference") ∧
  (∀ e, DescribeByTag "Broker Name" (brokerName r) w = Err e → RDS_ListInstances r w = Err e).
Proof.
  unfold RDS_ListInstances. split_and!.
  - intros dbs ->. simpl. rewrite list_step_foldl. eexists. split; [done|]. simpl.
    rewrite (list_filter_iff _ supported_db _ is_supported_iff). apply Forall2_fmap_l, Forall_Forall2_diag.
    apply Forall_forall. intros d [Hd _]%list_elem_of_filter. by apply info_of_listed.
  - intros dbs ->. simpl. apply list_step_nil.
  - by intros e ->.
Qed.

Lemma ListInstances_spec_witness :
  ∃ infos, @RDS_ListInstances _ aws_of_list sample_broker [sample_db; sample_other; sample_mysql]
             = Ok infos ∧
    Forall2 (listed_as sample_broker) infos [sample_db; sample_mysql].
Proof.
  exact (proj1 (@ListInstances_spec _ aws_of_list sample_broker
    [sample_db; sample_other; sample_mysql]) [sample_db; sample_other; sample_mysql] eq_refl).
Defined.

(** C27: the two name conversions are inverse on hyphenated names.  Stripping the
    prefix of an identifier gives back the GUID with its underscores turned into
    hyphens, so a GUID survives the trip exactly when it has no underscore; and
    an identifier that starts with the broker's prefix and has no underscore is
    rebuilt exactly from the GUID it was listed under. *)
Theorem dbInstanceIdentifier_roundtrip (r : RDSBrokerInfo) :
  (∀ guid, dbInstanceIdentifierToServiceInstanceID r (dbInstanceIdentifier r guid) = guid
           ↔ lacks "_" guid = true) ∧
  (∀ rest, lacks "_" rest = true →
     let id := hyphenate (dbPrefix r) +:+ "-" +:+ rest in
     dbInstanceIdentifier r (dbInstanceIdentifierToServiceInstanceID r id) = id).
Proof.
  split.
  - intros guid. rewrite identifier_roundtrip. apply hyphenate_fixed.
  - intros rest Hrest id. subst id.
    unfold dbInstanceIdentifierToServiceInstanceID.
    rewrite sapp_assoc, TrimPrefix_app. unfold dbInstanceIdentifier.
    rewrite (proj2 (hyphenate_fixed rest) Hrest). by rewrite sapp_assoc.
Qed.

Lemma dbInstanceIdentifier_roundtrip_witness :
  dbInstanceIdentifier sample_broker
    (dbInstanceIdentifierToServiceInstanceID sample_broker "rds-broker-aaaa-bbbb")
  = "rds-broker-aaaa-bbbb".
Proof. exact (proj2 (dbInstanceIdentifier_roundtrip sample_broker) "aaaa-bbbb" eq_refl). Defined.

(** C28: the connection details of a listed instance are those of the database it
    was listed from.  Suppose the databases of the broker's tag are named as the
    broker names them, by the hyphenated prefix, a hyphen and a rest without
    underscores, and AWS describes each of them under its identifier.  Then for
    every instance that [ListInstances] returns, [GetInstanceConnectionDetails]
    succeeds, with the endpoint, name and user of a database of the listing that
    has the instance's type as its engine and its GUID in its identifier, and with
    the password derived from the seed and the GUID; the name under which
    CloudWatch is asked about the instance is that database's identifier. *)
Theorem listed_instance_details {W} `{RDSInstance W} (GenerateHash : string → Z → string)
    (r : RDSBrokerInfo) (w : W) (dbs : list DBInstance) (infos : list InstanceInfo) i :
  DescribeByTag "Broker Name" (brokerName r) w = Ok (Some <$> dbs) →
  Forall (λ d, ∃ rest, DBInstanceIdentifier d = Some (identifier_of r rest) ∧
                       lacks "_" rest = true) dbs →
  (∀ d id, d ∈ dbs → DBInstanceIdentifier d = Some id → Describe id w = Ok (Some d)) →
  RDS_ListInstances r w = Ok infos → i ∈ infos →
  ∃ d, d ∈ dbs ∧ Engine d = Some (Type_ i) ∧
    DBInstanceIdentifier d = Some (identifier_of r (GUID i)) ∧
    RDS_GetInstanceConnectionDetails GenerateHash r i w
      = Ok (details_of d (GenerateHash (masterPasswordSeed r +:+ GUID i) 32%Z)) ∧
    DBInstanceIdentifier d = Some (RDS_GetInstanceName r i).
Proof.
  intros Hd Hnames Hdesc Hl Hi. unfold RDS_ListInstances in Hl. rewrite Hd in Hl. simpl in Hl.
  rewrite list_step_foldl in Hl. injection Hl as <-. simpl in Hi.
  apply list_elem_of_fmap in Hi as (d & -> & [Hsup Hin]%list_elem_of_filter).
  rewrite Forall_forall in Hnames. destruct (Hnames d Hin) as (rest & Hid & Hrest).
  pose proof (proj1 (is_supported_iff d) Hsup) as Hdb.
  assert (GUID (info_of r d) = rest) as Hguid.
  { simpl. rewrite Hid. unfold dbInstanceIdentifierToServiceInstanceID, identifier_of. simpl.
    unfold hyphenate. by rewrite sapp_assoc, TrimPrefix_app. }
  assert (dbInstanceIdentifier r rest = identifier_of r rest) as Hname.
  { unfold dbInstanceIdentifier, identifier_of. by rewrite (proj2 (hyphenate_fixed rest) Hrest). }
  exists d. unfold RDS_GetInstanceName, RDS_GetInstanceConnectionDetails, generateMasterPassword.
  rewrite Hguid, Hname, (Hdesc d (identifier_of r rest)) by done.
  split; [done|]. split; [simpl; by destruct Hdb as [-> | ->]|]. split; [done|]. split; [|done].
  assert (Type_ (info_of r d) = "postgres" ∨ Type_ (info_of r d) = "mysql") as Hty
    by (simpl; destruct Hdb as [-> | ->]; auto).
  unfold details_of. by destruct Hty as [-> | ->]; simpl; destruct (EndpointPtr d).
Qed.

Lemma listed_instance_details_witness :
  ∃ d, d ∈ [sample_other; sample_db] ∧ Engine d = Some "postgres" ∧
    DBInstanceIdentifier d = Some "rds-broker-aaaa-bbbb" ∧
    @RDS_GetInstanceConnectionDetails _ aws_of_list (λ s n, s) sample_broker
      (mkInstanceInfo "aaaa-bbbb" "postgres") [sample_other; sample_db]
    = Ok (details_of d "seedaaaa-bbbb") ∧
    DBInstanceIdentifier d =
      Some (RDS_GetInstanceName sample_broker (mkInstanceInfo "aaaa-bbbb" "postgres")).
Proof.
  apply (@listed_instance_details _ aws_of_list (λ s n, s) sample_broker
    [sample_other; sample_db] [sample_other; sample_db] [mkInstanceInfo "aaaa-bbbb" "postgres"]
    (mkInstanceInfo "aaaa-bbbb" "postgres")).
  - reflexivity.
  - constructor; [by exists "cccc"|]. constructor; [by exists "aaaa-bbbb"|constructor].
  - intros d id [->|[->|[]%elem_of_nil]%elem_of_cons]%elem_of_cons [= <-]; reflexivity.
  - reflexivity.
  - by left.
Defined.

(** Any other engine type is refused before AWS is asked, whatever the
    account holds. *)
Theorem GetInstanceConnectionDetails_bad_type {W} `{RDSInstance W}
    (GenerateHash : string → Z → string) (r : RDSBrokerInfo) i (w : W) :
  Type_ i ≠ "postgres" → Type_ i ≠ "mysql" →
  RDS_GetInstanceConnectionDetails GenerateHash r i w = Err ("invalid instance type: " +:+ Type_ i).
Proof.
  intros H1 H2. unfold RDS_GetInstanceConnectionDetails.
  by rewrite !bool_decide_eq_false_2.
Qed.

Lemma GetInstanceConnectionDetails_bad_type_witness :
  @RDS_GetInstanceConnectionDetails _ aws_of_list (λ s n, s) sample_broker
    (mkInstanceInfo "aaaa" "oracle-ee") [] = Err "invalid instance type: oracle-ee".
Proof.
  apply (@GetInstanceConnectionDetails_bad_type _ aws_of_list (λ s n, s) sample_broker
    (mkInstanceInfo "aaaa" "oracle-ee")); discriminate.
Defined.
