(* ===== verification/Config.v ===== *)
(** * pkg/config/config.go: the configuration

    The structs with their [json] and [validate] tags, [json.Unmarshal] into them
    (on the values of the file Json), [LoadConfig] and [Validate].  The embedded
    [locket.ClientLocketConfig], the file system and the validator library are
    classes; [ValidatorLaws] states the documented meaning of the tags used. *)

From S2P Require Import Prelude GoStrings Json Metrics BrokerInfo.
From stdpp Require Import options.

(** ** Decoding JSON values *)

(** Decoding updates the target in place and keeps the first type error; the
    messages leave out the path of the field. *)
Definition decoder (T : Type) : Type := json → T → T * option string.

Definition kind_of (j : json) : string :=
  match j with
  | JNull => "null" | JBool _ => "bool" | JNum lit => "number " +:+ lit
  | JStr _ => "string" | JArr _ => "array" | JObj _ => "object"
  end.
Definition type_error (j : json) (typ : string) : option string :=
  Some ("json: cannot unmarshal " +:+ kind_of j +:+ " into Go value of type " +:+ typ).

Definition dec_string : decoder string := λ j x,
  match j with
  | JStr s => (s, None)
  | JNull => (x, None)
  | _ => (x, type_error j "string")
  end.

Definition dec_int : decoder Z := λ j x,
  match j with
  | JNum lit => match Atoi lit with Some z => (z, None) | None => (x, type_error j "int") end
  | JNull => (x, None)
  | _ => (x, type_error j "int")
  end.

(** A pointer: [null] clears it, anything else is decoded into what it points
    to, a new zero if it was nil. *)
Definition dec_int_ptr : decoder (option Z) := λ j p,
  match j with
  | JNull => (None, None)
  | _ => let '(z, e) := dec_int j (default 0%Z p) in (Some z, e)
  end.

(** Keys match a field name exactly or up to case, with the two letters outside
    ASCII that fold to ASCII ones: U+017F to s and U+212A to k. *)
Fixpoint fold_key (s : string) : string :=
  match s with
  | EmptyString => EmptyString
  | String a s1 =>
      match s1 with
      | String b s2 =>
          if decide (a = byte 197 ∧ b = byte 191) then String "s" (fold_key s2)
          else match s2 with
               | String c s3 =>
                   if decide (a = byte 226 ∧ b = byte 132 ∧ c = byte 170) then String "k" (fold_key s3)
                   else String (lower a) (fold_key s1)
               | EmptyString => String (lower a) (fold_key s1)
               end
      | EmptyString => String (lower a) (fold_key s1)
      end
  end.

Definition fields (T : Type) : Type := list (string * decoder T).

Definition find_field {T} (fs : fields T) (k : string) : option (decoder T) :=
  match list_find (λ f, f.1 = k) fs with
  | Some (_, f) => Some f.2
  | None => match list_find (λ f, fold_key f.1 = fold_key k) fs with
            | Some (_, f) => Some f.2
            | None => None
            end
  end.

Definition first_error (e e' : option string) : option string :=
  match e with Some _ => e | None => e' end.

Definition dec_member {T} (fs : fields T) (acc : T * option string) (m : string * json)
  : T * option string :=
  match find_field fs m.1 with
  | Some dec => let '(x, e) := dec m.2 acc.1 in (x, first_error acc.2 e)
  | None => acc
  end.

Definition dec_struct {T} (typ : string) (fs : fields T) : decoder T := λ j x,
  match j with
  | JObj ms => foldl (dec_member fs) (x, None) ms
  | JNull => (x, None)
  | _ => (x, type_error j typ)
  end.

(** A field of a struct: how to read it, how to replace it. *)
Definition field {T A} (get : T → A) (set : A → T → T) (dec : decoder A) : decoder T := λ j x,
  let '(a, e) := dec j (get x) in (set a x, e).

(** ** The structs *)

Record AWSConfig := mkAWSConfig {
  Region : string;
  AWSPartition : string;
}.

Record SchedulerConfig := mkSchedulerConfig {
  InstanceRefreshInterval : Z;
  CollectorTimeoutMs : option Z;
  CollectorRetryIntervalMs : option Z;
  CollectorMaxRetries : option Z;
  SQLMetricCollectorInterval : Z;
  CWMetricCollectorInterval : Z;
}.

Inductive fval :=
  | FStr (s : string)
  | FInt (z : Z)
  | FIntPtr (p : option Z).

(** The embedded [locket.ClientLocketConfig]: its zero value, its JSON fields,
    its [validate] tags. *)
Class LocketAPI := {
  ClientLocketConfig : Type;
  zero_locket : ClientLocketConfig;
  locket_fields : fields ClientLocketConfig;
  locket_validated : ClientLocketConfig → list (string * string * fval);
}.

Record Config `{LocketAPI} := mkConfig {
  LogLevel : string;
  AWS : AWSConfig;
  cfgRDSBrokerInfo : RDSBrokerInfoConfig;
  cfgScheduler : SchedulerConfig;
  cfgLoggregatorEmitter : LoggregatorEmitterConfig;
  cfgLocket : ClientLocketConfig;
}.

Definition zero_aws : AWSConfig := mkAWSConfig "" "".
Definition zero_rds : RDSBrokerInfoConfig := mkRDSBrokerInfoConfig "" "" "".
Definition zero_scheduler : SchedulerConfig := mkSchedulerConfig 0 None None None 0 0.
Definition zero_loggregator : LoggregatorEmitterConfig := mkLoggregatorEmitterConfig "" "" "" "".
Definition zero_config `{LocketAPI} : Config :=
  mkConfig _ "" zero_aws zero_rds zero_scheduler zero_loggregator zero_locket.

Definition aws_fields : fields AWSConfig :=
  [ ("region", field Region (λ a x, mkAWSConfig a (AWSPartition x)) dec_string);
    ("aws_partition", field AWSPartition (λ a x, mkAWSConfig (Region x) a) dec_string) ].

Definition rds_fields : fields RDSBrokerInfoConfig :=
  [ ("db_prefix", field cfgDBPrefix (λ a x, mkRDSBrokerInfoConfig a (cfgBrokerName x) (cfgMasterPasswordSeed x)) dec_string);
    ("broker_name", field cfgBrokerName (λ a x, mkRDSBrokerInfoConfig (cfgDBPrefix x) a (cfgMasterPasswordSeed x)) dec_string);
    ("master_password_seed",
      field cfgMasterPasswordSeed (λ a x, mkRDSBrokerInfoConfig (cfgDBPrefix x) (cfgBrokerName x) a) dec_string) ].

Definition scheduler_fields : fields SchedulerConfig :=
  [ ("instance_refresh_interval", field InstanceRefreshInterval
      (λ a x, mkSchedulerConfig a (CollectorTimeoutMs x) (CollectorRetryIntervalMs x)
        (CollectorMaxRetries x) (SQLMetricCollectorInterval x) (CWMetricCollectorInterval x)) dec_int);
    ("collector_timeout_ms", field CollectorTimeoutMs
      (λ a x, mkSchedulerConfig (InstanceRefreshInterval x) a (CollectorRetryIntervalMs x)
        (CollectorMaxRetries x) (SQLMetricCollectorInterval x) (CWMetricCollectorInterval x)) dec_int_ptr);
    ("collector_retry_interval_ms", field CollectorRetryIntervalMs
      (λ a x, mkSchedulerConfig (InstanceRefreshInterval x) (CollectorTimeoutMs x) a
        (CollectorMaxRetries x) (SQLMetricCollectorInterval x) (CWMetricCollectorInterval x)) dec_int_ptr);
    ("collector_max_retries", field CollectorMaxRetries
      (λ a x, mkSchedulerConfig (InstanceRefreshInterval x) (CollectorTimeoutMs x)
        (CollectorRetryIntervalMs x) a (SQLMetricCollectorInterval x) (CWMetricCollectorInterval x)) dec_int_ptr);
    ("sql_metrics_collector_interval", field SQLMetricCollectorInterval
      (λ a x, mkSchedulerConfig (InstanceRefreshInterval x) (CollectorTimeoutMs x)
        (CollectorRetryIntervalMs x) (CollectorMaxRetries x) a (CWMetricCollectorInterval x)) dec_int);
    ("cloudwatch_metrics_collector_interval", field CWMetricCollectorInterval
      (λ a x, mkSchedulerConfig (InstanceRefreshInterval x) (CollectorTimeoutMs x)
        (CollectorRetryIntervalMs x) (CollectorMaxRetries x) (SQLMetricCollectorInterval x) a) dec_int) ].

Definition loggregator_fields : fields LoggregatorEmitterConfig :=
  [ ("url", field MetronURL
      (λ a x, mkLoggregatorEmitterConfig a (CACertPath x) (CertPath x) (KeyPath x)) dec_string);
    ("ca_cert", field CACertPath
      (λ a x, mkLoggregatorEmitterConfig (MetronURL x) a (CertPath x) (KeyPath x)) dec_string);
    ("client_cert", field CertPath
      (λ a x, mkLoggregatorEmitterConfig (MetronURL x) (CACertPath x) a (KeyPath x)) dec_string);
    ("client_key", field KeyPath
      (λ a x, mkLoggregatorEmitterConfig (MetronURL x) (CACertPath x) (CertPath x) a) dec_string) ].

Section config.
Context `{LocketAPI}.

Definition set_LogLevel (a : string) (c : Config) : Config :=
  mkConfig _ a (AWS c) (cfgRDSBrokerInfo c) (cfgScheduler c) (cfgLoggregatorEmitter c) (cfgLocket c).
Definition set_AWS (a : AWSConfig) (c : Config) : Config :=
  mkConfig _ (LogLevel c) a (cfgRDSBrokerInfo c) (cfgScheduler c) (cfgLoggregatorEmitter c) (cfgLocket c).
Definition set_RDSBrokerInfo (a : RDSBrokerInfoConfig) (c : Config) : Config :=
  mkConfig _ (LogLevel c) (AWS c) a (cfgScheduler c) (cfgLoggregatorEmitter c) (cfgLocket c).
Definition set_Scheduler (a : SchedulerConfig) (c : Config) : Config :=
  mkConfig _ (LogLevel c) (AWS c) (cfgRDSBrokerInfo c) a (cfgLoggregatorEmitter c) (cfgLocket c).
Definition set_LoggregatorEmitter (a : LoggregatorEmitterConfig) (c : Config) : Config :=
  mkConfig _ (LogLevel c) (AWS c) (cfgRDSBrokerInfo c) (cfgScheduler c) a (cfgLocket c).
Definition set_Locket (a : ClientLocketConfig) (c : Config) : Config :=
  mkConfig _ (LogLevel c) (AWS c) (cfgRDSBrokerInfo c) (cfgScheduler c) (cfgLoggregatorEmitter c) a.

(** The promoted fields of the embedded struct come after the struct's own. *)
Definition config_fields : fields Config :=
  [ ("log_level", field LogLevel set_LogLevel dec_string);
    ("aws", field AWS set_AWS (dec_struct "config.AWSConfig" aws_fields));
    ("rds_broker", field cfgRDSBrokerInfo set_RDSBrokerInfo
      (dec_struct "config.RDSBrokerInfoConfig" rds_fields));
    ("scheduler", field cfgScheduler set_Scheduler
      (dec_struct "config.SchedulerConfig" scheduler_fields));
    ("loggregator_emitter", field cfgLoggregatorEmitter set_LoggregatorEmitter
      (dec_struct "config.LoggregatorEmitterConfig" loggregator_fields)) ]
  ++ (prod_map id (field cfgLocket set_Locket) <$> locket_fields).

Definition dec_config : decoder Config := dec_struct "config.Config" config_fields.

(** [json.Unmarshal(data, &config)] *)
Definition Unmarshal (data : string) (c : Config) : Config * option string :=
  match parse_json data with
  | Some j => dec_config j c
  | None => (c, Some "invalid JSON")
  end.

Definition defaultConfig : string := dq "
{
	'log_level': 'INFO',
	'aws': {
		'aws_partition': 'aws'
	},
	'scheduler': {
		'instance_refresh_interval': 120,
		'sql_metrics_collector_interval': 180,
		'cloudwatch_metrics_collector_interval': 300
	},
	'loggregator_emitter': {
		'url': 'localhost:3458'
	}
}
".

(** ** Validation *)

(** [validate.Struct]: on the fields of the struct and of its nested structs,
    with their [validate] tags; the error, if any. *)
Class Validator := validate_Struct : list (string * string * fval) → option string.

Definition validated_fields (c : Config) : list (string * string * fval) :=
  [ ("LogLevel", "required", FStr (LogLevel c));
    ("Region", "required", FStr (Region (AWS c)));
    ("AWSPartition", "required", FStr (AWSPartition (AWS c)));
    ("DBPrefix", "required", FStr (cfgDBPrefix (cfgRDSBrokerInfo c)));
    ("BrokerName", "required", FStr (cfgBrokerName (cfgRDSBrokerInfo c)));
    ("MasterPasswordSeed", "required", FStr (cfgMasterPasswordSeed (cfgRDSBrokerInfo c)));
    ("InstanceRefreshInterval", "required,gte=1,lte=3600",
      FInt (InstanceRefreshInterval (cfgScheduler c)));
    ("CollectorTimeoutMs", "isdefault,gte=0,lte=15000",
      FIntPtr (CollectorTimeoutMs (cfgScheduler c)));
    ("CollectorRetryIntervalMs", "isdefault,gte=0,lte=10000",
      FIntPtr (CollectorRetryIntervalMs (cfgScheduler c)));
    ("CollectorMaxRetries", "isdefault,gte=0,lte=10",
      FIntPtr (CollectorMaxRetries (cfgScheduler c)));
    ("SQLMetricCollectorInterval", "required,gte=0,lte=3600",
      FInt (SQLMetricCollectorInterval (cfgScheduler c)));
    ("CWMetricCollectorInterval", "required,gte=0,lte=3600",
      FInt (CWMetricCollectorInterval (cfgScheduler c)));
    ("MetronURL", "required", FStr (MetronURL (cfgLoggregatorEmitter c)));
    ("CACertPath", "required", FStr (CACertPath (cfgLoggregatorEmitter c)));
    ("CertPath", "required", FStr (CertPath (cfgLoggregatorEmitter c)));
    ("KeyPath", "required", FStr (KeyPath (cfgLoggregatorEmitter c))) ]
  ++ locket_validated (cfgLocket c).

Definition Validate `{Validator} (c : Config) : option string := validate_Struct (validated_fields c).

(** ** LoadConfig *)

Class ConfigFS := {
  File : Type;
  os_Open : string → string + File;
  ReadAll : File → string + string;
}.

(** The loaded configuration and the error, as the code returns them. *)
Definition LoadConfig `{Validator} `{ConfigFS} (configFile : string) : Config * option string :=
  let config := zero_config in
  if decide (configFile = "") then (config, Some "Must provide a config file")
  else match os_Open configFile with
  | inl err => (config, Some err)
  | inr file =>
      match ReadAll file with
      | inl err => (config, Some err)
      | inr bytes =>
          let '(config, _) := Unmarshal defaultConfig config in
          let '(config, err) := Unmarshal bytes config in
          match err with
          | Some err => (config, Some err)
          | None =>
              match Validate config with
              | Some err => (config, Some ("Validating config contents: " +:+ err))
              | None => (config, None)
              end
          end
      end
  end.
End config.
