(* ===== verification/ConfigProps.v ===== *)
(** * What a loaded configuration guarantees

    The documented meaning of the [validate] tags; the defaults; which documents
    [LoadConfig] accepts and what it guarantees of the result; decoding what
    [json.Marshal] writes. *)

From S2P Require Import Prelude GoStrings Json Metrics BrokerInfo Config.
From stdpp Require Import options.

(** ** The documented meaning of the tags *)

(** One rule of a tag.  [required]: not the zero value; [isdefault]: the zero
    value; [gte], [lte]: bounds, on a number or on what a pointer points to. *)
Definition rule_ok (v : fval) (rule : string) : bool :=
  match Split rule "=" with
  | [r] =>
      let zero := match v with
                  | FStr s => bool_decide (s = "")
                  | FInt z => bool_decide (z = 0%Z)
                  | FIntPtr p => bool_decide (p = None)
                  end in
      if decide (r = "required") then negb zero
      else if decide (r = "isdefault") then zero else false
  | [r; n] =>
      match Atoi n, v with
      | Some b, FInt z | Some b, FIntPtr (Some z) =>
          if decide (r = "gte") then bool_decide (b ≤ z)%Z
          else if decide (r = "lte") then bool_decide (z ≤ b)%Z else false
      | Some b, FIntPtr None => true
      | _, _ => false
      end
  | _ => false
  end.

Definition tag_ok (tag : string) (v : fval) : bool := forallb (rule_ok v) (Split tag ",").

(** A struct is valid exactly when each of its fields satisfies its tag. *)
Class ValidatorLaws `{Validator} :=
  validate_spec fs : validate_Struct fs = None ↔ Forall (λ f : string * string * fval, tag_ok f.1.2 f.2 = true) fs.

(** A validator that checks just that. *)
Definition ref_Validator : Validator := λ fs,
  match list_find (λ f : string * string * fval, tag_ok f.1.2 f.2 = false) fs with
  | Some (_, f) => Some ("Key: '" +:+ f.1.1 +:+ "' failed on '" +:+ f.1.2 +:+ "'")
  | None => None
  end.

Lemma ref_ValidatorLaws : @ValidatorLaws ref_Validator.
Proof.
  intros fs. unfold validate_Struct, ref_Validator.
  destruct (list_find _ fs) as [[i f]|] eqn:E.
  - apply list_find_Some in E as (Hi & Hf & _). split; [done|]. intros Hall.
    rewrite Forall_lookup in Hall. specialize (Hall i f Hi). congruence.
  - apply list_find_None in E. split; [intros _|done].
    eapply Forall_impl; [exact E|]. intros f Hf. by apply not_false_is_true.
Qed.

(** ** Defaults *)

Definition default_config `{LocketAPI} : Config :=
  mkConfig _ "INFO" (mkAWSConfig "" "aws") zero_rds (mkSchedulerConfig 120 None None None 180 300)
    (mkLoggregatorEmitterConfig "localhost:3458" "" "" "") zero_locket.

(** ** Decoding: what is left alone *)

(** The document has the member [path], keys compared as the decoder does. *)
Fixpoint mentions (j : json) (path : list string) : Prop :=
  match path with
  | [] => True
  | k :: ks => match j with
               | JObj ms => Exists (λ m, fold_key m.1 = k ∧ mentions m.2 ks) ms
               | _ => False
               end
  end.

Global Instance mentions_dec path : ∀ j, Decision (mentions j path).
Proof.
  induction path as [|k ks IH]; intros j; simpl; [apply _|].
  destruct j; [right; tauto..|]. apply _.
Defined.

Lemma find_field_Some {T} (fs : fields T) k d :
  find_field fs k = Some d → ∃ f, f ∈ fs ∧ f.2 = d ∧ fold_key f.1 = fold_key k.
Proof.
  unfold find_field. destruct (list_find (λ f, f.1 = k) fs) as [[i f]|] eqn:E.
  - apply list_find_Some in E as (Hi & <- & _). intros [= <-].
    exists f. split_and!; [by eapply list_elem_of_lookup_2|done|done].
  - clear E. destruct (list_find _ fs) as [[i f]|] eqn:E; [|done].
    apply list_find_Some in E as (Hi & Heq & _). intros [= <-].
    exists f. split_and!; [by eapply list_elem_of_lookup_2|done|done].
Qed.

(** A part [get] of a struct that only the field [k] may change, and that field
    only through its member [ks]. *)
Definition guarded {T A} (get : T → A) (k : string) (ks : list string) (f : string * decoder T) : Prop :=
  ∀ j x, (fold_key f.1 = k → ¬ mentions j ks) → get (f.2 j x).1 = get x.

Lemma dec_struct_frame {T A} (get : T → A) k ks typ (fs : fields T) j x :
  Forall (guarded get k ks) fs → ¬ mentions j (k :: ks) →
  get (dec_struct typ fs j x).1 = get x.
Proof.
  intros Hfs Hj. destruct j as [| | | | |ms]; try done. simpl in Hj. unfold dec_struct.
  generalize (@None string) as e. revert x.
  induction ms as [|m ms IH]; intros x e; [done|]. rewrite Exists_cons in Hj.
  cbn [foldl]. unfold dec_member at 2. cbn [fst snd].
  destruct (find_field fs m.1) as [d|] eqn:Hf; [|apply IH; naive_solver].
  apply find_field_Some in Hf as (f & Hin & <- & Hk).
  destruct (f.2 m.2 x) as [x' e'] eqn:Hd. rewrite IH by naive_solver.
  rewrite Forall_forall in Hfs. specialize (Hfs f Hin m.2 x). rewrite Hd in Hfs. apply Hfs.
  intros Hfold Hm. apply Hj. left. split; congruence.
Qed.

(** Fields that set another part, and the field [k] itself, whole or inside. *)
Lemma guarded_other {T A B} (get : T → A) k ks name (get' : T → B) set dec :
  (∀ b x, get (set b x) = get x) → guarded get k ks (name, field get' set dec).
Proof. intros Hset j x _. unfold field. simpl. destruct (dec j (get' x)). apply Hset. Qed.

Lemma guarded_leaf {T A} (get : T → A) k (d : decoder T) : fold_key k = k → guarded get k [] (k, d).
Proof. intros Hk j x Hn. exfalso. by apply Hn. Qed.

Lemma guarded_inside {T A B} (get : T → A) k ks (get' : T → B) set (sub : B → A) typ fs k' :
  fold_key k' = k → (∀ b x, get (set b x) = sub b) → (∀ x, get x = sub (get' x)) →
  (∀ j b, ¬ mentions j ks → sub (dec_struct typ fs j b).1 = sub b) →
  guarded get k ks (k', field get' set (dec_struct typ fs)).
Proof.
  intros Hk Hset Hget Hsub j x Hn. unfold field. simpl.
  destruct (dec_struct typ fs j (get' x)) as [b e] eqn:E. simpl. rewrite Hset, Hget.
  specialize (Hsub j (get' x) (Hn Hk)). by rewrite E in Hsub.
Qed.

Ltac solve_guarded :=
  repeat apply Forall_cons_2; try apply Forall_nil_2;
  first [ by apply guarded_leaf | by apply guarded_other | idtac ].

Section props.
Context `{LocketAPI} `{Validator} `{ConfigFS}.

Lemma Unmarshal_default : Unmarshal defaultConfig zero_config = (default_config, None).
Proof. vm_compute. reflexivity. Qed.

Lemma LoadConfig_iff path c :
  LoadConfig path = (c, None) ↔
  path ≠ "" ∧ ∃ file bytes, os_Open path = inr file ∧ ReadAll file = inr bytes ∧
    Unmarshal bytes default_config = (c, None) ∧ Validate c = None.
Proof.
  unfold LoadConfig. case_decide as Hp; [split; [done|by intros [? _]]|].
  destruct (os_Open path) as [e|file]; [split; [done|by intros (_ & ? & ? & ? & _)]|].
  destruct (ReadAll file) as [e|bytes] eqn:Hr.
  { split; [done|]. intros (_ & ? & ? & ? & ? & _). congruence. }
  rewrite Unmarshal_default. split.
  - destruct (Unmarshal bytes default_config) as [c' [e|]] eqn:Hu; [done|].
    destruct (Validate c') eqn:Hv; [done|]. intros [= <-]. eauto 10.
  - intros (_ & file' & bytes' & [= <-] & Hb & Hu & Hv). rewrite Hr in Hb. injection Hb as ->.
    by rewrite Hu, Hv.
Qed.

(** ** Decoded values that are not mentioned *)

Lemma locket_guarded {A} (get : Config → A) k ks :
  (∀ l c, get (set_Locket l c) = get c) →
  Forall (guarded get k ks) (prod_map id (field cfgLocket set_Locket) <$> locket_fields).
Proof.
  intros Hget. apply Forall_fmap, Forall_forall. intros [name d] _. by apply guarded_other.
Qed.

Lemma scheduler_part_kept {A} (sub : SchedulerConfig → A) k j c :
  Forall (guarded sub k []) scheduler_fields → ¬ mentions j ["scheduler"; k] →
  sub (cfgScheduler (dec_config j c).1) = sub (cfgScheduler c).
Proof.
  intros Hsub. apply (dec_struct_frame (λ c, sub (cfgScheduler c)) "scheduler" [k]).
  apply Forall_app. split; [|by apply locket_guarded]. solve_guarded.
  apply (guarded_inside _ _ _ _ _ sub); [done|done|done|].
  intros. by apply (dec_struct_frame sub k []).
Qed.
End props.

(** ** Properties *)

(** C34: the defaults.  In a configuration that [LoadConfig] returns, every setting
    that has a default and that the document does not mention, with keys compared
    as the decoder compares them, has its default; the three optional collector
    settings are absent then. *)
Theorem LoadConfig_defaults `{LocketAPI} `{Validator} `{ConfigFS} path file bytes j c :
  os_Open path = inr file → ReadAll file = inr bytes → parse_json bytes = Some j →
  LoadConfig path = (c, None) →
  (¬ mentions j ["log_level"] → LogLevel c = "INFO") ∧
  (¬ mentions j ["aws"; "aws_partition"] → AWSPartition (AWS c) = "aws") ∧
  (¬ mentions j ["loggregator_emitter"; "url"] → MetronURL (cfgLoggregatorEmitter c) = "localhost:3458") ∧
  let s := cfgScheduler c in
  (¬ mentions j ["scheduler"; "instance_refresh_interval"] → InstanceRefreshInterval s = 120%Z) ∧
  (¬ mentions j ["scheduler"; "sql_metrics_collector_interval"] → SQLMetricCollectorInterval s = 180%Z) ∧
  (¬ mentions j ["scheduler"; "cloudwatch_metrics_collector_interval"] → CWMetricCollectorInterval s = 300%Z) ∧
  (¬ mentions j ["scheduler"; "collector_timeout_ms"] → CollectorTimeoutMs s = None) ∧
  (¬ mentions j ["scheduler"; "collector_retry_interval_ms"] → CollectorRetryIntervalMs s = None) ∧
  (¬ mentions j ["scheduler"; "collector_max_retries"] → CollectorMaxRetries s = None).
Proof.
  intros Ho Hr Hj (_ & file' & bytes' & Ho' & Hr' & Hu & _)%LoadConfig_iff.
  rewrite Ho in Ho'. injection Ho' as <-. rewrite Hr in Hr'. injection Hr' as <-.
  unfold Unmarshal in Hu. rewrite Hj in Hu.
  assert (c = (dec_config j default_config).1) as -> by (by rewrite Hu). clear Hu.
  cbv zeta. split_and!;
    try (match goal with |- _ → ?sub (cfgScheduler _) = _ =>
           apply (scheduler_part_kept sub _ j default_config); solve_guarded end).
  - intros Hm. apply (dec_struct_frame LogLevel "log_level" []); [|done].
    apply Forall_app. split; [|by apply locket_guarded]. solve_guarded.
  - intros Hm. apply (dec_struct_frame (λ c, AWSPartition (AWS c)) "aws" ["aws_partition"]); [|done].
    apply Forall_app. split; [|by apply locket_guarded]. solve_guarded.
    apply (guarded_inside _ _ _ _ _ AWSPartition); [done..|].
    intros. by apply (dec_struct_frame AWSPartition "aws_partition" []); [solve_guarded|].
  - intros Hm.
    apply (dec_struct_frame (λ c, MetronURL (cfgLoggregatorEmitter c)) "loggregator_emitter" ["url"]); [|done].
    apply Forall_app. split; [|by apply locket_guarded]. solve_guarded.
    apply (guarded_inside _ _ _ _ _ MetronURL); [done..|].
    intros. by apply (dec_struct_frame MetronURL "url" []); [solve_guarded|].
Qed.

(** A file system with one file, and no locket settings, for concrete runs. *)
Definition no_locket : LocketAPI := {|
  ClientLocketConfig := unit;
  zero_locket := tt;
  locket_fields := [];
  locket_validated _ := [];
|}.
Definition one_file (path text : string) : ConfigFS := {|
  File := unit;
  os_Open p := if decide (p = path) then inr tt else inl "no such file";
  ReadAll _ := inr text;
|}.

Definition sample_text : string := dq "{
  'aws': {'region': 'eu-west-1'},
  'RDS_broker': {'broker_name': 'hector', 'db_prefix': 'rdsbroker', 'master_password_seed': 'abc123'},
  'scheduler': {'sql_metrics_collector_interval': 60, 'comment': [1, 2]},
  'loggregator_emitter': {'ca_cert': '/ca', 'client_cert': '/cert', 'client_key': '/key'}
}".
Definition sample_loaded : @Config no_locket :=
  @mkConfig no_locket "INFO" (mkAWSConfig "eu-west-1" "aws")
    (mkRDSBrokerInfoConfig "rdsbroker" "hector" "abc123")
    (mkSchedulerConfig 120 None None None 60 300)
    (mkLoggregatorEmitterConfig "localhost:3458" "/ca" "/cert" "/key") tt.

Example LoadConfig_example :
  @LoadConfig no_locket ref_Validator (one_file "c.json" sample_text) "c.json" = (sample_loaded, None).
Proof. vm_compute. reflexivity. Qed.

Lemma LoadConfig_defaults_witness :
  InstanceRefreshInterval (cfgScheduler sample_loaded) = 120%Z ∧
  CollectorMaxRetries (cfgScheduler sample_loaded) = None.
Proof.
  destruct (@LoadConfig_defaults no_locket ref_Validator (one_file "c.json" sample_text) "c.json" tt
    sample_text (default JNull (parse_json sample_text)) sample_loaded) as (_ & _ & _ & Hs);
    [reflexivity|reflexivity|vm_compute; reflexivity|vm_compute; reflexivity|].
  cbv zeta in Hs. destruct Hs as (Hi & _ & _ & _ & _ & Hm). split.
  - apply Hi. apply (bool_decide_unpack _). vm_compute. exact I.
  - apply Hm. apply (bool_decide_unpack _). vm_compute. exact I.
Defined.

(** ** Validation *)

(** What the tags of the collector's own structs ask for. *)
Definition config_valid `{LocketAPI} (c : Config) : Prop :=
  Forall (λ s, s ≠ "")
    [ LogLevel c; Region (AWS c); AWSPartition (AWS c);
      cfgDBPrefix (cfgRDSBrokerInfo c); cfgBrokerName (cfgRDSBrokerInfo c);
      cfgMasterPasswordSeed (cfgRDSBrokerInfo c);
      MetronURL (cfgLoggregatorEmitter c); CACertPath (cfgLoggregatorEmitter c);
      CertPath (cfgLoggregatorEmitter c); KeyPath (cfgLoggregatorEmitter c) ] ∧
  let s := cfgScheduler c in
  (1 ≤ InstanceRefreshInterval s ≤ 3600)%Z ∧
  (1 ≤ SQLMetricCollectorInterval s ≤ 3600)%Z ∧
  (1 ≤ CWMetricCollectorInterval s ≤ 3600)%Z ∧
  CollectorTimeoutMs s = None ∧ CollectorRetryIntervalMs s = None ∧ CollectorMaxRetries s = None.

Lemma tag_required s : tag_ok "required" (FStr s) = true ↔ s ≠ "".
Proof.
  assert (tag_ok "required" (FStr s) = negb (bool_decide (s = "")) && true) as -> by reflexivity.
  rewrite andb_true_r, negb_true_iff. apply bool_decide_eq_false.
Qed.

Lemma tag_interval1 z : tag_ok "required,gte=1,lte=3600" (FInt z) = true ↔ (1 ≤ z ≤ 3600)%Z.
Proof.
  assert (tag_ok "required,gte=1,lte=3600" (FInt z) =
    negb (bool_decide (z = 0%Z)) && (bool_decide (1 ≤ z)%Z && (bool_decide (z ≤ 3600)%Z && true)))
    as -> by reflexivity.
  rewrite andb_true_r, !andb_true_iff, negb_true_iff, bool_decide_eq_false, !bool_decide_eq_true. lia.
Qed.

Lemma tag_interval0 z : tag_ok "required,gte=0,lte=3600" (FInt z) = true ↔ (1 ≤ z ≤ 3600)%Z.
Proof.
  assert (tag_ok "required,gte=0,lte=3600" (FInt z) =
    negb (bool_decide (z = 0%Z)) && (bool_decide (0 ≤ z)%Z && (bool_decide (z ≤ 3600)%Z && true)))
    as -> by reflexivity.
  rewrite andb_true_r, !andb_true_iff, negb_true_iff, bool_decide_eq_false, !bool_decide_eq_true. lia.
Qed.

(** [isdefault] leaves a pointer only one valid value, whatever the bounds. *)
Lemma tag_isdefault rest p :
  rest = "gte=0,lte=15000" ∨ rest = "gte=0,lte=10000" ∨ rest = "gte=0,lte=10" →
  tag_ok ("isdefault," +:+ rest) (FIntPtr p) = true ↔ p = None.
Proof. intros [->|[->| ->]]; destruct p; split; done. Qed.

Lemma validated_fields_spec `{LocketAPI} c :
  Forall (λ f : string * string * fval, tag_ok f.1.2 f.2 = true) (validated_fields c) ↔
  config_valid c ∧
  Forall (λ f : string * string * fval, tag_ok f.1.2 f.2 = true) (locket_validated (cfgLocket c)).
Proof.
  unfold validated_fields, config_valid. rewrite Forall_app. cbv zeta.
  rewrite !Forall_cons, !Forall_nil. cbn [fst snd].
  rewrite !tag_required, tag_interval1, !tag_interval0.
  rewrite (tag_isdefault "gte=0,lte=15000"), (tag_isdefault "gte=0,lte=10000"),
    (tag_isdefault "gte=0,lte=10") by auto.
  tauto.
Qed.

Lemma Validate_spec `{LocketAPI} `{ValidatorLaws} c :
  Validate c = None ↔ config_valid c ∧
  Forall (λ f : string * string * fval, tag_ok f.1.2 f.2 = true) (locket_validated (cfgLocket c)).
Proof. unfold Validate. by rewrite <-validated_fields_spec, <-(validate_spec (validated_fields c)). Qed.

(** C33: what [LoadConfig] accepts.  It returns a configuration without an error
    exactly when the file can be opened and read, its text decodes over the
    defaults without an error, and the result is valid: no required string is
    empty, the three intervals are between 1 and 3600 seconds, and (the
    [isdefault] tags) none of the three optional collector settings is present;
    the locket settings satisfy their own tags. *)
Theorem LoadConfig_accepts `{LocketAPI} `{ValidatorLaws} `{ConfigFS} path c :
  LoadConfig path = (c, None) ↔
  path ≠ "" ∧ ∃ file bytes, os_Open path = inr file ∧ ReadAll file = inr bytes ∧
    Unmarshal bytes default_config = (c, None) ∧ config_valid c ∧
    Forall (λ f : string * string * fval, tag_ok f.1.2 f.2 = true) (locket_validated (cfgLocket c)).
Proof.
  rewrite LoadConfig_iff. by setoid_rewrite Validate_spec.
Qed.

Lemma LoadConfig_accepts_witness :
  @LoadConfig no_locket ref_Validator (one_file "c.json" sample_text) "c.json" = (sample_loaded, None).
Proof.
  apply (@LoadConfig_accepts no_locket ref_Validator ref_ValidatorLaws (one_file "c.json" sample_text)).
  split; [discriminate|]. exists tt, sample_text.
  split; [reflexivity|]. split; [reflexivity|]. split; [vm_compute; reflexivity|].
  split; [|constructor]. split; [repeat constructor; discriminate|].
  cbv zeta. simpl. split_and!; lia || reflexivity.
Defined.

(** The optional collector settings cannot be used.  A document that sets
    [collector_timeout_ms], [collector_retry_interval_ms] or
    [collector_max_retries] to a number, in or out of the range its tag gives, is
    rejected: [LoadConfig] returns an error. *)
Theorem LoadConfig_rejects_overrides `{LocketAPI} `{ValidatorLaws} `{ConfigFS} path file bytes c :
  os_Open path = inr file → ReadAll file = inr bytes →
  Unmarshal bytes default_config = (c, None) →
  is_Some (CollectorTimeoutMs (cfgScheduler c)) ∨
  is_Some (CollectorRetryIntervalMs (cfgScheduler c)) ∨
  is_Some (CollectorMaxRetries (cfgScheduler c)) →
  ∃ e, (LoadConfig path).2 = Some e.
Proof.
  intros Ho Hr Hu Hsome. destruct (LoadConfig path) as [c' [e|]] eqn:HL; [by exists e|]. exfalso.
  apply LoadConfig_iff in HL as (_ & file' & bytes' & Ho' & Hr' & Hu' & Hv).
  assert (c' = c) as -> by congruence.
  apply Validate_spec in Hv. destruct Hv as [(_ & _ & _ & _ & Ht & Hi & Hm) _].
  rewrite Ht, Hi, Hm in Hsome. destruct Hsome as [[? ?]|[[? ?]|[? ?]]]; done.
Qed.

Definition override_text : string := dq "{
  'aws': {'region': 'eu-west-1'},
  'rds_broker': {'broker_name': 'hector', 'db_prefix': 'rdsbroker', 'master_password_seed': 'abc123'},
  'scheduler': {'collector_max_retries': 5},
  'loggregator_emitter': {'ca_cert': '/ca', 'client_cert': '/cert', 'client_key': '/key'}
}".

Lemma LoadConfig_rejects_overrides_witness :
  ∃ e, (@LoadConfig no_locket ref_Validator (one_file "c.json" override_text) "c.json").2 = Some e.
Proof.
  eapply (@LoadConfig_rejects_overrides no_locket ref_Validator ref_ValidatorLaws
    (one_file "c.json" override_text) "c.json" tt override_text);
    [reflexivity|reflexivity|vm_compute; reflexivity|].
  right. right. vm_compute. eexists. reflexivity.
Defined.

(** ** Decoding what [json.Marshal] writes

    Lemmas for the file TestConfig, where testhelpers/config.go marshals a whole
    configuration. *)

(** What [json.Marshal] writes for the fields of the structs of config.go: in
    order, under their tags, a nil pointer as [null].  The members of the embedded
    locket struct are added in TestConfig. *)
Definition enc_int (z : Z) : json := JNum (Itoa z).
Definition enc_int_ptr (p : option Z) : json := from_option enc_int JNull p.

Definition marshal_config `{LocketAPI} (c : Config) : json :=
  let a := AWS c in let r := cfgRDSBrokerInfo c in
  let s := cfgScheduler c in let l := cfgLoggregatorEmitter c in
  JObj
    [ ("log_level", JStr (LogLevel c));
      ("aws", JObj [("region", JStr (Region a)); ("aws_partition", JStr (AWSPartition a))]);
      ("rds_broker", JObj
        [ ("db_prefix", JStr (cfgDBPrefix r)); ("broker_name", JStr (cfgBrokerName r));
          ("master_password_seed", JStr (cfgMasterPasswordSeed r)) ]);
      ("scheduler", JObj
        [ ("instance_refresh_interval", enc_int (InstanceRefreshInterval s));
          ("collector_timeout_ms", enc_int_ptr (CollectorTimeoutMs s));
          ("collector_retry_interval_ms", enc_int_ptr (CollectorRetryIntervalMs s));
          ("collector_max_retries", enc_int_ptr (CollectorMaxRetries s));
          ("sql_metrics_collector_interval", enc_int (SQLMetricCollectorInterval s));
          ("cloudwatch_metrics_collector_interval", enc_int (CWMetricCollectorInterval s)) ]);
      ("loggregator_emitter", JObj
        [ ("url", JStr (MetronURL l)); ("ca_cert", JStr (CACertPath l));
          ("client_cert", JStr (CertPath l)); ("client_key", JStr (KeyPath l)) ]) ].

(** ASCII strings and 64-bit integers. *)
Definition marshallable `{LocketAPI} (c : Config) : Prop :=
  let s := cfgScheduler c in
  Forall (λ s, string_all is_ascii s = true)
    [ LogLevel c; Region (AWS c); AWSPartition (AWS c);
      cfgDBPrefix (cfgRDSBrokerInfo c); cfgBrokerName (cfgRDSBrokerInfo c);
      cfgMasterPasswordSeed (cfgRDSBrokerInfo c);
      MetronURL (cfgLoggregatorEmitter c); CACertPath (cfgLoggregatorEmitter c);
      CertPath (cfgLoggregatorEmitter c); KeyPath (cfgLoggregatorEmitter c) ] ∧
  Forall in_int64
    [ InstanceRefreshInterval s; SQLMetricCollectorInterval s; CWMetricCollectorInterval s;
      default 0%Z (CollectorTimeoutMs s); default 0%Z (CollectorRetryIntervalMs s);
      default 0%Z (CollectorMaxRetries s) ].

Lemma dec_member_exact {T} (fs : fields T) x e k j d :
  find_field fs k = Some d →
  dec_member fs (x, e) (k, j) = let '(y, e') := d j x in (y, first_error e e').
Proof. intros Hf. unfold dec_member. simpl. by rewrite Hf. Qed.

Lemma dec_enc_int z x : in_int64 z → dec_int (enc_int z) x = (z, None).
Proof. intros Hz. unfold dec_int, enc_int. by rewrite Atoi_Itoa. Qed.
Lemma dec_enc_int_ptr p x : in_int64 (default 0%Z p) → dec_int_ptr (enc_int_ptr p) x = (p, None).
Proof.
  intros Hp. destruct p as [z|]; [|done].
  change (dec_int_ptr (enc_int_ptr (Some z)) x) with
    (let '(z', e) := dec_int (enc_int z) (default 0%Z x) in (Some z', e)).
  by rewrite dec_enc_int.
Qed.

(** One member after the other, each under its own field. *)
Ltac dec_one :=
  erewrite dec_member_exact by reflexivity; unfold field at 1; cbn [fst snd dec_string id prod_map];
  rewrite ?dec_enc_int, ?dec_enc_int_ptr by assumption; cbv beta iota.

Lemma dec_scheduler s x typ :
  Forall in_int64
    [ InstanceRefreshInterval s; SQLMetricCollectorInterval s; CWMetricCollectorInterval s;
      default 0%Z (CollectorTimeoutMs s); default 0%Z (CollectorRetryIntervalMs s);
      default 0%Z (CollectorMaxRetries s) ] →
  dec_struct typ scheduler_fields (JObj
    [ ("instance_refresh_interval", enc_int (InstanceRefreshInterval s));
      ("collector_timeout_ms", enc_int_ptr (CollectorTimeoutMs s));
      ("collector_retry_interval_ms", enc_int_ptr (CollectorRetryIntervalMs s));
      ("collector_max_retries", enc_int_ptr (CollectorMaxRetries s));
      ("sql_metrics_collector_interval", enc_int (SQLMetricCollectorInterval s));
      ("cloudwatch_metrics_collector_interval", enc_int (CWMetricCollectorInterval s)) ]) x
  = (s, None).
Proof.
  rewrite !Forall_cons. intros (? & ? & ? & ? & ? & ? & _).
  unfold dec_struct. cbn [foldl]. do 6 dec_one. by destruct s.
Qed.

Lemma dec_aws a x typ :
  dec_struct typ aws_fields
    (JObj [("region", JStr (Region a)); ("aws_partition", JStr (AWSPartition a))]) x = (a, None).
Proof. by destruct a. Qed.

Lemma dec_rds r x typ :
  dec_struct typ rds_fields (JObj
    [ ("db_prefix", JStr (cfgDBPrefix r)); ("broker_name", JStr (cfgBrokerName r));
      ("master_password_seed", JStr (cfgMasterPasswordSeed r)) ]) x = (r, None).
Proof. by destruct r. Qed.

Lemma dec_loggregator l x typ :
  dec_struct typ loggregator_fields (JObj
    [ ("url", JStr (MetronURL l)); ("ca_cert", JStr (CACertPath l));
      ("client_cert", JStr (CertPath l)); ("client_key", JStr (KeyPath l)) ]) x = (l, None).
Proof. by destruct l. Qed.

Lemma dec_config_marshal `{LocketAPI} c c0 :
  marshallable c → dec_config (marshal_config c) c0 = (set_Locket (cfgLocket c0) c, None).
Proof.
  intros [_ Hint]. unfold dec_config, marshal_config. cbv zeta. unfold dec_struct at 1. cbn [foldl].
  dec_one.
  do 4 (erewrite dec_member_exact by reflexivity; unfold field at 1; cbn [fst snd id prod_map];
        rewrite ?dec_aws, ?dec_rds, ?dec_loggregator, ?dec_scheduler by assumption; cbv beta iota).
  by destruct c.
Qed.
