(* ===== verification/Collector.v ===== *)
(** * The collector interfaces (pkg/collector/metrics_collector.go) and
      Go's [database/sql]

    The interfaces a driver and a collector offer to the scheduler, over the
    state [W] of the outside world; and the part of [database/sql] the SQL
    collectors use: result rows, [Scan] with its conversions to [string] and
    [float64], and the connection handle as a class. *)

From S2P Require Import Prelude GoStrings Metrics BrokerInfo.
From stdpp Require Import options.

(** ** Interfaces *)

Record MetricsCollector (W : Type) := mkCollector {
  Collect : W → outcome (list Metric) * W;
  Close : W → outcome unit * W;
}.
Arguments mkCollector {W}.
Arguments Collect {W}.
Arguments Close {W}.

Record MetricsCollectorDriver (W : Type) := mkDriver {
  NewCollector : InstanceInfo → W → outcome (MetricsCollector W) * W;
  GetName : string;
  SupportedTypes : list string;
  GetCollectInterval : Z;
}.
Arguments mkDriver {W}.
Arguments NewCollector {W}.
Arguments GetName {W}.
Arguments SupportedTypes {W}.
Arguments GetCollectInterval {W}.

(** ** Values and conversions of [database/sql] *)

(** A [driver.Value]: what a driver may return for a column. *)
Inductive dvalue :=
  | VNull
  | VInt (z : Z)
  | VFloat (f : float64)
  | VBool (b : bool)
  | VBytes (s : string)
  | VString (s : string)
  | VTime (unix_sec nsec : Z).

(** Decimal and time renderings of the Go standard library. *)
Class SqlFormats := {
  ParseFloat : string → option float64;
  FormatFloat : float64 → string;
  FormatRFC3339Nano : Z → Z → string;
  SprintTime : Z → Z → string;
}.

Section scan.
Context `{SqlFormats}.

Definition asString (v : dvalue) : string :=
  match v with
  | VNull => "<nil>"
  | VInt z => Itoa z
  | VFloat f => FormatFloat f
  | VBool b => if b then "true" else "false"
  | VBytes s | VString s => s
  | VTime s n => SprintTime s n
  end.

(** [convertAssign] to a [*string] and to a [*float64]. *)
Definition convert_string (v : dvalue) : outcome string :=
  match v with
  | VNull => Err "converting NULL to string is unsupported"
  | VTime s n => Ok (FormatRFC3339Nano s n)
  | _ => Ok (asString v)
  end.

Definition convert_float64 (v : dvalue) : outcome float64 :=
  match v with
  | VFloat f => Ok f
  | VNull => Err "converting NULL to float64 is unsupported"
  | _ => of_option ("converting driver.Value (" +:+ asString v +:+ ") to a float64")
           (ParseFloat (asString v))
  end.

Inductive dest := DFloat | DString.
Inductive scanned := SFloat (f : float64) | SString (s : string).

Definition scan_one (d : dest) (v : dvalue) : outcome scanned :=
  match d with
  | DFloat => SFloat <$> convert_float64 v
  | DString => SString <$> convert_string v
  end.

Definition scanned_float (x : scanned) : option float64 :=
  match x with SFloat f => Some f | _ => None end.
Definition scanned_string (x : scanned) : option string :=
  match x with SString s => Some s | _ => None end.

(** One position of the cursor: what [rows.Columns()] returns there and the
    raw values, either an error when a cancelled context has closed the rows. *)
Record row := mkRow {
  row_columns : outcome (list string);
  row_values : outcome (list dvalue);
}.

Fixpoint scan_all (ds : list dest) (vs : list dvalue) : outcome (list scanned) :=
  match ds, vs with
  | d :: ds, v :: vs => x ← scan_one d v; xs ← scan_all ds vs; Ok (x :: xs)
  | _, _ => Ok []
  end.

Definition Scan (r : row) (ds : list dest) : outcome (list scanned) :=
  vs ← row_values r;
  if decide (length ds = length vs) then scan_all ds vs
  else Err ("sql: expected " +:+ Itoa (Z.of_nat (length vs)) +:+ " destination arguments in Scan, not "
            +:+ Itoa (Z.of_nat (length ds))).

(** A result set: the positions [rows.Next()] stops at, and the error, if any,
    that ended the iteration early ([rows.Err()]). *)
Record Rows := mkRows {
  rows_data : list row;
  rows_err : option string;
}.

(** [for rows.Next() { ... }] with a body that may return an error. *)
Fixpoint rows_loop {A} (body : A → row → outcome A) (acc : A) (rs : list row) : outcome A :=
  match rs with
  | [] => Ok acc
  | r :: rs => acc ← body acc r; rows_loop body acc rs
  end.
End scan.

(** A [*sql.DB] in the world state [W]; [CloseRows] is [rows.Close()]. *)
Class SqlDB (W : Type) := {
  PingContext : W → outcome unit * W;
  QueryContext : string → W → outcome Rows * W;
  CloseRows : W → W;
  CloseDB : W → outcome unit * W;
}.

(** ** Lemmas *)

Section scan_lemmas.
Context `{SqlFormats}.

Lemma scan_all_floats n vs xs :
  scan_all (replicate n DFloat) vs = Ok xs → length vs = n →
  ∃ fs, xs = SFloat <$> fs ∧ Forall2 (λ v f, convert_float64 v = Ok f) vs fs.
Proof.
  revert vs xs. induction n as [|n IH]; intros vs xs.
  - destruct vs; intros [= <-] ?; [|done]. exists []. by split; [|constructor].
  - destruct vs as [|v vs]; [done|]. simpl. intros Hs [= Hl].
    apply outcome_bind_Ok in Hs as (x & Hx & (ys & Hys & [= <-])%outcome_bind_Ok).
    destruct (IH _ _ Hys Hl) as (fs & -> & Hfs).
    destruct (convert_float64 v) as [f| |] eqn:Hf; try done. simplify_eq/=.
    exists (f :: fs). split; [done|]. by constructor.
Qed.

Lemma scan_all_strings n vs xs :
  scan_all (replicate n DString) vs = Ok xs → length vs = n →
  ∃ ss, xs = SString <$> ss ∧ Forall2 (λ v s, convert_string v = Ok s) vs ss.
Proof.
  revert vs xs. induction n as [|n IH]; intros vs xs.
  - destruct vs; intros [= <-] ?; [|done]. exists []. by split; [|constructor].
  - destruct vs as [|v vs]; [done|]. simpl. intros Hs [= Hl].
    apply outcome_bind_Ok in Hs as (x & Hx & (ys & Hys & [= <-])%outcome_bind_Ok).
    destruct (IH _ _ Hys Hl) as (ss & -> & Hss).
    destruct (convert_string v) as [s| |] eqn:Hs; try done. simplify_eq/=.
    exists (s :: ss). split; [done|]. by constructor.
Qed.

Lemma scan_all_app ds1 ds2 vs1 vs2 xs :
  length ds1 = length vs1 →
  scan_all (ds1 ++ ds2) (vs1 ++ vs2) = Ok xs ↔
  ∃ xs1 xs2, xs = xs1 ++ xs2 ∧ scan_all ds1 vs1 = Ok xs1 ∧ scan_all ds2 vs2 = Ok xs2.
Proof.
  revert vs1 xs. induction ds1 as [|d ds1 IH]; intros [|v vs1] xs Hl; simplify_eq/=.
  - split; [by intros; exists [], xs|]. by intros (? & ? & -> & [= <-] & ?).
  - split.
    + intros (x & Hx & (ys & Hys & [= <-])%outcome_bind_Ok)%outcome_bind_Ok.
      apply IH in Hys as (xs1 & xs2 & -> & Hxs1 & Hxs2); [|done].
      exists (x :: xs1), xs2. rewrite Hx. simpl. rewrite Hxs1. done.
    + intros (xs1 & xs2 & -> & Hxs1 & Hxs2).
      apply outcome_bind_Ok in Hxs1 as (x & Hx & (ys & Hys & [= <-])%outcome_bind_Ok).
      rewrite Hx. simpl.
      assert (scan_all (ds1 ++ ds2) (vs1 ++ vs2) = Ok (ys ++ xs2)) as ->; [|done].
      apply IH; eauto.
Qed.

(** A successful scan of [n] floats followed by strings. *)
Lemma scan_floats_strings n k vs xs :
  length vs = n + k → scan_all (replicate n DFloat ++ replicate k DString) vs = Ok xs →
  ∃ fs ss, xs = (SFloat <$> fs) ++ (SString <$> ss) ∧
    Forall2 (λ v f, convert_float64 v = Ok f) (take n vs) fs ∧
    Forall2 (λ v s, convert_string v = Ok s) (drop n vs) ss.
Proof.
  intros Hl. rewrite <-(take_drop n vs) at 1.
  rewrite scan_all_app by (rewrite length_replicate, length_take; lia).
  intros (xs1 & xs2 & -> & H1 & H2).
  apply scan_all_floats in H1 as (fs & -> & Hfs); [|rewrite length_take; lia].
  apply scan_all_strings in H2 as (ss & -> & Hss); [|rewrite length_drop; lia].
  by exists fs, ss.
Qed.

Lemma scan_all_replicate_Ok n k vs fs ss :
  Forall2 (λ v f, convert_float64 v = Ok f) (take n vs) fs →
  Forall2 (λ v s, convert_string v = Ok s) (drop n vs) ss →
  length vs = n + k →
  scan_all (replicate n DFloat ++ replicate k DString) vs = Ok ((SFloat <$> fs) ++ (SString <$> ss)).
Proof.
  intros Hf Hs Hl. rewrite <-(take_drop n vs).
  apply scan_all_app; [rewrite length_replicate, length_take; lia|].
  eexists _, _. split; [done|]. split.
  - replace n with (length (take n vs)) at 1 by (rewrite length_take; lia).
    clear -Hf. induction Hf as [|v f l k Hv _ IH]; simpl; [done|].
    rewrite Hv. simpl. by rewrite IH.
  - replace k with (length (drop n vs)) by (rewrite length_drop; lia).
    clear -Hs. induction Hs as [|v f l k Hv _ IH]; simpl; [done|].
    rewrite Hv. simpl. by rewrite IH.
Qed.

Lemma omap_float_split fs ss :
  omap scanned_float (take (length fs) ((SFloat <$> fs) ++ (SString <$> ss))) = fs ∧
  omap scanned_string (drop (length fs) ((SFloat <$> fs) ++ (SString <$> ss))) = ss.
Proof.
  rewrite take_app_length', drop_app_length' by (by rewrite length_fmap).
  split; [induction fs as [|f l IH]|induction ss as [|s l IH]]; simpl; try done; by f_equal.
Qed.
End scan_lemmas.

Section loop_lemmas.
Context {A : Type}.

(** An invariant of the loop over the rows. *)
Lemma rows_loop_inv (P : list row → A → Prop) body acc rs res :
  P [] acc →
  (∀ seen a r a', r ∈ rs → P seen a → body a r = Ok a' → P (seen ++ [r]) a') →
  rows_loop body acc rs = Ok res → P rs res.
Proof.
  intros H0 Hstep. change rs with ([] ++ rs) at 2.
  assert (∀ l, l ⊆ rs → ∀ seen a, P seen a → rows_loop body a l = Ok res → P (seen ++ l) res)
    as Hgen.
  { induction l as [|r l IH]; intros Hl seen a HP; simpl.
    - intros [= <-]. by rewrite app_nil_r.
    - intros (a' & Ha' & Hrest)%outcome_bind_Ok.
      rewrite cons_middle, (assoc_L (++)). eapply IH; [set_solver| |done].
      eapply Hstep; [set_solver|done|done]. }
  eapply Hgen; [done|done].
Qed.

Lemma rows_loop_app body (acc : A) rs1 rs2 :
  rows_loop body acc (rs1 ++ rs2) = (acc ← rows_loop body acc rs1; rows_loop body acc rs2).
Proof.
  revert acc. induction rs1 as [|r rs1 IH]; intros acc; simpl; [done|].
  destruct (body acc r); simpl; [apply IH|done|done].
Qed.
End loop_lemmas.

(** ** Concrete instances, for the witnesses *)

(** Number formats restricted to integers. *)
Definition int_formats : SqlFormats := {|
  ParseFloat s := float64_of_int <$> signed_val s;
  FormatFloat _ := "0";
  FormatRFC3339Nano s _ := Itoa s;
  SprintTime s _ := Itoa s;
|}.

(** A database that answers every query from a table; the state counts the
    result sets that are open. *)
Definition table_db (tbl : string → outcome Rows) : SqlDB nat := {|
  PingContext w := (Ok tt, w);
  QueryContext q w :=
    match tbl q with Ok r => (Ok r, S w) | Err e => (Err e, w) | Panic p => (Panic p, w) end;
  CloseRows w := pred w;
  CloseDB w := (Ok tt, w);
|}.

(** What a connection pool does with result sets: a successful query opens one,
    [Close] releases one, nothing else does. *)
Class SqlDBLaws (W : Type) `{SqlDB W} := {
  open_rows : W → nat;
  ping_open w : open_rows (PingContext w).2 = open_rows w;
  query_open q w :
    open_rows (QueryContext q w).2 =
    (if is_Ok (QueryContext q w).1 then S (open_rows w) else open_rows w);
  close_open w : open_rows (CloseRows w) = pred (open_rows w);
}.

Definition table_db_laws tbl : @SqlDBLaws nat (table_db tbl).
Proof.
  refine (@Build_SqlDBLaws nat (table_db tbl) id _ _ _); simpl; try done.
  intros q w. by destruct (tbl q).
Defined.
