(* ===== verification/SqlCollector.v ===== *)
(** * pkg/collector/sql_collector.go: metrics from SQL queries

    The two kinds of queries (one metric per column, one metric per row), the
    helper [getRowDataAsMaps], the collector that runs a list of queries and the
    driver that opens it.  Maps are [gmap]s; the map of tags that the metrics of
    one row share is never written after they are built, so it is a value. *)

From S2P Require Import Prelude GoStrings Metrics BrokerInfo Collector.
From stdpp Require Import options.

Record metricQueryMeta := mkMeta {
  metaKey : string;
  metaUnit : string;
}.

Inductive metricQuery :=
  | columnMetricQuery (Query : string) (Metrics : list metricQueryMeta)
  | rowMetricQuery (Query : string) (Metrics : list metricQueryMeta).

Definition Query (q : metricQuery) : string :=
  match q with columnMetricQuery s _ | rowMetricQuery s _ => s end.
Definition Metrics (q : metricQuery) : list metricQueryMeta :=
  match q with columnMetricQuery _ ms | rowMetricQuery _ ms => ms end.

Section queries.
Context `{UnicodeTables} `{SqlFormats}.

(** ** getRowDataAsMaps *)

Definition getRowDataAsMaps (numberOfValues : nat) (r : row)
  : outcome (gmap string float64 * gmap string string) :=
  columnNames ← row_columns r;
  if decide (length columnNames < numberOfValues) then
    Err ("Expected " +:+ Itoa (Z.of_nat numberOfValues) +:+ " values but the row only has "
         +:+ Itoa (Z.of_nat (length columnNames)) +:+ " columns")
  else
    scanArgs ← Scan r (replicate numberOfValues DFloat ++
                       replicate (length columnNames - numberOfValues) DString);
    let valuesData := omap scanned_float (take numberOfValues scanArgs) in
    let tagsData := omap scanned_string (drop numberOfValues scanArgs) in
    Ok (insert_all (zip (take numberOfValues columnNames) valuesData) ∅,
        insert_all (zip (drop numberOfValues columnNames) tagsData) ∅).

(** ** columnMetricQuery.getMetrics *)

Definition missing_key {A} (key query : string) : outcome A :=
  Err ("unable to find key '" +:+ key +:+ "' in the query '" +:+ query +:+ "'").

Definition column_metric (query : string) (rowMap : gmap string float64)
    (tags : gmap string string) (m : metricQueryMeta) : outcome Metric :=
  match rowMap !! metaKey m with
  | None => missing_key (metaKey m) query
  | Some v => Ok (mkMetric (metaKey m) 0 v (metaUnit m) tags)
  end.

Definition column_row (query : string) (metas : list metricQueryMeta)
    (rowMetrics : list Metric) (r : row) : outcome (list Metric) :=
  '(rowMap, tags) ← getRowDataAsMaps (length metas) r;
  let tags := <["source" := "sql"]> tags in
  new ← outcome_mapM (column_metric query rowMap tags) metas;
  Ok (rowMetrics ++ new).

Definition column_getMetrics (query : string) (metas : list metricQueryMeta) (rows : Rows)
  : outcome (list Metric) :=
  rows_loop (column_row query metas) [] (rows_data rows).

(** ** rowMetricQuery.getMetrics *)

Definition row_row (query : string) (acumMetrics : gmap string Metric) (r : row)
  : outcome (gmap string Metric) :=
  columnNames ← row_columns r;
  if decide (length columnNames < 2) then
    Err ("query '" +:+ query +:+ "' must return at least 2 columns")
  else
    scanned ← Scan r (DString :: DFloat :: replicate (length columnNames - 2) DString);
    match scanned with
    | SString metricKey :: SFloat metricValue :: rest =>
        let tagsData := omap scanned_string rest in
        let tags := <["source" := "sql"]> (insert_all (zip (drop 2 columnNames) tagsData) ∅) in
        Ok (<[ToLower metricKey := mkMetric "" 0 metricValue "" tags]> acumMetrics)
    | _ => Panic "unreachable: Scan fills the destinations in order"
    end.

Definition row_metric (query : string) (acumMetrics : gmap string Metric)
    (m : metricQueryMeta) : outcome Metric :=
  match acumMetrics !! metaKey m with
  | None => missing_key (metaKey m) query
  | Some v => Ok (mkMetric (metaKey m) 0 (Value v) (metaUnit m) (Tags v))
  end.

Definition row_getMetrics (query : string) (metas : list metricQueryMeta) (rows : Rows)
  : outcome (list Metric) :=
  acumMetrics ← rows_loop (row_row query) ∅ (rows_data rows);
  outcome_mapM (row_metric query acumMetrics) metas.

Context {W : Type} `{SqlDB W}.

(** The method of the [metricQuery] interface, with its [QueryContext] and the
    deferred [rows.Close()]. *)
Definition getMetrics (q : metricQuery) (w : W) : outcome (list Metric) * W :=
  let '(res, w) := QueryContext (Query q) w in
  match res with
  | Err e => (Err ("unable to execute query: " +:+ e), w)
  | Panic p => (Panic p, w)
  | Ok rows =>
      (match q with
       | columnMetricQuery query metas => column_getMetrics query metas rows
       | rowMetricQuery query metas => row_getMetrics query metas rows
       end, CloseRows w)
  end.

(** ** sqlMetricsCollector *)

Fixpoint collect_queries (queries : list metricQuery) (metrics : list Metric) (w : W)
  : outcome (list Metric) * W :=
  match queries with
  | [] => (Ok metrics, w)
  | q :: queries =>
      let '(res, w) := getMetrics q w in
      match res with
      | Ok newMetrics => collect_queries queries (metrics ++ newMetrics) w
      | Err e => (Err e, w)
      | Panic p => (Panic p, w)
      end
  end.

Definition sql_Collect (queries : list metricQuery) (w : W) : outcome (list Metric) * W :=
  let '(res, w) := PingContext w in
  match res with
  | Ok _ => collect_queries queries [] w
  | Err e => (Err e, w)
  | Panic p => (Panic p, w)
  end.
End queries.

(** ** sqlMetricsCollectorDriver *)

Record sqlMetricsCollectorDriver := mkSqlDriver {
  collectInterval : Z;
  queries : list metricQuery;
  sqlDriver : string;
  sqlName : string;
  ConnectionString : InstanceConnectionDetails → string;
}.

(** [sql.Open(driver, url)]: fails for a driver name that is not registered. *)
Class SqlOpen (W : Type) := Open : string → string → W → outcome (SqlDB W) * W.

Section driver.
Context `{UnicodeTables} `{SqlFormats} {W : Type} `{BrokerInfo W} `{SqlOpen W}.

Definition sqlMetricsCollector (queries : list metricQuery) (dbConn : SqlDB W)
  : MetricsCollector W :=
  mkCollector (sql_Collect queries) CloseDB.

Definition sql_NewCollector (d : sqlMetricsCollectorDriver) (instanceInfo : InstanceInfo) (w : W)
  : outcome (MetricsCollector W) * W :=
  match GetInstanceConnectionDetails instanceInfo w with
  | Err e => (Err e, w)
  | Panic p => (Panic p, w)
  | Ok details =>
      let url := ConnectionString d details in
      let '(res, w) := Open (sqlDriver d) url w in
      match res with
      | Err e => (Err e, w)
      | Panic p => (Panic p, w)
      | Ok dbConn => (Ok (sqlMetricsCollector (queries d) dbConn), w)
      end
  end.

Definition sql_driver (d : sqlMetricsCollectorDriver) : MetricsCollectorDriver W :=
  mkDriver (sql_NewCollector d) (sqlName d) [sqlName d] (collectInterval d).
End driver.

(** ** Lemmas *)

Section lemmas.
Context `{UnicodeTables} `{SqlFormats}.

(** What the metrics of a query look like: key and unit of the declaration. *)
Definition described_by (m : Metric) (meta : metricQueryMeta) : Prop :=
  Key m = metaKey meta ∧ Unit m = metaUnit meta ∧ Timestamp m = 0%Z ∧
  Tags m !! "source" = Some "sql".

(** What a column query reports for the declaration [e.2] on the row [e.1]: the
    leading columns, as many as there are declarations, are values and the others
    are tags.  The value is the number in the value column of that name, the tags
    are the texts of the tag columns and [source=sql]; of several columns of the
    same name the last one counts. *)
Definition column_reports (metas : list metricQueryMeta) (m : Metric) (e : row * metricQueryMeta) : Prop :=
  ∃ cols vs, row_columns e.1 = Ok cols ∧ row_values e.1 = Ok vs ∧
    Key m = metaKey e.2 ∧ Unit m = metaUnit e.2 ∧ Timestamp m = 0%Z ∧
    (∃ v, last_named (metaKey e.2) (zip (take (length metas) cols) (take (length metas) vs)) = Some v ∧
          convert_float64 v = Ok (Value m)) ∧
    Tags m !! "source" = Some "sql" ∧
    ∀ k, k ≠ "source" →
      option_Forall2 (λ v s, convert_string v = Ok s)
        (last_named k (zip (drop (length metas) cols) (drop (length metas) vs))) (Tags m !! k).

(** The last entry of a name, before and after the conversion of the values. *)
Lemma last_named_zip {A B} (P : A → B → Prop) k (names : list string) l l' :
  Forall2 P l l' → option_Forall2 P (last_named k (zip names l)) (last_named k (zip names l')).
Proof.
  intros Hl. unfold last_named.
  assert (Forall2 (λ a b, P a.2 b.2) (filter (λ e, e.1 = k) (zip names l))
                                      (filter (λ e, e.1 = k) (zip names l'))) as Hf.
  { revert names. induction Hl as [|x y l l' Hxy _ IH]; intros [|c names]; simpl; try constructor.
    rewrite !filter_cons. simpl. case_decide; [by constructor|done]. }
  apply Forall2_last in Hf. destruct Hf; by constructor.
Qed.

(** What a successful [getRowDataAsMaps] read. *)
Lemma getRowDataAsMaps_inv n r values tags :
  getRowDataAsMaps n r = Ok (values, tags) →
  ∃ cols vs fs ss, row_columns r = Ok cols ∧ row_values r = Ok vs ∧
    length vs = length cols ∧ n ≤ length cols ∧
    Forall2 (λ v f, convert_float64 v = Ok f) (take n vs) fs ∧
    Forall2 (λ v s, convert_string v = Ok s) (drop n vs) ss ∧
    values = insert_all (zip (take n cols) fs) ∅ ∧ tags = insert_all (zip (drop n cols) ss) ∅.
Proof.
  unfold getRowDataAsMaps. intros (cols & Hc & Hr)%outcome_bind_Ok.
  case_decide as Hn; [done|]. apply outcome_bind_Ok in Hr as (xs & Hscan & [= <- <-]).
  unfold Scan in Hscan. apply outcome_bind_Ok in Hscan as (vs & Hv & Hscan).
  case_decide as Hlen; [|done]. rewrite length_app, !length_replicate in Hlen.
  apply scan_floats_strings in Hscan as (fs & ss & -> & Hf & Hs); [|lia].
  exists cols, vs, fs, ss. split_and!; [done|done|lia|lia|done|done|..];
    (assert (n = length fs) as -> by (apply Forall2_length in Hf; rewrite <-Hf, length_take; lia));
    destruct (omap_float_split fs ss) as [Efs Ess]; by rewrite ?Efs, ?Ess.
Qed.

Lemma column_row_reports query metas acc r res :
  column_row query metas acc r = Ok res →
  ∃ new, res = acc ++ new ∧ Forall2 (column_reports metas) new ((r,.) <$> metas).
Proof.
  unfold column_row.
  intros ([rowMap tags] & Hmaps & (new & Hnew & [= <-])%outcome_bind_Ok)%outcome_bind_Ok.
  exists new. split; [done|]. apply Forall2_fmap_r.
  apply outcome_mapM_Ok, Forall2_flip in Hnew. eapply Forall2_impl; [exact Hnew|].
  intros m meta. unfold flip, column_metric. simpl. case_match eqn:Hv; [|done]. intros [= <-].
  apply getRowDataAsMaps_inv in Hmaps as (cols & vs & fs & ss & Hc & Hvs & _ & _ & Hf & Hs & -> & ->).
  exists cols, vs. rewrite lookup_insert_all in Hv. split_and!; try done.
  - pose proof (last_named_zip _ (metaKey meta) (take (length metas) cols) _ _ Hf) as Hlast.
    rewrite Hv in Hlast. inversion Hlast; subst. eauto.
  - simpl. by rewrite lookup_insert_eq.
  - intros k Hk. simpl. rewrite lookup_insert_ne, lookup_insert_all by done. by apply last_named_zip.
Qed.

(** The metrics of a column query, row by row. *)
Lemma column_getMetrics_reports query metas rows ms :
  column_getMetrics query metas rows = Ok ms →
  Forall2 (column_reports metas) ms (rows_data rows ≫= λ r, (r,.) <$> metas).
Proof.
  unfold column_getMetrics. intros Hl.
  apply (rows_loop_inv (λ seen acc, Forall2 (column_reports metas) acc
           (seen ≫= λ r, (r,.) <$> metas))) in Hl; [done|constructor|].
  intros seen acc r acc' _ Hacc (new & -> & Hnew)%column_row_reports.
  rewrite bind_app. apply Forall2_app; [done|]. csimpl. by rewrite app_nil_r.
Qed.

Lemma column_getMetrics_described query metas rows ms m :
  column_getMetrics query metas rows = Ok ms → m ∈ ms → ∃ meta, meta ∈ metas ∧ described_by m meta.
Proof.
  intros Hms%column_getMetrics_reports [i Hi]%list_elem_of_lookup.
  destruct (Forall2_lookup_l _ _ _ _ _ Hms Hi) as ([r meta] & Hin & cols & vs & _ & _ & Hk & Hu & Ht & _ & Htags & _).
  apply list_elem_of_lookup_2, list_elem_of_bind in Hin as (r' & (meta' & [= -> ->] & Hmeta)%list_elem_of_fmap & _).
  exists meta'. by split_and!.
Qed.

(** The value columns as [getRowDataAsMaps] reads them. *)
Lemma getRowDataAsMaps_Ok n r cols vs fs ss :
  row_columns r = Ok cols → row_values r = Ok vs → length vs = length cols →
  n ≤ length cols →
  Forall2 (λ v f, convert_float64 v = Ok f) (take n vs) fs →
  Forall2 (λ v s, convert_string v = Ok s) (drop n vs) ss →
  getRowDataAsMaps n r =
    Ok (insert_all (zip (take n cols) fs) ∅, insert_all (zip (drop n cols) ss) ∅).
Proof.
  intros Hc Hv Hl Hn Hf Hs. unfold getRowDataAsMaps. rewrite Hc. simpl.
  rewrite decide_False by lia. unfold Scan. rewrite Hv. simpl.
  rewrite decide_True by (rewrite length_app, !length_replicate; lia).
  rewrite (scan_all_replicate_Ok n _ vs fs ss) by (done || lia). simpl.
  assert (n = length fs) as ->.
  { apply Forall2_length in Hf. rewrite <-Hf, length_take. lia. }
  by destruct (omap_float_split fs ss) as [-> ->].
Qed.

(** A row query: the accumulator holds, per lower-cased name, the last row. *)
Lemma row_metrics_described query acum metas ms :
  outcome_mapM (row_metric query acum) metas = Ok ms →
  Forall2 (λ m meta, ∃ v, acum !! metaKey meta = Some v ∧
     m = mkMetric (metaKey meta) 0 (Value v) (metaUnit meta) (Tags v)) ms metas.
Proof.
  intros Hall%outcome_mapM_Ok%Forall2_flip. eapply Forall2_impl; [done|].
  intros m meta. unfold flip, row_metric. simpl. case_match; [|done].
  intros [= <-]. eauto.
Qed.

Lemma row_row_Ok query acum r acum' :
  row_row query acum r = Ok acum' →
  ∃ k f tags, acum' = <[ToLower k := mkMetric "" 0 f "" tags]> acum ∧
    tags !! "source" = Some "sql" ∧
    ∃ vk vf rest, row_values r = Ok (vk :: vf :: rest) ∧
      convert_string vk = Ok k ∧ convert_float64 vf = Ok f.
Proof.
  unfold row_row. intros (cols & Hcols & Hr)%outcome_bind_Ok.
  case_decide; [done|].
  apply outcome_bind_Ok in Hr as (xs & Hscan & Hr).
  unfold Scan in Hscan. apply outcome_bind_Ok in Hscan as (vs & Hvs & Hscan).
  case_decide as Hlen; [|done]. destruct vs as [|vk [|vf rest]]; [done|done|].
  simpl in Hscan.
  apply outcome_bind_Ok in Hscan as (x1 & Hx1 & (xs1 & Hscan & [= <-])%outcome_bind_Ok).
  apply outcome_bind_Ok in Hscan as (x2 & Hx2 & (xs2 & _ & [= <-])%outcome_bind_Ok).
  destruct (convert_string vk) as [k| |] eqn:Hk; try done.
  destruct (convert_float64 vf) as [f| |] eqn:Hf; try done. simplify_eq/=.
  eexists k, f, _. split; [done|]. split; [by simplify_map_eq|]. eauto 10.
Qed.

Lemma row_acum_tags query rs acum :
  rows_loop (row_row query) ∅ rs = Ok acum →
  map_Forall (λ _ v, Tags v !! "source" = Some "sql") acum.
Proof.
  intros Hl.
  apply (rows_loop_inv (λ _ acum, map_Forall (λ _ v, Tags v !! "source" = Some "sql") acum))
    in Hl; [done|apply map_Forall_empty|].
  intros _ a r a' _ Ha (k & f & tags & -> & Htags & _)%row_row_Ok.
  by apply map_Forall_insert_2.
Qed.

Lemma row_getMetrics_described query metas rows ms :
  row_getMetrics query metas rows = Ok ms → Forall2 described_by ms metas.
Proof.
  unfold row_getMetrics. intros (acum & Hacum & Hms)%outcome_bind_Ok.
  apply row_metrics_described in Hms. apply row_acum_tags in Hacum.
  eapply Forall2_impl; [done|]. intros m meta (v & Hv & ->).
  unfold described_by. simpl. split_and!; [done..|]. by eapply Hacum.
Qed.

(** The row that decides the value of a key: the last one whose name, in lower
    case, is that key. *)
Definition names_key (key : string) (r : row) (f : float64) : Prop :=
  ∃ k vk vf rest, row_values r = Ok (vk :: vf :: rest) ∧
    convert_string vk = Ok k ∧ convert_float64 vf = Ok f ∧ ToLower k = key.

Lemma row_acum_last query rs acum :
  rows_loop (row_row query) ∅ rs = Ok acum →
  ∀ key v, acum !! key = Some v →
    ∃ pre r post, rs = pre ++ r :: post ∧ names_key key r (Value v) ∧
      Forall (λ r', ∀ f, ¬ names_key key r' f) post.
Proof.
  intros Hl.
  eapply (rows_loop_inv (λ seen acum, ∀ key v, acum !! key = Some v →
    ∃ pre r post, seen = pre ++ r :: post ∧ names_key key r (Value v) ∧
      Forall (λ r', ∀ f, ¬ names_key key r' f) post)); [| |exact Hl]; [set_solver|].
  intros seen a r a' _ Ha (k & f & tags & -> & _ & vk & vf & rest & Hv & Hk & Hf)%row_row_Ok.
  intros key v [[<- <-]|[Hne Hkey]]%lookup_insert_Some.
  - exists seen, r, []. split; [done|]. split; [|constructor]. by exists k, vk, vf, rest.
  - destruct (Ha _ _ Hkey) as (pre & r0 & post & -> & Hr0 & Hpost).
    exists pre, r0, (post ++ [r]). rewrite <-(assoc_L (++)). split; [done|].
    split; [done|]. apply Forall_app. split; [done|]. constructor; [|constructor].
    intros f' (k' & vk' & vf' & rest' & ? & ? & ? & ?). congruence.
Qed.

End lemmas.

(** ** Properties *)

Section completeness.
Context `{UnicodeTables} `{SqlFormats}.

Lemma outcome_mapM_is_Ok {A B} (f : A → outcome B) l :
  is_Ok (outcome_mapM f l) = true ↔ Forall (λ x, is_Ok (f x) = true) l.
Proof.
  induction l as [|x l IH]; simpl; [by split; [constructor|]|].
  rewrite Forall_cons, <-IH. destruct (f x); simpl; [|naive_solver..].
  destruct (outcome_mapM f l); naive_solver.
Qed.

Lemma rows_loop_is_Ok {A} (body : A → row → outcome A) (good : row → bool) acc rs :
  (∀ a r, is_Ok (body a r) = good r) →
  is_Ok (rows_loop body acc rs) = true ↔ Forall (λ r, good r = true) rs.
Proof.
  intros Hbody. revert acc. induction rs as [|r rs IH]; intros acc; simpl.
  - by split; [constructor|].
  - rewrite Forall_cons, <-(Hbody acc r). destruct (body acc r); simpl; [|naive_solver..].
    rewrite IH. naive_solver.
Qed.

(** A row a column query can use: it scans, and has every declared column. *)
Definition column_row_good (metas : list metricQueryMeta) (r : row) : bool :=
  match getRowDataAsMaps (length metas) r with
  | Ok (rowMap, _) => forallb (λ m, bool_decide (is_Some (rowMap !! metaKey m))) metas
  | _ => false
  end.

Lemma column_row_is_Ok query metas acc r :
  is_Ok (column_row query metas acc r) = column_row_good metas r.
Proof.
  unfold column_row, column_row_good.
  destruct (getRowDataAsMaps _ r) as [[rowMap tags]| |]; simpl; [|done..].
  set (f := column_metric query rowMap (<["source":="sql"]> tags)).
  transitivity (is_Ok (outcome_mapM f metas)); [by destruct (outcome_mapM f metas)|].
  apply eq_true_iff_eq. rewrite outcome_mapM_is_Ok, forallb_forall, Forall_forall.
  setoid_rewrite list_elem_of_In. subst f. unfold column_metric.
  split; intros Hm m Hin; specialize (Hm m Hin).
  - apply bool_decide_eq_true. destruct (rowMap !! metaKey m); [eauto|done].
  - apply bool_decide_eq_true in Hm as [v Hv]. by rewrite Hv.
Qed.

(** The same, read off the row: enough columns, as many values, the leading ones
    numbers, the others text, and the declared keys among the leading columns. *)
Definition column_row_usable (metas : list metricQueryMeta) (r : row) : Prop :=
  ∃ cols vs, row_columns r = Ok cols ∧ row_values r = Ok vs ∧ length vs = length cols ∧
    length metas ≤ length cols ∧
    Forall (λ v, is_Ok (convert_float64 v) = true) (take (length metas) vs) ∧
    Forall (λ v, is_Ok (convert_string v) = true) (drop (length metas) vs) ∧
    Forall (λ m, metaKey m ∈ take (length metas) cols) metas.

Lemma Forall_is_Ok {A B} (f : A → outcome B) l :
  Forall (λ x, is_Ok (f x) = true) l ↔ ∃ k, Forall2 (λ x y, f x = Ok y) l k.
Proof.
  rewrite <-outcome_mapM_is_Ok. split.
  - destruct (outcome_mapM f l) as [k| |] eqn:E; [|done..]. exists k. by apply outcome_mapM_Ok.
  - intros [k Hk]. apply outcome_mapM_is_Ok. induction Hk as [|x y l k Hxy]; constructor; [|done].
    by rewrite Hxy.
Qed.

Lemma column_row_good_iff metas r : column_row_good metas r = true ↔ column_row_usable metas r.
Proof.
  assert (∀ (cols : list string) (fs : list float64) k, length cols ≤ length fs →
    is_Some (insert_all (zip cols fs) (∅ : gmap string float64) !! k) ↔ k ∈ cols) as Hkeys.
  { intros cols fs k Hl. rewrite lookup_insert_all_is_Some, fst_zip by done.
    rewrite lookup_empty, is_Some_alt. naive_solver. }
  unfold column_row_good. split.
  - destruct (getRowDataAsMaps _ r) as [[values tags]| |] eqn:Hmaps; [|done..].
    apply getRowDataAsMaps_inv in Hmaps as (cols & vs & fs & ss & Hc & Hv & Hl & Hn & Hf & Hs & -> & ->).
    rewrite forallb_forall. intros Hm. exists cols, vs. split_and!; try done.
    + apply Forall_is_Ok. eauto.
    + apply Forall_is_Ok. eauto.
    + apply Forall_forall. intros m Hin%list_elem_of_In%Hm%bool_decide_eq_true.
      apply Hkeys in Hin; [done|]. apply Forall2_length in Hf. rewrite <-Hf, !length_take. lia.
  - intros (cols & vs & Hc & Hv & Hl & Hn & [fs Hf]%Forall_is_Ok & [ss Hs]%Forall_is_Ok & Hm).
    rewrite (getRowDataAsMaps_Ok _ r cols vs fs ss) by done.
    apply forallb_forall. intros m Hin%list_elem_of_In. apply bool_decide_eq_true.
    apply Hkeys; [|by rewrite Forall_forall in Hm; apply Hm].
    apply Forall2_length in Hf. rewrite <-Hf, !length_take. lia.
Qed.

Lemma row_metric_is_Ok query acum metas :
  is_Ok (outcome_mapM (row_metric query acum) metas) = true ↔
  Forall (λ m, is_Some (acum !! metaKey m)) metas.
Proof.
  rewrite outcome_mapM_is_Ok. unfold row_metric.
  split; (intros Hf; eapply Forall_impl; [exact Hf|]); simpl; intros m.
  - case_match; [eauto|done].
  - by intros [v ->].
Qed.
End completeness.

(** C21: a column query yields one metric per row and declared column, in order.
    On success the metrics are, row after row, exactly the declared ones with
    their key and unit, no timestamp of their own, the number that the row has in
    the leading column of that name, and as tags the texts of the row's other
    columns under their names, with [source=sql]; and the query succeeds exactly
    when every row has a number in each leading column, text in each other one,
    and a leading column for every declared key. *)
Theorem column_getMetrics_spec `{SqlFormats} query metas rows :
  (∀ ms, column_getMetrics query metas rows = Ok ms →
     Forall2 (column_reports metas) ms (rows_data rows ≫= λ r, (r,.) <$> metas)) ∧
  (is_Ok (column_getMetrics query metas rows) = true ↔
     Forall (column_row_usable metas) (rows_data rows)).
Proof.
  split; [apply column_getMetrics_reports|].
  transitivity (Forall (λ r, column_row_good metas r = true) (rows_data rows)).
  - apply rows_loop_is_Ok. apply column_row_is_Ok.
  - apply Forall_iff. apply column_row_good_iff.
Qed.

Definition sample_metas : list metricQueryMeta := [mkMeta "commits" "tx"; mkMeta "rollbacks" "tx"].
Definition sample_row : row :=
  mkRow (Ok ["commits"; "rollbacks"; "dbname"]) (Ok [VInt 7; VString "3"; VString "main"]).

Lemma column_getMetrics_spec_witness :
  ∃ ms, @column_getMetrics int_formats "q" sample_metas (mkRows [sample_row] None) = Ok ms ∧
    Forall2 (@column_reports int_formats sample_metas) ms ((sample_row,.) <$> sample_metas).
Proof.
  eexists. split; [reflexivity|].
  apply (proj1 (@column_getMetrics_spec int_formats "q" sample_metas
                  (mkRows [sample_row] None))). reflexivity.
Defined.

(** The maps of one row.  When a row has at least as many columns as declared
    values and its leading columns convert to floats and the others to strings,
    [getRowDataAsMaps] succeeds; with distinct column names it maps each of the
    leading names to its value and each remaining name to its tag. *)
Theorem getRowDataAsMaps_spec `{SqlFormats} n r cols vs fs ss :
  row_columns r = Ok cols → row_values r = Ok vs → length vs = length cols →
  n ≤ length cols → NoDup cols →
  Forall2 (λ v f, convert_float64 v = Ok f) (take n vs) fs →
  Forall2 (λ v s, convert_string v = Ok s) (drop n vs) ss →
  ∃ values tags, getRowDataAsMaps n r = Ok (values, tags) ∧
    (∀ i c f, i < n → cols !! i = Some c → fs !! i = Some f → values !! c = Some f) ∧
    (∀ i c s, cols !! (n + i) = Some c → ss !! i = Some s → tags !! c = Some s).
Proof.
  intros Hc Hv Hl Hn Hnd Hf Hs. eexists _, _.
  split; [by apply (getRowDataAsMaps_Ok n r cols vs fs ss)|].
  rewrite <-(take_drop n cols) in Hnd. apply NoDup_app in Hnd as (Hnd1 & _ & Hnd2).
  assert (∀ {A} (l : list string) (k : list A) i c x, NoDup l → length l = length k →
    l !! i = Some c → k !! i = Some x → insert_all (zip l k) ∅ !! c = Some x) as Hzip.
  { intros A l k i c x Hnd Hlen Hi Hx. apply lookup_insert_all_NoDup.
    - by rewrite fst_zip by lia.
    - apply (list_elem_of_lookup_2 _ i). apply lookup_zip_with_Some. eauto. }
  apply Forall2_length in Hf, Hs. rewrite length_take in Hf. rewrite length_drop in Hs.
  split.
  - intros i c f Hi Hci Hfi. eapply (Hzip _ _ _ i); [done|rewrite length_take; lia| |done].
    by rewrite lookup_take_lt.
  - intros i c s Hci Hsi. eapply (Hzip _ _ _ i); [done|rewrite length_drop; lia| |done].
    by rewrite lookup_drop.
Qed.

Lemma getRowDataAsMaps_spec_witness :
  ∃ values tags, @getRowDataAsMaps int_formats 2 sample_row = Ok (values, tags) ∧
    values !! "commits" = Some (float64_of_int 7) ∧ tags !! "dbname" = Some "main".
Proof.
  destruct (@getRowDataAsMaps_spec int_formats 2 sample_row
    ["commits"; "rollbacks"; "dbname"] [VInt 7; VString "3"; VString "main"]
    [float64_of_int 7; float64_of_int 3] ["main"])
    as (values & tags & Heq & Hv & Ht);
    [reflexivity|reflexivity|reflexivity|simpl; lia
    |apply (bool_decide_unpack _); vm_compute; exact I
    |repeat constructor|repeat constructor|].
  exists values, tags. split; [exact Heq|]. split.
  - apply (Hv 0); [lia|reflexivity|reflexivity].
  - apply (Ht 0); reflexivity.
Defined.


Definition status_row (name : string) (v : Z) : row :=
  mkRow (Ok ["VARIABLE_NAME"; "VARIABLE_VALUE"]) (Ok [VString name; VInt v]).


Section collect.
Context `{UnicodeTables} `{SqlFormats} {W : Type} `{SqlDB W}.

Lemma getMetrics_described q (w w' : W) ms :
  getMetrics q w = (Ok ms, w') →
  (∀ m, m ∈ ms → ∃ meta, meta ∈ Metrics q ∧ described_by m meta) ∧
  (∀ query metas, q = rowMetricQuery query metas → Forall2 described_by ms metas).
Proof.
  unfold getMetrics. destruct (QueryContext (Query q) w) as [[rows|e|p] w1]; [|done..].
  destruct q as [query metas|query metas]; intros [= Hms _].
  - split; [|done]. intros m Hm. by eapply column_getMetrics_described.
  - apply row_getMetrics_described in Hms. split; [|by intros ?? [= <- <-]].
    intros m Hm. apply list_elem_of_lookup in Hm as [i Hi].
    destruct (Forall2_lookup_l _ _ _ _ _ Hms Hi) as (meta & Hmeta & Hd).
    exists meta. split; [|done]. by eapply list_elem_of_lookup_2.
Qed.

(** The queries [qs] all succeed, one after the other, with the results [mss]. *)
Inductive runs : list metricQuery → W → list (list Metric) → W → Prop :=
  | runs_nil w : runs [] w [] w
  | runs_cons q qs w ms w1 mss w2 :
      getMetrics q w = (Ok ms, w1) → runs qs w1 mss w2 → runs (q :: qs) w (ms :: mss) w2.

Lemma collect_queries_Ok qs acc (w w' : W) ms :
  collect_queries qs acc w = (Ok ms, w') ↔ ∃ mss, runs qs w mss w' ∧ ms = acc ++ concat mss.
Proof.
  revert acc w. induction qs as [|q qs IH]; intros acc w; simpl; split.
  - intros [= <- <-]. exists []. split; [constructor|]. by rewrite app_nil_r.
  - intros (mss & Hr & ->). inversion Hr; subst. by rewrite app_nil_r.
  - destruct (getMetrics q w) as [[new|e|p] w1] eqn:Hq; [|done..].
    intros (mss & Hr & ->)%IH. exists (new :: mss). split; [by econstructor|].
    simpl. by rewrite <-(assoc_L (++)).
  - intros (mss & Hr & ->). inversion Hr as [|? ? ? new ? mss' ? Hq Hrest]; subst. rewrite Hq.
    apply IH. exists mss'. split; [done|]. simpl. by rewrite (assoc_L (++)).
Qed.

Lemma collect_queries_Err qs acc (w w' : W) e :
  collect_queries qs acc w = (Err e, w') ↔
  ∃ pre q post mss w1, qs = pre ++ q :: post ∧ runs pre w mss w1 ∧ getMetrics q w1 = (Err e, w').
Proof.
  revert acc w. induction qs as [|q qs IH]; intros acc w; simpl; split.
  - done.
  - intros ([|? ?] & ? & ? & ? & ? & ? & _); done.
  - destruct (getMetrics q w) as [[new|e'|p] w1] eqn:Hq; [|intros [= -> ->]|done].
    + intros (pre & q' & post & mss & w2 & -> & Hr & Hq')%IH.
      exists (q :: pre), q', post, (new :: mss), w2. split_and!; [done|by econstructor|done].
    + exists [], q, qs, [], w. split_and!; [done|constructor|done].
  - intros (pre & q' & post & mss & w1 & Heq & Hr & Hq').
    destruct pre as [|q0 pre]; simpl in Heq; injection Heq as -> ->.
    + inversion Hr; subst. by rewrite Hq'.
    + inversion Hr as [|? ? ? new w2 mss' ? Hq Hrest]; subst. rewrite Hq. apply IH.
      by exists pre, q', post, mss', w1.
Qed.

Lemma runs_each qs (w w' : W) mss :
  runs qs w mss w' → Forall2 (λ q new, ∃ w1 w2, getMetrics q w1 = (Ok new, w2)) qs mss.
Proof. induction 1; constructor; eauto. Qed.

Lemma collected_declared qs mss :
  Forall2 (λ q new, ∃ w1 w2 : W, getMetrics q w1 = (Ok new, w2)) qs mss →
  ∀ m, m ∈ concat mss → ∃ q meta, q ∈ qs ∧ meta ∈ Metrics q ∧ described_by m meta.
Proof.
  intros Hmss m Hm. apply list_elem_of_In, in_concat in Hm as (new & Hnew & Hm).
  apply list_elem_of_In in Hnew, Hm. apply list_elem_of_lookup in Hnew as [i Hi].
  destruct (Forall2_lookup_r _ _ _ _ _ Hmss Hi) as (q & Hq & w1 & w2 & Hget).
  apply getMetrics_described in Hget as [Hall _].
  destruct (Hall m Hm) as (meta & ? & ?). exists q, meta.
  split; [by eapply list_elem_of_lookup_2|done].
Qed.

Lemma declared_collected qs mss :
  Forall2 (λ q new, ∃ w1 w2 : W, getMetrics q w1 = (Ok new, w2)) qs mss →
  ∀ query metas meta, rowMetricQuery query metas ∈ qs → meta ∈ metas →
  ∃ m, m ∈ concat mss ∧ described_by m meta.
Proof.
  intros Hmss query metas meta [i Hi]%list_elem_of_lookup [j Hj]%list_elem_of_lookup.
  destruct (Forall2_lookup_l _ _ _ _ _ Hmss Hi) as (new & Hnew & w1 & w2 & Hget).
  apply getMetrics_described in Hget as [_ Hrow].
  destruct (Forall2_lookup_r _ _ _ _ _ (Hrow _ _ eq_refl) Hj) as (m & Hm & Hd).
  exists m. split; [|done]. apply list_elem_of_In, in_concat. exists new.
  by split; apply list_elem_of_In; eapply list_elem_of_lookup_2.
Qed.

Lemma getMetrics_open `{!SqlDBLaws W} q (w : W) :
  open_rows (getMetrics q w).2 = open_rows w.
Proof.
  unfold getMetrics. pose proof (query_open (Query q) w) as Ho.
  destruct (QueryContext (Query q) w) as [[rows|e|p] w1]; simpl in *; [|done..].
  rewrite close_open, Ho. done.
Qed.

Lemma collect_queries_open `{!SqlDBLaws W} qs acc (w : W) :
  open_rows (collect_queries qs acc w).2 = open_rows w.
Proof.
  revert acc w. induction qs as [|q qs IH]; intros acc w; simpl; [done|].
  pose proof (getMetrics_open q w) as Ho.
  destruct (getMetrics q w) as [[new|e|p] w1]; simpl in *; [|done..].
  by rewrite IH.
Qed.
End collect.

(** C19: what a collection returns.  [Collect] succeeds exactly when the ping and
    then each query succeed, in order, and returns the metrics of the queries in
    order; it fails exactly with the error of the ping, or of the first query that
    fails, and then later queries are not sent.  On success every metric comes
    from a declaration of one of the collector's queries, and every declaration of
    a row query has its metric in the result. *)
Theorem sql_Collect_spec `{UnicodeTables} `{SqlFormats} {W} `{SqlDB W}
    (qs : list metricQuery) (w : W) :
  (∀ ms w', sql_Collect qs w = (Ok ms, w') ↔
     ∃ w0 mss, PingContext w = (Ok tt, w0) ∧ runs qs w0 mss w' ∧ ms = concat mss) ∧
  (∀ e w', sql_Collect qs w = (Err e, w') ↔
     PingContext w = (Err e, w') ∨
     ∃ w0 pre q post mss w1, PingContext w = (Ok tt, w0) ∧ qs = pre ++ q :: post ∧
       runs pre w0 mss w1 ∧ getMetrics q w1 = (Err e, w')) ∧
  (∀ ms w', sql_Collect qs w = (Ok ms, w') →
     (∀ m, m ∈ ms → ∃ q meta, q ∈ qs ∧ meta ∈ Metrics q ∧ described_by m meta) ∧
     (∀ query metas meta, rowMetricQuery query metas ∈ qs → meta ∈ metas →
        ∃ m, m ∈ ms ∧ described_by m meta)).
Proof.
  unfold sql_Collect. destruct (PingContext w) as [[[]|e|p] w0]; [|naive_solver..].
  split_and!.
  - intros ms w'. rewrite collect_queries_Ok. simpl. naive_solver.
  - intros e w'. rewrite collect_queries_Err. naive_solver eauto 10.
  - intros ms w' (mss & Hr & ->)%collect_queries_Ok. apply runs_each in Hr as Hmss.
    split; [apply (collected_declared qs mss Hmss)|apply (declared_collected qs mss Hmss)].
Qed.

Definition sample_table (q : string) : outcome Rows :=
  if decide (q = "status") then
    Ok (mkRows [status_row "Queries" 3; status_row "Questions" 4] None)
  else if decide (q = "stat") then Ok (mkRows [sample_row] None)
  else Err "syntax error".

Definition sample_queries : list metricQuery :=
  [rowMetricQuery "status" [mkMeta "queries" "conn"]; columnMetricQuery "stat" sample_metas].

Lemma sql_Collect_spec_witness :
  ∃ ms, @sql_Collect ascii_tables int_formats nat (table_db sample_table) sample_queries 0 = (Ok ms, 0) ∧
    length ms = 3 ∧ ∃ m, m ∈ ms ∧ described_by m (mkMeta "queries" "conn").
Proof.
  eexists. split; [reflexivity|]. split; [reflexivity|].
  apply (proj2 (proj2 (proj2 (@sql_Collect_spec ascii_tables int_formats nat (table_db sample_table)
    sample_queries 0)) _ 0 eq_refl) "status" [mkMeta "queries" "conn"]); left.
Defined.

(** No result set leaks.  Whatever the queries return, on success and on
    every error path, a collection leaves as many result sets open as it found. *)
Theorem sql_Collect_closes_rows `{UnicodeTables} `{SqlFormats} {W} `{SqlDBLaws W}
    (qs : list metricQuery) (w : W) :
  open_rows (sql_Collect qs w).2 = open_rows w.
Proof.
  unfold sql_Collect. pose proof (ping_open w) as Hp.
  destruct (PingContext w) as [[[]|e|p] w0]; simpl in *; [|done..].
  by rewrite collect_queries_open.
Qed.

Lemma sql_Collect_closes_rows_witness :
  @open_rows nat _ (table_db_laws sample_table)
    (@sql_Collect ascii_tables int_formats nat (table_db sample_table)
       (sample_queries ++ [rowMetricQuery "bad" []]) 0).2 = 0.
Proof.
  apply (@sql_Collect_closes_rows ascii_tables int_formats nat (table_db sample_table)
           (table_db_laws sample_table) _ 0).
Defined.

(** An iteration that fails is not reported.  When the server breaks off a
    result set ([rows.Next()] returns false with a non-nil [rows.Err()]), a
    column query returns the metrics of the rows read so far with a nil error:
    a collector whose queries are all of that kind and whose results break off
    before the first row succeeds with no metrics. *)
Theorem sql_Collect_ignores_rows_err `{UnicodeTables} `{SqlFormats} {W} `{SqlDB W}
    (qs : list metricQuery) (w : W) e :
  (PingContext w).1 = Ok tt →
  (∀ q w, (QueryContext q w).1 = Ok (mkRows [] (Some e))) →
  Forall (λ q, ∃ query metas, q = columnMetricQuery query metas) qs →
  (sql_Collect qs w).1 = Ok [].
Proof.
  intros Hping Hq Hqs. unfold sql_Collect.
  destruct (PingContext w) as [res w0]. simpl in Hping. subst res. clear w.
  revert w0. induction Hqs as [|q qs (query & metas & ->) _ IH]; intros w; [done|].
  simpl. unfold getMetrics. specialize (Hq query w). simpl Query.
  destruct (QueryContext query w) as [res w1]. simpl in Hq. subst res. apply IH.
Qed.

Lemma sql_Collect_ignores_rows_err_witness :
  (@sql_Collect ascii_tables int_formats nat
    (table_db (λ _, Ok (mkRows [] (Some "read timeout"))))
    [columnMetricQuery "stat" sample_metas] 0).1 = Ok [].
Proof.
  apply (@sql_Collect_ignores_rows_err ascii_tables int_formats nat
    (table_db (λ _, Ok (mkRows [] (Some "read timeout")))) _ 0 "read timeout");
    [reflexivity|reflexivity|].
  constructor; [|constructor]. exists "stat", sample_metas. reflexivity.
Defined.
