(* ===== verification/SqlText.v ===== *)
(** * What a query text promises about its result set

    The metric declarations of the MySQL and PostgreSQL drivers only make sense
    with the text of their queries: a column query finds its keys under the
    column aliases of its SELECT list, a row query under the (lower-cased)
    variable names its WHERE clause enumerates.  This file reads both off the
    query text and shows what a declaration needs to be covered by them. *)

From S2P Require Import Prelude GoStrings Metrics BrokerInfo Collector SqlCollector.
From stdpp Require Import options.

(** The words that follow "as" in the text, without the list's comma. *)
Fixpoint aliases_of (tokens : list string) : list string :=
  match tokens with
  | t :: ((a :: _) as rest) =>
      if decide (smap lower t = "as") then trim_right "," a :: aliases_of rest
      else aliases_of rest
  | _ => []
  end.
Definition aliases (query : string) : list string := aliases_of (fields_go "" query).

Fixpoint odds {A} (l : list A) : list A :=
  match l with
  | _ :: b :: l => b :: odds l
  | _ => []
  end.
(** The contents of the single-quoted literals of the text. *)
Definition quoted_names (query : string) : list string := odds (Split query "'").

(** Every declared key is an alias, at the position the scan expects it. *)
Definition column_covered (query : string) (metas : list metricQueryMeta) : bool :=
  bool_decide (take (length metas) (aliases query) = (metaKey <$> metas)) &&
  bool_decide (length metas ≤ length (aliases query)).

(** Every declared key is, in lower case, one of the enumerated names. *)
Definition row_covered (query : string) (metas : list metricQueryMeta) : bool :=
  forallb (λ m, bool_decide (metaKey m ∈ smap lower <$>
                  filter (λ n, string_all is_ascii n = true) (quoted_names query))) metas.

Definition covered (q : metricQuery) : bool :=
  match q with
  | columnMetricQuery query metas => column_covered query metas
  | rowMetricQuery query metas => row_covered query metas
  end.

(** The keys a list of queries declares. *)
Definition declared_keys (qs : list metricQuery) : list string :=
  qs ≫= λ q, metaKey <$> Metrics q.

Section covered.
Context `{UnicodeTables} `{SqlFormats}.

(** A row with the columns of the SELECT list and convertible values. *)
Definition row_of_select (query : string) (n : nat) (r : row) : Prop :=
  ∃ vs, row_columns r = Ok (aliases query) ∧ row_values r = Ok vs ∧
    length vs = length (aliases query) ∧
    Forall (λ v, is_Ok (convert_float64 v) = true) (take n vs) ∧
    Forall (λ v, is_Ok (convert_string v) = true) (drop n vs).

(** A (name, value) row for the variable [name]. *)
Definition row_of_status (name : string) (r : row) : Prop :=
  ∃ cols vk vf, row_columns r = Ok cols ∧ length cols = 2 ∧
    row_values r = Ok [vk; vf] ∧ convert_string vk = Ok name ∧
    is_Ok (convert_float64 vf) = true.

Lemma row_of_select_good query metas r :
  column_covered query metas = true → row_of_select query (length metas) r →
  column_row_good metas r = true.
Proof.
  intros [Hcov%bool_decide_eq_true Hlen%bool_decide_eq_true]%andb_true_iff
         (vs & Hc & Hv & Hl & Hf & Hs).
  apply Forall_is_Ok in Hf as [fs Hf]. apply Forall_is_Ok in Hs as [ss Hs].
  unfold column_row_good. rewrite (getRowDataAsMaps_Ok _ r _ vs fs ss) by done.
  rewrite Hcov. apply forallb_forall. intros m Hm%list_elem_of_In.
  apply bool_decide_eq_true, lookup_insert_all_is_Some. left.
  rewrite fst_zip.
  - apply list_elem_of_fmap. eauto.
  - apply Forall2_length in Hf. rewrite length_take in Hf. rewrite length_fmap. lia.
Qed.

Lemma column_covered_succeeds query metas rows :
  column_covered query metas = true →
  Forall (row_of_select query (length metas)) (rows_data rows) →
  is_Ok (column_getMetrics query metas rows) = true.
Proof.
  intros Hcov Hrows. apply rows_loop_is_Ok with (good := column_row_good metas).
  - intros. apply column_row_is_Ok.
  - eapply Forall_impl; [exact Hrows|]. intros r. by apply row_of_select_good.
Qed.

Lemma row_of_status_step query name acum r :
  row_of_status name r →
  ∃ m, row_row query acum r = Ok (<[ToLower name := m]> acum).
Proof.
  intros (cols & vk & vf & Hc & Hl & Hv & Hk & Hf). unfold row_row.
  rewrite Hc. simpl. rewrite decide_False by lia.
  unfold Scan. rewrite Hv, Hl. simpl.
  rewrite Hk. simpl. destruct (convert_float64 vf) as [f| |]; try done. simpl. eauto.
Qed.

Lemma row_of_status_loop query names rs acum :
  Forall2 row_of_status names rs →
  ∃ acum', rows_loop (row_row query) acum rs = Ok acum' ∧
    ∀ k, (k ∈ ToLower <$> names) ∨ is_Some (acum !! k) → is_Some (acum' !! k).
Proof.
  intros Hrs. revert acum. induction Hrs as [|name r names rs Hr _ IH]; intros acum; simpl.
  - exists acum. split; [done|]. set_solver.
  - destruct (row_of_status_step query name acum r Hr) as [m ->]. simpl.
    destruct (IH (<[ToLower name := m]> acum)) as (acum' & -> & Hacum').
    exists acum'. split; [done|]. intros k Hk. apply Hacum'.
    rewrite lookup_insert_is_Some'. set_solver.
Qed.

Lemma row_covered_succeeds query metas names rs err :
  row_covered query metas = true →
  Forall2 row_of_status names rs → (∀ n, n ∈ quoted_names query → n ∈ names) →
  is_Ok (row_getMetrics query metas (mkRows rs err)) = true.
Proof.
  intros Hcov Hrs Hnames.
  destruct (row_of_status_loop query names rs ∅ Hrs) as (acum & Hloop & Hacum).
  unfold row_getMetrics. simpl. rewrite Hloop. simpl. apply row_metric_is_Ok.
  apply Forall_forall. intros m Hm. apply Hacum. left.
  unfold row_covered in Hcov. rewrite forallb_forall in Hcov.
  specialize (Hcov m (proj1 (list_elem_of_In _ _) Hm)). apply bool_decide_eq_true in Hcov.
  apply list_elem_of_fmap in Hcov as (n & Hn & [Hascii Hq]%list_elem_of_filter).
  apply list_elem_of_fmap. exists n. split; [|by apply Hnames].
  unfold ToLower. by rewrite Hascii.
Qed.
End covered.
