(* ===== verification/MysqlCollector.v ===== *)
(** * pkg/collector/mysql_collector.go: the MySQL driver

    The queries and their metrics as declared, the connection string and the
    constructor of the driver. *)

From S2P Require Import Prelude GoStrings Metrics BrokerInfo Collector SqlCollector SqlText.
From stdpp Require Import options.

(** ** Queries *)

Definition mysql_connections_query : metricQuery :=
  rowMetricQuery "
			SELECT *
			FROM performance_schema.global_status
			WHERE variable_name IN (
			   'Threads_connected'
			  ,'Threads_running'
			  ,'Threads_created'
			  ,'Connections'
			  ,'Queries'
			  ,'Questions'
			  ,'Aborted_clients'
			  ,'Aborted_connects'
			);
		"
    [ mkMeta "threads_connected" "conn"
    ; mkMeta "threads_running" "conn"
    ; mkMeta "threads_created" "conn"
    ; mkMeta "queries" "conn"
    ; mkMeta "questions" "conn"
    ; mkMeta "aborted_clients" "conn"
    ; mkMeta "aborted_connects" "conn" ].

Definition mysql_innodb_query : metricQuery :=
  rowMetricQuery "
			SELECT *
			FROM performance_schema.global_status
			WHERE variable_name IN (
			   'Innodb_row_lock_waits'
			  ,'Innodb_row_lock_time'
			  ,'Innodb_num_open_files'
			  ,'Innodb_log_waits'
			  ,'Innodb_buffer_pool_bytes_data'
			  ,'Innodb_buffer_pool_bytes_dirty'
			  ,'Innodb_buffer_pool_pages_data'
			  ,'Innodb_buffer_pool_pages_dirty'
			  ,'Innodb_buffer_pool_pages_flushed'
			  ,'Innodb_buffer_pool_pages_free'
			  ,'Innodb_buffer_pool_pages_misc'
			  ,'Innodb_buffer_pool_pages_total'
			  ,'Innodb_buffer_pool_read_ahead'
			  ,'Innodb_buffer_pool_read_ahead_evicted'
			  ,'Innodb_buffer_pool_read_ahead_rnd'
			  ,'Innodb_buffer_pool_read_requests'
			  ,'Innodb_buffer_pool_reads'
			  ,'Innodb_buffer_pool_wait_free'
			  ,'Innodb_buffer_pool_write_requests'
			);
		"
    [ mkMeta "innodb_row_lock_waits" "guage"
    ; mkMeta "innodb_row_lock_time" "ms"
    ; mkMeta "innodb_num_open_files" "files"
    ; mkMeta "innodb_log_waits" "guage"
    ; mkMeta "innodb_buffer_pool_bytes_data" "bytes"
    ; mkMeta "innodb_buffer_pool_bytes_dirty" "bytes"
    ; mkMeta "innodb_buffer_pool_pages_data" "pages"
    ; mkMeta "innodb_buffer_pool_pages_dirty" "pages"
    ; mkMeta "innodb_buffer_pool_pages_flushed" "pages"
    ; mkMeta "innodb_buffer_pool_pages_free" "pages"
    ; mkMeta "innodb_buffer_pool_pages_misc" "pages"
    ; mkMeta "innodb_buffer_pool_pages_total" "pages"
    ; mkMeta "innodb_buffer_pool_read_ahead" "pages"
    ; mkMeta "innodb_buffer_pool_read_ahead_evicted" "pages"
    ; mkMeta "innodb_buffer_pool_read_ahead_rnd" "guage"
    ; mkMeta "innodb_buffer_pool_read_requests" "conn"
    ; mkMeta "innodb_buffer_pool_reads" "guage"
    ; mkMeta "innodb_buffer_pool_wait_free" "guage"
    ; mkMeta "innodb_buffer_pool_write_requests" "guage" ].

Definition mysql_max_connections_query : metricQuery :=
  columnMetricQuery "
			SELECT
					variable_value as max_connections
			FROM performance_schema.global_variables
			WHERE variable_name = 'max_connections';
		"
    [ mkMeta "max_connections" "conn" ].

Definition mysql_connection_errors_query : metricQuery :=
  columnMetricQuery "
			SELECT
					SUM(variable_value) as connection_errors
			FROM performance_schema.global_status
			WHERE variable_name like 'Connection_errors_%';
		"
    [ mkMeta "connection_errors" "err" ].

Definition mysqlMetricQueries : list metricQuery :=
  [ mysql_connections_query
  ; mysql_innodb_query
  ; mysql_max_connections_query
  ; mysql_connection_errors_query ].

(** ** Connection string *)

Record mysqlConnectionStringBuilder := mkMysqlBuilder {
  myConnectionTimeout : Z;
  myReadTimeout : Z;
  myWriteTimeout : Z;
  TLS : string;
}.

Definition mysql_ConnectionString (m : mysqlConnectionStringBuilder)
    (details : InstanceConnectionDetails) : string :=
  let tls := if decide (TLS m ≠ "") then TLS m else "false" in
  MasterUsername details +:+ ":" +:+ MasterPassword details +:+ "@tcp(" +:+
  DBAddress details +:+ ":" +:+ Itoa (DBPort details) +:+ ")/" +:+ DBName details +:+
  "?tls=" +:+ tls +:+
  "&timeout=" +:+ Itoa (myConnectionTimeout m) +:+ "s" +:+
  "&readTimeout=" +:+ Itoa (myReadTimeout m) +:+ "s" +:+
  "&writeTimeout=" +:+ Itoa (myWriteTimeout m) +:+ "s".

Definition NewMysqlMetricsCollectorDriver (intervalSeconds timeout : Z) (tls : string)
  : sqlMetricsCollectorDriver := {|
  collectInterval := intervalSeconds;
  queries := mysqlMetricQueries;
  sqlDriver := "mysql";
  sqlName := "mysql";
  ConnectionString := mysql_ConnectionString (mkMysqlBuilder timeout timeout timeout tls);
|}.

Example mysql_ConnectionString_example :
  mysql_ConnectionString (mkMysqlBuilder 10 10 10 "")
    (mkDetails "endpoint-address.com" 5432 "dbprefix-db" "master-username" "9Fs6CWnuwf0BAY3rDFAels3OXANSo0-M")
  = "master-username:9Fs6CWnuwf0BAY3rDFAels3OXANSo0-M@tcp(endpoint-address.com:5432)/dbprefix-db?tls=false&timeout=10s&readTimeout=10s&writeTimeout=10s".
Proof. reflexivity. Qed.

(** ** Properties *)

Lemma mysql_all_covered : forallb covered mysqlMetricQueries = true.
Proof. vm_compute. reflexivity. Qed.

(** C23: the MySQL declarations match their queries.  Every row query succeeds on
    a result set that has a (name, value) row for each variable its WHERE clause
    names, with a numeric value; every column query succeeds on rows with the
    columns of its SELECT list, with numeric values in the metric columns; and no
    two metrics of the driver have the same key. *)
Theorem mysql_queries_succeed `{UnicodeTables} `{SqlFormats} :
  NoDup (declared_keys mysqlMetricQueries) ∧
  (∀ query metas names rs err, rowMetricQuery query metas ∈ mysqlMetricQueries →
     Forall2 row_of_status names rs → (∀ n, n ∈ quoted_names query → n ∈ names) →
     is_Ok (row_getMetrics query metas (mkRows rs err)) = true) ∧
  (∀ query metas rows, columnMetricQuery query metas ∈ mysqlMetricQueries →
     Forall (row_of_select query (length metas)) (rows_data rows) →
     is_Ok (column_getMetrics query metas rows) = true).
Proof.
  pose proof (proj1 (forallb_forall _ _) mysql_all_covered) as Hcov.
  setoid_rewrite <-list_elem_of_In in Hcov.
  split_and!.
  - apply (bool_decide_unpack _). vm_compute. exact I.
  - intros query metas names rs err Hq. apply row_covered_succeeds. by apply (Hcov _ Hq).
  - intros query metas rows Hq. apply column_covered_succeeds. by apply (Hcov _ Hq).
Qed.

(** A status table for the first query, as MySQL returns it. *)
Definition sample_status : list string :=
  ["Threads_connected"; "Threads_running"; "Threads_created"; "Connections";
   "Queries"; "Questions"; "Aborted_clients"; "Aborted_connects"].

Lemma mysql_queries_succeed_witness :
  is_Ok (@row_getMetrics ascii_tables int_formats (Query mysql_connections_query)
           (Metrics mysql_connections_query)
           (mkRows ((λ n, status_row n 1) <$> sample_status) None)) = true.
Proof.
  apply (proj1 (proj2 (@mysql_queries_succeed ascii_tables int_formats))
           (Query mysql_connections_query) (Metrics mysql_connections_query) sample_status).
  - left.
  - repeat constructor; eexists _, _, _; repeat split; reflexivity.
  - intros n Hn. exact Hn.
Defined.
