(* ===== verification/PqTimeouts.v ===== *)
(** * fork/pq-timeouts: a PostgreSQL driver with read and write timeouts

    [Conn] is the wrapper around a network connection that arms a deadline
    around every read and write (conn.go), [Dialer] the dialer that wraps the
    connections it opens (dialer.go), [Driver] the driver that takes the two
    timeouts out of the connection string before lib/pq sees it (driver.go).
    The network, [pq.ParseURL] and [pq.DialOpen] are parameters. *)

From S2P Require Import Prelude GoStrings.
From stdpp Require Import options.

(** ** conn.go *)

(** A deadline: the zero [time.Time] means none. *)
Inductive deadline := NoDeadline | At (ns : Z).

(** A [net.Conn] as operations on its state [C]; errors are optional strings. *)
Class NetConn (C : Type) := {
  nc_Read : nat → C → (Z * option string) * C;
  nc_Write : string → C → (Z * option string) * C;
  nc_Close : C → option string * C;
  nc_LocalAddr : C → string;
  nc_RemoteAddr : C → string;
  nc_SetDeadline : deadline → C → option string * C;
  nc_SetReadDeadline : deadline → C → option string * C;
  nc_SetWriteDeadline : deadline → C → option string * C;
}.

Definition nilConnErr : string := "Connection is nil".

(** [conn] is [None] once the connection has been closed. *)
Record timeoutConn (C : Type) := mkTimeoutConn {
  conn : option C;
  readTimeout : Z;
  writeTimeout : Z;
}.
Arguments mkTimeoutConn {C}.
Arguments conn {C}.
Arguments readTimeout {C}.
Arguments writeTimeout {C}.

Section conn.
Context {C : Type} `{NetConn C}.

Definition set_conn (t : timeoutConn C) (c : option C) : timeoutConn C :=
  mkTimeoutConn c (readTimeout t) (writeTimeout t).

(** [now] is the wall clock when the call starts. *)
Definition tc_Read (now : Z) (b : nat) (t : timeoutConn C) : (Z * option string) * timeoutConn C :=
  match conn t with
  | Some c =>
      let c := if decide (readTimeout t ≠ 0%Z)
               then (nc_SetReadDeadline (At (now + readTimeout t)) c).2 else c in
      let '(res, c) := nc_Read b c in
      let c := if decide (readTimeout t ≠ 0%Z) then (nc_SetReadDeadline NoDeadline c).2 else c in
      (res, set_conn t (Some c))
  | None => ((0%Z, Some nilConnErr), t)
  end.

Definition tc_Write (now : Z) (b : string) (t : timeoutConn C) : (Z * option string) * timeoutConn C :=
  match conn t with
  | Some c =>
      let c := if decide (writeTimeout t ≠ 0%Z)
               then (nc_SetWriteDeadline (At (now + writeTimeout t)) c).2 else c in
      let '(res, c) := nc_Write b c in
      let c := if decide (writeTimeout t ≠ 0%Z) then (nc_SetWriteDeadline NoDeadline c).2 else c in
      (res, set_conn t (Some c))
  | None => ((0%Z, Some nilConnErr), t)
  end.

Definition tc_Close (t : timeoutConn C) : option string * timeoutConn C :=
  match conn t with
  | Some c =>
      let '(err, c) := nc_Close c in
      (err, set_conn t (match err with None => None | Some _ => Some c end))
  | None => (Some nilConnErr, t)
  end.

Definition tc_LocalAddr (t : timeoutConn C) : option string := nc_LocalAddr <$> conn t.
Definition tc_RemoteAddr (t : timeoutConn C) : option string := nc_RemoteAddr <$> conn t.

Definition tc_deadline (set : deadline → C → option string * C) (d : deadline)
    (t : timeoutConn C) : option string * timeoutConn C :=
  match conn t with
  | Some c => let '(err, c) := set d c in (err, set_conn t (Some c))
  | None => (Some nilConnErr, t)
  end.

Definition tc_SetDeadline : deadline → timeoutConn C → option string * timeoutConn C :=
  tc_deadline nc_SetDeadline.
Definition tc_SetReadDeadline : deadline → timeoutConn C → option string * timeoutConn C :=
  tc_deadline nc_SetReadDeadline.
Definition tc_SetWriteDeadline : deadline → timeoutConn C → option string * timeoutConn C :=
  tc_deadline nc_SetWriteDeadline.
End conn.

(** ** dialer.go *)

(** What a dial returns: a plain connection or a wrapped one, possibly nil. *)
Inductive dialed (C : Type) := Plain (c : C) | Wrapped (t : timeoutConn C).
Arguments Plain {C} c.
Arguments Wrapped {C} t.

Record timeoutDialer := mkDialer {
  dialReadTimeout : Z;
  dialWriteTimeout : Z;
}.

Section dialer.
Context {C : Type}.
(** [net.Dial] / [net.DialTimeout]: a connection or nil, and an error or nil. *)
Context (netDial : string → string → option C * option string).
Context (netDialTimeout : string → string → Z → option C * option string).

Definition wrap_dialed (t : timeoutDialer) (r : option C * option string)
  : option (dialed C) * option string :=
  match r with
  | (c, Some err) => (Plain <$> c, Some err)
  | (None, None) => (None, None)
  | (Some c, None) =>
      (Some (Wrapped (mkTimeoutConn (Some c) (dialReadTimeout t) (dialWriteTimeout t))), None)
  end.

Definition Dial (t : timeoutDialer) (network address : string)
  : option (dialed C) * option string :=
  if decide (dialReadTimeout t = 0%Z ∧ dialWriteTimeout t = 0%Z)
  then let '(c, err) := netDial network address in (Plain <$> c, err)
  else wrap_dialed t (netDial network address).

Definition DialTimeout (t : timeoutDialer) (network address : string) (timeout : Z)
  : option (dialed C) * option string :=
  if decide (dialReadTimeout t = 0%Z ∧ dialWriteTimeout t = 0%Z)
  then let '(c, err) := netDialTimeout network address timeout in (Plain <$> c, err)
  else wrap_dialed t (netDialTimeout network address timeout).
End dialer.

(** ** driver.go *)

Definition Millisecond : Z := 1000000.

(** The loop variables of [Open]. *)
Record open_state := mkOpenState {
  newConnectionSettings : list string;
  osReadTimeout : Z;
  osWriteTimeout : Z;
}.

(** [strconv.Atoi(strings.Trim(s[1], "'"))] as a number of milliseconds. *)
Definition setting_duration `{UnicodeTables} (name : string) (s : list string) : outcome Z :=
  match s with
  | _ :: v :: _ =>
      let trimmed := Trim v "'" in
      match Atoi trimmed with
      | None => Err ("Error interpreting value " +:+ Quote trimmed +:+ " for " +:+ name)
      | Some val => Ok (mul64 val Millisecond)
      end
  | _ => Panic "index out of range [1] with length 1"
  end.

Definition open_step `{UnicodeTables} (acc : outcome open_state) (setting : string) : outcome open_state :=
  st ← acc;
  let s := Split setting "=" in
  if decide (head s = Some "read_timeout") then
    d ← setting_duration "read_timeout" s;
    Ok (mkOpenState (newConnectionSettings st) d (osWriteTimeout st))
  else if decide (head s = Some "write_timeout") then
    d ← setting_duration "write_timeout" s;
    Ok (mkOpenState (newConnectionSettings st) (osReadTimeout st) d)
  else Ok (mkOpenState (newConnectionSettings st ++ [setting]) (osReadTimeout st) (osWriteTimeout st)).

Section driver.
Context `{UnicodeTables}.
Context {Conn : Type} (ParseURL : string → outcome string).
Context (dialOpen : timeoutDialer → string → outcome Conn).

Definition timeoutDriver_Open (connection : string) : outcome Conn :=
  connection ← (if HasPrefix connection "postgres://" || HasPrefix connection "postgresql://"
                then ParseURL connection else Ok connection);
  st ← foldl open_step (Ok (mkOpenState [] 0 0)) (Fields connection);
  dialOpen (mkDialer (osReadTimeout st) (osWriteTimeout st))
           (Join (newConnectionSettings st) " ").
End driver.

(** ** Lemmas: the settings loop as a specification on the list of settings *)

Definition setting_key (setting : string) : option string := head (Split setting "=").

Definition is_timeout (setting : string) : bool :=
  bool_decide (setting_key setting = Some "read_timeout" ∨
               setting_key setting = Some "write_timeout").

(** The duration of the last setting with that key; [d] if there is none. *)
Definition last_duration `{UnicodeTables} (name : string) (d : Z) (l : list string) : Z :=
  foldl (λ d s, if decide (setting_key s = Some name)
                then match setting_duration name (Split s "=") with Ok v => v | _ => d end
                else d) d l.

(** A timeout setting carries an integer. *)
Definition good_setting `{UnicodeTables} (s : string) : bool :=
  if is_timeout s then is_Ok (setting_duration "" (Split s "=")) else true.

Section open_lemmas.
Context `{UnicodeTables}.

Lemma setting_duration_name n1 n2 s v :
  setting_duration n1 s = Ok v → setting_duration n2 s = Ok v.
Proof. unfold setting_duration. repeat case_match; naive_solver. Qed.

Lemma open_step_good st s :
  good_setting s = true →
  open_step (Ok st) s = Ok (mkOpenState
    (newConnectionSettings st ++ (if is_timeout s then [] else [s]))
    (last_duration "read_timeout" (osReadTimeout st) [s])
    (last_duration "write_timeout" (osWriteTimeout st) [s])).
Proof.
  unfold good_setting, is_timeout, open_step, last_duration, setting_key. simpl.
  intros Hgood. destruct st as [ns rt wt]; simpl.
  assert (∀ n v, setting_duration "" (Split s "=") = Ok v →
                 setting_duration n (Split s "=") = Ok v) as Hd
    by eauto using setting_duration_name.
  case_decide as H1.
  { rewrite bool_decide_eq_true_2 in * by auto. rewrite app_nil_r.
    destruct (setting_duration "" _) as [v| |] eqn:Ev; try done.
    rewrite !(Hd _ v) by done. simpl. repeat case_decide; congruence. }
  case_decide as H2.
  { rewrite bool_decide_eq_true_2 in * by auto. rewrite app_nil_r.
    destruct (setting_duration "" _) as [v| |] eqn:Ev; try done.
    rewrite !(Hd _ v) by done. simpl. repeat case_decide; congruence. }
  rewrite bool_decide_eq_false_2 by naive_solver. done.
Qed.

Lemma open_loop_good l st :
  Forall (λ s, good_setting s = true) l →
  foldl open_step (Ok st) l = Ok (mkOpenState
    (newConnectionSettings st ++ filter (λ s, is_timeout s = false) l)
    (last_duration "read_timeout" (osReadTimeout st) l)
    (last_duration "write_timeout" (osWriteTimeout st) l)).
Proof.
  intros Hl. revert st. induction Hl as [|s l Hs _ IH]; intros st.
  - destruct st; simpl. by rewrite app_nil_r.
  - cbn [foldl]. rewrite open_step_good by done. rewrite IH.
    rewrite filter_cons. f_equal. f_equal. simpl. rewrite <-(assoc_L (++)). f_equal.
    destruct (is_timeout s) eqn:E; case_decide; done.
Qed.

Lemma open_loop_failed r l : (∀ st, r ≠ Ok st) → foldl open_step r l = r.
Proof. intros Hr. induction l as [|s l IH]; simpl; [done|]. destruct r; [naive_solver|apply IH..]. Qed.

(** Every step that succeeds met a good setting. *)
Lemma open_step_Ok_good st s st' : open_step (Ok st) s = Ok st' → good_setting s = true.
Proof.
  unfold open_step, good_setting, is_timeout, setting_key. simpl. intros Hs.
  case_bool_decide as Ht; [|done].
  destruct (setting_duration "" (Split s "=")) as [v|e|p] eqn:Ev; [done|exfalso..];
    repeat case_decide; (try naive_solver);
    apply outcome_bind_Ok in Hs as (v & Hv & _); apply (setting_duration_name _ "") in Hv; congruence.
Qed.

Lemma open_loop_Ok_good l st st' :
  foldl open_step (Ok st) l = Ok st' → Forall (λ s, good_setting s = true) l.
Proof.
  revert st. induction l as [|s l IH]; intros st; cbn [foldl]; [constructor|].
  destruct (open_step (Ok st) s) as [st1|e|p] eqn:Es.
  - intros Hl. constructor; eauto using open_step_Ok_good.
  - rewrite open_loop_failed by done. done.
  - rewrite open_loop_failed by done. done.
Qed.

(** [Fields] of an ASCII string returns tokens. *)
Lemma fields_go_tokens cur s :
  no_space cur = true → Forall (λ t, token t = true) (fields_go cur s).
Proof.
  assert (∀ c, no_space c = true → Forall (λ t, token t = true) (flush c)) as Hflush.
  { intros c Hc. unfold flush. case_decide; repeat constructor.
    unfold token. by rewrite Hc, bool_decide_eq_true_2. }
  revert cur. induction s as [|a s IH]; intros cur Hcur; simpl; [by apply Hflush|].
  destruct (Ascii.is_space a) eqn:Ea.
  - apply Forall_app. split; [by apply Hflush|by apply IH].
  - apply IH. unfold no_space in *. rewrite string_all_app, Hcur. simpl. by rewrite Ea.
Qed.

(** Quoted settings, as [pq.ParseURL] writes them. *)
Definition quote_setting (k v : string) : string :=
  k +:+ String "=" (String "'" (v +:+ String "'" "")).

Lemma Split_quote k v :
  lacks "=" k = true → lacks "=" v = true →
  Split (quote_setting k v) "=" = [k; String "'" (v +:+ String "'" "")].
Proof.
  intros Hk Hv. unfold quote_setting. apply Split_pair; [done|].
  unfold lacks in *. simpl. by rewrite string_all_app, Hv.
Qed.

(** The characters of a decimal number. *)
Lemma Itoa_all (p : ascii → bool) n :
  (∀ d, (d < 10)%N → p (pretty_N_char d) = true) → p "-"%char = true →
  string_all p (Itoa n) = true.
Proof.
  intros Hchar Hdash.
  assert (∀ m s, string_all p s = true → string_all p (pretty_N_go m s) = true) as Hgo.
  { intros m. induction (N.lt_wf_0 m) as [m _ IH]; intros s Hs.
    destruct (decide (m = 0)%N) as [->|Hm]; [done|].
    rewrite pretty_N_go_step by lia. apply IH; [apply N.div_lt; lia|].
    simpl. rewrite Hchar by (by apply N.mod_lt). done. }
  unfold Itoa. destruct n as [|m|m].
  - apply andb_true_iff. split; [by apply (Hchar 0%N)|done].
  - change (pretty (Z.pos m)) with (pretty (N.pos m)). unfold pretty, pretty_N.
    rewrite decide_False by done. by apply Hgo.
  - change (pretty (Z.neg m)) with (String "-" (pretty (N.pos m))).
    unfold pretty, pretty_N. rewrite decide_False by done. simpl. rewrite Hdash. by apply Hgo.
Qed.

Lemma digits_lack c n :
  Ascii.is_nat c = None → c ≠ "-"%char → lacks c (Itoa n) = true.
Proof.
  intros Hc Hdash. apply Itoa_all; [|by apply bool_decide_eq_true].
  intros d Hd. apply bool_decide_eq_true. intros <-. by rewrite is_nat_pretty_char in Hc.
Qed.

(** A setting, with or without quotes around the value. *)
Definition render_setting (quoted : bool) (k v : string) : string :=
  if quoted then quote_setting k v else k +:+ String "=" v.

Lemma setting_duration_rendered q name k n :
  lacks "=" k = true → in_int64 n →
  setting_duration name (Split (render_setting q k (Itoa n)) "=") = Ok (mul64 n Millisecond).
Proof.
  intros Hk Hn. unfold render_setting. destruct q.
  - rewrite Split_quote; [|done|by apply digits_lack].
    unfold setting_duration. rewrite Trim_quoted by (by apply digits_lack). by rewrite Atoi_Itoa.
  - rewrite Split_pair; [|done|by apply digits_lack].
    unfold setting_duration. rewrite Trim_lacks by (by apply digits_lack). by rewrite Atoi_Itoa.
Qed.
End open_lemmas.

(** ** Any sequence of calls on a wrapped connection *)

Inductive conn_op :=
  | OpRead (now : Z) (b : nat)
  | OpWrite (now : Z) (b : string)
  | OpClose
  | OpSetDeadline (d : deadline)
  | OpSetReadDeadline (d : deadline)
  | OpSetWriteDeadline (d : deadline).

Section ops.
Context {C : Type} `{NetConn C}.

Definition run_op (t : timeoutConn C) (o : conn_op) : option string * timeoutConn C :=
  match o with
  | OpRead now b => let '((_, err), t) := tc_Read now b t in (err, t)
  | OpWrite now b => let '((_, err), t) := tc_Write now b t in (err, t)
  | OpClose => tc_Close t
  | OpSetDeadline d => tc_SetDeadline d t
  | OpSetReadDeadline d => tc_SetReadDeadline d t
  | OpSetWriteDeadline d => tc_SetWriteDeadline d t
  end.

(** The errors of the calls, and the final state. *)
Fixpoint run_ops (t : timeoutConn C) (os : list conn_op) : list (option string) * timeoutConn C :=
  match os with
  | [] => ([], t)
  | o :: os =>
      let '(err, t) := run_op t o in
      let '(errs, t) := run_ops t os in (err :: errs, t)
  end.

Lemma run_ops_closed t os :
  conn t = None → run_ops t os = (replicate (length os) (Some nilConnErr), t).
Proof.
  intros Ht. induction os as [|o os IH]; simpl; [done|].
  assert (run_op t o = (Some nilConnErr, t)) as ->.
  { destruct o; simpl; unfold tc_Read, tc_Write, tc_Close, tc_SetDeadline,
      tc_SetReadDeadline, tc_SetWriteDeadline, tc_deadline; by rewrite Ht. }
  by rewrite IH.
Qed.
End ops.

(** A connection that records the calls it receives. *)
Inductive conn_call :=
  | CRead (b : nat) | CWrite (b : string) | CClose
  | CSetDeadline (d : deadline) | CSetReadDeadline (d : deadline) | CSetWriteDeadline (d : deadline).

Definition log_conn (read_res : Z * option string) (write_res : Z * option string)
    (close_res : option string) : NetConn (list conn_call) := {|
  nc_Read b l := (read_res, l ++ [CRead b]);
  nc_Write b l := (write_res, l ++ [CWrite b]);
  nc_Close l := (close_res, l ++ [CClose]);
  nc_LocalAddr _ := "127.0.0.1:1"; nc_RemoteAddr _ := "127.0.0.1:2";
  nc_SetDeadline d l := (None, l ++ [CSetDeadline d]);
  nc_SetReadDeadline d l := (None, l ++ [CSetReadDeadline d]);
  nc_SetWriteDeadline d l := (None, l ++ [CSetWriteDeadline d]);
|}.

(** ** More lemmas on the settings loop *)

Section last_lemmas.
Context `{UnicodeTables}.

Lemma last_duration_none name d l :
  Forall (λ s, setting_key s ≠ Some name) l → last_duration name d l = d.
Proof.
  unfold last_duration. intros Hl. revert d. induction Hl as [|s l Hs _ IH]; intros d; simpl; [done|].
  rewrite decide_False by done. apply IH.
Qed.

(** One setting of that key: its value, wherever it stands. *)
Lemma last_duration_unique name d l s l' v :
  l ≡ₚ s :: l' → setting_key s = Some name → Forall (λ s, setting_key s ≠ Some name) l' →
  setting_duration name (Split s "=") = Ok v → last_duration name d l = v.
Proof.
  intros Hp Hs Hl' Hv.
  assert (s ∈ l) as Hin by (rewrite Hp; left).
  apply list_elem_of_split in Hin as (l1 & l2 & ->).
  assert (l1 ++ l2 ≡ₚ l') as Hp'.
  { apply (Permutation_cons_inv (a := s)). rewrite <-Hp. by rewrite Permutation_middle. }
  rewrite <-Hp' in Hl'. apply Forall_app in Hl' as [_ H2].
  unfold last_duration. rewrite foldl_app. simpl. rewrite decide_True by done.
  rewrite Hv. by apply last_duration_none.
Qed.

Lemma setting_key_render q k v :
  lacks "=" k = true → setting_key (render_setting q k v) = Some k.
Proof.
  intros Hk. unfold setting_key, render_setting, quote_setting, Split.
  by destruct q; rewrite split_go_lacks.
Qed.

Lemma Join_ascii l :
  Forall (λ t, string_all is_ascii t = true) l → string_all is_ascii (Join l " ") = true.
Proof.
  induction 1 as [|t l Ht Hl IH]; [done|]. destruct l as [|t' l]; [done|].
  change (Join (t :: t' :: l) " ") with (t +:+ " " +:+ Join (t' :: l) " ").
  by rewrite !string_all_app, Ht, IH.
Qed.

Lemma Fields_Join l :
  Forall (λ t, token t = true) l → Forall (λ t, string_all is_ascii t = true) l →
  Fields (Join l " ") = l.
Proof. intros Ht Ha. unfold Fields. rewrite Join_ascii by done. by apply fields_go_Join. Qed.
End last_lemmas.

(** ** Properties *)

(** C29: the driver takes the timeouts out of the connection string.  For a list
    of ASCII settings that is not a URL and whose timeout settings are integers,
    [Open] dials with the last [read_timeout] and [write_timeout] given (0 when
    there is none) and hands lib/pq exactly the other settings, in order. *)
Theorem Open_spec `{UnicodeTables} {Conn} (ParseURL : string → outcome string)
    (dialOpen : timeoutDialer → string → outcome Conn) (l : list string) :
  Forall (λ t, token t = true) l → Forall (λ t, string_all is_ascii t = true) l →
  HasPrefix (Join l " ") "postgres://" = false →
  HasPrefix (Join l " ") "postgresql://" = false →
  Forall (λ s, good_setting s = true) l →
  timeoutDriver_Open ParseURL dialOpen (Join l " ") =
    dialOpen (mkDialer (last_duration "read_timeout" 0 l) (last_duration "write_timeout" 0 l))
             (Join (filter (λ s, is_timeout s = false) l) " ").
Proof.
  intros Ht Ha H1 H2 Hg. unfold timeoutDriver_Open. rewrite H1, H2. simpl.
  rewrite Fields_Join by done. by rewrite open_loop_good.
Qed.

Lemma Open_spec_witness :
  @timeoutDriver_Open ascii_tables _ (λ s, Ok s) (λ d s, Ok (d, s))
    "user=pqtest read_timeout=500 dbname=pqtest write_timeout='1000'"
  = Ok (mkDialer 500000000 1000000000, "user=pqtest dbname=pqtest").
Proof.
  apply (@Open_spec ascii_tables _ (λ s, Ok s) (λ d s, Ok (d, s))
    ["user=pqtest"; "read_timeout=500"; "dbname=pqtest"; "write_timeout='1000'"]);
    repeat constructor.
Defined.

(** No timeout setting reaches lib/pq, which would refuse it.  Whenever [Open]
    gets as far as dialling on an ASCII connection string, the string it passes
    on splits into exactly the settings of the original one that are not
    [read_timeout] or [write_timeout]. *)
Theorem Open_strips_timeouts `{UnicodeTables} (ParseURL : string → outcome string)
    connection d s :
  HasPrefix connection "postgres://" = false → HasPrefix connection "postgresql://" = false →
  string_all is_ascii connection = true →
  Forall (λ t, string_all is_ascii t = true) (Fields connection) →
  timeoutDriver_Open ParseURL (λ d s, Ok (d, s)) connection = Ok (d, s) →
  Fields s = filter (λ t, is_timeout t = false) (Fields connection).
Proof.
  intros H1 H2 Hascii Hall. unfold timeoutDriver_Open. rewrite H1, H2. simpl.
  intros (st & Hst & [= _ <-])%outcome_bind_Ok.
  pose proof (open_loop_Ok_good _ _ _ Hst) as Hgood. rewrite open_loop_good in Hst by done.
  simplify_eq/=. apply Fields_Join; apply Forall_filter_sub; [|done].
  unfold Fields. rewrite Hascii. by apply fields_go_tokens.
Qed.

Lemma Open_strips_timeouts_witness :
  @Fields ascii_tables "user=pqtest" =
  filter (λ t, is_timeout t = false) (@Fields ascii_tables " user=pqtest  read_timeout=5").
Proof.
  apply (@Open_strips_timeouts ascii_tables (λ s, Ok s) " user=pqtest  read_timeout=5"
           (mkDialer 5000000 0)); try reflexivity. repeat constructor.
Defined.

(** A URL that lib/pq renders as blank-separated settings in some order,
    with two timeouts of [timeout] seconds among them and no other setting of
    those names: [Open] dials with read and write timeouts of exactly [timeout]
    seconds, for every timeout that fits the 64-bit nanosecond clock. *)
Lemma Open_parsed_settings `{UnicodeTables} {Conn}
    (ParseURL : string → outcome string) (dialOpen : timeoutDialer → string → outcome Conn)
    q url timeout l others :
  (0 ≤ timeout ≤ 9223372036)%Z →
  HasPrefix url "postgresql://" = true → ParseURL url = Ok (Join l " ") →
  l ≡ₚ render_setting q "read_timeout" (Itoa (timeout * 1000)) ::
       render_setting q "write_timeout" (Itoa (timeout * 1000)) ::
       ((λ kv, render_setting q kv.1 kv.2) <$> others) →
  Forall (λ kv, lacks "=" kv.1 = true ∧ kv.1 ≠ "read_timeout" ∧ kv.1 ≠ "write_timeout") others →
  Forall (λ t, token t = true) l → Forall (λ t, string_all is_ascii t = true) l →
  timeoutDriver_Open ParseURL dialOpen url =
    dialOpen (mkDialer (timeout * 1000000000) (timeout * 1000000000))
             (Join (filter (λ s, is_timeout s = false) l) " ").
Proof.
  intros Ht Hurl Hparse Hperm Hothers Htok Hascii.
  assert (in_int64 (timeout * 1000)) as Hms by (unfold_int64; lia).
  assert (∀ k, lacks "=" k = true → ∀ n,
    setting_duration n (Split (render_setting q k (Itoa (timeout * 1000))) "=")
    = Ok (timeout * 1000000000)%Z) as Hdur.
  { intros k Hk n. rewrite setting_duration_rendered by done.
    rewrite mul64_id; [f_equal|]; unfold Millisecond; unfold_int64; lia. }
  assert (Forall (λ s, setting_key s ≠ Some "read_timeout" ∧ setting_key s ≠ Some "write_timeout")
            ((λ kv, render_setting q kv.1 kv.2) <$> others)) as Hkeys.
  { apply Forall_fmap. eapply Forall_impl; [exact Hothers|].
    intros [k v] (? & ? & ?); simpl in *. rewrite setting_key_render by done. split; congruence. }
  unfold timeoutDriver_Open. rewrite Hurl, orb_true_r, Hparse. simpl.
  rewrite Fields_Join, open_loop_good by
    (done || (rewrite Hperm; repeat constructor;
       try (unfold good_setting; case_match; [by rewrite Hdur|done]);
       eapply Forall_impl; [exact Hkeys|]; intros s [??]; unfold good_setting, is_timeout;
       by rewrite bool_decide_eq_false_2 by naive_solver)).
  simpl. f_equal. f_equal.
  - eapply last_duration_unique; [exact Hperm|by apply setting_key_render| |by apply Hdur].
    constructor; [by rewrite setting_key_render|]. by eapply Forall_impl; [exact Hkeys|naive_solver].
  - eapply last_duration_unique; [|by apply setting_key_render| |by apply Hdur].
    { rewrite Hperm. by rewrite Permutation_swap. }
    constructor; [by rewrite setting_key_render|]. by eapply Forall_impl; [exact Hkeys|naive_solver].
Qed.

(** A bare timeout setting crashes the driver.  A setting [read_timeout] or
    [write_timeout] with no [=] after well-formed settings makes [Open] index the
    split setting out of range, whatever follows: a run-time panic instead of the
    error a non-integer value gets. *)
Theorem Open_bare_timeout_panics `{UnicodeTables} {Conn} (ParseURL : string → outcome string)
    (dialOpen : timeoutDialer → string → outcome Conn) (l rest : list string) name :
  name = "read_timeout" ∨ name = "write_timeout" →
  Forall (λ t, token t = true ∧ string_all is_ascii t = true) (l ++ name :: rest) →
  HasPrefix (Join (l ++ name :: rest) " ") "postgres://" = false →
  HasPrefix (Join (l ++ name :: rest) " ") "postgresql://" = false →
  Forall (λ s, good_setting s = true) l →
  ∃ msg, timeoutDriver_Open ParseURL dialOpen (Join (l ++ name :: rest) " ") = Panic msg.
Proof.
  intros Hname Htok H1 H2 Hg. unfold timeoutDriver_Open. rewrite H1, H2. simpl.
  rewrite Fields_Join by (eapply Forall_impl; [exact Htok|]; naive_solver).
  rewrite foldl_app, open_loop_good by done. cbn [foldl].
  eexists. rewrite open_loop_failed.
  - destruct Hname as [-> | ->]; reflexivity.
  - destruct Hname as [-> | ->]; discriminate.
Qed.

Lemma Open_bare_timeout_panics_witness :
  ∃ msg, @timeoutDriver_Open ascii_tables timeoutDialer (λ s, Ok s) (λ d _, Ok d)
           "dbname=pqtest read_timeout" = Panic msg.
Proof.
  apply (@Open_bare_timeout_panics ascii_tables timeoutDialer (λ s, Ok s) (λ d _, Ok d)
           ["dbname=pqtest"] [] "read_timeout"); [by left|repeat constructor..].
Defined.

(** A closed connection stays closed.  After a [Close] that succeeded, every
    later call, in any number and order, fails with the nil-connection error and
    does not reach the network connection; after a [Close] that failed the
    connection is kept, so that it can be closed again. *)
Theorem timeoutConn_close {C} `{NetConn C} (t : timeoutConn C) (c : C) (os : list conn_op) :
  conn t = Some c →
  (tc_Close t).1 = (nc_Close c).1 ∧
  ((nc_Close c).1 = None →
     run_ops (tc_Close t).2 os = (replicate (length os) (Some nilConnErr), (tc_Close t).2)) ∧
  ((nc_Close c).1 ≠ None → conn (tc_Close t).2 = Some (nc_Close c).2).
Proof.
  intros Hc. unfold tc_Close. rewrite Hc. destruct (nc_Close c) as [[e|] c']; simpl.
  - done.
  - split_and!; [done| |done]. intros _. by apply run_ops_closed.
Qed.

Lemma timeoutConn_close_witness :
  @run_ops _ (log_conn (1%Z, None) (1%Z, None) None)
    (mkTimeoutConn None 5 5) [OpRead 0 1; OpClose] =
  ([Some nilConnErr; Some nilConnErr], mkTimeoutConn None 5 5).
Proof.
  apply (proj1 (proj2 (@timeoutConn_close _ (log_conn (1%Z, None) (1%Z, None) None)
    (mkTimeoutConn (Some []) 5 5) [] [OpRead 0 1; OpClose] eq_refl)) eq_refl).
Defined.
