(* ===== verification/PqDeadlines.v ===== *)
(** * Deadlines of a PostgreSQL connection

    What the wrapper of fork/pq-timeouts does to a network connection with
    deadlines, over any sequence of calls; and the whole way from the connection
    string of pkg/collector/postgres_collector.go through the driver and the
    dialer to the reads and writes on the network.  [pq.ParseURL] is the class
    [PqURL], with what lib/pq documents of it as its law. *)

From S2P Require Import Prelude GoStrings BrokerInfo SqlCollector PostgresCollector PqTimeouts.
From stdpp Require Import options.

(** ** A network connection with deadlines *)

(** A read or write, with the deadline in force when it was performed. *)
Inductive io_event :=
  | IORead (b : nat) (d : deadline)
  | IOWrite (b : string) (d : deadline).

Record deadline_conn := mkDeadlineConn {
  read_deadline : deadline;
  write_deadline : deadline;
  io_log : list io_event;
}.

(** The result of a read or write may depend on the deadline in force. *)
Definition deadline_NetConn (rr : deadline → nat → Z * option string)
    (wr : deadline → string → Z * option string) (cr : option string) : NetConn deadline_conn := {|
  nc_Read b c :=
    (rr (read_deadline c) b, mkDeadlineConn (read_deadline c) (write_deadline c)
                               (io_log c ++ [IORead b (read_deadline c)]));
  nc_Write b c :=
    (wr (write_deadline c) b, mkDeadlineConn (read_deadline c) (write_deadline c)
                                (io_log c ++ [IOWrite b (write_deadline c)]));
  nc_Close c := (cr, c);
  nc_LocalAddr _ := "127.0.0.1:1"; nc_RemoteAddr _ := "127.0.0.1:2";
  nc_SetDeadline d c := (None, mkDeadlineConn d d (io_log c));
  nc_SetReadDeadline d c := (None, mkDeadlineConn d (write_deadline c) (io_log c));
  nc_SetWriteDeadline d c := (None, mkDeadlineConn (read_deadline c) d (io_log c));
|}.

Definition reads_of (l : list io_event) : list (nat * deadline) :=
  omap (λ e, match e with IORead b d => Some (b, d) | _ => None end) l.
Definition writes_of (l : list io_event) : list (string * deadline) :=
  omap (λ e, match e with IOWrite b d => Some (b, d) | _ => None end) l.

(** The requested reads and writes, each with a deadline that many nanoseconds
    after the call. *)
Definition reads_within (r : Z) (os : list conn_op) : list (nat * deadline) :=
  omap (λ o, match o with OpRead now b => Some (b, At (now + r)) | _ => None end) os.
Definition writes_within (w : Z) (os : list conn_op) : list (string * deadline) :=
  omap (λ o, match o with OpWrite now b => Some (b, At (now + w)) | _ => None end) os.

Arguments reads_within : simpl never.
Arguments writes_within : simpl never.

Lemma reads_within_cons r o os : reads_within r (o :: os) = reads_within r [o] ++ reads_within r os.
Proof. apply (omap_app _ [o] os). Qed.
Lemma writes_within_cons w o os :
  writes_within w (o :: os) = writes_within w [o] ++ writes_within w os.
Proof. apply (omap_app _ [o] os). Qed.

(** ** The same calls on a connection that is not wrapped *)

Section plain.
Context {C : Type} `{NetConn C}.

Definition plain_op (c : C) (o : conn_op) : option string * C :=
  match o with
  | OpRead _ b => let '((_, err), c) := nc_Read b c in (err, c)
  | OpWrite _ b => let '((_, err), c) := nc_Write b c in (err, c)
  | OpClose => nc_Close c
  | OpSetDeadline d => nc_SetDeadline d c
  | OpSetReadDeadline d => nc_SetReadDeadline d c
  | OpSetWriteDeadline d => nc_SetWriteDeadline d c
  end.

Fixpoint plain_ops (c : C) (os : list conn_op) : list (option string) * C :=
  match os with
  | [] => ([], c)
  | o :: os =>
      let '(err, c) := plain_op c o in
      let '(errs, c) := plain_ops c os in (err :: errs, c)
  end.

Lemma run_ops_transparent c os :
  OpClose ∉ os →
  run_ops (mkTimeoutConn (Some c) 0 0) os =
    ((plain_ops c os).1, mkTimeoutConn (Some (plain_ops c os).2) 0 0).
Proof.
  revert c. induction os as [|o os IH]; intros c Hos; simpl; [done|].
  apply not_elem_of_cons in Hos as [Ho Hos].
  assert (run_op (mkTimeoutConn (Some c) 0 0) o =
          ((plain_op c o).1, mkTimeoutConn (Some (plain_op c o).2) 0 0)) as ->.
  { destruct o as [now b|now b| |d|d|d]; [..|done| | |]; cbn [run_op plain_op].
    - unfold tc_Read. cbn. rewrite decide_False by (intros []; done).
      destruct (nc_Read b c) as [[??] ?]. by rewrite decide_False by (intros []; done).
    - unfold tc_Write. cbn. rewrite decide_False by (intros []; done).
      destruct (nc_Write b c) as [[??] ?]. by rewrite decide_False by (intros []; done).
    - unfold tc_SetDeadline, tc_deadline. cbn. by destruct (nc_SetDeadline d c).
    - unfold tc_SetReadDeadline, tc_deadline. cbn. by destruct (nc_SetReadDeadline d c).
    - unfold tc_SetWriteDeadline, tc_deadline. cbn. by destruct (nc_SetWriteDeadline d c). }
  destruct (plain_op c o) as [e c1]. simpl. rewrite IH by done.
  by destruct (plain_ops c1 os).
Qed.
End plain.

(** ** Lemmas *)

Section deadlines.
Context (rr : deadline → nat → Z * option string) (wr : deadline → string → Z * option string).
Context (cr : option string).
Local Existing Instance deadline_NetConn.
Local Abbreviation run_op := (@run_op _ (deadline_NetConn rr wr cr)).
Local Abbreviation run_ops := (@run_ops _ (deadline_NetConn rr wr cr)).

Lemma run_op_deadlines c r w o :
  o ≠ OpClose →
  ∃ c', (run_op (mkTimeoutConn (Some c) r w) o).2 = mkTimeoutConn (Some c') r w ∧
    (r ≠ 0%Z → reads_of (io_log c') = reads_of (io_log c) ++ reads_within r [o]) ∧
    (w ≠ 0%Z → writes_of (io_log c') = writes_of (io_log c) ++ writes_within w [o]).
Proof.
  intros Ho.
  destruct o; try done; cbn [PqTimeouts.run_op];
    unfold tc_Read, tc_Write, tc_SetDeadline, tc_SetReadDeadline, tc_SetWriteDeadline, tc_deadline;
    cbn [conn readTimeout writeTimeout]; repeat case_decide; cbn; repeat case_match; cbn;
    (eexists; split; [reflexivity|]); unfold reads_of, writes_of, reads_within, writes_within; cbn; rewrite ?omap_app; cbn;
    rewrite ?app_nil_r; done.
Qed.

Lemma run_ops_deadlines c r w os :
  OpClose ∉ os →
  ∃ c', (run_ops (mkTimeoutConn (Some c) r w) os).2 = mkTimeoutConn (Some c') r w ∧
    (r ≠ 0%Z → reads_of (io_log c') = reads_of (io_log c) ++ reads_within r os) ∧
    (w ≠ 0%Z → writes_of (io_log c') = writes_of (io_log c) ++ writes_within w os).
Proof.
  revert c. induction os as [|o os IH]; intros c Hos; simpl.
  - exists c. by rewrite !app_nil_r.
  - apply not_elem_of_cons in Hos as [Ho Hos].
    destruct (run_op_deadlines c r w o ltac:(done)) as (c1 & Hop & Hr1 & Hw1).
    destruct (run_op _ o) as [e t]; simpl in Hop; subst t.
    destruct (IH c1 Hos) as (c2 & Hops & Hr2 & Hw2).
    destruct (run_ops _ os) as [es t]; simpl in *; subst t.
    exists c2. split; [done|]. rewrite reads_within_cons, writes_within_cons.
    split; intros Hne; [rewrite Hr2, Hr1 by done|rewrite Hw2, Hw1 by done];
      by rewrite (assoc_L (++)).
Qed.
End deadlines.

(** ** pq.ParseURL *)

(** Text that stands for itself in every part of a URL and in a setting. *)
Definition url_char (a : ascii) : bool :=
  is_upper a || is_lower a || bool_decide (is_Some (Ascii.is_nat a)) ||
  bool_decide (a ∈ ["-"; "."; "_"; "~"]%char).
Definition url_plain (s : string) : bool := bool_decide (s ≠ "") && string_all url_char s.

Definition query_string (params : list (string * string)) : string :=
  Join ((λ kv, kv.1 +:+ String "=" kv.2) <$> params) "&".

Definition postgres_url (user password host : string) (port : Z) (db : string)
    (params : list (string * string)) : string :=
  "postgresql://" +:+ user +:+ String ":" (password +:+ String "@" (host +:+ String ":"
    (Itoa port +:+ String "/" (db +:+ String "?" (query_string params))))).

Definition url_settings (user password host : string) (port : Z) (db : string)
    (params : list (string * string)) : list (string * string) :=
  [("user", user); ("password", password); ("host", host); ("port", Itoa port); ("dbname", db)]
  ++ params.

(** lib/pq turns such a URL into blank-separated settings, one for each part and
    each parameter, in an order of its own; whether it quotes the values depends
    on its version. *)
Class PqURL := {
  ParseURL : string → outcome string;
  ParseURL_quotes : bool;
  ParseURL_spec user password host port db params :
    Forall (λ s, url_plain s = true) [user; password; host; db] → (0 ≤ port ≤ 65535)%Z →
    Forall (λ kv, url_plain kv.1 = true ∧ url_plain kv.2 = true) params → NoDup params.*1 →
    ∃ l, ParseURL (postgres_url user password host port db params) = Ok (Join l " ") ∧
      l ≡ₚ (λ kv, render_setting ParseURL_quotes kv.1 kv.2) <$>
           url_settings user password host port db params;
}.

(** *** A reading of such URLs with the law, for the witness *)

Definition plain_ParseURL (url : string) : outcome string :=
  of_option "invalid URL" (
    s ← strip_prefix "postgresql://" url;
    '(user, s) ← cut ":" s;
    '(password, s) ← cut "@" s;
    '(host, s) ← cut ":" s;
    '(port, s) ← cut "/" s;
    '(db, query) ← cut "?" s;
    Some (Join ((λ kv, quote_setting kv.1 kv.2) <$>
      [("user", user); ("password", password); ("host", host); ("port", port); ("dbname", db)] ++
      omap (cut "=") (Split query "&")) " ")).

Section url_lemmas.
Lemma url_plain_lacks c s : url_char c = false → url_plain s = true → lacks c s = true.
Proof.
  intros Hc [_ Hs]%andb_true_iff. eapply string_all_impl, Hs.
  intros a Ha. apply bool_decide_eq_true. congruence.
Qed.

Lemma url_char_ascii a : url_char a = true → is_ascii a = true ∧ Ascii.is_space a = false.
Proof. destruct a as [[] [] [] [] [] [] [] []]; vm_compute; done. Qed.

Lemma Itoa_plain n : url_plain (Itoa n) = true.
Proof.
  apply andb_true_iff. split.
  - apply bool_decide_eq_true. intros He. pose proof (signed_val_Itoa n) as Hs. by rewrite He in Hs.
  - apply Itoa_all; [|done]. intros d Hd. unfold url_char.
    rewrite is_nat_pretty_char by done. rewrite bool_decide_eq_true_2 by done.
    by rewrite !orb_true_r.
Qed.

Lemma Split_Join sep l :
  l ≠ [] → Forall (λ s, lacks sep s = true) l → Split (Join l (String sep "")) sep = l.
Proof.
  unfold Split. induction l as [|x [|y l] IH]; intros Hne Hl; [done| |].
  - apply Forall_cons in Hl as [Hl _]. apply (split_go_lacks_nil sep "" x Hl).
  - apply Forall_cons in Hl as [Hx Hl].
    change (Join (x :: y :: l) (String sep "")) with
      (x +:+ String sep "" +:+ Join (y :: l) (String sep "")).
    change (String sep "" +:+ Join (y :: l) (String sep "")) with
      (String sep (Join (y :: l) (String sep ""))).
    rewrite split_go_lacks by done. by rewrite IH.
Qed.

(** A rendered setting of plain text is one field, of ASCII text. *)
Lemma render_plain q k v :
  url_plain k = true → url_plain v = true →
  token (render_setting q k v) = true ∧ string_all is_ascii (render_setting q k v) = true.
Proof.
  intros [Hne Hk]%andb_true_iff [_ Hv]%andb_true_iff.
  assert (∀ s, string_all url_char s = true →
    no_space s = true ∧ string_all is_ascii s = true) as Hplain.
  { intros s Hs. split; (eapply string_all_impl; [|exact Hs]); intros a Ha;
      destruct (url_char_ascii a Ha) as [H1 H2]; [by rewrite H2|done]. }
  destruct (Hplain k Hk) as [Hk1 Hk2], (Hplain v Hv) as [Hv1 Hv2].
  assert (render_setting q k v ≠ "") as Hnil.
  { apply bool_decide_eq_true in Hne. intros Hnil. apply Hne.
    unfold render_setting, quote_setting in Hnil. by destruct q; apply sapp_nil_inv in Hnil as [? _]. }
  unfold token. rewrite (bool_decide_eq_true_2 _ Hnil), andb_true_r.
  unfold no_space, render_setting, quote_setting in *.
  destruct q; rewrite !string_all_app; simpl; rewrite ?string_all_app; simpl;
    by rewrite ?Hk1, ?Hk2, ?Hv1, ?Hv2.
Qed.
End url_lemmas.

Program Definition plain_PqURL : PqURL := {|
  ParseURL := plain_ParseURL;
  ParseURL_quotes := true;
|}.
Next Obligation.
  intros user password host port db params Hparts _ Hparams _.
  repeat (apply Forall_cons in Hparts as [? Hparts]).
  assert (∀ c s, url_char c = false → url_plain s = true → lacks c s = true) as Hl
    by exact url_plain_lacks.
  eexists. split; [|reflexivity]. unfold plain_ParseURL, postgres_url.
  rewrite strip_prefix_app. cbn [mbind option_bind].
  do 5 (rewrite cut_lacks by (apply Hl; [done|done || apply Itoa_plain]); cbn [mbind option_bind]).
  cbn [of_option]. do 3 f_equal. unfold query_string.
  destruct params as [|kv params]; [done|]. rewrite Split_Join; [|done|].
  - unfold url_settings. f_equal.
    induction Hparams as [|[k v] l [Hk Hv] _ IH]; [done|]. csimpl.
    rewrite cut_lacks by (by apply Hl). simpl. f_equal. exact IH.
  - apply Forall_fmap. eapply Forall_impl; [exact Hparams|]. intros [k v] [Hk Hv]; simpl in *.
    pose proof (Hl "&"%char k eq_refl Hk) as Hk'. pose proof (Hl "&"%char v eq_refl Hv) as Hv'.
    unfold lacks in *. rewrite string_all_app, Hk'. simpl. done.
Qed.

(** ** Properties *)

(** C31: what the wrapper does to deadlines.  Over any sequence of calls on a
    wrapped connection before a [Close], with the caller setting deadlines of its
    own in between: if the read timeout is not zero, the reads that reach the
    network are the requested ones, in order, and each is performed under a
    deadline of exactly the timeout after its call, whatever deadline the caller
    had set; the same for writes and the write timeout, independently; and with
    both timeouts zero the wrapper cannot be told from the connection itself, on
    any connection: every call has the same error and the same effect. *)
Theorem timeoutConn_deadlines :
  (∀ rr wr cr r w c os, OpClose ∉ os →
     ∃ c', (@run_ops _ (deadline_NetConn rr wr cr) (mkTimeoutConn (Some c) r w) os).2
             = mkTimeoutConn (Some c') r w ∧
       (r ≠ 0%Z → reads_of (io_log c') = reads_of (io_log c) ++ reads_within r os) ∧
       (w ≠ 0%Z → writes_of (io_log c') = writes_of (io_log c) ++ writes_within w os)) ∧
  (∀ C `{NetConn C} (c : C) os, OpClose ∉ os →
     run_ops (mkTimeoutConn (Some c) 0 0) os =
       ((plain_ops c os).1, mkTimeoutConn (Some (plain_ops c os).2) 0 0)).
Proof.
  split; [intros *; apply run_ops_deadlines|intros *; apply run_ops_transparent].
Qed.

(** A caller that sets an early deadline before it reads. *)
Definition sample_ops : list conn_op :=
  [OpSetDeadline (At 7); OpWrite 5 "SSL"; OpRead 6 1; OpWrite 8 "Q"].

Lemma sample_ops_open : OpClose ∉ sample_ops.
Proof. unfold sample_ops. rewrite !not_elem_of_cons. split_and!; [discriminate..|apply not_elem_of_nil]. Qed.

Lemma timeoutConn_deadlines_witness :
  ∃ c', (@run_ops _ (deadline_NetConn (λ _ _, (0%Z, Some "timeout")) (λ _ _, (3%Z, None)) None)
           (mkTimeoutConn (Some (mkDeadlineConn NoDeadline NoDeadline [])) 5 0) sample_ops).2
          = mkTimeoutConn (Some c') 5 0 ∧
    reads_of (io_log c') = [(1, At 11)] ∧ writes_of (io_log c') = [("SSL", At 7); ("Q", At 7)].
Proof.
  destruct (proj1 timeoutConn_deadlines (λ _ _, (0%Z, Some "timeout")) (λ _ _, (3%Z, None)) None
    5%Z 0%Z (mkDeadlineConn NoDeadline NoDeadline []) sample_ops sample_ops_open)
    as (c' & Hrun & Hreads & _).
  exists c'. split; [exact Hrun|]. split; [apply Hreads; discriminate|].
  cbn in Hrun. injection Hrun as <-. reflexivity.
Defined.

(** The settings of the PostgreSQL driver other than the two timeouts. *)
Definition other_settings (timeout : Z) (sslMode : string) (details : InstanceConnectionDetails)
  : list (string * string) :=
  [("user", MasterUsername details); ("password", MasterPassword details);
   ("host", DBAddress details); ("port", Itoa (DBPort details)); ("dbname", DBName details);
   ("sslmode", if decide (sslMode = "") then "disable" else sslMode);
   ("connect_timeout", Itoa timeout)].

Definition plain_details (details : InstanceConnectionDetails) : Prop :=
  Forall (λ s, url_plain s = true)
    [MasterUsername details; MasterPassword details; DBAddress details; DBName details] ∧
  (0 ≤ DBPort details ≤ 65535)%Z.

(** The connection string is a URL with the four parameters. *)
Lemma postgres_ConnectionString_url timeout sslMode details :
  (0 < timeout ≤ 9223372036)%Z →
  postgres_ConnectionString (mkPostgresBuilder timeout timeout timeout sslMode) details =
  postgres_url (MasterUsername details) (MasterPassword details) (DBAddress details)
    (DBPort details) (DBName details)
    [("sslmode", if decide (sslMode = "") then "disable" else sslMode);
     ("connect_timeout", Itoa timeout); ("read_timeout", Itoa (timeout * 1000));
     ("write_timeout", Itoa (timeout * 1000))].
Proof.
  intros Ht. unfold postgres_ConnectionString. simpl.
  rewrite mul64_id by (unfold_int64; lia).
  replace (if decide (sslMode ≠ "") then sslMode else "disable")
    with (if decide (sslMode = "") then "disable" else sslMode) by (by repeat case_decide).
  unfold postgres_url, query_string. simpl.
  by rewrite <-!sapp_assoc.
Qed.

Lemma postgres_settings_parsed `{PqURL} timeout sslMode details :
  (0 < timeout ≤ 9223372036)%Z → plain_details details → (sslMode = "" ∨ url_plain sslMode = true) →
  ∃ l, ParseURL (postgres_ConnectionString (mkPostgresBuilder timeout timeout timeout sslMode) details)
         = Ok (Join l " ") ∧
    l ≡ₚ render_setting ParseURL_quotes "read_timeout" (Itoa (timeout * 1000)) ::
         render_setting ParseURL_quotes "write_timeout" (Itoa (timeout * 1000)) ::
         ((λ kv, render_setting ParseURL_quotes kv.1 kv.2) <$> other_settings timeout sslMode details) ∧
    Forall (λ t, token t = true) l ∧ Forall (λ t, string_all is_ascii t = true) l.
Proof.
  intros Ht [Hparts Hport] Hssl. rewrite postgres_ConnectionString_url by done.
  assert (url_plain (if decide (sslMode = "") then "disable" else sslMode) = true) as Hssl'
    by (case_decide; [done|naive_solver]).
  edestruct ParseURL_spec as (l & Hl & Hperm);
    [exact Hparts|exact Hport| | |exists l; split; [exact Hl|]].
  { repeat constructor; simpl; done || apply Itoa_plain. }
  { apply (bool_decide_unpack _). vm_compute. exact I. }
  split.
  - rewrite Hperm. unfold url_settings, other_settings. simpl. solve_Permutation.
  - clear Hl. rewrite !Hperm. repeat (apply Forall_cons in Hparts as [? Hparts]).
    split; repeat constructor; simpl; apply render_plain; done || apply Itoa_plain.
Qed.

(** Without the two timeouts only the other settings are left. *)
Lemma filter_timeouts q r w (others : list (string * string)) :
  Forall (λ kv, lacks "=" kv.1 = true ∧ kv.1 ≠ "read_timeout" ∧ kv.1 ≠ "write_timeout") others →
  filter (λ s, is_timeout s = false)
    (render_setting q "read_timeout" r :: render_setting q "write_timeout" w ::
     ((λ kv, render_setting q kv.1 kv.2) <$> others))
  = (λ kv, render_setting q kv.1 kv.2) <$> others.
Proof.
  intros Hothers. unfold is_timeout.
  rewrite !filter_cons, !setting_key_render, !decide_False by (done || by rewrite bool_decide_eq_true_2 by auto).
  induction Hothers as [|[k v] l (Hk & Hr & Hw) _ IH]; simpl in *; [done|].
  rewrite filter_cons, setting_key_render by done.
  rewrite decide_True by (apply bool_decide_eq_false; naive_solver). f_equal. exact IH.
Qed.

(** C30: every read and write of a PostgreSQL collector has its deadline on the
    network.  Take the driver built with a positive timeout and the connection
    string it makes for an instance whose details and SSL mode need no escaping in
    a URL.  Then [Open] calls lib/pq with one dialer and exactly the settings of
    the string other than the two timeouts; and whichever way lib/pq dials with
    it, a connection it obtains is wrapped: over any sequence of calls before a
    [Close], the reads and writes that reach the network are the requested ones,
    in order, each under a deadline [timeout] seconds after its call. *)
Theorem postgres_io_deadlines `{UnicodeTables} `{PqURL} {Conn}
    (dialOpen : timeoutDialer → string → outcome Conn) interval timeout sslMode details :
  (0 < timeout ≤ 9223372036)%Z → plain_details details → (sslMode = "" ∨ url_plain sslMode = true) →
  let url := ConnectionString (NewPostgresMetricsCollectorDriver interval timeout sslMode) details in
  let ns := (timeout * 1000000000)%Z in
  ∃ dialer settings,
    timeoutDriver_Open ParseURL dialOpen url = dialOpen dialer settings ∧
    Fields settings ≡ₚ (λ kv, render_setting ParseURL_quotes kv.1 kv.2) <$>
                       other_settings timeout sslMode details ∧
    ∀ netDial netDialTimeout network address connect c rr wr cr os,
      netDial network address = (Some c, None) →
      netDialTimeout network address connect = (Some c, None) →
      OpClose ∉ os →
      ∃ t c', Dial netDial dialer network address = (Some (Wrapped t), None) ∧
        DialTimeout netDialTimeout dialer network address connect = (Some (Wrapped t), None) ∧
        conn (@run_ops _ (deadline_NetConn rr wr cr) t os).2 = Some c' ∧
        reads_of (io_log c') = reads_of (io_log c) ++ reads_within ns os ∧
        writes_of (io_log c') = writes_of (io_log c) ++ writes_within ns os.
Proof.
  intros Ht Hplain Hssl url ns.
  destruct (postgres_settings_parsed timeout sslMode details Ht Hplain Hssl)
    as (l & Hparse & Hperm & Htok & Hascii).
  assert (Forall (λ kv, lacks "=" kv.1 = true ∧ kv.1 ≠ "read_timeout" ∧ kv.1 ≠ "write_timeout")
            (other_settings timeout sslMode details)) as Hothers
    by (repeat (constructor; [repeat split; discriminate|]); constructor).
  eexists _, _. split; [|split].
  - eapply Open_parsed_settings; [|apply HasPrefix_true; by eexists|done..]. lia.
  - rewrite Fields_Join by (by apply Forall_filter_sub). rewrite Hperm.
    by rewrite filter_timeouts.
  - intros netDial netDialTimeout network address connect c rr wr cr os Hd Hdt Hos.
    assert (ns ≠ 0%Z) as Hns by (unfold ns; lia).
    destruct (run_ops_deadlines rr wr cr c ns ns os Hos) as (c' & Hrun & Hr & Hw).
    exists (mkTimeoutConn (Some c) ns ns), c'. unfold Dial, DialTimeout. simpl.
    rewrite Hd, Hdt, decide_False by naive_solver. rewrite Hrun. by split_and!; auto.
Qed.

Definition sample_details : InstanceConnectionDetails :=
  mkDetails "db.example" 5432 "main" "admin" "s3cret-_".

Lemma postgres_io_deadlines_witness :
  let url := ConnectionString (NewPostgresMetricsCollectorDriver 60 10 "require") sample_details in
  ∃ dialer settings,
    @timeoutDriver_Open ascii_tables _ (@ParseURL plain_PqURL) (λ d s, Ok (d, s)) url
      = Ok (dialer, settings) ∧
    ∃ t c', DialTimeout (λ _ _ _, (Some (mkDeadlineConn NoDeadline NoDeadline []), None)) dialer
              "tcp" "db.example:5432" 10 = (Some (Wrapped t), None) ∧
      conn (@run_ops _ (deadline_NetConn (λ _ _, (0%Z, Some "timeout")) (λ _ _, (3%Z, None)) None)
              t sample_ops).2 = Some c' ∧
      reads_of (io_log c') = [(1, At 10000000006)] ∧
      writes_of (io_log c') = [("SSL", At 10000000005); ("Q", At 10000000008)].
Proof.
  destruct (@postgres_io_deadlines ascii_tables plain_PqURL _ (λ d s, Ok (d, s)) 60 10 "require"
    sample_details) as (dialer & settings & Hopen & _ & Hio).
  - lia.
  - split; [repeat constructor|simpl; lia].
  - right. reflexivity.
  - exists dialer, settings. split; [exact Hopen|].
    destruct (Hio (λ _ _, (Some (mkDeadlineConn NoDeadline NoDeadline []), None))
      (λ _ _ _, (Some (mkDeadlineConn NoDeadline NoDeadline []), None)) "tcp" "db.example:5432" 10%Z
      (mkDeadlineConn NoDeadline NoDeadline [])
      (λ _ _, (0%Z, Some "timeout")) (λ _ _, (3%Z, None)) None sample_ops)
      as (t & c' & _ & Hd & Hc & Hr & Hw); [reflexivity|reflexivity|exact sample_ops_open|].
    exists t, c'. split; [exact Hd|]. split; [exact Hc|]. split; [exact Hr|exact Hw].
Defined.
