(* ===== verification/CloudWatchCollector.v ===== *)
(** * pkg/collector/cloudwatch_collector.go: metrics from CloudWatch

    One collection asks CloudWatch for each of the metric names of
    [metricNamesToLabels], in the unspecified order of a Go map, and reports the
    latest datapoint of each.  The CloudWatch API is a parameter: a function of
    the request, which is general because the requests of one collection have
    distinct metric names.  [sort.Slice] is any function with its documented
    contract for every comparison ([SliceSort]), applied to the closure of the
    source ([dp_less]); the insertion sort it uses on slices of at most
    twelve elements is an instance. *)

From S2P Require Import Prelude GoStrings Metrics BrokerInfo Collector.
From stdpp Require Import options.

(** ** Data *)

Definition metricNamesToLabels : list (string * string) :=
  [ ("CPUUtilization", "cpu");
    ("CPUCreditUsage", "cpu_credit_usage");
    ("CPUCreditBalance", "cpu_credit_balance");
    ("FreeableMemory", "freeable_memory");
    ("FreeStorageSpace", "free_storage_space");
    ("SwapUsage", "swap_usage");
    ("ReadIOPS", "read_iops");
    ("WriteIOPS", "write_iops") ].

(** A point in time is its distance to the Unix epoch in nanoseconds. *)
Definition Minute : Z := (60 * 1000000000)%Z.

(** The zero [time.Time]: 1 January of year 1. *)
Definition zero_time : Z := (-62135596800 * 1000000000)%Z.

(** [aws.TimeValue(p).UnixNano()], which wraps outside the years 1678 to 2262. *)
Definition UnixNano (p : option Z) : Z := wrap64 (default zero_time p).

Record Datapoint := mkDatapoint {
  dpTimestamp : option Z;
  dpAverage : option float64;
  dpUnit : option string;
}.

Record GetMetricStatisticsInput := mkInput {
  Dimensions : list (string * string);
  MetricName : string;
  Namespace : string;
  Period : Z;
  StartTime : Z;
  EndTime : Z;
  Statistics : list string;
}.

(** ** sort.Slice *)

(** What [sort.Slice] documents of its [less] argument: a strict weak order. *)
Definition strict_weak {A} (less : A → A → bool) : Prop :=
  (∀ a, less a a = false) ∧
  (∀ a b c, less a b = true → less b c = true → less a c = true) ∧
  (∀ a b c, less a b = true → less a c = true ∨ less c b = true).

(** The contract of [sort.Slice(l, less)]: a rearrangement, not necessarily
    stable, in which no element is less than an earlier one. *)
Class SliceSort := {
  sort_Slice : ∀ {A}, (A → A → bool) → list A → list A;
  sort_Slice_perm {A} (less : A → A → bool) l : sort_Slice less l ≡ₚ l;
  sort_Slice_sorted {A} (less : A → A → bool) l :
    strict_weak less → StronglySorted (λ a b, less b a = false) (sort_Slice less l);
}.

(** Insertion sort as Go writes it: the sorted part is kept last element first,
    a new element moves left while it is less than its neighbour. *)
Section insertion.
Context {A : Type} (less : A → A → bool).

Fixpoint sink (x : A) (l : list A) : list A :=
  match l with
  | [] => [x]
  | y :: l => if less x y then y :: sink x l else x :: y :: l
  end.

Definition insertionSort (l : list A) : list A :=
  rev (foldl (λ sorted x, sink x sorted) [] l).
End insertion.

(** The closure that [Collect] passes: strictly earlier. *)
Definition dp_less (x y : Datapoint) : bool :=
  let a := UnixNano (dpTimestamp x) in
  let b := UnixNano (dpTimestamp y) in
  (a <? b)%Z.

(** ** The collector *)

Section cloudwatch.
Context `{UnicodeTables} `{SliceSort}.
(** The API and the two readings of the clock for each metric name. *)
Context (GetMetricStatistics : GetMetricStatisticsInput → outcome (list Datapoint)).
Context (clock : string → Z * Z).
Context (instance : string).

Definition cw_input (metricName : string) : GetMetricStatisticsInput := {|
  Dimensions := [("DBInstanceIdentifier", instance)];
  MetricName := metricName;
  Namespace := "AWS/RDS";
  Period := 60;
  StartTime := ((clock metricName).1 - 10 * Minute)%Z;
  EndTime := (clock metricName).2;
  Statistics := ["Average"];
|}.

(** One iteration of the loop of [Collect]. *)
Definition cw_step (acc : outcome (list Metric)) (entry : string * string)
  : outcome (list Metric) :=
  m ← acc;
  let '(metricName, label) := entry in
  match GetMetricStatistics (cw_input metricName) with
  | Panic p => Panic p
  | Err _ => Ok m
  | Ok datapoints =>
      if decide (0 < length datapoints) then
        match last (sort_Slice dp_less datapoints) with
        | None => Panic "index out of range [-1]"
        | Some d =>
            match dpUnit d with
            | None => Panic "nil pointer dereference"
            | Some u =>
                Ok (m ++ [ {| Key := label;
                              Timestamp := UnixNano (dpTimestamp d);
                              Value := default float64_zero (dpAverage d);
                              Unit := ToLower u;
                              Tags := {["source" := "cloudwatch"]} |} ])
            end
        end
      else Ok m
  end.

(** [order] is the iteration order of the map in this call. *)
Definition cw_Collect (order : list (string * string)) : outcome (list Metric) :=
  foldl cw_step (Ok []) order.
End cloudwatch.

(** ** The driver *)

Record CloudWatchCollectorDriver := mkCloudWatchDriver {
  cwCollectInterval : Z;
}.

Definition NewCloudWatchCollectorDriver (intervalSeconds : Z) : CloudWatchCollectorDriver :=
  mkCloudWatchDriver intervalSeconds.

(** The CloudWatch service in the world [W]: its answers, the clock and the
    iteration order of the next collection. *)
Class CloudWatchAPI (W : Type) := {
  cw_api : W → GetMetricStatisticsInput → outcome (list Datapoint);
  cw_clock : W → string → Z * Z;
  cw_order : W → list (string * string);
}.

Section driver.
Context `{UnicodeTables} `{SliceSort} {W : Type} `{BrokerInfo W} `{CloudWatchAPI W}.

Definition cw_Close (w : W) : outcome unit * W := (Ok tt, w).

Definition CloudWatchCollector (instance : string) : MetricsCollector W :=
  mkCollector
    (λ w, (cw_Collect (cw_api w) (cw_clock w) instance (cw_order w), w)) cw_Close.

Definition cw_NewCollector (instanceInfo : InstanceInfo) (w : W)
  : outcome (MetricsCollector W) * W :=
  (Ok (CloudWatchCollector (GetInstanceName instanceInfo)), w).

Definition cw_driver (cw : CloudWatchCollectorDriver) : MetricsCollectorDriver W :=
  mkDriver cw_NewCollector "cloudwatch" ["postgres"; "mysql"] (cwCollectInterval cw).
End driver.

(** ** Lemmas *)

Section sort_lemmas.
Context {A : Type} (less : A → A → bool) (Hless : strict_weak less).
Local Abbreviation before := (λ a b, less b a = false).
Local Abbreviation after := (λ a b, less a b = false).

Lemma sink_perm x l : sink less x l ≡ₚ x :: l.
Proof.
  induction l as [|y l IH]; simpl; [done|]. case_match; [|done].
  rewrite IH. apply Permutation_swap.
Qed.

(** "Not less" is transitive. *)
Lemma not_less_trans a b c : less a b = false → less b c = false → less a c = false.
Proof using Hless.
  intros Hab Hbc. destruct (less a c) eqn:Hac; [|done].
  destruct Hless as (_ & _ & Hsplit). destruct (Hsplit a c b Hac); congruence.
Qed.

Lemma sink_sorted x l : StronglySorted after l → StronglySorted after (sink less x l).
Proof using Hless.
  destruct Hless as (Hirr & Htr & _).
  induction 1 as [|y l Hl IH Hy]; simpl; [repeat constructor|].
  destruct (less x y) eqn:Hxy.
  - constructor; [done|]. rewrite sink_perm. constructor; [|done].
    destruct (less y x) eqn:Hyx; [|done]. by rewrite <-(Hirr x), (Htr x y x).
  - constructor; [by constructor|]. constructor; [done|].
    eapply Forall_impl; [exact Hy|]. eauto using not_less_trans.
Qed.

Lemma StronglySorted_rev l : StronglySorted after l → StronglySorted before (rev l).
Proof.
  induction 1 as [|y l Hl IH Hy]; simpl; [constructor|].
  apply StronglySorted_app. split_and!; [|done|repeat constructor].
  intros a b Ha Hb%list_elem_of_singleton. subst b.
  rewrite Forall_forall in Hy. apply Hy. by rewrite list_elem_of_In, <-in_rev, <-list_elem_of_In in Ha.
Qed.

Lemma insertion_perm l acc : foldl (λ s x, sink less x s) acc l ≡ₚ l ++ acc.
Proof.
  revert acc. induction l as [|x l IH]; intros acc; simpl; [done|].
  rewrite IH, sink_perm. by rewrite Permutation_middle.
Qed.

Lemma insertion_sorted l acc :
  StronglySorted after acc → StronglySorted after (foldl (λ s x, sink less x s) acc l).
Proof using Hless. revert acc. induction l as [|x l IH]; intros acc Hacc; simpl; auto using sink_sorted. Qed.

Lemma StronglySorted_last l d :
  StronglySorted before l → last l = Some d → Forall (λ d', less d d' = false) l.
Proof using Hless.
  induction 1 as [|x l Hl IH Hx]; [done|].
  destruct l as [|y l]; [intros [= ->]; repeat constructor; apply Hless|].
  rewrite last_cons_cons. intros Hd. constructor; [|by apply IH].
  rewrite Forall_forall in Hx. apply Hx. by apply last_Some_elem_of.
Qed.
End sort_lemmas.

Program Definition insertion_SliceSort : SliceSort := {|
  sort_Slice A less := insertionSort less;
|}.
Next Obligation.
  intros A less l. unfold insertionSort. rewrite <-Permutation_rev, insertion_perm.
  by rewrite app_nil_r.
Qed.
Next Obligation.
  intros A less l Hless. apply StronglySorted_rev, insertion_sorted; [done|constructor].
Qed.

Lemma dp_less_strict_weak : strict_weak dp_less.
Proof. unfold strict_weak, dp_less. split_and!; intros *; lia. Qed.

(** The latest of some datapoints: none of the others has a later timestamp. *)
Definition is_latest (d : Datapoint) (dps : list Datapoint) : Prop :=
  d ∈ dps ∧ Forall (λ d', (UnixNano (dpTimestamp d') ≤ UnixNano (dpTimestamp d))%Z) dps.

Section collect_lemmas.
Context `{UnicodeTables} `{SliceSort}.
Context (api : GetMetricStatisticsInput → outcome (list Datapoint)).
Context (clock : string → Z * Z) (instance : string).

(** What one entry of the map contributes to a collection that succeeds. *)
Definition cw_metric (entry : string * string) : option Metric :=
  match api (cw_input clock instance entry.1) with
  | Ok dps =>
      d ← last (sort_Slice dp_less dps); u ← dpUnit d;
      Some (mkMetric entry.2 (UnixNano (dpTimestamp d)) (default float64_zero (dpAverage d))
              (ToLower u) {["source" := "cloudwatch"]})
  | _ => None
  end.

(** The answers of the API are usable: no panic, and units on every datapoint. *)
Definition api_total (order : list (string * string)) : Prop :=
  ∀ entry, entry ∈ order →
    match api (cw_input clock instance entry.1) with
    | Ok dps => Forall (λ d, is_Some (dpUnit d)) dps
    | Err _ => True
    | Panic _ => False
    end.

Lemma last_sort_latest dps d : last (sort_Slice dp_less dps) = Some d → is_latest d dps.
Proof.
  intros Hd. split.
  - rewrite <-(sort_Slice_perm dp_less dps). by apply last_Some_elem_of.
  - pose proof (StronglySorted_last _ dp_less_strict_weak _ _
      (sort_Slice_sorted dp_less dps dp_less_strict_weak) Hd) as Hall.
    rewrite sort_Slice_perm in Hall. eapply Forall_impl; [exact Hall|].
    intros d'. unfold dp_less. lia.
Qed.

Lemma last_sort_None dps : last (sort_Slice dp_less dps) = None → dps = [].
Proof.
  rewrite last_None. intros Hs. apply Permutation_nil_r. by rewrite <-Hs, sort_Slice_perm.
Qed.

Lemma cw_Collect_omap_acc order acc :
  api_total order →
  foldl (cw_step api clock instance) (Ok acc) order = Ok (acc ++ omap cw_metric order).
Proof.
  revert acc. induction order as [|[name label] order IH]; intros acc Htot; simpl.
  - by rewrite app_nil_r.
  - assert (api_total order) as Htot' by (intros ??; apply Htot; by right).
    specialize (Htot (name, label) ltac:(left)). unfold cw_metric; simpl in *.
    destruct (api (cw_input clock instance name)) as [dps|e|p]; [|by apply IH|done].
    case_decide as Hlen.
    + destruct (last (sort_Slice dp_less dps)) as [d|] eqn:Hd; simpl.
      * apply last_sort_latest in Hd as [Hin _]. rewrite Forall_forall in Htot.
        destruct (Htot d Hin) as [u ->]. simpl. rewrite IH by done.
        by rewrite <-(assoc_L (++)).
      * apply last_sort_None in Hd. subst dps. simpl in Hlen. lia.
    + destruct dps; simpl in Hlen; [|lia].
      destruct (last (sort_Slice dp_less [])) as [d|] eqn:Hd.
      { apply last_sort_latest in Hd as [Hin _]. by apply elem_of_nil in Hin. }
      simpl. by apply IH.
Qed.

Lemma cw_Collect_omap order :
  api_total order → cw_Collect api clock instance order = Ok (omap cw_metric order).
Proof. apply cw_Collect_omap_acc. Qed.

Lemma cw_metric_Some entry m :
  cw_metric entry = Some m →
  Key m = entry.2 ∧ Tags m = {["source" := "cloudwatch"]} ∧
  ∃ dps d u, api (cw_input clock instance entry.1) = Ok dps ∧ is_latest d dps ∧
    dpUnit d = Some u ∧ Unit m = ToLower u ∧ Timestamp m = UnixNano (dpTimestamp d) ∧
    Value m = default float64_zero (dpAverage d).
Proof.
  unfold cw_metric. destruct (api _) as [dps| |] eqn:Hapi; [|done..].
  intros (d & Hd & (u & Hu & [= <-])%bind_Some)%bind_Some. simpl.
  split_and!; [done..|]. exists dps, d, u. eauto 10 using last_sort_latest.
Qed.

Lemma cw_keys_sublist order : Key <$> omap cw_metric order `sublist_of` order.*2.
Proof.
  induction order as [|entry order IH]; simpl; [constructor|].
  destruct (cw_metric entry) as [m|] eqn:Hm; simpl; [|by constructor].
  apply cw_metric_Some in Hm as [-> _]. by constructor.
Qed.
End collect_lemmas.

Lemma NoDup_snd_inj {A B} (l : list (A * B)) a b k :
  NoDup l.*2 → (a, k) ∈ l → (b, k) ∈ l → a = b.
Proof.
  induction l as [|[x y] l IH]; simpl; [set_solver|].
  intros [Hy Hnd]%NoDup_cons Ha Hb.
  assert (∀ z, (z, y) ∉ l) as Hno by (intros z Hz; apply Hy, list_elem_of_fmap; by exists (z, y)).
  rewrite elem_of_cons in Ha, Hb. naive_solver.
Qed.

Lemma NoDup_labels order :
  order ≡ₚ metricNamesToLabels → NoDup order.*2.
Proof.
  intros ->. apply (bool_decide_unpack _). vm_compute. exact I.
Qed.

(** ** Properties *)

(** C24: a CloudWatch collection never fails, and reports each available metric
    once with its latest value.  If the API does not crash and its datapoints
    have units, then for every iteration order of the map [Collect] returns a
    nil error; the keys are distinct labels; a label is reported exactly when its
    metric was answered with at least one datapoint, so the failure of one query
    does not affect the others; and each metric carries the timestamp, the
    average and the lower-cased unit of a datapoint than which none is later. *)
Theorem cw_Collect_spec `{UnicodeTables} `{SliceSort} api clock instance order :
  order ≡ₚ metricNamesToLabels → api_total api clock instance order →
  ∃ ms, cw_Collect api clock instance order = Ok ms ∧
    NoDup (Key <$> ms) ∧
    (∀ name label, (name, label) ∈ order →
       label ∈ Key <$> ms ↔ ∃ dps, api (cw_input clock instance name) = Ok dps ∧ dps ≠ []) ∧
    (∀ m, m ∈ ms → ∃ name dps d u, (name, Key m) ∈ order ∧
       api (cw_input clock instance name) = Ok dps ∧ is_latest d dps ∧ dpUnit d = Some u ∧
       Unit m = ToLower u ∧ Timestamp m = UnixNano (dpTimestamp d) ∧
       Value m = default float64_zero (dpAverage d) ∧ Tags m = {["source" := "cloudwatch"]}).
Proof.
  intros Hperm Htot. rewrite cw_Collect_omap by done. eexists. split; [done|].
  pose proof (NoDup_labels _ Hperm) as Hnd.
  split; [eapply sublist_NoDup; [exact Hnd|apply cw_keys_sublist]|]. split.
  - intros name label Hin. split.
    + intros (m & -> & (e & He & Hm)%list_elem_of_omap)%list_elem_of_fmap.
      apply cw_metric_Some in Hm as (Hk & _ & dps & d & u & Hapi & [Hd _] & _).
      assert (e = (name, Key m)) as ->.
      { destruct e as [n k]. simpl in Hk. subst k. f_equal.
        by eapply NoDup_snd_inj. }
      exists dps. split; [done|]. intros ->. by apply elem_of_nil in Hd.
    + intros (dps & Hapi & Hne). specialize (Htot _ Hin). simpl in Htot. rewrite Hapi in Htot.
      destruct (last (sort_Slice dp_less dps)) as [d|] eqn:Hd.
      * pose proof (last_sort_latest _ _ Hd) as [Hdin _].
        rewrite Forall_forall in Htot. destruct (Htot d Hdin) as [u Hu].
        apply list_elem_of_fmap. eexists. split; [|apply list_elem_of_omap; exists (name, label);
          split; [done|]; unfold cw_metric; simpl; rewrite Hapi, Hd; simpl; rewrite Hu; done].
        done.
      * by apply last_sort_None in Hd.
  - intros m ([name label] & He & Hm)%list_elem_of_omap.
    apply cw_metric_Some in Hm as (-> & Ht & dps & d & u & ?). simpl in *.
    exists name, dps, d, u. naive_solver.
Qed.

(** An account that answers for the CPU only, with two datapoints out of order,
    has no data on memory and fails on everything else. *)
Definition sample_api (i : GetMetricStatisticsInput) : outcome (list Datapoint) :=
  if decide (MetricName i = "CPUUtilization") then
    Ok [ mkDatapoint (Some 200%Z) (Some (float64_of_int 9)) (Some "Percent");
         mkDatapoint (Some 100%Z) (Some (float64_of_int 7)) (Some "Percent") ]
  else if decide (MetricName i = "FreeableMemory") then Ok []
  else Err "Throttling".

Example cw_Collect_example :
  @cw_Collect ascii_tables insertion_SliceSort sample_api (λ _, (0%Z, 1%Z)) "db"
    (rev metricNamesToLabels) =
  Ok [mkMetric "cpu" 200 (float64_of_int 9) "percent" {["source" := "cloudwatch"]}].
Proof. reflexivity. Qed.

Lemma sample_api_total order :
  api_total sample_api (λ _, (0%Z, 1%Z)) "db" order.
Proof.
  intros entry _. unfold sample_api. simpl. repeat case_decide; [|constructor|done].
  repeat constructor; eauto.
Qed.

Lemma cw_Collect_spec_witness :
  ∃ ms, @cw_Collect ascii_tables insertion_SliceSort sample_api (λ _, (0%Z, 1%Z)) "db"
          metricNamesToLabels = Ok ms ∧ NoDup (Key <$> ms) ∧ "cpu" ∈ Key <$> ms.
Proof.
  destruct (@cw_Collect_spec ascii_tables insertion_SliceSort sample_api (λ _, (0%Z, 1%Z)) "db"
    metricNamesToLabels) as (ms & Hok & Hnd & Hiff & _);
    [reflexivity|apply sample_api_total|].
  exists ms. split; [exact Hok|]. split; [exact Hnd|].
  apply (Hiff "CPUUtilization"); [left|]. eexists. split; [reflexivity|discriminate].
Defined.

(** C25: the iteration order of the map does not matter: two collections over the
    same answers that visit the metric names in different orders report the same
    metrics, up to their order. *)
Theorem cw_Collect_order `{UnicodeTables} `{SliceSort} api clock instance order1 order2 :
  order1 ≡ₚ order2 → api_total api clock instance order1 →
  ∃ ms1 ms2, cw_Collect api clock instance order1 = Ok ms1 ∧
             cw_Collect api clock instance order2 = Ok ms2 ∧ ms1 ≡ₚ ms2.
Proof.
  intros Hp Htot. rewrite !cw_Collect_omap; [|intros e He; apply Htot; by rewrite Hp|done].
  eexists _, _. split_and!; [done..|]. by rewrite Hp.
Qed.

Lemma cw_Collect_order_witness :
  ∃ ms1 ms2,
    @cw_Collect ascii_tables insertion_SliceSort sample_api (λ _, (0%Z, 1%Z)) "db"
      metricNamesToLabels = Ok ms1 ∧
    @cw_Collect ascii_tables insertion_SliceSort sample_api (λ _, (0%Z, 1%Z)) "db"
      (rev metricNamesToLabels) = Ok ms2 ∧ ms1 ≡ₚ ms2.
Proof.
  apply cw_Collect_order; [apply Permutation_rev|apply sample_api_total].
Defined.

Section panic_lemmas.
Context `{UnicodeTables} `{SliceSort} (api : GetMetricStatisticsInput → outcome (list Datapoint)).
Context (clock : string → Z * Z) (instance : string).

Lemma cw_fold_Panic order p :
  foldl (cw_step api clock instance) (Panic p) order = Panic p.
Proof. induction order as [|e order IH]; simpl; [done|apply IH]. Qed.

Lemma cw_step_not_Err m entry e : cw_step api clock instance (Ok m) entry ≠ Err e.
Proof. unfold cw_step. destruct entry. simpl. repeat case_match; done. Qed.
End panic_lemmas.

(** A datapoint without a unit crashes the collector.  The code guards against
    a missing timestamp and a missing average but dereferences the unit: if some
    metric is answered with datapoints none of which has a unit, [Collect] ends
    in a run-time panic, whatever the other answers are. *)
Theorem cw_Collect_nil_unit_panics `{UnicodeTables} `{SliceSort} api clock instance order
    name label dps :
  (name, label) ∈ order → api (cw_input clock instance name) = Ok dps → dps ≠ [] →
  Forall (λ d, dpUnit d = None) dps →
  ∃ p, cw_Collect api clock instance order = Panic p.
Proof.
  intros Hin Hapi Hne Hnone. unfold cw_Collect. generalize (@nil Metric) as acc.
  induction order as [|entry order IH]; intros acc; [by apply elem_of_nil in Hin|].
  cbn [foldl]. apply elem_of_cons in Hin as [<-|Hin].
  - assert (∃ p, cw_step api clock instance (Ok acc) (name, label) = Panic p) as [p ->];
      [|exists p; apply cw_fold_Panic].
    unfold cw_step. simpl. rewrite Hapi. rewrite decide_True by (destruct dps; simpl; [done|lia]).
    destruct (last (sort_Slice dp_less dps)) as [d|] eqn:Hd; [|eauto].
    apply last_sort_latest in Hd as [Hd _]. rewrite Forall_forall in Hnone.
    rewrite (Hnone d Hd). eauto.
  - destruct (cw_step api clock instance (Ok acc) entry) as [acc'|e|p] eqn:Hs.
    + by apply IH.
    + by apply cw_step_not_Err in Hs.
    + exists p. apply cw_fold_Panic.
Qed.

Lemma cw_Collect_nil_unit_panics_witness :
  ∃ p, @cw_Collect ascii_tables insertion_SliceSort
    (λ _, Ok [mkDatapoint (Some 1%Z) None None]) (λ _, (0%Z, 1%Z)) "db" metricNamesToLabels = Panic p.
Proof.
  apply (@cw_Collect_nil_unit_panics ascii_tables insertion_SliceSort
    (λ _, Ok [mkDatapoint (Some 1%Z) None None]) (λ _, (0%Z, 1%Z)) "db" metricNamesToLabels
    "CPUUtilization" "cpu" [mkDatapoint (Some 1%Z) None None]);
    [left|reflexivity|discriminate|repeat constructor].
Defined.
