(* ===== verification/Worker.v ===== *)
(** * pkg/scheduler/scheduler.go, [collectorWorker.run]: one worker's loop

    A worker collects when its timer fires, emits what it collected, and rearms
    the timer: after a success with the driver's interval, after a failure with
    an exponential back-off, until more than [maxRetries] consecutive
    collections have failed.  [on_collect] is the body of the timer case of the
    [select]; the interleaving with cancellation, the collector's life cycle and
    the other goroutines is in the file Scheduler. *)

From S2P Require Import Prelude GoStrings Metrics BrokerInfo.
From stdpp Require Import options.

(** ** Data *)

Record workerID := mkWorkerID {
  Driver : string;
  wInstanceGUID : string;
}.

Global Instance workerID_eq_dec : EqDecision workerID.
Proof. solve_decision. Defined.
Global Program Instance workerID_countable : Countable workerID :=
  inj_countable' (λ w, (Driver w, wInstanceGUID w)) (λ p, mkWorkerID p.1 p.2) _.
Next Obligation. by intros []. Qed.

Record collectorWorker := mkWorker {
  id : workerID;
  instanceInfo : InstanceInfo;
  collectInterval_s : Z;      (** [driver.GetCollectInterval()] *)
  retryInterval : Z;
  maxRetries : Z;
  timeout : Z;
}.

(** Durations in nanoseconds. *)
Definition time_Millisecond : Z := 1000000.
Definition time_Second : Z := 1000000000.

(** ** The back-off *)

Section backoff.
(** What the platform returns for [int(f)] when [f] is out of range. *)
Context (int_overflow : Z).

(** [int(math.Pow(4, float64(n)))]: powers of four are exact floats. *)
Definition int_pow4 (n : Z) : Z :=
  if decide (4 ^ n ≤ int64_max)%Z then (4 ^ n)%Z else int_overflow.

Definition waitTime (w : collectorWorker) (errorCount : Z) : Z :=
  mul64 (int_pow4 errorCount) (retryInterval w).

(** ** One turn of the loop *)

Inductive action :=
  | Emitted (e : MetricEnvelope)
  | TimerReset (ns : Z)
  | Returned
  | Crashed (p : string).

Definition envelopes (w : collectorWorker) (ms : list Metric) : list MetricEnvelope :=
  mkEnvelope (wInstanceGUID (id w)) <$> ms.

(** The new [errorCount], or [None] when [run] returns, and what is done. *)
Definition on_collect (w : collectorWorker) (errorCount : Z) (res : outcome (list Metric))
  : option Z * list action :=
  match res with
  | Err _ =>
      let errorCount := (errorCount + 1)%Z in
      if decide (errorCount ≤ maxRetries w)%Z then
        (Some errorCount, [TimerReset (mul64 (waitTime w errorCount) time_Millisecond)])
      else (None, [Returned])
  | Ok collectedMetrics =>
      (Some 0%Z, (Emitted <$> envelopes w collectedMetrics) ++
                 [TimerReset (mul64 (collectInterval_s w) time_Second)])
  | Panic p => (None, [Crashed p])
  end.

(** The loop over the results of successive collections, the context staying
    alive: the final [errorCount] ([None] once [run] has returned) and all
    actions. *)
Fixpoint run_collects (w : collectorWorker) (errorCount : Z) (rs : list (outcome (list Metric)))
  : option Z * list action :=
  match rs with
  | [] => (Some errorCount, [])
  | r :: rs =>
      let '(next, acts) := on_collect w errorCount r in
      match next with
      | None => (None, acts)
      | Some errorCount =>
          let '(final, more) := run_collects w errorCount rs in (final, acts ++ more)
      end
  end.
End backoff.

(** ** Lemmas *)

(** The number of failures since the last success. *)
Definition trailing_errors (rs : list (outcome (list Metric))) : nat :=
  foldl (λ n r, match r with Err _ => S n | _ => 0 end) 0 rs.

Definition no_panic (rs : list (outcome (list Metric))) : Prop :=
  Forall (λ r, ∀ p, r ≠ Panic p) rs.

Section lemmas.
Context (int_overflow : Z) (w : collectorWorker).

Lemma run_collects_app c rs1 rs2 :
  run_collects int_overflow w c (rs1 ++ rs2) =
  (let '(mid, a1) := run_collects int_overflow w c rs1 in
   match mid with
   | None => (None, a1)
   | Some c' => let '(fin, a2) := run_collects int_overflow w c' rs2 in (fin, a1 ++ a2)
   end).
Proof.
  revert c. induction rs1 as [|r rs1 IH]; intros c; simpl.
  - by destruct (run_collects int_overflow w c rs2).
  - destruct (on_collect int_overflow w c r) as [[c'|] acts]; [|done].
    rewrite IH. destruct (run_collects int_overflow w c' rs1) as [[c''|] a1]; [|done].
    destruct (run_collects int_overflow w c'' rs2) as [fin a2].
    by rewrite (assoc_L (++)).
Qed.

(** While it runs, the worker's counter is the number of trailing failures. *)
Lemma run_collects_counter rs c acts :
  (0 ≤ maxRetries w)%Z → no_panic rs →
  run_collects int_overflow w 0 rs = (Some c, acts) →
  c = Z.of_nat (trailing_errors rs) ∧ (c ≤ maxRetries w)%Z.
Proof.
  intros Hmax. revert c acts. induction rs as [|r rs IH] using rev_ind; intros c acts Hnp.
  - simpl. intros [= <- _]. done.
  - apply Forall_app in Hnp as [Hnp [Hr _]%Forall_cons].
    rewrite run_collects_app. unfold trailing_errors. rewrite foldl_app. simpl.
    destruct (run_collects int_overflow w 0 rs) as [[c1|] a1]; [|done].
    destruct (IH c1 a1 Hnp eq_refl) as [-> Hle].
    destruct r as [ms|e|p]; simpl.
    + by intros [= <- _].
    + case_decide; [|done]. intros [= <- _]. fold (trailing_errors rs). split; lia.
    + by destruct (Hr p).
Qed.

(** Once returned, it stays returned. *)
Lemma run_collects_None_app c rs1 rs2 :
  (run_collects int_overflow w c rs1).1 = None →
  run_collects int_overflow w c (rs1 ++ rs2) = run_collects int_overflow w c rs1.
Proof.
  intros Hn. rewrite run_collects_app.
  destruct (run_collects int_overflow w c rs1) as [[c'|] a1]; [done|]. done.
Qed.

Lemma run_collects_None_split rs :
  (0 ≤ maxRetries w)%Z → no_panic rs →
  (run_collects int_overflow w 0 rs).1 = None ↔
  ∃ pre post, rs = pre ++ post ∧ (maxRetries w < Z.of_nat (trailing_errors pre))%Z.
Proof.
  intros Hmax. induction rs as [|r rs IH] using rev_ind; intros Hnp.
  - split; [done|]. intros (pre & post & [-> ->]%eq_sym%app_eq_nil & Hlt).
    unfold trailing_errors in Hlt. simpl in Hlt. lia.
  - pose proof Hnp as [Hnp' [Hr _]%Forall_cons]%Forall_app. specialize (IH Hnp').
    split.
    + rewrite run_collects_app.
      destruct (run_collects int_overflow w 0 rs) as [[c|] acts] eqn:Hrun; simpl.
      * destruct (run_collects_counter rs c acts Hmax Hnp' Hrun) as [-> Hle].
        destruct r as [ms|e|p]; simpl; [done| |by destruct (Hr p)].
        case_decide; [done|]. intros _. exists (rs ++ [Err e]), [].
        rewrite app_nil_r. split; [done|]. unfold trailing_errors in *. rewrite foldl_app.
        simpl. lia.
      * intros _. destruct (proj1 IH eq_refl) as (pre & post & -> & ?).
        exists pre, (post ++ [r]). by rewrite <-(assoc_L (++)).
    + intros (pre & post & Heq & Hlt).
      assert ((run_collects int_overflow w 0 pre).1 = None) as Hpre.
      { destruct (run_collects int_overflow w 0 pre) as [[c'|] a'] eqn:Hp; [|done].
        apply run_collects_counter in Hp as [-> ?]; [lia|done|].
        rewrite Heq in Hnp. by apply Forall_app in Hnp as [? _]. }
      by rewrite Heq, run_collects_None_app.
Qed.

Lemma int_pow4_small n : (0 ≤ n ≤ 31)%Z → int_pow4 int_overflow n = (4 ^ n)%Z.
Proof.
  intros Hn. unfold int_pow4. rewrite decide_True; [done|].
  unfold int64_max. transitivity (4 ^ 31)%Z; [apply Z.pow_le_mono_r; lia|done].
Qed.

(** No overflow within the bounds of the configuration. *)
Lemma waitTime_exact n :
  (0 ≤ retryInterval w ≤ 10000)%Z → (0 ≤ n ≤ 10)%Z →
  mul64 (waitTime int_overflow w n) time_Millisecond = (4 ^ n * retryInterval w * 1000000)%Z.
Proof.
  intros Hr Hn.
  assert (0 ≤ 4 ^ n ≤ 1048576)%Z as Hp.
  { split; [lia|]. change 1048576%Z with (4 ^ 10)%Z. apply Z.pow_le_mono_r; lia. }
  assert (0 ≤ 4 ^ n * retryInterval w ≤ 1048576 * 10000)%Z by nia.
  unfold waitTime. rewrite int_pow4_small by lia.
  rewrite (mul64_id (4 ^ n)) by (unfold_int64; lia).
  rewrite mul64_id; [done|]. unfold time_Millisecond. unfold_int64. lia.
Qed.
End lemmas.

(** ** Properties *)

(** C13: when a worker gives up.  Over any sequence of collection results, the
    worker's loop returns exactly when at some point more than [maxRetries]
    collections in a row have failed; as long as it has not returned, its error
    counter is the number of failures since the last success. *)
Theorem worker_gives_up_iff (int_overflow : Z) (w : collectorWorker)
    (rs : list (outcome (list Metric))) :
  (0 ≤ maxRetries w)%Z → no_panic rs →
  ((run_collects int_overflow w 0 rs).1 = None ↔
     ∃ pre post, rs = pre ++ post ∧ (maxRetries w < Z.of_nat (trailing_errors pre))%Z) ∧
  (∀ c, (run_collects int_overflow w 0 rs).1 = Some c →
     c = Z.of_nat (trailing_errors rs) ∧ (c ≤ maxRetries w)%Z).
Proof.
  intros Hmax Hnp. split; [by apply run_collects_None_split|].
  intros c. destruct (run_collects int_overflow w 0 rs) as [o acts] eqn:Hrun. simpl.
  intros ->. by eapply run_collects_counter.
Qed.

Definition sample_worker : collectorWorker :=
  mkWorker (mkWorkerID "postgres" "guid") (mkInstanceInfo "guid" "postgres") 180 1000 3 15000.

Lemma worker_gives_up_iff_witness :
  (run_collects 0 sample_worker 0 [Err "a"; Ok []; Err "b"; Err "c"; Err "d"; Err "e"]).1 = None.
Proof.
  apply (proj2 (proj1 (worker_gives_up_iff 0 sample_worker
    [Err "a"; Ok []; Err "b"; Err "c"; Err "d"; Err "e"]
    ltac:(vm_compute; discriminate) ltac:(repeat constructor; discriminate)))).
  exists [Err "a"; Ok []; Err "b"; Err "c"; Err "d"; Err "e"], []. split; [reflexivity|].
  vm_compute. reflexivity.
Defined.

(** C14: the exponential back-off.  Starting from a success, [k] failures in a row
    with [k] at most [maxRetries] emit nothing and rearm the timer with
    4, 16, ..., 4^k times the retry interval, exactly and without overflow for
    the retry intervals (up to 10 s) and retry counts (up to 10) that the
    configuration allows; one failure more than [maxRetries] makes the worker
    return instead. *)
Theorem worker_backoff (int_overflow : Z) (w : collectorWorker) (errs : list string) :
  (0 ≤ retryInterval w ≤ 10000)%Z → (0 ≤ maxRetries w ≤ 10)%Z →
  (Z.of_nat (length errs) ≤ maxRetries w)%Z →
  run_collects int_overflow w 0 (Err <$> errs) =
    (Some (Z.of_nat (length errs)),
     (λ k, TimerReset (4 ^ Z.of_nat k * retryInterval w * 1000000)%Z) <$> seq 1 (length errs)) ∧
  (Z.of_nat (length errs) = maxRetries w → ∀ e,
     run_collects int_overflow w 0 (Err <$> (errs ++ [e])) =
       (None, ((λ k, TimerReset (4 ^ Z.of_nat k * retryInterval w * 1000000)%Z)
                 <$> seq 1 (length errs)) ++ [Returned])).
Proof.
  intros Hr Hm Hlen.
  assert (run_collects int_overflow w 0 (Err <$> errs) =
    (Some (Z.of_nat (length errs)),
     (λ k, TimerReset (4 ^ Z.of_nat k * retryInterval w * 1000000)%Z) <$> seq 1 (length errs))) as Hrun.
  { induction errs as [|e errs IH] using rev_ind; [done|].
    rewrite length_app in *. simpl in *. rewrite fmap_app, run_collects_app.
    rewrite IH by lia. simpl. rewrite decide_True by lia.
    rewrite Nat.add_1_r, seq_S, fmap_app. simpl.
    rewrite waitTime_exact by lia.
    replace (Z.of_nat (length errs) + 1)%Z with (Z.of_nat (S (length errs))) by lia. done. }
  split; [done|]. intros Heq e.
  rewrite fmap_app, run_collects_app, Hrun. simpl. by rewrite decide_False by lia.
Qed.

Lemma worker_backoff_witness :
  run_collects 0 sample_worker 0 (Err <$> ["x"; "y"; "z"]) =
  (Some 3%Z, [TimerReset 4000000000; TimerReset 16000000000; TimerReset 64000000000]).
Proof.
  apply (proj1 (worker_backoff 0 sample_worker ["x"; "y"; "z"]
    ltac:(simpl; lia) ltac:(simpl; lia) ltac:(simpl; lia))).
Defined.

Definition emission (a : action) : option MetricEnvelope :=
  match a with Emitted e => Some e | _ => None end.
Definition collected (r : outcome (list Metric)) : option (list Metric) :=
  match r with Ok ms => Some ms | _ => None end.

Lemma omap_emission_envelopes w ms :
  omap emission (Emitted <$> envelopes w ms) = mkEnvelope (wInstanceGUID (id w)) <$> ms.
Proof. unfold envelopes. induction ms as [|m ms IH]; simpl; [done|by f_equal]. Qed.

(** What a worker emits.  Over any sequence of results, the emitted envelopes
    are the metrics of the successful collections before the worker returned, in
    order, each addressed to the worker's own instance; failed collections emit
    nothing, and nothing is emitted after the worker returned. *)
Theorem worker_emits (int_overflow : Z) (w : collectorWorker) (c : Z)
    (rs : list (outcome (list Metric))) :
  ∃ before after, rs = before ++ after ∧
    ((run_collects int_overflow w c rs).1 ≠ None → after = []) ∧
    run_collects int_overflow w c before = run_collects int_overflow w c rs ∧
    omap emission (run_collects int_overflow w c rs).2
      = mkEnvelope (wInstanceGUID (id w)) <$> concat (omap collected before).
Proof.
  revert c. induction rs as [|r rs IH]; intros c; [by exists [], []|].
  destruct r as [ms|e|p]; cbn [run_collects on_collect].
  - destruct (IH 0%Z) as (dn & rest & -> & Hrest & Hsame & Heq). exists (Ok ms :: dn), rest.
    cbn [run_collects on_collect]. rewrite Hsame.
    destruct (run_collects int_overflow w 0 (dn ++ rest)) as [fin acts].
    cbn [fst snd] in *. split_and!; [done..|].
    change (omap collected (Ok ms :: dn)) with (ms :: omap collected dn). cbn [concat].
    rewrite fmap_app, <-Heq, !omap_app, omap_emission_envelopes. by rewrite <-(assoc_L (++)).
  - case_decide as Hc.
    + destruct (IH (c + 1)%Z) as (dn & rest & -> & Hrest & Hsame & Heq).
      exists (Err e :: dn), rest. cbn [run_collects on_collect]. rewrite decide_True by done.
      rewrite Hsame. by destruct (run_collects int_overflow w (c + 1) (dn ++ rest)) as [fin acts].
    + exists [Err e], rs. cbn [run_collects on_collect]. by rewrite decide_False.
  - exists [Panic p], rs. done.
Qed.
