(* ===== verification/Scheduler.v ===== *)
(** * pkg/scheduler/scheduler.go: the scheduler and its workers

    The whole run of the scheduler as a transition system: the main goroutine
    ([mainLoop] and its deferred drain loop), the worker goroutines, the channel
    [stoppedWorker], the wait group, the contexts, and [Stop].  [exec] performs
    one atomic action, named by a label that carries what the environment
    decides: the instances the broker lists, the results of [NewCollector] and
    [Collect], the iteration orders of Go's maps, which ready case a [select]
    takes.  Only the main goroutine touches [s.workers], so a refresh is one
    action.  A panic of the broker, a driver or a collector ends the process: such
    a label has no step.  Timers may fire at any moment, so the runs include those
    of every timing. *)

From S2P Require Import Prelude GoStrings Utils Metrics BrokerInfo Collector Config Worker.
From stdpp Require Import options.

Definition defaultRetryInterval : Z := 1000.
Definition defaultMaxRetries : Z := 3.
Definition defaultCollectorTimeout : Z := 15000.

Record Scheduler (W : Type) := mkScheduler {
  instanceRefreshInterval : Z;
  collectorRetryInterval : Z;
  collectorMaxRetries : Z;
  collectorTimeout : Z;
  metricsCollectorDrivers : gmap string (MetricsCollectorDriver W);
}.
Arguments mkScheduler {W}.
Arguments instanceRefreshInterval {W}.
Arguments collectorRetryInterval {W}.
Arguments collectorMaxRetries {W}.
Arguments collectorTimeout {W}.
Arguments metricsCollectorDrivers {W}.

Definition NewScheduler {W} (c : SchedulerConfig) : Scheduler W := {|
  instanceRefreshInterval := InstanceRefreshInterval c;
  collectorRetryInterval := default defaultRetryInterval (CollectorRetryIntervalMs c);
  collectorMaxRetries := default defaultMaxRetries (CollectorMaxRetries c);
  collectorTimeout := default defaultCollectorTimeout (CollectorTimeoutMs c);
  metricsCollectorDrivers := ∅;
|}.

Definition WithDriver {W} (s : Scheduler W) (drivers : list (MetricsCollectorDriver W)) : Scheduler W := {|
  instanceRefreshInterval := instanceRefreshInterval s;
  collectorRetryInterval := collectorRetryInterval s;
  collectorMaxRetries := collectorMaxRetries s;
  collectorTimeout := collectorTimeout s;
  metricsCollectorDrivers :=
    foldl (λ m driver, <[GetName driver := driver]> m) (metricsCollectorDrivers s) drivers;
|}.

(** ** State *)

(** Where a worker goroutine is in [run]: before [NewCollector]; blocked in the
    [select] with its error count and the duration its timer was last set to;
    inside [Collect]; returning, before the deferred [collector.Close()]; before
    the deferred [stopped <- w.id]; finished. *)
Inductive wpc :=
  | WNew
  | WLoop (errorCount timer : Z)
  | WCollecting (errorCount : Z)
  | WClosing
  | WSending
  | WDone.

Inductive coll_state := NotCreated | Opened | Closed.

Global Instance wpc_eq_dec : EqDecision wpc.
Proof. solve_decision. Defined.
Global Instance coll_state_eq_dec : EqDecision coll_state.
Proof. solve_decision. Defined.

Record proc := mkProc {
  p_worker : collectorWorker;
  p_pc : wpc;
  p_cancelled : bool;         (** its own context has been cancelled *)
  p_coll : coll_state;        (** its collector *)
}.
Definition pid (p : proc) : workerID := id (p_worker p).

Definition set_pc (c : wpc) (p : proc) : proc := mkProc (p_worker p) c (p_cancelled p) (p_coll p).
Definition set_coll (c : coll_state) (p : proc) : proc := mkProc (p_worker p) (p_pc p) (p_cancelled p) c.
Definition set_cancelled (p : proc) : proc := mkProc (p_worker p) (p_pc p) true (p_coll p).

(** The main goroutine: in the loop of [mainLoop], in its deferred drain loop,
    returned. *)
Inductive main_pc := MLoop | MDrain | MExited.
Global Instance main_pc_eq_dec : EqDecision main_pc.
Proof. solve_decision. Defined.

Record sys := mkSys {
  main : main_pc;
  workers : gmap workerID nat;     (** [s.workers]: the index of the goroutine *)
  workersRunning : Z;              (** the wait group's counter *)
  stoppedWorker : list workerID;   (** the channel's buffer, capacity 1 *)
  procs : list proc;               (** every worker goroutine ever started *)
  ctx_cancelled : bool;            (** the context of [Run] *)
  drain_timed_out : bool;
  stopping : bool;                 (** [Stop] has been called *)
  stop_returned : bool;
  emitted : list MetricEnvelope;
}.

(** After [Run] has created the context and closed [ready]. *)
Definition sys_init : sys := mkSys MLoop ∅ 0 [] [] false false false false [].

Definition set_procs (ps : list proc) (s : sys) : sys :=
  mkSys (main s) (workers s) (workersRunning s) (stoppedWorker s) ps (ctx_cancelled s)
    (drain_timed_out s) (stopping s) (stop_returned s) (emitted s).
Definition set_main (m : main_pc) (s : sys) : sys :=
  mkSys m (workers s) (workersRunning s) (stoppedWorker s) (procs s) (ctx_cancelled s)
    (drain_timed_out s) (stopping s) (stop_returned s) (emitted s).
Definition cancel_ctx (s : sys) : sys :=
  mkSys (main s) (workers s) (workersRunning s) (stoppedWorker s) (procs s) true
    (drain_timed_out s) (stopping s) (stop_returned s) (emitted s).
Definition set_chan (c : list workerID) (s : sys) : sys :=
  mkSys (main s) (workers s) (workersRunning s) c (procs s) (ctx_cancelled s)
    (drain_timed_out s) (stopping s) (stop_returned s) (emitted s).
Definition add_emitted (es : list MetricEnvelope) (s : sys) : sys :=
  mkSys (main s) (workers s) (workersRunning s) (stoppedWorker s) (procs s) (ctx_cancelled s)
    (drain_timed_out s) (stopping s) (stop_returned s) (emitted s ++ es).

(** ** Operations *)

Section scheduler.
Context {W : Type} (sch : Scheduler W) (int_overflow : Z).
Local Abbreviation drivers := (metricsCollectorDrivers sch).

(** The entries one instance adds to [desiredWorkerIDs], visiting the drivers
    in the order [names]. *)
Definition desired_for (names : list string) (i : InstanceInfo) : list (workerID * InstanceInfo) :=
  omap (λ name,
    d ← drivers !! name;
    if SliceContainsString (SupportedTypes d) (Type_ i)
    then Some (mkWorkerID name (GUID i), i) else None) names.

Definition desiredWorkerIDs (names : list string) (infos : list InstanceInfo)
  : gmap workerID InstanceInfo :=
  insert_all (infos ≫= desired_for names) ∅.

Definition startWorker (s : sys) (wid : workerID) (info : InstanceInfo) : sys :=
  let worker := mkWorker wid info
                  (from_option GetCollectInterval 0%Z (drivers !! Driver wid))
                  (collectorRetryInterval sch) (collectorMaxRetries sch) (collectorTimeout sch) in
  mkSys (main s) (<[wid := length (procs s)]> (workers s)) (workersRunning s + 1)
    (stoppedWorker s) (procs s ++ [mkProc worker WNew false NotCreated])
    (ctx_cancelled s) (drain_timed_out s) (stopping s) (stop_returned s) (emitted s).

(** [for id, instanceInfo := range desiredWorkerIDs { if !ok { startWorker } }] *)
Definition start_missing (des : gmap workerID InstanceInfo) (order : list workerID) (s : sys) : sys :=
  foldl (λ s wid,
    match workers s !! wid, des !! wid with
    | None, Some info => startWorker s wid info
    | _, _ => s
    end) s order.

(** [for id, worker := range s.workers { if !ok { worker.cancel() } }] *)
Definition cancel_one (des : gmap workerID InstanceInfo) (ps : list proc)
    (e : workerID * nat) : list proc :=
  match des !! e.1 with None => alter set_cancelled e.2 ps | Some _ => ps end.

Definition cancel_missing (des : gmap workerID InstanceInfo) (s : sys) : sys :=
  set_procs (foldl (cancel_one des) (procs s) (map_to_list (workers s))) s.

Definition refresh (names : list string) (order : list workerID) (infos : list InstanceInfo)
    (s : sys) : sys :=
  let des := desiredWorkerIDs names infos in
  cancel_missing des (start_missing des order s).

Definition deleteWorker (wid : workerID) (s : sys) : sys :=
  mkSys (main s) (delete wid (workers s)) (workersRunning s - 1) (stoppedWorker s) (procs s)
    (ctx_cancelled s) (drain_timed_out s) (stopping s) (stop_returned s) (emitted s).

Inductive label :=
  (** mainLoop *)
  | LRefresh (res : outcome (list InstanceInfo)) (names : list string) (order : list workerID)
  | LRecv
  | LSignal
  | LCtxDone
  | LDrainTimeout
  | LExit
  (** Stop *)
  | LStop
  | LStopReturn
  (** the [n]-th worker goroutine *)
  | LNew (n : nat) (res : outcome unit)
  | LTimer (n : nat)
  | LDone (n : nat)
  | LCollect (n : nat) (res : outcome (list Metric))
  | LClose (n : nat)
  | LSend (n : nat).

Definition recv (s : sys) : option sys :=
  match stoppedWorker s with
  | wid :: rest => Some (deleteWorker wid (set_chan rest s))
  | [] => None
  end.

Definition update (n : nat) (p : proc) (s : sys) : sys := set_procs (<[n := p]> (procs s)) s.

Definition reset_ns (acts : list action) : Z :=
  default 0%Z (last (omap (λ a, match a with TimerReset ns => Some ns | _ => None end) acts)).

Definition exec_worker (l : label) (n : nat) (p : proc) (s : sys) : option sys :=
  match l, p_pc p with
  | LNew _ res, WNew =>
      match res with
      | Ok _ => Some (update n (set_coll Opened (set_pc (WLoop 0 0) p)) s)
      | Err _ => Some (update n (set_pc WSending p) s)
      | Panic _ => None
      end
  | LTimer _, WLoop c _ => Some (update n (set_pc (WCollecting c) p) s)
  | LDone _, WLoop _ _ =>
      if p_cancelled p || ctx_cancelled s then Some (update n (set_pc WClosing p) s) else None
  | LCollect _ res, WCollecting c =>
      match res with
      | Panic _ => None
      | _ =>
          let '(next, acts) := on_collect int_overflow (p_worker p) c res in
          let pc := match next with Some c' => WLoop c' (reset_ns acts) | None => WClosing end in
          Some (add_emitted (omap emission acts) (update n (set_pc pc p) s))
      end
  | LClose _, WClosing => Some (update n (set_coll Closed (set_pc WSending p)) s)
  | LSend _, WSending =>
      if decide (length (stoppedWorker s) < 1)
      then Some (set_chan (stoppedWorker s ++ [pid p]) (update n (set_pc WDone p) s))
      else None
  | _, _ => None
  end.

Definition exec (l : label) (s : sys) : option sys :=
  match l with
  | LRefresh res names order =>
      if decide (main s = MLoop) then
        match res with
        | Err _ => Some s
        | Panic _ => None
        | Ok infos =>
            if decide (names ≡ₚ elements (dom drivers) ∧
                       order ≡ₚ elements (dom (desiredWorkerIDs names infos)))
            then Some (refresh names order infos s) else None
        end
      else None
  | LRecv =>
      if decide (main s = MLoop ∨ (main s = MDrain ∧ workers s ≠ ∅)) then recv s else None
  | LSignal => if decide (main s = MLoop) then Some (set_main MDrain (cancel_ctx s)) else None
  | LCtxDone =>
      if decide (main s = MLoop ∧ ctx_cancelled s = true) then Some (set_main MDrain s) else None
  | LDrainTimeout =>
      if decide (main s = MDrain ∧ workers s ≠ ∅ ∧ drain_timed_out s = false)
      then Some (mkSys (main s) (workers s) (workersRunning s) (stoppedWorker s) (procs s)
                   (ctx_cancelled s) true (stopping s) (stop_returned s) (emitted s))
      else None
  | LExit => if decide (main s = MDrain ∧ workers s = ∅) then Some (set_main MExited s) else None
  | LStop =>
      Some (mkSys (main s) (workers s) (workersRunning s) (stoppedWorker s) (procs s) true
              (drain_timed_out s) true (stop_returned s) (emitted s))
  | LStopReturn =>
      if decide (stopping s = true ∧ workersRunning s = 0%Z)
      then Some (mkSys (main s) (workers s) (workersRunning s) (stoppedWorker s) (procs s)
                   (ctx_cancelled s) (drain_timed_out s) (stopping s) true (emitted s))
      else None
  | LNew n _ | LTimer n | LDone n | LCollect n _ | LClose n | LSend n =>
      p ← procs s !! n; exec_worker l n p s
  end.

Definition run_trace (ls : list label) (s : sys) : option sys :=
  foldl (λ os l, os ≫= exec l) (Some s) ls.

Definition sched_step (s s' : sys) : Prop := ∃ l, exec l s = Some s'.
Definition sched_reachable : sys → Prop := rtc sched_step sys_init.
End scheduler.

(** [ListIntanceGUIDs] *)
Definition ListIntanceGUIDs (s : sys) : list string :=
  elements (set_map wInstanceGUID (dom (workers s)) : gset string).
