(* ===== verification/SchedulerInv.v ===== *)
(** * The invariant of the scheduler

    [inv] relates the map of workers, the goroutines, the channel and the wait
    group; every action preserves it.  The lemmas on the three loops of a
    refresh (computing the desired workers, starting the missing ones,
    cancelling the others) are here too. *)

From S2P Require Import Prelude GoStrings Utils Metrics BrokerInfo Collector Config Worker Scheduler.
From stdpp Require Import options.

Section inv.
Context {W : Type} (sch : Scheduler W) (int_overflow : Z).
Local Abbreviation drivers := (metricsCollectorDrivers sch).

(** ** The desired workers *)

(** The broker's entry [i] asks for the worker [wid]. *)
Definition wanted (names : list string) (wid : workerID) (i : InstanceInfo) : Prop :=
  Driver wid ∈ names ∧ GUID i = wInstanceGUID wid ∧
  from_option (λ d, SliceContainsString (SupportedTypes d) (Type_ i)) false
    (drivers !! Driver wid) = true.

Global Instance wanted_dec names wid i : Decision (wanted names wid i).
Proof. unfold wanted. apply _. Defined.

Lemma elem_of_desired_for names i wid j :
  (wid, j) ∈ desired_for sch names i ↔ j = i ∧ wanted names wid i.
Proof.
  unfold desired_for, wanted. rewrite list_elem_of_omap. split.
  - intros (name & Hname & Hd). destruct (drivers !! name) as [d|] eqn:E; simpl in Hd; [|done].
    destruct (SliceContainsString _ _) eqn:Hs; [|done]. injection Hd as <- <-.
    simpl. by rewrite E.
  - intros [-> (Hname & Hguid & Hs)]. exists (Driver wid). split; [done|].
    destruct (drivers !! Driver wid) as [d|]; simpl in *; [|done].
    rewrite Hs. destruct wid; simpl in *. by subst.
Qed.

Lemma insert_desired_for names i m wid :
  insert_all (desired_for sch names i) m !! wid =
  (if decide (wanted names wid i) then Some i else m !! wid).
Proof.
  case_decide as Hw.
  - apply lookup_insert_all_const.
    + apply Forall_forall. intros [k v] Hin. by apply elem_of_desired_for in Hin as [-> _].
    + apply list_elem_of_fmap. exists (wid, i). split; [done|]. by apply elem_of_desired_for.
  - apply lookup_insert_all_notin. intros ([k v] & -> & Hin)%list_elem_of_fmap.
    by apply elem_of_desired_for in Hin as [_ ?].
Qed.

(** The entry of a worker is the last listed instance that asks for it. *)
Lemma lookup_desired names infos wid :
  desiredWorkerIDs sch names infos !! wid = last (filter (wanted names wid) infos).
Proof.
  unfold desiredWorkerIDs. induction infos as [|i infos IH] using rev_ind; [done|].
  rewrite bind_app, insert_all_app, filter_app.
  assert ((mbind (desired_for sch names) [i]) = desired_for sch names i) as ->
    by (simpl; by rewrite app_nil_r).
  rewrite insert_desired_for, IH. rewrite filter_cons, filter_nil.
  case_decide; [by rewrite last_snoc|by rewrite app_nil_r].
Qed.

Lemma desired_is_Some names infos wid :
  is_Some (desiredWorkerIDs sch names infos !! wid) ↔ ∃ i, i ∈ infos ∧ wanted names wid i.
Proof.
  rewrite lookup_desired, last_is_Some. split.
  - intros Hne. destruct (filter (wanted names wid) infos) as [|i l] eqn:E; [done|].
    exists i. assert (i ∈ filter (wanted names wid) infos) as Hi by (rewrite E; left).
    apply list_elem_of_filter in Hi as [??]. done.
  - intros (i & Hi & Hw) Hnil.
    assert (i ∈ filter (wanted names wid) infos) as Hin by (by apply list_elem_of_filter).
    rewrite Hnil in Hin. by apply elem_of_nil in Hin.
Qed.

Lemma desired_Some_wanted names infos wid info :
  desiredWorkerIDs sch names infos !! wid = Some info → info ∈ infos ∧ wanted names wid info.
Proof.
  rewrite lookup_desired. intros Hl%last_Some_elem_of.
  by apply list_elem_of_filter in Hl as [??].
Qed.

(** ** The invariant *)

(** The collector is open exactly while the worker may use it. *)
Definition coll_ok (p : proc) : Prop :=
  match p_pc p with
  | WNew => p_coll p = NotCreated
  | WLoop _ _ | WCollecting _ | WClosing => p_coll p = Opened
  | WSending | WDone => p_coll p ≠ Opened
  end.

(** A worker runs a registered driver on a matching instance, with the
    scheduler's settings. *)
Definition worker_wf (w : collectorWorker) : Prop :=
  ∃ d, drivers !! Driver (id w) = Some d ∧
    Type_ (instanceInfo w) ∈ SupportedTypes d ∧
    GUID (instanceInfo w) = wInstanceGUID (id w) ∧
    collectInterval_s w = GetCollectInterval d ∧
    retryInterval w = collectorRetryInterval sch ∧
    maxRetries w = collectorMaxRetries sch ∧ timeout w = collectorTimeout sch.

Record inv (s : sys) : Prop := {
  inv_workers wid n : workers s !! wid = Some n →
    ∃ p, procs s !! n = Some p ∧ pid p = wid ∧ (p_pc p = WDone → wid ∈ stoppedWorker s);
  inv_live n p : procs s !! n = Some p → p_pc p ≠ WDone → workers s !! pid p = Some n;
  inv_chan wid : wid ∈ stoppedWorker s →
    ∃ n p, workers s !! wid = Some n ∧ procs s !! n = Some p ∧ p_pc p = WDone;
  inv_cap : length (stoppedWorker s) ≤ 1;
  inv_wg : workersRunning s = Z.of_nat (size (workers s));
  inv_main : main s = MExited → workers s = ∅;
  inv_ctx : main s ≠ MLoop → ctx_cancelled s = true;
  inv_procs n p : procs s !! n = Some p → coll_ok p ∧ worker_wf (p_worker p);
  inv_emitted e : e ∈ emitted s → ∃ p, p ∈ procs s ∧ InstanceGUID e = wInstanceGUID (pid p);
}.

Lemma inv_init : inv sys_init.
Proof. split; simpl; try done; set_solver. Qed.

(** A goroutine that changed, but neither its identity nor whether it is done. *)
Definition similar (p p' : proc) : Prop :=
  p_worker p' = p_worker p ∧ (p_pc p' = WDone ↔ p_pc p = WDone) ∧ (coll_ok p → coll_ok p').

Lemma similar_refl p : similar p p.
Proof. done. Qed.

Lemma similar_update s n p p' :
  procs s !! n = Some p → similar p p' → Forall2 similar (procs s) (<[n := p']> (procs s)).
Proof.
  intros Hn Hsim. apply Forall2_same_length_lookup_2; [by rewrite length_insert|].
  intros i x y Hx Hy. apply list_lookup_insert_Some in Hy as [(-> & -> & _)|[_ Hy]].
  - by simplify_eq.
  - simplify_eq. apply similar_refl.
Qed.

(** Everything but the goroutines, which are similar, and emitted envelopes,
    which come from a goroutine. *)
Lemma inv_similar s ps es :
  inv s → Forall2 similar (procs s) ps →
  (∀ e, e ∈ es → ∃ p, p ∈ procs s ∧ InstanceGUID e = wInstanceGUID (pid p)) →
  inv (add_emitted es (set_procs ps s)).
Proof.
  intros [] Hsim Hes.
  assert (∀ n p', ps !! n = Some p' → ∃ p, procs s !! n = Some p ∧ similar p p') as Hback
    by (intros; by eapply Forall2_lookup_r).
  assert (∀ n p, procs s !! n = Some p → ∃ p', ps !! n = Some p' ∧ similar p p') as Hfwd
    by (intros; by eapply Forall2_lookup_l).
  assert (∀ p p', similar p p' → pid p' = pid p) as Hpid by (intros p p' [Hw _]; unfold pid; by rewrite Hw).
  split; simpl; try done.
  - intros wid n Hn. destruct (inv_workers0 wid n Hn) as (p & Hp & <- & Hd).
    destruct (Hfwd n p Hp) as (p' & Hp' & Hs). exists p'. rewrite (Hpid _ _ Hs).
    split_and!; [done..|]. destruct Hs as (_ & Hiff & _). naive_solver.
  - intros n p' Hp' Hnd. destruct (Hback n p' Hp') as (p & Hp & Hs).
    rewrite (Hpid _ _ Hs). apply inv_live0; [done|]. destruct Hs as (_ & Hiff & _). naive_solver.
  - intros wid Hin. destruct (inv_chan0 wid Hin) as (n & p & Hn & Hp & Hd).
    destruct (Hfwd n p Hp) as (p' & Hp' & (_ & Hiff & _)). exists n, p'. naive_solver.
  - intros n p' Hp'. destruct (Hback n p' Hp') as (p & Hp & (Hw & _ & Hc)).
    destruct (inv_procs0 n p Hp). rewrite Hw. auto.
  - intros e [He|He]%elem_of_app;
      [destruct (inv_emitted0 e He) as (p & Hp & Heq)|destruct (Hes e He) as (p & Hp & Heq)];
      apply list_elem_of_lookup in Hp as [n Hn]; destruct (Hfwd n p Hn) as (p' & Hp' & Hs);
      exists p'; rewrite (Hpid _ _ Hs); (split; [by eapply list_elem_of_lookup_2|done]).
Qed.

Lemma inv_similar_procs s ps : inv s → Forall2 similar (procs s) ps → inv (set_procs ps s).
Proof.
  intros Hinv Hsim.
  assert (set_procs ps s = add_emitted [] (set_procs ps s)) as ->.
  { destruct s. unfold add_emitted, set_procs. simpl. by rewrite app_nil_r. }
  apply inv_similar; [done|done|set_solver].
Qed.

Lemma inv_update s n p p' :
  inv s → procs s !! n = Some p → similar p p' → inv (update n p' s).
Proof. intros. apply inv_similar_procs; [done|]. by eapply similar_update. Qed.

(** ** Starting and cancelling *)

Definition fresh_worker (wid : workerID) (info : InstanceInfo) : collectorWorker :=
  mkWorker wid info (from_option GetCollectInterval 0%Z (drivers !! Driver wid))
    (collectorRetryInterval sch) (collectorMaxRetries sch) (collectorTimeout sch).
Definition fresh_proc (wid : workerID) (info : InstanceInfo) : proc :=
  mkProc (fresh_worker wid info) WNew false NotCreated.

Lemma fresh_worker_wf names wid info : wanted names wid info → worker_wf (fresh_worker wid info).
Proof.
  intros (_ & Hguid & Hs). unfold worker_wf, fresh_worker; simpl.
  destruct (drivers !! Driver wid) as [d|]; simpl in *; [|done].
  apply SliceContainsString_spec in Hs. by exists d.
Qed.

Lemma startWorker_inv s wid info names :
  inv s → main s = MLoop → workers s !! wid = None → wanted names wid info →
  inv (startWorker sch s wid info).
Proof.
  intros [] Hmain Hnone Hw. pose proof (fresh_worker_wf _ _ _ Hw) as Hwf.
  split; simpl; try assumption.
  - intros wid' n [[<- <-]|[Hne Hn]]%lookup_insert_Some.
    + exists (fresh_proc wid info). split; [|done]. apply lookup_snoc_Some. by right.
    + destruct (inv_workers0 wid' n Hn) as (p & Hp & Hrest). exists p. split; [|done].
      apply lookup_snoc_Some. by left.
  - intros n p [Hp|[-> ->]]%lookup_snoc_Some Hnd.
    + rewrite lookup_insert_ne; [by apply inv_live0|]. intros ->.
      rewrite (inv_live0 n p) in Hnone; done.
    + unfold pid. simpl. by rewrite lookup_insert_eq.
  - intros wid' Hin. destruct (inv_chan0 wid' Hin) as (n & p & Hn & Hp & Hd). exists n, p.
    rewrite lookup_insert_ne by congruence. split_and!; [done| |done].
    apply lookup_snoc_Some. by left.
  - rewrite map_size_insert_None by done. lia.
  - rewrite Hmain. done.
  - intros n p [Hp|[-> ->]]%lookup_snoc_Some; [by apply inv_procs0 in Hp|done].
  - intros e He. destruct (inv_emitted0 e He) as (p & Hp & Heq). exists p.
    split; [apply elem_of_app; by left|done].
Qed.

(** What a sequence of starts did to a state. *)
Record started (des : gmap workerID InstanceInfo) (order : list workerID) (s s' : sys) : Prop := {
  st_main : main s' = main s;
  st_chan : stoppedWorker s' = stoppedWorker s;
  st_ctx : ctx_cancelled s' = ctx_cancelled s;
  st_old n p : procs s !! n = Some p → procs s' !! n = Some p;
  st_kept wid n : workers s !! wid = Some n → workers s' !! wid = Some n;
  st_new wid : workers s !! wid = None →
    match (if decide (wid ∈ order) then des !! wid else None) with
    | Some info => ∃ n, workers s' !! wid = Some n ∧ length (procs s) ≤ n ∧
                        procs s' !! n = Some (fresh_proc wid info)
    | None => workers s' !! wid = None
    end;
}.

Lemma start_missing_cons des wid order s :
  start_missing sch des (wid :: order) s =
  start_missing sch des order
    (match workers s !! wid, des !! wid with
     | None, Some info => startWorker sch s wid info | _, _ => s end).
Proof. done. Qed.

Lemma start_missing_started des order s :
  NoDup order → started des order s (start_missing sch des order s).
Proof.
  intros Hnd. revert s. induction Hnd as [|wid order Hwid Hnd IH]; intros s.
  { by split. }
  rewrite start_missing_cons.
  assert (∀ wid', wid' ≠ wid → (if decide (wid' ∈ wid :: order) then des !! wid' else None) =
    (if decide (wid' ∈ order) then des !! wid' else None)) as Hother.
  { intros wid' Hne. repeat case_decide; set_solver. }
  destruct (workers s !! wid) as [n0|] eqn:Hw; [|destruct (des !! wid) as [info|] eqn:Hdes].
  - destruct (IH s). split; try done. intros wid' Hn.
    rewrite Hother by congruence. by apply st_new0.
  - destruct (IH (startWorker sch s wid info)). simpl in *. split; try done.
    + intros n p Hp. apply st_old0. apply lookup_snoc_Some. by left.
    + intros wid' n Hn. apply st_kept0. rewrite lookup_insert_ne by congruence. done.
    + intros wid' Hn. destruct (decide (wid' = wid)) as [->|Hne].
      * rewrite decide_True by left. rewrite Hdes. exists (length (procs s)).
        split; [apply st_kept0; by rewrite lookup_insert_eq|]. split; [done|].
        apply st_old0. apply lookup_snoc_Some. by right.
      * rewrite Hother by done. specialize (st_new0 wid').
        rewrite lookup_insert_ne in st_new0 by done. specialize (st_new0 Hn).
        destruct (if decide (wid' ∈ order) then des !! wid' else None); [|done].
        destruct st_new0 as (n & ? & Hlen & ?). rewrite length_app in Hlen. simpl in Hlen.
        exists n. split_and!; [done|lia|done].
  - destruct (IH s). split; try done. intros wid' Hn.
    destruct (decide (wid' = wid)) as [->|Hne]; [|rewrite Hother by done; by apply st_new0].
    rewrite Hdes. specialize (st_new0 wid Hn). rewrite decide_False in st_new0 by done.
    by case_decide.
Qed.

Lemma start_missing_inv names infos order s :
  inv s → main s = MLoop → inv (start_missing sch (desiredWorkerIDs sch names infos) order s).
Proof.
  revert s. induction order as [|wid order IH]; intros s Hinv Hmain; [done|].
  rewrite start_missing_cons.
  destruct (workers s !! wid) as [n0|] eqn:Hw; [by apply IH|].
  destruct (desiredWorkerIDs sch names infos !! wid) as [info|] eqn:Hdes; [|by apply IH].
  apply desired_Some_wanted in Hdes as [_ Hwant].
  apply IH; [by eapply startWorker_inv|done].
Qed.

Definition cancelled_of (p p' : proc) : Prop := p' = p ∨ p' = set_cancelled p.

Lemma cancelled_similar p p' : cancelled_of p p' → similar p p'.
Proof. intros [-> | ->]; done. Qed.

Lemma cancel_foldl des (l : list (workerID * nat)) ps :
  Forall2 cancelled_of ps (foldl (cancel_one des) ps l) ∧
  (∀ wid n p, (wid, n) ∈ l → des !! wid = None → ps !! n = Some p →
     ∃ p', foldl (cancel_one des) ps l !! n = Some p' ∧ p_cancelled p' = true) ∧
  (∀ n p, ps !! n = Some p → (∀ wid, (wid, n) ∈ l → is_Some (des !! wid)) →
     foldl (cancel_one des) ps l !! n = Some p).
Proof.
  induction l as [|[wid n] l (IH1 & IH2 & IH3)] using rev_ind; simpl.
  { split_and!; [|set_solver|done]. apply Forall2_same_length_lookup_2; [done|].
    intros i x y ??. simplify_eq. by left. }
  rewrite foldl_app. simpl. set (f := foldl (cancel_one des) ps l) in *.
  unfold cancel_one. simpl.
  destruct (des !! wid) as [info|] eqn:Hd.
  { split_and!; [done| |].
    - intros wid' n' p [Hin|Hin]%elem_of_app Hnone Hp; [by eapply IH2|].
      apply list_elem_of_singleton in Hin. congruence.
    - intros n' p Hp Hall. apply IH3; [done|]. intros wid' Hin. apply Hall. set_solver. }
  split_and!.
  - apply Forall2_same_length_lookup_2; [rewrite length_alter; by eapply Forall2_length|].
    intros i x y Hx Hy. destruct (decide (i = n)) as [->|Hne].
    + rewrite list_lookup_alter_eq in Hy. destruct (f !! n) as [z|] eqn:Hz; [|done].
      injection Hy as <-. destruct (Forall2_lookup_lr _ _ _ _ _ _ IH1 Hx Hz) as [-> | ->]; by right.
    + rewrite list_lookup_alter_ne in Hy by done. by eapply (Forall2_lookup_lr _ _ _ _ _ _ IH1).
  - intros wid' n' p Hin Hnone Hp. destruct (decide (n' = n)) as [->|Hne].
    + rewrite list_lookup_alter_eq.
      destruct (Forall2_lookup_l _ _ _ _ _ IH1 Hp) as (z & -> & _). by eexists.
    + rewrite list_lookup_alter_ne by done. eapply (IH2 wid' n' p); [|done|done].
      apply elem_of_app in Hin as [?|Hin]; [done|].
      apply list_elem_of_singleton in Hin. congruence.
  - intros n' p Hp Hall. destruct (decide (n' = n)) as [->|Hne].
    + destruct (Hall wid) as [? ?]; [set_solver|congruence].
    + rewrite list_lookup_alter_ne by done. apply IH3; [done|].
      intros wid' Hin. apply Hall. set_solver.
Qed.

Lemma cancel_missing_inv des s : inv s → inv (cancel_missing des s).
Proof.
  intros Hinv. apply inv_similar_procs; [done|].
  eapply Forall2_impl; [apply cancel_foldl|]. apply cancelled_similar.
Qed.

Lemma refresh_inv names order infos s :
  inv s → main s = MLoop → inv (refresh sch names order infos s).
Proof. intros. unfold refresh. apply cancel_missing_inv. by apply start_missing_inv. Qed.

(** ** Every action preserves the invariant *)

Lemma recv_inv s s' : inv s → main s ≠ MExited → recv s = Some s' → inv s'.
Proof.
  intros [] Hmain. unfold recv. destruct (stoppedWorker s) as [|wid rest] eqn:Hchan; [done|].
  assert (rest = []) as ->.
  { destruct rest; [done|]. simpl in inv_cap0. lia. }
  destruct (inv_chan0 wid) as (n0 & p0 & Hn0 & Hp0 & Hdone); [left|].
  intros [= <-]. split; simpl; try assumption.
  - intros wid' n [Hne Hn]%lookup_delete_Some.
    destruct (inv_workers0 wid' n Hn) as (p & Hp & Hpid & Hd). exists p.
    split_and!; [done..|]. intros Hpc%Hd%list_elem_of_singleton. congruence.
  - intros n p Hp Hnd. pose proof (inv_live0 n p Hp Hnd) as Hl.
    rewrite lookup_delete_ne; [done|]. intros ->. rewrite Hn0 in Hl. simplify_eq.
  - by intros wid' ?%elem_of_nil.
  - lia.
  - rewrite map_size_delete_Some by (by eexists).
    assert (size (workers s) ≠ 0); [|lia].
    intros H0%map_size_empty_iff. rewrite H0, lookup_empty in Hn0. done.
  - done.
Qed.

Lemma on_collect_emissions w c res e :
  e ∈ omap emission (on_collect int_overflow w c res).2 → InstanceGUID e = wInstanceGUID (id w).
Proof.
  destruct res as [ms|err|p]; simpl; [|case_decide; set_solver|set_solver].
  rewrite omap_app, omap_emission_envelopes. simpl. rewrite app_nil_r.
  by intros (m & -> & _)%list_elem_of_fmap.
Qed.

(** Two live positions of the same goroutine. *)
Ltac solve_similar H :=
  unfold similar, coll_ok; cbn; rewrite ?H;
  split; [reflexivity|split; [by split|intros; congruence]].

Lemma exec_worker_inv l n p s s' :
  inv s → procs s !! n = Some p → exec_worker int_overflow l n p s = Some s' → inv s'.
Proof.
  intros Hinv Hp Hex. pose proof (inv_procs s Hinv n p Hp) as [Hcoll Hwf].
  unfold exec_worker in Hex. unfold coll_ok in Hcoll.
  destruct l, (p_pc p) as [|c t|c| | |] eqn:Hpc; try discriminate Hex.
  - destruct res; simplify_eq; (eapply inv_update; [done|done|]); solve_similar Hpc.
  - simplify_eq. eapply inv_update; [done|done|]. solve_similar Hpc.
  - case_match; simplify_eq. eapply inv_update; [done|done|]. solve_similar Hpc.
  - assert (∃ next acts, on_collect int_overflow (p_worker p) c res = (next, acts) ∧
      s' = add_emitted (omap emission acts) (update n (set_pc
        match next with Some c' => WLoop c' (reset_ns acts) | None => WClosing end p) s))
      as (next & acts & Hon & ->).
    { destruct res; [..|discriminate Hex];
        (destruct (on_collect int_overflow (p_worker p) c _) as [next acts] in Hex |- *;
         injection Hex as <-; by eexists _, _). }
    apply inv_similar; [done|eapply similar_update; [done|]|].
    + destruct next; solve_similar Hpc.
    + intros e He. exists p. split; [by eapply list_elem_of_lookup_2|].
      apply (on_collect_emissions (p_worker p) c res). by rewrite Hon.
  - simplify_eq. eapply inv_update; [done|done|]. solve_similar Hpc.
  - case_decide as Hcap; [|done]. simplify_eq. destruct Hinv.
    assert (workers s !! pid p = Some n) as Hw by (apply inv_live0; congruence).
    assert (stoppedWorker s = []) as Hchan by (destruct (stoppedWorker s); simpl in *; [done|lia]).
    assert (n < length (procs s)) as Hlt by (by eapply lookup_lt_Some).
    split; simpl; try assumption; rewrite Hchan in *; simpl.
    + intros wid m Hm. destruct (inv_workers0 wid m Hm) as (q & Hq & Hqid & Hd).
      destruct (decide (m = n)) as [->|Hne].
      * simplify_eq. rewrite list_lookup_insert_eq by done. eexists. split; [done|]. set_solver.
      * rewrite list_lookup_insert_ne by done. exists q. split_and!; [done..|]. set_solver.
    + intros m q Hq Hnd. apply list_lookup_insert_Some in Hq as [(<- & <- & _)|[_ Hq]]; [done|].
      by apply inv_live0.
    + intros wid ->%list_elem_of_singleton. exists n. eexists. split; [done|].
      by rewrite list_lookup_insert_eq.
    + lia.
    + intros m q Hq. apply list_lookup_insert_Some in Hq as [(<- & <- & _)|[_ Hq]];
        [|by apply (inv_procs0 m)]. split; [|done]. unfold coll_ok. simpl. done.
    + intros e He. destruct (inv_emitted0 e He) as (q & Hq & Heq).
      apply list_elem_of_lookup in Hq as [m Hm].
      destruct (decide (m = n)) as [->|Hne].
      * simplify_eq. eexists. split; [eapply list_elem_of_lookup_2; by apply list_lookup_insert_eq|].
        done.
      * exists q. split; [|done]. apply (list_elem_of_lookup_2 _ m).
        by rewrite list_lookup_insert_ne.
Qed.

Lemma exec_inv l s s' : inv s → exec sch int_overflow l s = Some s' → inv s'.
Proof.
  intros Hinv Hex. destruct l; cbn [exec] in Hex;
    try (apply bind_Some in Hex as (p & Hp & Hex); by eapply exec_worker_inv).
  - case_decide; [|done]. destruct res; [|by simplify_eq|done].
    case_decide; simplify_eq. by apply refresh_inv.
  - case_decide as Hm; [|done]. eapply recv_inv; [done| |done]. intros E. rewrite E in Hm. naive_solver.
  - case_decide as Hm; simplify_eq. destruct Hinv. by split.
  - case_decide as Hm; simplify_eq. destruct Hinv. split; simpl; try done. naive_solver.
  - case_decide as Hm; simplify_eq. by destruct Hinv.
  - case_decide as Hm; simplify_eq. destruct Hinv. split; simpl; try done; [naive_solver|].
    intros _. apply inv_ctx0. destruct Hm as [-> _]. done.
  - simplify_eq. destruct Hinv. by split.
  - case_decide as Hm; simplify_eq. by destruct Hinv.
Qed.

Lemma reachable_inv s : sched_reachable sch int_overflow s → inv s.
Proof.
  apply rtc_invariant; [apply inv_init|]. intros a b Ha [l Hl]. by eapply exec_inv.
Qed.

Lemma run_trace_rtc ls s s' :
  run_trace sch int_overflow ls s = Some s' → rtc (sched_step sch int_overflow) s s'.
Proof.
  revert s. unfold run_trace. induction ls as [|l ls IH]; intros s; simpl; [by intros [= ->]|].
  destruct (exec sch int_overflow l s) as [s1|] eqn:Hl.
  - intros Hs. eapply rtc_l; [by exists l|]. by apply IH.
  - intros Hs. exfalso. clear -Hs. induction ls; simpl in Hs; [done|auto].
Qed.

Lemma run_trace_cons l ls s :
  run_trace sch int_overflow (l :: ls) s =
  exec sch int_overflow l s ≫= run_trace sch int_overflow ls.
Proof.
  unfold run_trace. simpl. destruct (exec sch int_overflow l s); simpl; [done|].
  induction ls; simpl; auto.
Qed.
End inv.
