(* ===== verification/SchedulerProps.v ===== *)
(** * What the scheduler guarantees

    Safety (one worker per driver and instance, the wait group, clean exit), the
    effect of a refresh, the abstract registry it refines, termination of the
    shutdown, and two behaviours the code does not prevent. *)

From S2P Require Import Prelude GoStrings Utils Metrics BrokerInfo Collector Config Worker.
From S2P Require Import Scheduler SchedulerInv.
From stdpp Require Import options.

(** ** The refresh *)

Section refresh.
Context {W : Type} (sch : Scheduler W).
Context (names : list string) (order : list workerID) (infos : list InstanceInfo) (s : sys).
Context (Hinv : inv sch s) (Hmain : main s = MLoop).
Context (Horder : order ≡ₚ elements (dom (desiredWorkerIDs sch names infos))).

Local Abbreviation des := (desiredWorkerIDs sch names infos).
Local Abbreviation s' := (refresh sch names order infos s).
Local Abbreviation s1 := (start_missing sch des order s).

Lemma refresh_started : started sch des order s s1.
Proof using Horder. apply start_missing_started. rewrite Horder. apply NoDup_elements. Qed.

Lemma elem_of_order wid : wid ∈ order ↔ is_Some (des !! wid).
Proof using Horder. by rewrite Horder, elem_of_elements, elem_of_dom. Qed.

Lemma started_pid wid n p :
  workers s1 !! wid = Some n → procs s1 !! n = Some p → pid p = wid.
Proof using Hinv Hmain.
  intros Hn Hp. pose proof (start_missing_inv sch names infos order s Hinv Hmain) as Hi.
  destruct (inv_workers sch _ Hi wid n Hn) as (q & Hq & Hqid & _). congruence.
Qed.

(** A goroutine whose worker is desired is left alone by the cancellation. *)
Lemma refresh_untouched n p :
  procs s1 !! n = Some p → is_Some (des !! pid p) → procs s' !! n = Some p.
Proof using Hinv Hmain.
  intros Hp Hd. unfold refresh, cancel_missing; simpl.
  apply (proj2 (proj2 (cancel_foldl des (map_to_list (workers s1)) (procs s1)))); [done|].
  intros wid Hin%elem_of_map_to_list. by rewrite <-(started_pid wid n p).
Qed.

Lemma refresh_cancelled wid n p :
  workers s1 !! wid = Some n → procs s1 !! n = Some p → des !! wid = None →
  ∃ p', procs s' !! n = Some p' ∧ p_cancelled p' = true.
Proof.
  intros Hn Hp Hd. unfold refresh, cancel_missing; simpl.
  eapply (proj1 (proj2 (cancel_foldl des (map_to_list (workers s1)) (procs s1)))); [|done|done].
  by apply elem_of_map_to_list.
Qed.
End refresh.

(** ** Shutdown: a measure *)

Definition rank (p : proc) : nat :=
  match p_pc p with
  | WNew | WCollecting _ => 5
  | WLoop _ _ => 4
  | WClosing => 3
  | WSending => 2
  | WDone => 0
  end.

Definition work_left (s : sys) : nat :=
  sum_list_with rank (procs s) + length (stoppedWorker s) + (if decide (main s = MExited) then 0 else 1).

(** Actions that bring the shutdown forward, and the firing of a worker's timer,
    which sets it back by one. *)
Definition helpful (l : label) : bool :=
  match l with LTimer _ | LDrainTimeout | LStop | LStopReturn => false | _ => true end.
Definition is_timer (l : label) : bool := match l with LTimer _ => true | _ => false end.

Definition count (f : label → bool) (ls : list label) : nat := length (filter (λ l, f l = true) ls).

Lemma count_cons f l ls : count f (l :: ls) = (if f l then 1 else 0) + count f ls.
Proof. unfold count. rewrite filter_cons. destruct (f l); by case_decide. Qed.

Lemma sum_list_insert {A} (f : A → nat) (l : list A) n x y :
  l !! n = Some x → sum_list_with f (<[n := y]> l) + f x = sum_list_with f l + f y.
Proof.
  revert n. induction l as [|z l IH]; intros [|n]; simpl; [done..| |].
  - intros [= ->]. lia.
  - intros Hn. specialize (IH n Hn). lia.
Qed.

Section drain.
Context {W : Type} (sch : Scheduler W) (int_overflow : Z).
Local Abbreviation exec := (exec sch int_overflow).

Lemma rank_update s n p p' :
  procs s !! n = Some p →
  sum_list_with rank (procs (update n p' s)) + rank p = sum_list_with rank (procs s) + rank p'.
Proof. apply sum_list_insert. Qed.

Lemma exec_worker_measure l n p s s' :
  procs s !! n = Some p → exec_worker int_overflow l n p s = Some s' →
  main s' = main s ∧
  (if helpful l then S (work_left s') ≤ work_left s else work_left s' ≤ S (work_left s)).
Proof.
  intros Hp Hex. unfold exec_worker in Hex.
  assert (∀ p', rank p' < rank p →
    S (work_left (update n p' s)) ≤ work_left s) as Hless.
  { intros p' Hr. pose proof (rank_update s n p p' Hp). unfold work_left. simpl in *. lia. }
  destruct l, (p_pc p) as [|c t|c| | |] eqn:Hpc; try discriminate Hex; simpl.
  - destruct res; simplify_eq; (split; [done|]); apply Hless; unfold rank; simpl; rewrite Hpc; lia.
  - simplify_eq. split; [done|]. pose proof (rank_update s n p (set_pc (WCollecting c) p) Hp) as Hr.
    unfold rank at 2 4 in Hr. simpl in Hr. rewrite Hpc in Hr. unfold work_left. simpl in *. lia.
  - case_match; simplify_eq. split; [done|]. apply Hless. unfold rank; simpl; rewrite Hpc; lia.
  - destruct res as [ms|e|]; [..|discriminate Hex];
      (destruct (on_collect int_overflow (p_worker p) c _) as [next acts] in Hex;
       injection Hex as <-; split; [done|];
       apply (Hless (set_pc _ p)); unfold rank; simpl; rewrite Hpc; destruct next; lia).
  - simplify_eq. split; [done|]. apply Hless. unfold rank; simpl; rewrite Hpc; lia.
  - case_decide; simplify_eq. split; [done|].
    pose proof (rank_update s n p (set_pc WDone p) Hp) as Hr.
    unfold rank at 2 4 in Hr. simpl in Hr. rewrite Hpc in Hr.
    unfold work_left. simpl in *. rewrite length_app. simpl. lia.
Qed.

Lemma exec_measure l s s' :
  main s ≠ MLoop → exec l s = Some s' →
  main s' ≠ MLoop ∧
  (if helpful l then S (work_left s') ≤ work_left s
   else work_left s' ≤ (if is_timer l then 1 else 0) + work_left s).
Proof.
  intros Hm Hex. destruct l; cbn [Scheduler.exec] in Hex;
    try (apply bind_Some in Hex as (p & Hp & Hex);
         destruct (exec_worker_measure _ _ _ _ _ Hp Hex) as [-> Hw]; by split).
  - by rewrite decide_False in Hex.
  - case_decide; [|done]. unfold recv in Hex.
    destruct (stoppedWorker s) as [|wid rest] eqn:Hc; simplify_eq. split; [done|].
    unfold work_left. simpl. rewrite Hc. simpl. lia.
  - by rewrite decide_False in Hex.
  - rewrite decide_False in Hex by naive_solver. done.
  - case_decide; simplify_eq. split; [done|unfold work_left; simpl; lia].
  - case_decide as Hd; simplify_eq. split; [done|]. destruct Hd as [Hd _].
    unfold work_left; simpl. rewrite Hd. rewrite decide_False by done. simpl. lia.
  - simplify_eq. split; [done|unfold work_left; simpl; lia].
  - case_decide; simplify_eq. split; [done|unfold work_left; simpl; lia].
Qed.

(** While draining, some helpful action is enabled, with whatever the pending
    calls of [NewCollector] and [Collect] return. *)
Lemma drain_progress (new : nat → outcome unit) (coll : nat → outcome (list Metric)) s :
  inv sch s → main s = MDrain →
  (∀ n p, new n ≠ Panic p) → (∀ n p, coll n ≠ Panic p) →
  ∃ l s', helpful l = true ∧ exec l s = Some s' ∧
    (∀ n r, l = LNew n r → r = new n) ∧ (∀ n r, l = LCollect n r → r = coll n).
Proof.
  intros Hinv Hmain Hnew Hcoll.
  assert (ctx_cancelled s = true) as Hctx by (apply (inv_ctx sch s Hinv); by rewrite Hmain).
  destruct (decide (workers s = ∅)) as [Hempty|Hne].
  { exists LExit. eexists. split; [done|]. split; [cbn [Scheduler.exec]; by rewrite decide_True|done]. }
  assert (stoppedWorker s ≠ [] → ∃ l s', helpful l = true ∧ exec l s = Some s' ∧
    (∀ n r, l = LNew n r → r = new n) ∧ (∀ n r, l = LCollect n r → r = coll n)) as Hrecv.
  { intros Hc. destruct (stoppedWorker s) as [|wid rest] eqn:E; [done|].
    exists LRecv. eexists. split; [done|]. split; [|done].
    cbn [Scheduler.exec]. rewrite decide_True by auto. unfold recv. by rewrite E. }
  destruct (map_choose _ Hne) as (wid & n & Hn).
  destruct (inv_workers sch s Hinv wid n Hn) as (p & Hp & _ & Hdone).
  destruct (p_pc p) as [|c t|c| | |] eqn:Hpc.
  - exists (LNew n (new n)). destruct (new n) as [[]|e|q] eqn:E; [..|by destruct (Hnew n q)];
      (eexists; split; [done|]; split;
       [cbn [Scheduler.exec]; rewrite Hp; simpl; rewrite Hpc; done|naive_solver]).
  - exists (LDone n). eexists. split; [done|]. split; [|done].
    cbn [Scheduler.exec]. rewrite Hp. simpl. rewrite Hpc, Hctx, orb_true_r. done.
  - assert (is_Some (exec (LCollect n (coll n)) s)) as [s1 Hs1].
    { cbn [Scheduler.exec]. rewrite Hp. cbn [mbind option_bind]. unfold exec_worker. rewrite Hpc.
      destruct (coll n) as [ms|e|q] eqn:E; [..|by destruct (Hcoll n q)];
        (destruct (on_collect int_overflow (p_worker p) c _) as [next acts]; eauto). }
    exists (LCollect n (coll n)), s1. naive_solver.
  - exists (LClose n). eexists. split; [done|]. split; [|done].
    cbn [Scheduler.exec]. rewrite Hp. simpl. by rewrite Hpc.
  - destruct (stoppedWorker s) as [|wid' rest] eqn:Hc; [|by apply Hrecv].
    exists (LSend n). eexists. split; [done|]. split; [|done].
    cbn [Scheduler.exec]. rewrite Hp. simpl. rewrite Hpc, Hc. done.
  - apply Hrecv. intros Hc. specialize (Hdone eq_refl). rewrite Hc in Hdone.
    by apply elem_of_nil in Hdone.
Qed.

(** ** Frame: an action of another goroutine leaves this one where it is *)

Definition label_proc (l : label) : option nat :=
  match l with
  | LNew n _ | LTimer n | LDone n | LCollect n _ | LClose n | LSend n => Some n
  | _ => None
  end.

Lemma exec_worker_frame l m q s s' n p :
  procs s !! n = Some p → n ≠ m → exec_worker int_overflow l m q s = Some s' →
  procs s' !! n = Some p.
Proof.
  intros Hp Hne Hex.
  assert (∀ q', procs (update m q' s) !! n = Some p) as Hupd
    by (intros q'; simpl; by rewrite list_lookup_insert_ne).
  unfold exec_worker in Hex. destruct l, (p_pc q); try discriminate Hex;
    repeat case_match; simplify_eq/=; apply Hupd || (by rewrite list_lookup_insert_ne).
Qed.

Lemma exec_frame l s s' n p :
  inv sch s → exec l s = Some s' → label_proc l ≠ Some n → procs s !! n = Some p →
  ∃ p', procs s' !! n = Some p' ∧ p_pc p' = p_pc p ∧ p_worker p' = p_worker p.
Proof.
  intros Hinv Hex Hl Hp. destruct l; cbn [Scheduler.exec] in Hex;
    try (apply bind_Some in Hex as (q & Hq & Hex); exists p; split; [|done];
         eapply exec_worker_frame; [done| |done]; simpl in Hl; congruence).
  - case_decide; [|done]. destruct res as [infos| |]; [|simplify_eq; eauto|done].
    case_decide as Hd; [|done]. simplify_eq. destruct Hd as [_ Horder].
    pose proof (st_old _ _ _ _ _ (refresh_started sch names order infos s Horder) n p Hp) as Hp1.
    destruct (Forall2_lookup_l _ _ _ _ _
      (proj1 (cancel_foldl (desiredWorkerIDs sch names infos)
        (map_to_list (workers (start_missing sch (desiredWorkerIDs sch names infos) order s)))
        (procs (start_missing sch (desiredWorkerIDs sch names infos) order s)))) Hp1)
      as (p' & Hp' & [-> | ->]); eexists; (split; [exact Hp'|done]).
  - case_decide; [|done]. unfold recv in Hex. case_match; simplify_eq. eauto.
  - case_decide; simplify_eq; eauto.
  - case_decide; simplify_eq; eauto.
  - case_decide; simplify_eq; eauto.
  - case_decide; simplify_eq; eauto.
  - simplify_eq; eauto.
  - case_decide; simplify_eq; eauto.
Qed.
End drain.

(** ** The specification side *)

(** The driver of [wid] supports the engine of the listed instance [i], and
    [wid] is about that instance. *)
Definition serves {W} (sch : Scheduler W) (wid : workerID) (i : InstanceInfo) : Prop :=
  ∃ d, metricsCollectorDrivers sch !! Driver wid = Some d ∧
       Type_ i ∈ SupportedTypes d ∧ GUID i = wInstanceGUID wid.

(** The registry of workers as its users see it: a refresh adds the workers the
    listed instances call for, a worker that stopped is removed, nothing else
    happens. *)
Inductive registry_step {W} (sch : Scheduler W) : gset workerID → gset workerID → Prop :=
  | registry_stay R : registry_step sch R R
  | registry_refresh R D (infos : list InstanceInfo) :
      (∀ wid, wid ∈ D ↔ ∃ i, i ∈ infos ∧ serves sch wid i) → registry_step sch R (R ∪ D)
  | registry_remove R wid : wid ∈ R → registry_step sch R (R ∖ {[wid]}).

Section spec_lemmas.
Context {W : Type} (sch : Scheduler W) (int_overflow : Z).
Local Abbreviation drivers := (metricsCollectorDrivers sch).

Lemma wanted_serves names wid i :
  names ≡ₚ elements (dom drivers) → wanted sch names wid i ↔ serves sch wid i.
Proof.
  intros Hnames. unfold wanted, serves. rewrite Hnames, elem_of_elements, elem_of_dom.
  destruct (drivers !! Driver wid) as [d|]; simpl; [|naive_solver].
  rewrite SliceContainsString_spec. naive_solver.
Qed.

Lemma desired_serves names infos wid :
  names ≡ₚ elements (dom drivers) →
  is_Some (desiredWorkerIDs sch names infos !! wid) ↔ ∃ i, i ∈ infos ∧ serves sch wid i.
Proof.
  intros Hnames. rewrite desired_is_Some. by setoid_rewrite (wanted_serves names) at 1.
Qed.

Lemma refresh_dom names order infos s wid :
  order ≡ₚ elements (dom (desiredWorkerIDs sch names infos)) →
  is_Some (workers (refresh sch names order infos s) !! wid) ↔
  is_Some (workers s !! wid) ∨ is_Some (desiredWorkerIDs sch names infos !! wid).
Proof.
  intros Horder. pose proof (refresh_started sch names order infos s Horder) as [].
  change (workers (refresh sch names order infos s))
    with (workers (start_missing sch (desiredWorkerIDs sch names infos) order s)).
  destruct (workers s !! wid) as [n|] eqn:Hw.
  - rewrite (st_kept wid n Hw). naive_solver eauto.
  - specialize (st_new wid Hw).
    pose proof (elem_of_order sch names order infos Horder wid) as Hin.
    destruct (desiredWorkerIDs sch names infos !! wid) as [info|] eqn:Hd.
    + rewrite decide_True in st_new by (apply Hin; eauto).
      destruct st_new as (n & -> & _). naive_solver eauto.
    + assert (workers (start_missing sch (desiredWorkerIDs sch names infos) order s) !! wid = None)
        as -> by (revert st_new; by case_decide).
      naive_solver eauto.
Qed.

(** A missing worker that is called for gets a fresh goroutine. *)
Lemma refresh_new names order infos s wid :
  inv sch s → main s = MLoop →
  names ≡ₚ elements (dom drivers) → order ≡ₚ elements (dom (desiredWorkerIDs sch names infos)) →
  workers s !! wid = None → (∃ i, i ∈ infos ∧ serves sch wid i) →
  ∃ n info, info ∈ infos ∧ serves sch wid info ∧
    workers (refresh sch names order infos s) !! wid = Some n ∧ length (procs s) ≤ n ∧
    procs (refresh sch names order infos s) !! n = Some (fresh_proc sch wid info).
Proof.
  intros Hinv Hm Hnames Horder Hnone Hsv. apply (desired_serves names) in Hsv; [|done].
  pose proof (refresh_started sch names order infos s Horder) as Hst.
  pose proof (st_new _ _ _ _ _ Hst wid Hnone) as Hnew.
  rewrite decide_True in Hnew by (by apply (elem_of_order sch names order infos Horder)).
  destruct Hsv as [info Hinfo]. rewrite Hinfo in Hnew. destruct Hnew as (n & Hn & Hlen & Hp).
  pose proof (desired_Some_wanted _ _ _ _ _ Hinfo) as [Hi Hw]. exists n, info.
  rewrite (wanted_serves names) in Hw by done. split_and!; try done.
  apply refresh_untouched; [done|done|done|]. unfold pid; simpl. eauto.
Qed.

Lemma exec_worker_workers l n p s s' :
  exec_worker int_overflow l n p s = Some s' → workers s' = workers s.
Proof.
  unfold exec_worker. intros Hex. destruct l, (p_pc p); try discriminate Hex;
    repeat case_match; by simplify_eq/=.
Qed.
End spec_lemmas.

(** A scheduler with two drivers, for concrete runs. *)
Definition sample_driver (name : string) (types : list string) (interval : Z)
  : MetricsCollectorDriver unit :=
  mkDriver (λ _ w, (Err "unused", w)) name types interval.
Definition sample_config : SchedulerConfig := mkSchedulerConfig 120 None None (Some 1%Z) 180 300.
Definition sample_sched : Scheduler unit :=
  WithDriver (NewScheduler sample_config)
    [sample_driver "postgres" ["postgres"] 180; sample_driver "cloudwatch" ["postgres"; "mysql"] 300].
Definition sample_pg : InstanceInfo := mkInstanceInfo "guid" "postgres".
Definition sample_names : list string := ["cloudwatch"; "postgres"].
Definition sample_order : list workerID :=
  [mkWorkerID "postgres" "guid"; mkWorkerID "cloudwatch" "guid"].
Definition sample_start : label := LRefresh (Ok [sample_pg]) sample_names sample_order.
Definition sample_metric : Metric := mkMetric "connections" 0 float64_zero "conn" ∅.

(** ** Properties *)

(** C1: at most one worker per driver and instance.  In every reachable state, two
    worker goroutines that have not finished and have the same driver and
    instance are the same goroutine, and every such goroutine is the one
    registered under its identifier. *)
Theorem one_worker_per_instance {W} (sch : Scheduler W) int_overflow s :
  sched_reachable sch int_overflow s →
  (∀ n p, procs s !! n = Some p → p_pc p ≠ WDone → workers s !! pid p = Some n) ∧
  (∀ n1 n2 p1 p2, procs s !! n1 = Some p1 → procs s !! n2 = Some p2 →
     p_pc p1 ≠ WDone → p_pc p2 ≠ WDone → pid p1 = pid p2 → n1 = n2).
Proof.
  intros Hr%reachable_inv. destruct Hr. split; [done|].
  intros n1 n2 p1 p2 H1 H2 Hd1 Hd2 Heq.
  pose proof (inv_live n1 p1 H1 Hd1). pose proof (inv_live n2 p2 H2 Hd2). congruence.
Qed.

Lemma one_worker_per_instance_witness :
  ∃ s, run_trace sample_sched 0 [sample_start; LNew 0 (Ok tt); sample_start] sys_init = Some s ∧
    length (procs s) = 2 ∧
    ∀ n1 n2 p1 p2, procs s !! n1 = Some p1 → procs s !! n2 = Some p2 →
     p_pc p1 ≠ WDone → p_pc p2 ≠ WDone → pid p1 = pid p2 → n1 = n2.
Proof.
  eexists. split; [vm_compute; reflexivity|]. split; [reflexivity|].
  apply (one_worker_per_instance sample_sched 0).
  apply (run_trace_rtc sample_sched 0 [sample_start; LNew 0 (Ok tt); sample_start]).
  vm_compute. reflexivity.
Defined.

(** C2: the effect of a refresh.  After the broker has listed [infos], in any
    iteration order of the maps: the registered workers are the former ones and
    those some listed instance calls for; a worker that was missing has a fresh
    goroutine for the last listed instance that calls for it; a registered worker
    that is still called for keeps its goroutine as it is; and one that is not
    has its context cancelled.  A failing broker call changes nothing. *)
Theorem refresh_spec {W} (sch : Scheduler W) int_overflow s names order res s' :
  sched_reachable sch int_overflow s →
  exec sch int_overflow (LRefresh res names order) s = Some s' →
  match res with
  | Ok infos =>
      (∀ wid, is_Some (workers s' !! wid) ↔
         is_Some (workers s !! wid) ∨ ∃ i, i ∈ infos ∧ serves sch wid i) ∧
      (∀ wid, workers s !! wid = None → (∃ i, i ∈ infos ∧ serves sch wid i) →
         ∃ n info, info ∈ infos ∧ serves sch wid info ∧ workers s' !! wid = Some n ∧
           length (procs s) ≤ n ∧ procs s' !! n = Some (fresh_proc sch wid info)) ∧
      (∀ wid n p, workers s !! wid = Some n → procs s !! n = Some p →
         workers s' !! wid = Some n ∧
         ((∃ i, i ∈ infos ∧ serves sch wid i) → procs s' !! n = Some p) ∧
         (¬ (∃ i, i ∈ infos ∧ serves sch wid i) →
            ∃ p', procs s' !! n = Some p' ∧ p_cancelled p' = true))
  | _ => s' = s
  end.
Proof.
  intros Hr%reachable_inv Hex. cbn [exec] in Hex. case_decide as Hm; [|done].
  destruct res as [infos|e|q]; [|by simplify_eq|done].
  case_decide as Hd; [|done]. destruct Hd as [Hnames Horder]. injection Hex as <-.
  pose proof (refresh_started sch names order infos s Horder) as Hst.
  split_and!.
  - intros wid. rewrite refresh_dom by done. by rewrite (desired_serves sch names).
  - intros wid Hnone Hsv. by apply refresh_new.
  - intros wid n p Hn Hp.
    pose proof (st_kept _ _ _ _ _ Hst wid n Hn) as Hn1.
    pose proof (st_old _ _ _ _ _ Hst n p Hp) as Hp1.
    assert (pid p = wid) as Hpid by (by eapply started_pid).
    split_and!; [done| |].
    + intros Hsv. apply (desired_serves sch names) in Hsv; [|done].
      apply refresh_untouched; [done..|]. by rewrite Hpid.
    + intros Hno. eapply refresh_cancelled; [done|done|].
      apply eq_None_not_Some. by rewrite (desired_serves sch names).
Qed.

Lemma refresh_spec_witness :
  ∃ s s1 s2, run_trace sample_sched 0 [sample_start] sys_init = Some s ∧
    exec sample_sched 0 (LRefresh (Ok []) sample_names []) s = Some s1 ∧
    (∀ wid, is_Some (workers s1 !! wid) ↔
       is_Some (workers s !! wid) ∨ ∃ i, i ∈ [] ∧ serves sample_sched wid i) ∧
    exec sample_sched 0 (LRefresh (Err "throttled") [] []) s = Some s2 ∧ s2 = s.
Proof.
  eexists _, _, _. split; [vm_compute; reflexivity|]. split; [vm_compute; reflexivity|]. split.
  - eapply (refresh_spec sample_sched 0 _ sample_names [] (Ok [])); [|vm_compute; reflexivity].
    apply (run_trace_rtc sample_sched 0 [sample_start]). vm_compute. reflexivity.
  - split; [reflexivity|reflexivity].
Defined.

(** C15: the wait group counts the registered workers.  In every reachable state the
    counter of [workersRunning] is the number of entries of [s.workers]: it never
    goes negative, which would panic, and [Stop] returns only at a moment when no
    worker goroutine is running. *)
Theorem wait_group_counts_workers {W} (sch : Scheduler W) int_overflow s :
  sched_reachable sch int_overflow s →
  workersRunning s = Z.of_nat (size (workers s)) ∧
  (∀ s', exec sch int_overflow LStopReturn s = Some s' →
     ∀ p, p ∈ procs s → p_pc p = WDone).
Proof.
  intros Hr%reachable_inv. destruct Hr. split; [done|].
  cbn [exec]. case_decide as Hd; [|done]. destruct Hd as [_ H0]. intros s' _ p Hp.
  apply list_elem_of_lookup in Hp as [n Hn].
  destruct (decide (p_pc p = WDone)) as [|Hnd]; [done|].
  pose proof (inv_live n p Hn Hnd) as Hl. exfalso.
  assert (workers s = ∅) as He by (apply map_size_empty_iff; lia).
  by rewrite He, lookup_empty in Hl.
Qed.

Lemma wait_group_counts_workers_witness :
  ∃ s, run_trace sample_sched 0 [sample_start; LNew 0 (Err "down"); LSend 0; LRecv] sys_init = Some s ∧
    workersRunning s = Z.of_nat (size (workers s)).
Proof.
  eexists. split; [vm_compute; reflexivity|]. apply (wait_group_counts_workers sample_sched 0).
  apply (run_trace_rtc sample_sched 0 [sample_start; LNew 0 (Err "down"); LSend 0; LRecv]).
  vm_compute. reflexivity.
Defined.

(** C4: a clean exit.  When the scheduler's [Run] has returned, every worker
    goroutine has finished and has closed the collector it had opened, no stop
    message is left in the channel, and the wait group is at zero. *)
Theorem exit_is_clean {W} (sch : Scheduler W) int_overflow s :
  sched_reachable sch int_overflow s → main s = MExited →
  workers s = ∅ ∧ workersRunning s = 0%Z ∧ stoppedWorker s = [] ∧
  ∀ p, p ∈ procs s → p_pc p = WDone ∧ p_coll p ≠ Opened.
Proof.
  intros Hr%reachable_inv Hm. pose proof (inv_main sch s Hr Hm) as He. destruct Hr.
  split_and!; [done| | |].
  - rewrite inv_wg, He. done.
  - destruct (stoppedWorker s) as [|wid l]; [done|].
    destruct (inv_chan wid) as (n & p & Hn & _); [left|]. by rewrite He, lookup_empty in Hn.
  - intros p [n Hn]%list_elem_of_lookup.
    assert (p_pc p = WDone) as Hd.
    { destruct (decide (p_pc p = WDone)) as [|Hnd]; [done|].
      pose proof (inv_live n p Hn Hnd) as Hl. by rewrite He, lookup_empty in Hl. }
    destruct (inv_procs n p Hn) as [Hc _]. unfold coll_ok in Hc. rewrite Hd in Hc. done.
Qed.

(** A run with one worker that collects once and is then stopped by a signal. *)
Definition sample_run : list label :=
  [ sample_start; LNew 0 (Ok tt); LTimer 0; LCollect 0 (Ok [sample_metric]); LNew 1 (Err "denied");
    LSend 1; LRecv; LSignal; LDone 0; LClose 0; LSend 0; LRecv; LExit ].

Lemma exit_is_clean_witness :
  ∃ s, run_trace sample_sched 0 sample_run sys_init = Some s ∧
    emitted s = [mkEnvelope "guid" sample_metric] ∧
    workers s = ∅ ∧ workersRunning s = 0%Z ∧ stoppedWorker s = [] ∧
    ∀ p, p ∈ procs s → p_pc p = WDone ∧ p_coll p ≠ Opened.
Proof.
  eexists. split; [vm_compute; reflexivity|]. split; [reflexivity|].
  apply (exit_is_clean sample_sched 0); [|reflexivity].
  apply (run_trace_rtc sample_sched 0 sample_run). vm_compute. reflexivity.
Defined.

(** A label an environment with these pending answers can produce. *)
Definition answers (new : nat → outcome unit) (coll : nat → outcome (list Metric)) (l : label) : Prop :=
  match l with LNew n r => r = new n | LCollect n r => r = coll n | _ => True end.

Lemma drain_run {W} (sch : Scheduler W) int_overflow new coll (k : nat) s :
  work_left s ≤ k → inv sch s → main s = MDrain →
  (∀ n p, new n ≠ Panic p) → (∀ n p, coll n ≠ Panic p) →
  ∃ ls s', Forall (answers new coll) ls ∧ length ls ≤ k ∧
    run_trace sch int_overflow ls s = Some s' ∧ main s' = MExited.
Proof.
  revert s. induction k as [|k IH]; intros s Hk Hinv Hm Hnew Hcoll.
  { unfold work_left in Hk. rewrite Hm, decide_False in Hk by done. lia. }
  destruct (drain_progress sch int_overflow new coll s Hinv Hm Hnew Hcoll)
    as (l & s1 & Hl & Hex & Hn & Hc).
  assert (answers new coll l) as Ha by (destruct l; simpl; eauto).
  destruct (exec_measure sch int_overflow l s s1) as [Hm1 Hw]; [by rewrite Hm|done|].
  rewrite Hl in Hw. destruct (main s1) eqn:E; [done| |].
  - destruct (IH s1) as (ls & s' & Hall & Hlen & Hrun & Hex'); [lia| |done..|].
    { by eapply exec_inv. }
    exists (l :: ls), s'. rewrite run_trace_cons, Hex. simpl.
    split_and!; [by constructor|lia|done|done].
  - exists [l], s1. rewrite run_trace_cons, Hex. simpl. split_and!; [by constructor|lia|done|done].
Qed.

(** C5: shutdown is always possible.  From every reachable state in which the main
    loop has returned and its deferred drain is running, whatever each pending
    [NewCollector] and [Collect] call answers (anything but a panic), some run of
    at most [work_left] actions that uses just these answers ends with [Run]
    returning: there is no deadlock on the one-place channel, no worker that
    cannot be stopped. *)
Theorem drain_exits {W} (sch : Scheduler W) int_overflow s
    (new : nat → outcome unit) (coll : nat → outcome (list Metric)) :
  sched_reachable sch int_overflow s → main s = MDrain →
  (∀ n p, new n ≠ Panic p) → (∀ n p, coll n ≠ Panic p) →
  ∃ ls s', Forall (answers new coll) ls ∧ length ls ≤ work_left s ∧
    run_trace sch int_overflow ls s = Some s' ∧ main s' = MExited.
Proof. intros Hr%reachable_inv. by apply drain_run. Qed.

(** Both workers of the sample are alive, one inside [Collect], at the signal. *)
Definition sample_drain : list label :=
  [ sample_start; LNew 0 (Ok tt); LTimer 0; LSignal ].

Lemma drain_exits_witness :
  ∃ s, run_trace sample_sched 0 sample_drain sys_init = Some s ∧
    ∃ ls s', Forall (answers (λ _, Err "denied") (λ _, Err "timeout")) ls ∧ length ls ≤ work_left s ∧
      run_trace sample_sched 0 ls s = Some s' ∧ main s' = MExited.
Proof.
  eexists. split; [vm_compute; reflexivity|].
  apply (drain_exits sample_sched 0); [|reflexivity|discriminate|discriminate].
  apply (run_trace_rtc sample_sched 0 sample_drain). vm_compute. reflexivity.
Defined.

(** The work left, with the drain's own timer, which fires at most once. *)
Definition drain_measure (s : sys) : nat :=
  work_left s + (if drain_timed_out s then 0 else 1).

(** The actions of goroutines that call [Stop]. *)
Definition is_stop (l : label) : bool := match l with LStop | LStopReturn => true | _ => false end.

Lemma exec_drain_measure {W} (sch : Scheduler W) int_overflow l s s' :
  main s ≠ MLoop → exec sch int_overflow l s = Some s' →
  S (drain_measure s') ≤
    drain_measure s + (if is_timer l then 2 else 0) + (if is_stop l then 1 else 0).
Proof.
  intros Hm Hex. destruct (exec_measure sch int_overflow l s s' Hm Hex) as [_ Hw].
  assert (l = LDrainTimeout ∧ drain_timed_out s = false ∧ drain_timed_out s' = true ∨
          l ≠ LDrainTimeout ∧ drain_timed_out s' = drain_timed_out s) as [(-> & H1 & H2)|[Hl Hd]].
  { destruct l; cbn [exec] in Hex;
      try (apply bind_Some in Hex as (p & _ & Hex); unfold exec_worker in Hex);
      try unfold recv in Hex; repeat case_match; simplify_eq/=; (congruence || naive_solver). }
  - unfold drain_measure. rewrite H1, H2. simpl in *. lia.
  - unfold drain_measure. rewrite Hd. destruct l; simpl in *; (done || lia).
Qed.

(** C16: the drain ends unless timers keep firing.  Once the main loop has returned,
    every run of the scheduler, in any interleaving and with any answers, has at
    most [drain_measure] actions, not counting the calls of [Stop], and with two
    more for each time a worker's [select] takes its timer although its context is
    cancelled (the firing and the collection that follows); it never goes back to
    the loop; and as long as [Run] has not returned, some goroutine has an action
    other than a timer to perform.  So a run in which the workers notice the
    cancelled context stops after a bounded number of actions, and [Run] has
    returned then. *)
Theorem drain_bounded {W} (sch : Scheduler W) int_overflow s ls s' :
  sched_reachable sch int_overflow s → main s ≠ MLoop →
  run_trace sch int_overflow ls s = Some s' →
  main s' ≠ MLoop ∧
  length ls ≤ drain_measure s + 2 * count is_timer ls + count is_stop ls ∧
  (main s' = MExited ∨ ∃ l s2, helpful l = true ∧ exec sch int_overflow l s' = Some s2).
Proof.
  intros Hr%reachable_inv. revert s Hr. induction ls as [|l ls IH]; intros s Hinv Hm.
  - intros [= <-]. split; [done|]. split; [unfold count; simpl; lia|].
    destruct (main s) eqn:E; [done|right|by left].
    destruct (drain_progress sch int_overflow (λ _, Err "") (λ _, Err "") s Hinv E)
      as (l & s2 & Hl & Hex & _); [done|done|eauto].
  - rewrite run_trace_cons. intros (s1 & Hl & Hls)%bind_Some.
    pose proof (exec_drain_measure sch int_overflow l s s1 Hm Hl) as Hw.
    destruct (exec_measure sch int_overflow l s s1 Hm Hl) as [Hm1 _].
    destruct (IH s1 (exec_inv sch int_overflow l s s1 Hinv Hl) Hm1 Hls) as (Hm' & Hb & Hend).
    split_and!; [done| |done]. rewrite !count_cons. simpl.
    destruct (is_timer l), (is_stop l); lia.
Qed.

Lemma drain_bounded_witness :
  let ls := [LCollect 0 (Err "timeout"); LTimer 0; LCollect 0 (Ok [])] in
  ∃ s s', run_trace sample_sched 0 sample_drain sys_init = Some s ∧
    run_trace sample_sched 0 ls s = Some s' ∧
    main s' ≠ MLoop ∧ length ls ≤ drain_measure s + 2 * count is_timer ls + count is_stop ls ∧
    (main s' = MExited ∨ ∃ l s2, helpful l = true ∧ exec sample_sched 0 l s' = Some s2).
Proof.
  eexists _, _. split; [vm_compute; reflexivity|]. split; [vm_compute; reflexivity|].
  apply (drain_bounded sample_sched 0 _
    [LCollect 0 (Err "timeout"); LTimer 0; LCollect 0 (Ok [])]); [|discriminate|vm_compute; reflexivity].
  apply (run_trace_rtc sample_sched 0 sample_drain). vm_compute. reflexivity.
Defined.

Lemma trace_frame {W} (sch : Scheduler W) int_overflow ls s s' n p :
  inv sch s → run_trace sch int_overflow ls s = Some s' →
  Forall (λ l, label_proc l ≠ Some n) ls → procs s !! n = Some p →
  inv sch s' ∧ ∃ p', procs s' !! n = Some p' ∧ p_pc p' = p_pc p ∧ p_worker p' = p_worker p.
Proof.
  intros Hinv Hrun Hall. revert s p Hinv Hrun. induction Hall as [|l ls Hl Hall IH]; intros s p Hinv.
  { intros [= <-] Hp. eauto. }
  rewrite run_trace_cons. intros (s1 & Hex & Hrun)%bind_Some Hp.
  destruct (exec_frame sch int_overflow l s s1 n p Hinv Hex Hl Hp) as (p1 & Hp1 & Hpc1 & Hw1).
  assert (inv sch s1) as Hinv1 by (by eapply exec_inv).
  destruct (IH s1 p1 Hinv1 Hrun Hp1) as (Hinv' & p' & ? & ? & ?).
  split; [done|]. exists p'. split_and!; congruence.
Qed.

(** C39: the 30 s timeout of the drain does not bound the shutdown.  As long as one
    worker goroutine makes no step (a [Collect] or [Close] that hangs), no run,
    with the drain's timer firing or not, makes [Run] return, and [Stop] does not
    return either. *)
Theorem hung_worker_blocks_exit {W} (sch : Scheduler W) int_overflow s ls s' n p :
  sched_reachable sch int_overflow s → procs s !! n = Some p → p_pc p ≠ WDone →
  Forall (λ l, label_proc l ≠ Some n) ls → run_trace sch int_overflow ls s = Some s' →
  main s' ≠ MExited ∧ exec sch int_overflow LStopReturn s' = None.
Proof.
  intros Hr%reachable_inv Hp Hnd Hall Hrun.
  destruct (trace_frame sch int_overflow ls s s' n p Hr Hrun Hall Hp) as (Hinv & p' & Hp' & Hpc & _).
  assert (workers s' !! pid p' = Some n) as Hw by (apply (inv_live sch s' Hinv); congruence).
  split.
  - intros Hm. rewrite (inv_main sch s' Hinv Hm), lookup_empty in Hw. done.
  - cbn [exec]. rewrite decide_False; [done|]. intros [_ H0].
    rewrite (inv_wg sch s' Hinv) in H0.
    assert (workers s' = ∅) as He by (apply map_size_empty_iff; lia).
    by rewrite He, lookup_empty in Hw.
Qed.

Lemma hung_worker_blocks_exit_witness :
  ∃ s s', run_trace sample_sched 0 sample_drain sys_init = Some s ∧
    run_trace sample_sched 0 [LNew 1 (Err "denied"); LSend 1; LRecv; LDrainTimeout; LStop] s = Some s' ∧
    drain_timed_out s' = true ∧ stopping s' = true ∧
    main s' ≠ MExited ∧ exec sample_sched 0 LStopReturn s' = None.
Proof.
  eexists _, _. split; [vm_compute; reflexivity|]. split; [vm_compute; reflexivity|].
  do 2 (split; [reflexivity|]).
  eapply (hung_worker_blocks_exit sample_sched 0 _
    [LNew 1 (Err "denied"); LSend 1; LRecv; LDrainTimeout; LStop] _ 0).
  - apply (run_trace_rtc sample_sched 0 sample_drain). vm_compute. reflexivity.
  - reflexivity.
  - discriminate.
  - repeat constructor; discriminate.
  - vm_compute. reflexivity.
Defined.

(** What each action does to the registry. *)
Lemma exec_registry {W} (sch : Scheduler W) int_overflow l s s' :
  inv sch s → exec sch int_overflow l s = Some s' →
  match l with
  | LRefresh (Ok infos) _ _ =>
      ∃ D : gset workerID, (∀ wid, wid ∈ D ↔ ∃ i, i ∈ infos ∧ serves sch wid i) ∧
        dom (workers s') = dom (workers s) ∪ D
  | LRecv =>
      ∃ wid n p, workers s !! wid = Some n ∧ procs s' !! n = Some p ∧ pid p = wid ∧
        p_pc p = WDone ∧ workers s' = delete wid (workers s)
  | _ => workers s' = workers s
  end.
Proof.
  intros Hinv Hex. destruct l; cbn [exec] in Hex;
    try (apply bind_Some in Hex as (p & _ & Hex); by eapply exec_worker_workers);
    try (first [case_decide; by simplify_eq | by simplify_eq]).
  - case_decide; [|done]. destruct res as [infos| |]; [|by simplify_eq|done].
    case_decide as Hd; [|done]. destruct Hd as [Hnames Horder]. injection Hex as <-.
    exists (dom (desiredWorkerIDs sch names infos)). split.
    + intros wid. rewrite elem_of_dom. by apply desired_serves.
    + apply set_eq. intros wid. rewrite elem_of_union, !elem_of_dom. by apply refresh_dom.
  - case_decide; [|done]. unfold recv in Hex.
    destruct (stoppedWorker s) as [|wid rest] eqn:Hc; [done|]. injection Hex as <-.
    destruct (inv_chan sch s Hinv wid) as (n & p & Hn & Hp & Hd); [rewrite Hc; left|].
    destruct (inv_workers sch s Hinv wid n Hn) as (q & Hq & Hqid & _).
    exists wid, n, p. split_and!; [done|done|congruence|done|done].
Qed.




(** The instances logged when the drain takes long: those with a registered
    worker, each once. *)
Lemma ListIntanceGUIDs_spec s :
  NoDup (ListIntanceGUIDs s) ∧
  ∀ guid, guid ∈ ListIntanceGUIDs s ↔ ∃ wid n, workers s !! wid = Some n ∧ wInstanceGUID wid = guid.
Proof.
  unfold ListIntanceGUIDs. split; [apply NoDup_elements|]. intros guid.
  rewrite elem_of_elements, elem_of_map. setoid_rewrite elem_of_dom. unfold is_Some. naive_solver.
Qed.

(** ** Where emitted metrics come from *)

(** What one action of a run emits, [ps] being the goroutines. *)
Definition emission_of (ps : list proc) (l : label) : list MetricEnvelope :=
  match l with
  | LCollect n (Ok ms) => from_option (λ p, mkEnvelope (wInstanceGUID (pid p)) <$> ms) [] (ps !! n)
  | _ => []
  end.

(** The run [ls] contains a refresh that calls for [wid]. *)
Definition called_for {W} (sch : Scheduler W) (ls : list label) (wid : workerID) : Prop :=
  ∃ infos names order i, LRefresh (Ok infos) names order ∈ ls ∧ i ∈ infos ∧ serves sch wid i.

Section provenance.
Context {W : Type} (sch : Scheduler W) (int_overflow : Z).
Local Abbreviation exec := (exec sch int_overflow).

(** Goroutines keep their identity, and a new one is called for by [l]. *)
Definition procs_follow (l : label) (ps ps' : list proc) : Prop :=
  (∀ n p, ps !! n = Some p → ∃ p', ps' !! n = Some p' ∧ pid p' = pid p) ∧
  (∀ n p', ps' !! n = Some p' →
     (∃ p, ps !! n = Some p ∧ pid p = pid p') ∨ called_for sch [l] (pid p')).

Lemma procs_follow_refl l ps : procs_follow l ps ps.
Proof. split; eauto. Qed.

Lemma procs_follow_insert l ps n p p' :
  ps !! n = Some p → p_worker p' = p_worker p → procs_follow l ps (<[n := p']> ps).
Proof.
  intros Hn Hw. assert (pid p' = pid p) as Hid by (unfold pid; by rewrite Hw). split.
  - intros m q Hq. destruct (decide (m = n)) as [->|Hne].
    + rewrite list_lookup_insert_eq by (by eapply lookup_lt_Some). simplify_eq. eauto.
    + rewrite list_lookup_insert_ne by done. eauto.
  - intros m q Hq. left. apply list_lookup_insert_Some in Hq as [(<- & <- & _)|[_ Hq]]; eauto.
Qed.

Lemma start_missing_procs des order s n p :
  procs (start_missing sch des order s) !! n = Some p →
  procs s !! n = Some p ∨ is_Some (des !! pid p).
Proof.
  revert s. induction order as [|wid order IH]; intros s; [by left|].
  rewrite start_missing_cons. intros [Hp|?]%IH; [|by right].
  destruct (workers s !! wid); [by left|]. destruct (des !! wid) as [info|] eqn:Hd; [|by left].
  simpl in Hp. apply lookup_snoc_Some in Hp as [Hp|[_ ->]]; [by left|].
  right. unfold pid. simpl. eauto.
Qed.

Lemma refresh_follow infos names order s :
  names ≡ₚ elements (dom (metricsCollectorDrivers sch)) →
  order ≡ₚ elements (dom (desiredWorkerIDs sch names infos)) →
  procs_follow (LRefresh (Ok infos) names order) (procs s) (procs (refresh sch names order infos s)).
Proof.
  intros Hnames Horder. unfold refresh, cancel_missing. simpl.
  set (s1 := start_missing sch _ order s).
  destruct (cancel_foldl (desiredWorkerIDs sch names infos) (map_to_list (workers s1)) (procs s1))
    as [Hsim _]. split.
  - intros n p Hp.
    pose proof (st_old _ _ _ _ _ (refresh_started sch names order infos s Horder) n p Hp) as Hp1.
    destruct (Forall2_lookup_l _ _ _ _ _ Hsim Hp1) as (p' & Hp' & [-> | ->]); eauto.
  - intros n p' Hp'. destruct (Forall2_lookup_r _ _ _ _ _ Hsim Hp') as (p & Hp & Hc).
    assert (pid p = pid p') as Hid by (by destruct Hc as [-> | ->]).
    apply start_missing_procs in Hp as [Hp|Hd]; [left; eauto|right].
    rewrite Hid in Hd. apply (desired_serves sch names) in Hd as (i & Hi & Hs); [|done].
    exists infos, names, order, i. split; [left|done].
Qed.

Lemma exec_worker_emits l n p s s' :
  procs s !! n = Some p → exec_worker int_overflow l n p s = Some s' → label_proc l = Some n →
  procs_follow l (procs s) (procs s') ∧ emitted s' = emitted s ++ emission_of (procs s) l.
Proof.
  intros Hp Hex Hl. unfold exec_worker in Hex.
  destruct l, (p_pc p) as [|c t|c| | |]; try discriminate Hex; injection Hl as ->;
    cbn [emission_of]; rewrite ?app_nil_r;
    try (repeat case_match; simplify_eq; (split; [by eapply procs_follow_insert|done])).
  destruct res as [ms|e|]; [..|done]; cbn [on_collect] in Hex.
  - simplify_eq. split; [by eapply procs_follow_insert|]. simpl.
    rewrite Hp, omap_app, omap_emission_envelopes. simpl. by rewrite app_nil_r.
  - case_decide; simplify_eq; (split; [by eapply procs_follow_insert|done]).
Qed.

Lemma exec_emits l s s' :
  exec l s = Some s' →
  procs_follow l (procs s) (procs s') ∧ emitted s' = emitted s ++ emission_of (procs s) l ∧
  (∀ n, label_proc l = Some n → is_Some (procs s !! n)).
Proof.
  intros Hex. destruct l; cbn [Scheduler.exec] in Hex;
    try (apply bind_Some in Hex as (p & Hp & Hex);
         destruct (exec_worker_emits _ _ _ _ _ Hp Hex eq_refl);
         split_and!; [done|done|]; cbn [label_proc]; intros ? [= <-]; by eexists);
    cbn [emission_of label_proc]; rewrite app_nil_r;
    try (unfold recv in Hex; repeat case_match; simplify_eq;
         split_and!; [apply procs_follow_refl|done|done]).
  case_decide; [|done]. destruct res as [infos| |]; [|simplify_eq|done].
  - case_decide as Hd; [|done]. destruct Hd as [Hnames Horder]. injection Hex as <-.
    split_and!; [by apply refresh_follow| |done].
    unfold refresh, cancel_missing. simpl. clear. generalize (desiredWorkerIDs sch names infos).
    intros des. revert s. induction order as [|wid order IH]; intros s; [done|].
    rewrite start_missing_cons, IH. by repeat case_match.
  - split_and!; [apply procs_follow_refl|done|done].
Qed.

(** The emissions of a run do not depend on how the goroutines went on. *)
Lemma emission_of_follow ls l ps ps' :
  Forall (λ l, ∀ n, label_proc l = Some n → is_Some (ps !! n)) ls → procs_follow l ps ps' →
  ls ≫= emission_of ps' = ls ≫= emission_of ps.
Proof.
  intros Hall [Hf _]. induction Hall as [|l' ls Hl _ IH]; [done|]. csimpl. rewrite IH. f_equal.
  destruct l'; try done. destruct res as [ms| |]; try done.
  destruct (Hl n eq_refl) as [p Hp]. destruct (Hf n p Hp) as (p' & Hp' & Hid).
  unfold emission_of. rewrite Hp, Hp'. simpl. by rewrite Hid.
Qed.
End provenance.

Lemma emissions_invariant {W} (sch : Scheduler W) int_overflow ls s :
  run_trace sch int_overflow ls sys_init = Some s →
  Forall (λ l, ∀ n, label_proc l = Some n → is_Some (procs s !! n)) ls ∧
  emitted s = ls ≫= emission_of (procs s) ∧
  (∀ n p, procs s !! n = Some p → called_for sch ls (pid p)).
Proof.
  revert s. induction ls as [|l ls IH] using rev_ind; intros s'.
  { intros [= <-]. split_and!; [constructor|done|]. intros n p Hp. done. }
  unfold run_trace. rewrite foldl_app. simpl. intros (s & Hs & Hex)%bind_Some.
  destruct (IH s Hs) as (Hall & Hem & Hcall).
  destruct (exec_emits sch int_overflow l s s' Hex) as (Hfol & Hem' & Hl).
  pose proof Hfol as [Hfwd Hback]. assert (∀ n, is_Some (procs s !! n) → is_Some (procs s' !! n)) as Hkeep.
  { intros n [p Hp]. destruct (Hfwd n p Hp) as (p' & -> & _). eauto. }
  split_and!.
  - apply Forall_app. split; [|constructor; [|constructor]]; [|by auto].
    eapply Forall_impl; [exact Hall|]. auto.
  - rewrite Hem', Hem, bind_app.
    rewrite (emission_of_follow sch ls l _ _ Hall Hfol). f_equal.
    rewrite (emission_of_follow sch [l] l (procs s) (procs s')); [|by constructor|done].
    csimpl. by rewrite app_nil_r.
  - intros n p' Hp'. destruct (Hback n p' Hp') as [(p & Hp & <-)|(infos & names & order & i & Hin & Hi)].
    + destruct (Hcall n p Hp) as (infos & names & order & i & Hin & Hi).
      exists infos, names, order, i. split; [apply elem_of_app; by left|done].
    + exists infos, names, order, i. split; [apply elem_of_app; by right|done].
Qed.

(** C11: emissions, end to end.  Over any run, the envelopes handed to the emitter
    are, in order, the metrics of the successful collections and nothing else,
    each addressed to the instance of the worker that collected it; and every
    worker belongs to an instance that the broker listed earlier in the run with
    an engine type its driver supports. *)
Theorem emissions_exact {W} (sch : Scheduler W) int_overflow ls s :
  run_trace sch int_overflow ls sys_init = Some s →
  emitted s = ls ≫= emission_of (procs s) ∧
  (∀ n ms, LCollect n (Ok ms) ∈ ls → ∃ p, procs s !! n = Some p ∧ called_for sch ls (pid p)).
Proof.
  intros Hrun. destruct (emissions_invariant sch int_overflow ls s Hrun) as (Hall & Hem & Hcall).
  split; [done|]. intros n ms Hin.
  rewrite Forall_forall in Hall. destruct (Hall _ Hin n eq_refl) as [p Hp]. eauto.
Qed.

Lemma emissions_exact_witness :
  ∃ s, run_trace sample_sched 0 sample_run sys_init = Some s ∧
    emitted s = sample_run ≫= emission_of (procs s) ∧ length (emitted s) = 1.
Proof.
  eexists. split; [vm_compute; reflexivity|]. split; [|reflexivity].
  apply (emissions_exact sample_sched 0 sample_run). vm_compute. reflexivity.
Defined.
