(* ===== verification/SchedulerLive.v ===== *)
(** * No listed instance is left out

    From any state in which the main loop runs, a few actions lead to a collection
    for any given instance that the broker keeps listing, whatever became of the
    instance's former worker: missing, given up, cancelled because an earlier
    listing left the instance out, or blocked on the channel. *)

From S2P Require Import Prelude GoStrings Utils Metrics BrokerInfo Collector Config Worker.
From S2P Require Import Scheduler SchedulerInv SchedulerProps.
From stdpp Require Import options.

(** The worker [wid] is registered, not cancelled, and inside [Collect]. *)
Definition collecting (wid : workerID) (s : sys) : Prop :=
  ∃ n p c, workers s !! wid = Some n ∧ procs s !! n = Some p ∧ pid p = wid ∧
    p_pc p = WCollecting c ∧ p_cancelled p = false.

(** Actions of a run in which the broker lists [infos], collectors can be created,
    a pending collection answers [coll], and nobody stops the scheduler. *)
Definition normal (infos : list InstanceInfo) (coll : outcome (list Metric)) (l : label) : Prop :=
  match l with
  | LRefresh res _ _ => res = Ok infos
  | LNew _ res => res = Ok tt
  | LCollect _ res => res = coll
  | LRecv | LTimer _ | LDone _ | LClose _ | LSend _ => True
  | _ => False
  end.

Section live.
Context {W : Type} (sch : Scheduler W) (int_overflow : Z).
Context (infos : list InstanceInfo) (coll : outcome (list Metric)) (Hcoll : ∀ m, coll ≠ Panic m).
Context (wid : workerID) (Hwid : ∃ i, i ∈ infos ∧ serves sch wid i).
Local Abbreviation exec := (exec sch int_overflow).

(** Within [k] such actions the worker is collecting. *)
Definition reaches (k : nat) (s : sys) : Prop :=
  ∃ ls s', Forall (normal infos coll) ls ∧ length ls ≤ k ∧
    run_trace sch int_overflow ls s = Some s' ∧ collecting wid s'.

Lemma reaches_now k s : collecting wid s → reaches k s.
Proof. intros Hc. exists [], s. split_and!; [constructor|simpl; lia|done|done]. Qed.

Lemma reaches_step k l s s1 :
  normal infos coll l → exec l s = Some s1 → reaches k s1 → reaches (S k) s.
Proof.
  intros Hl Hex (ls & s' & Hls & Hlen & Hrun & Hc). exists (l :: ls), s'.
  rewrite run_trace_cons, Hex. split_and!; [by constructor|simpl; lia|done|done].
Qed.

(** An action of the goroutine [n]. *)
Lemma reaches_worker k l n p s s1 :
  procs s !! n = Some p → label_proc l = Some n → normal infos coll l →
  exec_worker int_overflow l n p s = Some s1 → reaches k s1 → reaches (S k) s.
Proof.
  intros Hp Hl Hn Hex. eapply reaches_step; [exact Hn|].
  destruct l; try discriminate Hl; injection Hl as ->; cbn [Scheduler.exec]; by rewrite Hp.
Qed.

Lemma lookup_update s n p p' : procs s !! n = Some p → procs (update n p' s) !! n = Some p'.
Proof. intros Hp. apply list_lookup_insert_eq. by eapply lookup_lt_Some. Qed.

(** A worker in its loop, not cancelled: its timer fires. *)
Lemma reaches_loop k s n p c t :
  workers s !! wid = Some n → procs s !! n = Some p → pid p = wid →
  p_pc p = WLoop c t → p_cancelled p = false → reaches (S k) s.
Proof.
  intros Hn Hp Hid Hpc Hcan.
  eapply (reaches_worker k (LTimer n) n p); [done|done|done|unfold exec_worker; by rewrite Hpc|].
  apply reaches_now. eexists n, _, c. split; [done|]. split; [by eapply lookup_update|done].
Qed.

Lemma reaches_new k s n p :
  workers s !! wid = Some n → procs s !! n = Some p → pid p = wid →
  p_pc p = WNew → p_cancelled p = false → reaches (S (S k)) s.
Proof.
  intros Hn Hp Hid Hpc Hcan.
  eapply (reaches_worker _ (LNew n (Ok tt)) n p); [done|done|done|unfold exec_worker; by rewrite Hpc|].
  eapply (reaches_loop k _ n); [done|by eapply lookup_update|done|done|done].
Qed.

(** A missing worker: the next refresh starts it. *)
Lemma reaches_absent s :
  inv sch s → main s = MLoop → workers s !! wid = None → reaches 3 s.
Proof using Hwid.
  intros Hinv Hm Hnone.
  set (names := elements (dom (metricsCollectorDrivers sch))).
  set (order := elements (dom (desiredWorkerIDs sch names infos))).
  destruct (refresh_new sch names order infos s wid) as (n & info & _ & _ & Hn & _ & Hp); [done..|].
  eapply (reaches_step 2 (LRefresh (Ok infos) names order)); [done| |].
  { cbn [Scheduler.exec]. rewrite decide_True by done. by rewrite decide_True. }
  by eapply reaches_new.
Qed.

Lemma reaches_done s n p :
  inv sch s → main s = MLoop → workers s !! wid = Some n → procs s !! n = Some p →
  p_pc p = WDone → reaches 4 s.
Proof using Hwid.
  intros Hinv Hm Hn Hp Hpc.
  destruct (inv_workers sch s Hinv wid n Hn) as (q & Hq & _ & Hdone). simplify_eq.
  specialize (Hdone Hpc). pose proof (inv_cap sch s Hinv) as Hcap.
  destruct (stoppedWorker s) as [|w [|w' rest]] eqn:Hc; [by apply elem_of_nil in Hdone| |simpl in Hcap; lia].
  apply list_elem_of_singleton in Hdone. subst w.
  assert (exec LRecv s = Some (deleteWorker wid (set_chan [] s))) as Hex.
  { cbn [Scheduler.exec]. rewrite decide_True by auto. unfold recv. by rewrite Hc. }
  eapply (reaches_step 3 LRecv); [done|exact Hex|]. apply reaches_absent; [by eapply exec_inv|done|].
  apply lookup_delete_eq.
Qed.

Lemma reaches_sending s n p :
  inv sch s → main s = MLoop → workers s !! wid = Some n → procs s !! n = Some p →
  p_pc p = WSending → reaches 6 s.
Proof using Hwid.
  intros Hinv Hm Hn Hp Hpc.
  (** with room in the channel *)
  assert (∀ s, inv sch s → main s = MLoop → workers s !! wid = Some n → procs s !! n = Some p →
    stoppedWorker s = [] → reaches 5 s) as Hroom.
  { clear s Hinv Hm Hn Hp. intros s Hinv Hm Hn Hp Hc.
    assert (exec (LSend n) s = Some (set_chan (stoppedWorker s ++ [pid p]) (update n (set_pc WDone p) s))) as Hex.
    { cbn [Scheduler.exec]. rewrite Hp. simpl. rewrite Hpc, Hc. done. }
    eapply (reaches_step 4 (LSend n)); [done|exact Hex|].
    eapply reaches_done; [by eapply exec_inv|done|done|by eapply lookup_update|done]. }
  pose proof (inv_cap sch s Hinv) as Hcap.
  destruct (stoppedWorker s) as [|w [|w' rest]] eqn:Hc; [|..|simpl in Hcap; lia].
  { destruct (Hroom s Hinv Hm Hn Hp Hc) as (ls & s' & ? & ? & ?). exists ls, s'. split_and!; [done|lia|naive_solver..]. }
  assert (exec LRecv s = Some (deleteWorker w (set_chan [] s))) as Hex.
  { cbn [Scheduler.exec]. rewrite decide_True by auto. unfold recv. by rewrite Hc. }
  eapply (reaches_step 5 LRecv); [done|exact Hex|]. apply Hroom; [by eapply exec_inv|done| |done|done].
  destruct (inv_chan sch s Hinv w) as (n' & p' & Hn' & Hp' & Hpc'); [rewrite Hc; left|].
  simpl. rewrite lookup_delete_ne; [done|]. intros ->. congruence.
Qed.

Lemma reaches_closing s n p :
  inv sch s → main s = MLoop → workers s !! wid = Some n → procs s !! n = Some p →
  p_pc p = WClosing → reaches 7 s.
Proof using Hwid.
  intros Hinv Hm Hn Hp Hpc.
  assert (exec (LClose n) s = Some (update n (set_coll Closed (set_pc WSending p)) s)) as Hex.
  { cbn [Scheduler.exec]. rewrite Hp. simpl. by rewrite Hpc. }
  eapply (reaches_step 6 (LClose n)); [done|exact Hex|].
  eapply reaches_sending; [by eapply exec_inv|done|done|by eapply lookup_update|done].
Qed.

(** A worker whose context has been cancelled notices it in its loop. *)
Lemma reaches_cancelled_loop s n p c t :
  inv sch s → main s = MLoop → workers s !! wid = Some n → procs s !! n = Some p →
  p_pc p = WLoop c t → p_cancelled p = true → reaches 8 s.
Proof using Hwid.
  intros Hinv Hm Hn Hp Hpc Hcan.
  assert (exec (LDone n) s = Some (update n (set_pc WClosing p) s)) as Hex.
  { cbn [Scheduler.exec]. rewrite Hp. simpl. by rewrite Hpc, Hcan. }
  eapply (reaches_step 7 (LDone n)); [done|exact Hex|].
  eapply reaches_closing; [by eapply exec_inv|done|done|by eapply lookup_update|done].
Qed.

Lemma reaches_weaken k k' s : k ≤ k' → reaches k s → reaches k' s.
Proof. intros Hk (ls & s' & ? & ? & ?). exists ls, s'. split_and!; [done|lia|naive_solver..]. Qed.

Lemma reaches_any s : inv sch s → main s = MLoop → reaches 9 s.
Proof using Hwid Hcoll.
  intros Hinv Hm. destruct (workers s !! wid) as [n|] eqn:Hn.
  2: { apply (reaches_weaken 3); [lia|]. by apply reaches_absent. }
  destruct (inv_workers sch s Hinv wid n Hn) as (p & Hp & Hid & _).
  destruct (p_pc p) as [|c t|c| | |] eqn:Hpc.
  - destruct (p_cancelled p) eqn:Hcan; [|by apply (reaches_weaken 2); [lia|]; eapply reaches_new].
    assert (exec (LNew n (Ok tt)) s = Some (update n (set_coll Opened (set_pc (WLoop 0 0) p)) s)) as Hex.
    { cbn [Scheduler.exec]. rewrite Hp. simpl. by rewrite Hpc. }
    eapply (reaches_step 8 (LNew n (Ok tt))); [done|exact Hex|].
    eapply reaches_cancelled_loop; [by eapply exec_inv|done|done|by eapply lookup_update|done|done].
  - apply (reaches_weaken 8); [lia|]. destruct (p_cancelled p) eqn:Hcan; [by eapply reaches_cancelled_loop|].
    by eapply reaches_loop.
  - destruct (p_cancelled p) eqn:Hcan; [|apply reaches_now; by exists n, p, c].
    destruct (on_collect int_overflow (p_worker p) c coll) as [next acts] eqn:Hon.
    assert (exec (LCollect n coll) s = Some (add_emitted (omap emission acts)
      (update n (set_pc match next with Some c' => WLoop c' (reset_ns acts) | None => WClosing end p) s))) as Hex.
    { cbn [Scheduler.exec]. rewrite Hp. cbn [mbind option_bind]. unfold exec_worker. rewrite Hpc.
      destruct coll as [ms|e|m]; [..|by destruct (Hcoll m)]; by rewrite Hon. }
    eapply (reaches_step 8 (LCollect n coll)); [done|exact Hex|].
    destruct next as [c'|].
    + eapply reaches_cancelled_loop; [by eapply exec_inv|done|done|by eapply (lookup_update s)|done|done].
    + apply (reaches_weaken 7); [lia|].
      eapply reaches_closing; [by eapply exec_inv|done|done|by eapply (lookup_update s)|done].
  - apply (reaches_weaken 7); [lia|]. by eapply reaches_closing.
  - apply (reaches_weaken 6); [lia|]. by eapply reaches_sending.
  - apply (reaches_weaken 4); [lia|]. by eapply reaches_done.
Qed.
End live.

(** ** Properties *)

(** C10: a listed instance is never starved.  From every reachable state in which
    the main loop runs, if the broker lists an instance and its collectors can be
    created, then for each driver that supports the instance some run of at most
    nine actions, in which a pending collection may answer anything but a panic,
    leads to a collection by a worker of that driver and instance that is not
    cancelled: a worker that gave up is started again by the next refresh, one
    that was cancelled makes way for a new one. *)
Theorem listed_instance_collected {W} (sch : Scheduler W) int_overflow s infos i wid coll :
  sched_reachable sch int_overflow s → main s = MLoop →
  i ∈ infos → serves sch wid i → (∀ m, coll ≠ Panic m) →
  ∃ ls s', Forall (normal infos coll) ls ∧ length ls ≤ 9 ∧
    run_trace sch int_overflow ls s = Some s' ∧ collecting wid s'.
Proof.
  intros Hr%reachable_inv Hm Hi Hs Hcoll. apply reaches_any; eauto.
Qed.

(** A worker that was cancelled by an empty listing while it was collecting. *)
Definition sample_cancelled : list label :=
  [ sample_start; LNew 0 (Ok tt); LTimer 0; LRefresh (Ok []) sample_names [] ].

Lemma sample_cancelled_runs :
  ∃ s, run_trace sample_sched 0 sample_cancelled sys_init = Some s ∧ main s = MLoop.
Proof.
  assert (main <$> run_trace sample_sched 0 sample_cancelled sys_init = Some MLoop) as Hr
    by (vm_compute; reflexivity).
  destruct (run_trace sample_sched 0 sample_cancelled sys_init) as [s|]; [|discriminate Hr].
  exists s. injection Hr as Hm. by split.
Qed.

Lemma listed_instance_collected_witness :
  ∃ s, run_trace sample_sched 0 sample_cancelled sys_init = Some s ∧
    ∃ ls s', Forall (normal [sample_pg] (Err "cancelled")) ls ∧ length ls ≤ 9 ∧
      run_trace sample_sched 0 ls s = Some s' ∧ collecting (mkWorkerID "postgres" "guid") s'.
Proof.
  destruct sample_cancelled_runs as (s & Hs & Hm). exists s. split; [exact Hs|].
  apply (listed_instance_collected sample_sched 0 s [sample_pg] sample_pg).
  - exact (run_trace_rtc sample_sched 0 sample_cancelled sys_init s Hs).
  - exact Hm.
  - left.
  - eexists. split; [reflexivity|]. split; [left|reflexivity].
  - discriminate.
Defined.
