(* ===== verification/System.v ===== *)
(** * The running program: scheduler, broker, drivers and emitter together

    The file Scheduler leaves the answers of the broker, of [NewCollector] and of
    [Collect] open; here they come from the components.  A configuration [conf]
    holds the scheduler's state, the state of the outside world, the collector
    each worker goroutine holds, the emitter's state, and the message of the
    panic that ended the process, if any.  [perform] carries out one event: it
    calls the component, in the world as it is, and hands the answer to [exec].
    Between events the world may change by itself ([env]).

    A call is one event, as seen by the world: what happens during the call
    (cancellation, a time-out, changes on the server) is part of the answer that
    the world gives.

    [driver_sound] and [SchedulerClients] are the contracts of the drivers and the
    broker with the scheduler; the theorems here are proved against them, and the
    file SystemMain discharges them for the components that main.go wires. *)

From S2P Require Import Prelude GoStrings Utils Metrics BrokerInfo Collector Config Worker.
From S2P Require Import Scheduler SchedulerInv SchedulerProps.
From stdpp Require Import options.

(** ** Configurations and events *)

Record conf (W E : Type) := mkConf {
  c_sys : sys;
  c_world : W;
  c_collectors : gmap nat (MetricsCollector W);   (** the variable [collector] of each [run] *)
  c_emitter : E;
  c_panic : option string;
}.
Arguments mkConf {W E}.
Arguments c_sys {W E}.
Arguments c_world {W E}.
Arguments c_collectors {W E}.
Arguments c_emitter {W E}.
Arguments c_panic {W E}.

Definition set_world {W E} (w : W) (c : conf W E) : conf W E :=
  mkConf (c_sys c) w (c_collectors c) (c_emitter c) (c_panic c).
Definition crash {W E} (msg : string) (w : W) (c : conf W E) : conf W E :=
  mkConf (c_sys c) w (c_collectors c) (c_emitter c) (Some msg).

(** The events that call a component, with what is left to chance: the iteration
    orders of a refresh and the readings of the clock by [Emit]; and the actions
    of the scheduler that call nothing. *)
Inductive event :=
  | ERefresh (names : list string) (order : list workerID)
  | ENew (n : nat)
  | ECollect (n : nat) (now : nat → Z)
  | EClose (n : nat)
  | EInternal (l : label).

Definition internal (l : label) : bool :=
  match l with LRefresh _ _ _ | LNew _ _ | LCollect _ _ | LClose _ => false | _ => true end.

Section emit.
Context {E : Type} `{MetricsEmitter E}.

(** [for _, metric := range collectedMetrics { w.metricsEmitter.Emit(...) }] *)
Fixpoint emit_all (now : nat → Z) (es : list MetricEnvelope) (em : E) : outcome E :=
  match es with
  | [] => Ok em
  | e :: es => em ← Emit (now 0) e em; emit_all (now ∘ S) es em
  end.
End emit.

Section system.
Context {W E : Type} (sch : Scheduler W) (int_overflow : Z).
Context `{BrokerInfo W} `{MetricsEmitter E}.
(** What the outside world may do between two events. *)
Context (env : W → W → Prop).
Local Abbreviation exec := (exec sch int_overflow).
Local Abbreviation drivers := (metricsCollectorDrivers sch).
Local Abbreviation conf := (conf W E).

(** The scheduler's action [l], after a call that left the world [w], the
    collectors [cs] and the emitter [em]. *)
Definition act (l : label) (w : W) (cs : gmap nat (MetricsCollector W)) (em : E) (c : conf)
  : option (list label * conf) :=
  s ← exec l (c_sys c); Some ([l], mkConf s w cs em None).

Definition perform_new (n : nat) (p : proc) (c : conf) : option (list label * conf) :=
  d ← drivers !! Driver (pid p);
  let '(res, w) := NewCollector d (instanceInfo (p_worker p)) (c_world c) in
  match res with
  | Ok k => act (LNew n (Ok tt)) w (<[n := k]> (c_collectors c)) (c_emitter c) c
  | Err e => act (LNew n (Err e)) w (c_collectors c) (c_emitter c) c
  | Panic m => Some ([], crash m w c)
  end.

Definition perform_collect (n : nat) (now : nat → Z) (p : proc) (k : MetricsCollector W) (c : conf)
  : option (list label * conf) :=
  let '(res, w) := Collect k (c_world c) in
  match res with
  | Ok ms =>
      match emit_all now (envelopes (p_worker p) ms) (c_emitter c) with
      | Ok em => act (LCollect n (Ok ms)) w (c_collectors c) em c
      | Err m | Panic m => Some ([], crash m w c)
      end
  | Err e => act (LCollect n (Err e)) w (c_collectors c) (c_emitter c) c
  | Panic m => Some ([], crash m w c)
  end.

(** [collector.Close()], whose error the deferred call drops. *)
Definition perform_close (n : nat) (k : MetricsCollector W) (c : conf) : option (list label * conf) :=
  let '(res, w) := Close k (c_world c) in
  match res with
  | Panic m => Some ([], crash m w c)
  | _ => act (LClose n) w (c_collectors c) (c_emitter c) c
  end.

(** The scheduler's actions that an event amounts to (none when a call panics)
    and the next configuration; [None] when the event cannot happen. *)
Definition perform (e : event) (c : conf) : option (list label * conf) :=
  match c_panic c with
  | Some _ => None
  | None =>
      let s := c_sys c in
      match e with
      | EInternal l =>
          if internal l then act l (c_world c) (c_collectors c) (c_emitter c) c else None
      | ERefresh names order =>
          if decide (main s = MLoop) then
            match ListInstances (c_world c) with
            | Panic m => Some ([], crash m (c_world c) c)
            | res => act (LRefresh res names order) (c_world c) (c_collectors c) (c_emitter c) c
            end
          else None
      | ENew n =>
          p ← procs s !! n;
          match p_pc p with WNew => perform_new n p c | _ => None end
      | ECollect n now =>
          p ← procs s !! n; k ← c_collectors c !! n;
          match p_pc p with WCollecting _ => perform_collect n now p k c | _ => None end
      | EClose n =>
          p ← procs s !! n; k ← c_collectors c !! n;
          match p_pc p with WClosing => perform_close n k c | _ => None end
      end
  end.

Fixpoint perform_all (es : list event) (c : conf) : option (list label * conf) :=
  match es with
  | [] => Some ([], c)
  | e :: es =>
      '(ls, c) ← perform e c; '(ls', c) ← perform_all es c; Some (ls ++ ls', c)
  end.

(** [history w0 em0 ls c]: from the world [w0] and the emitter [em0], the program
    may reach [c], the scheduler having performed the actions [ls]. *)
Inductive history (w0 : W) (em0 : E) : list label → conf → Prop :=
  | h_start : history w0 em0 [] (mkConf sys_init w0 ∅ em0 None)
  | h_event ls c e ls' c' :
      history w0 em0 ls c → perform e c = Some (ls', c') → history w0 em0 (ls ++ ls') c'
  | h_world ls c w :
      history w0 em0 ls c → c_panic c = None → env (c_world c) w → history w0 em0 ls (set_world w c).

(** The action [l] reports what the component answers in the configuration [c]. *)
Definition answered (c : conf) (l : label) : Prop :=
  match l with
  | LRefresh res _ _ => res = ListInstances (c_world c)
  | LNew n res =>
      ∃ p d, procs (c_sys c) !! n = Some p ∧ drivers !! Driver (pid p) = Some d ∧
        res = (λ _, tt) <$> (NewCollector d (instanceInfo (p_worker p)) (c_world c)).1
  | LCollect n res =>
      ∃ k, c_collectors c !! n = Some k ∧ res = (Collect k (c_world c)).1
  | _ => True
  end.

(** ** Lemmas: an event is an action of the scheduler *)

Lemma act_Some l w cs em c ls c' :
  act l w cs em c = Some (ls, c') →
  ls = [l] ∧ c_panic c' = None ∧ exec l (c_sys c) = Some (c_sys c') ∧
  c_world c' = w ∧ c_collectors c' = cs ∧ c_emitter c' = em.
Proof. unfold act. intros (s & Hs & [= <- <-])%bind_Some. done. Qed.

(** Either a call panicked, or the scheduler performed one action, with the
    answer of the component. *)
Definition simulated (c : conf) (ls : list label) (c' : conf) : Prop :=
  (ls = [] ∧ is_Some (c_panic c') ∧ c_sys c' = c_sys c) ∨
  (∃ l, ls = [l] ∧ c_panic c' = None ∧ exec l (c_sys c) = Some (c_sys c') ∧ answered c l).

Lemma act_simulated l w cs em c ls c' :
  answered c l → act l w cs em c = Some (ls, c') → simulated c ls c'.
Proof. intros Ha (-> & Hn & Hex & _)%act_Some. right. by exists l. Qed.

Lemma crash_simulated m w c ls c' : Some ([], crash m w c) = Some (ls, c') → simulated c ls c'.
Proof. intros [= <- <-]. left. split_and!; [done|by eexists|done]. Qed.

Lemma perform_simulated e c ls c' :
  perform e c = Some (ls, c') → c_panic c = None ∧ simulated c ls c'.
Proof.
  unfold perform. destruct (c_panic c) as [m|] eqn:Hpanic; [done|]. intros Hp. split; [done|].
  destruct e as [names order|n|n now|n|l].
  - case_decide; [|done].
    destruct (ListInstances (c_world c)) eqn:HE;
      (by eapply crash_simulated) || (eapply act_simulated; [|exact Hp]; by simpl).
  - apply bind_Some in Hp as (p & Hn & Hp). destruct (p_pc p); try discriminate Hp.
    unfold perform_new in Hp. apply bind_Some in Hp as (d & Hd & Hp).
    destruct (NewCollector d _ _) as [res w] eqn:HE.
    assert (∀ r, r = ((λ _, tt) <$> res) → answered c (LNew n r)) as Ha.
    { intros r ->. exists p, d. by rewrite HE. }
    destruct res; [eapply act_simulated; [|exact Hp]..|by eapply crash_simulated]; by apply Ha.
  - apply bind_Some in Hp as (p & Hn & (k & Hk & Hp)%bind_Some).
    destruct (p_pc p); try discriminate Hp. unfold perform_collect in Hp.
    destruct (Collect k (c_world c)) as [res w] eqn:HE.
    assert (answered c (LCollect n res)) as Ha by (exists k; by rewrite HE).
    destruct res; [destruct (emit_all _ _ _)| |];
      (by eapply crash_simulated) || (by eapply act_simulated).
  - apply bind_Some in Hp as (p & Hn & (k & Hk & Hp)%bind_Some).
    destruct (p_pc p); try discriminate Hp. unfold perform_close in Hp.
    destruct (Close k (c_world c)) as [[] w];
      (by eapply crash_simulated) || (by eapply act_simulated; [|exact Hp]).
  - destruct (internal l) eqn:Hi; [|done]. eapply act_simulated; [|exact Hp]. by destruct l.
Qed.

Lemma run_trace_snoc ls l s :
  run_trace sch int_overflow (ls ++ [l]) s = run_trace sch int_overflow ls s ≫= exec l.
Proof. unfold run_trace. by rewrite foldl_app. Qed.

Lemma history_run w0 em0 ls c :
  history w0 em0 ls c → run_trace sch int_overflow ls sys_init = Some (c_sys c).
Proof.
  induction 1 as [|ls c e ls' c' _ IH Hp|]; [done| |done].
  apply perform_simulated in Hp as [_ [(-> & _ & ->)|(l & -> & _ & Hex & _)]].
  - by rewrite app_nil_r.
  - by rewrite run_trace_snoc, IH.
Qed.

Lemma perform_all_history w0 em0 es ls c ls' c' :
  history w0 em0 ls c → perform_all es c = Some (ls', c') → history w0 em0 (ls ++ ls') c'.
Proof.
  revert ls c ls'. induction es as [|e es IH]; intros ls c ls' Hh; simpl.
  - intros [= <- <-]. by rewrite app_nil_r.
  - intros ([ls1 c1] & Hp & ([ls2 c2] & Hes & [= <- <-])%bind_Some)%bind_Some.
    rewrite (assoc_L (++)). eapply IH; [|exact Hes]. by eapply h_event.
Qed.

Lemma history_reachable w0 em0 ls c : history w0 em0 ls c → sched_reachable sch int_overflow (c_sys c).
Proof. intros Hh%history_run. by eapply run_trace_rtc. Qed.

Lemma history_answered w0 em0 ls c :
  history w0 em0 ls c → ∀ ls1 l ls2, ls = ls1 ++ l :: ls2 →
  ∃ c1, history w0 em0 ls1 c1 ∧ answered c1 l.
Proof.
  induction 1 as [|ls c e ls' c' Hh IH Hp|]; intros ls1 l ls2 Heq; [by destruct ls1| |by eauto].
  apply perform_simulated in Hp as [_ [(-> & _ & _)|(l' & -> & _ & _ & Ha)]].
  - rewrite app_nil_r in Heq. by eapply IH.
  - destruct ls2 as [|l3 ls3 _] using rev_ind.
    + apply app_inj_tail in Heq as [-> ->]. eauto.
    + rewrite app_comm_cons, (assoc_L (++)) in Heq. apply app_inj_tail in Heq as [-> _]. by eapply IH.
Qed.
End system.
