(* ===== verification/SystemProps.v ===== *)
(** * What the running program guarantees

    The contracts of the broker, the drivers and the emitter with the scheduler,
    and the theorems about the program as a whole that follow from them: it never
    panics, it holds exactly the database handles its open collectors need, it
    reports declared metrics only, and it can always be shut down. *)

From S2P Require Import Prelude GoStrings Utils Metrics BrokerInfo Collector Config Worker.
From S2P Require Import Scheduler SchedulerInv SchedulerProps System.
From stdpp Require Import options.

(** ** Contracts *)

(** What is observed of the world: that it keeps to the documented behaviour of
    the services, and the database handles and result sets the process has open. *)
Class WorldSpec (W : Type) := {
  world_ok : W → Prop;
  handles : W → nat;
  result_sets : W → nat;
}.

Definition undisturbed `{WorldSpec W} (w w' : W) : Prop :=
  world_ok w' ∧ handles w' = handles w ∧ result_sets w' = result_sets w.

(** A collector that holds [needs] handles and reports metrics in [P]. *)
Record collector_sound `{WorldSpec W} (needs : nat) (P : Metric → Prop) (k : MetricsCollector W)
  : Prop := {
  collect_sound w : world_ok w →
    match Collect k w with
    | (Ok ms, w') => undisturbed w w' ∧ Forall P ms
    | (Err _, w') => undisturbed w w'
    | (Panic _, _) => False
    end;
  close_sound w : world_ok w → needs ≤ handles w →
    match Close k w with
    | (Panic _, _) => False
    | (_, w') => world_ok w' ∧ handles w' + needs = handles w ∧ result_sets w' = result_sets w
    end;
}.

Definition driver_sound `{WorldSpec W} (needs : nat) (P : Metric → Prop)
    (d : MetricsCollectorDriver W) : Prop :=
  ∀ i w, world_ok w → Type_ i ∈ SupportedTypes d →
    match NewCollector d i w with
    | (Ok k, w') => world_ok w' ∧ handles w' = handles w + needs ∧
                    result_sets w' = result_sets w ∧ collector_sound needs P k
    | (Err _, w') => undisturbed w w'
    | (Panic _, _) => False
    end.

(** What the scheduler is given: a broker and drivers that never panic, drivers
    whose collectors take and give back [needs name] handles and report metrics
    that [declared name] allows, an environment that leaves the handles alone. *)
Class SchedulerClients {W} (sch : Scheduler W) `{BrokerInfo W} `{WorldSpec W} (env : W → W → Prop) := {
  needs : string → nat;
  declared : string → Metric → Prop;
  broker_sound w m : world_ok w → ListInstances w ≠ Panic m;
  drivers_sound name d : metricsCollectorDrivers sch !! name = Some d →
    driver_sound (needs name) (declared name) d;
  env_sound w w' : world_ok w → env w w' → undisturbed w w';
}.

(** An emitter that always accepts an envelope. *)
Class TotalEmitter (E : Type) `{MetricsEmitter E} :=
  emit_total now me em : ∃ em', Emit now me em = Ok em'.

Lemma emit_all_total `{TotalEmitter E} now es em : ∃ em', emit_all now es em = Ok em'.
Proof.
  revert now em. induction es as [|e es IH]; intros now em; simpl; [eauto|].
  destruct (emit_total (now 0) e em) as [em1 ->]. apply IH.
Qed.

(** ** The goroutines as far as their collectors are concerned *)

Definition view (p : proc) : workerID * coll_state := (pid p, p_coll p).

Definition view_step (l : label) (v : list (workerID * coll_state)) : list (workerID * coll_state) :=
  match l with
  | LNew n (Ok _) => alter (λ e, (e.1, Opened)) n v
  | LClose n => alter (λ e, (e.1, Closed)) n v
  | _ => v
  end.

Lemma alter_insert {A} (g : A → A) (l : list A) n x :
  l !! n = Some x → alter g n l = <[n := g x]> l.
Proof.
  revert n. induction l as [|y l IH]; intros [|n]; simpl; [done..|by intros [= ->]|].
  intros Hn. f_equal. by apply IH.
Qed.

Lemma sum_list_with_alter {A} (f : A → nat) (g : A → A) (l : list A) n x :
  l !! n = Some x → sum_list_with f (alter g n l) + f x = sum_list_with f l + f (g x).
Proof.
  intros Hn. rewrite (alter_insert _ _ _ _ Hn). by apply sum_list_insert.
Qed.

Lemma sum_list_with_zero {A} (f : A → nat) (l : list A) :
  Forall (λ x, f x = 0) l → sum_list_with f l = 0.
Proof. induction 1 as [|x l Hx _ IH]; simpl; [done|]. lia. Qed.

Section view.
Context {W : Type} (sch : Scheduler W) (int_overflow : Z).

Lemma view_insert (ps : list proc) n p p' :
  ps !! n = Some p → view p' = view p → view <$> <[n := p']> ps = view <$> ps.
Proof.
  intros Hn Hv. rewrite list_fmap_insert, Hv. apply list_insert_id. by rewrite list_lookup_fmap, Hn.
Qed.

Lemma view_alter (ps : list proc) n p p' g :
  ps !! n = Some p → view p' = g (view p) → view <$> <[n := p']> ps = alter g n (view <$> ps).
Proof.
  intros Hn Hv. rewrite list_fmap_insert, Hv. symmetry. apply alter_insert.
  by rewrite list_lookup_fmap, Hn.
Qed.

Lemma exec_worker_view l n p s s' :
  procs s !! n = Some p → exec_worker int_overflow l n p s = Some s' → label_proc l = Some n →
  view <$> procs s' = view_step l (view <$> procs s).
Proof.
  intros Hp Hex Hl. unfold exec_worker in Hex.
  destruct l, (p_pc p) as [|c t|c| | |]; try discriminate Hex; injection Hl as ->; cbn [view_step];
    repeat case_match; simplify_eq; by (eapply view_insert || eapply view_alter).
Qed.

Lemma start_missing_view des order s :
  ∃ new, view <$> procs (start_missing sch des order s) =
    (view <$> procs s) ++ ((.,NotCreated) <$> new).
Proof.
  revert s. induction order as [|wid order IH]; intros s; [exists []; by rewrite app_nil_r|].
  rewrite start_missing_cons.
  destruct (workers s !! wid); [apply IH|]. destruct (des !! wid) as [info|]; [|apply IH].
  destruct (IH (startWorker sch s wid info)) as [new ->]. exists (wid :: new).
  simpl. rewrite fmap_app, <-(assoc_L (++)). done.
Qed.

Lemma exec_view l s s' :
  exec sch int_overflow l s = Some s' →
  ∃ new, view <$> procs s' = view_step l (view <$> procs s) ++ ((.,NotCreated) <$> new).
Proof.
  intros Hex. destruct l; cbn [exec] in Hex;
    try (apply bind_Some in Hex as (p & Hp & Hex); exists []; rewrite app_nil_r;
         by eapply exec_worker_view);
    try (unfold recv in Hex; repeat case_match; simplify_eq; exists []; by rewrite app_nil_r).
  cbn [view_step]. repeat case_match; simplify_eq; [|exists []; by rewrite app_nil_r].
  unfold refresh, cancel_missing. simpl. set (s1 := start_missing _ _ _ _).
  destruct (cancel_foldl (desiredWorkerIDs sch names a) (map_to_list (workers s1)) (procs s1)) as [Hsim _].
  destruct (start_missing_view (desiredWorkerIDs sch names a) order s) as [new Hnew]. exists new.
  rewrite <-Hnew. fold s1. symmetry. apply list_eq_Forall2, Forall2_fmap.
  eapply Forall2_impl; [exact Hsim|]. by intros p p' [-> | ->].
Qed.
End view.

Lemma view_step_fst l v : (view_step l v).*1 = v.*1.
Proof.
  assert (∀ st n, (alter (λ e : workerID * coll_state, (e.1, st)) n v).*1 = v.*1) as Halter.
  { intros st n. destruct (v !! n) as [e|] eqn:Hn.
    - rewrite (alter_insert _ _ _ _ Hn), list_fmap_insert. apply list_insert_id.
      by rewrite list_lookup_fmap, Hn.
    - f_equal. clear -Hn. revert n Hn. induction v as [|x v IH]; intros [|n] Hn; simpl in *;
        [done..|]. f_equal. by apply IH. }
  destruct l; simpl; try done. by destruct res.
Qed.

(** ** The invariant of the running program *)

Section safety.
Context {W E : Type} (sch : Scheduler W) (int_overflow : Z) `{MetricsEmitter E}.
Context (env : W → W → Prop) `{Hclients : SchedulerClients W sch env} `{!TotalEmitter E}.
Context (w0 : W).
Local Abbreviation conf := (conf W E).

(** The handles a goroutine's collector holds. *)
Definition uses (e : workerID * coll_state) : nat :=
  if decide (e.2 = Opened) then needs (env := env) (Driver e.1) else 0.

Definition views (c : conf) : list (workerID * coll_state) := view <$> procs (c_sys c).

Record safe (c : conf) : Prop := {
  safe_panic : c_panic c = None;
  safe_world : world_ok (c_world c);
  safe_inv : inv sch (c_sys c);
  safe_collectors n wid : views c !! n = Some (wid, Opened) →
    ∃ k, c_collectors c !! n = Some k ∧
      collector_sound (needs (env := env) (Driver wid)) (declared (env := env) (Driver wid)) k;
  safe_handles : handles (c_world c) = handles w0 + sum_list_with uses (views c);
  safe_sets : result_sets (c_world c) = result_sets w0;
  safe_emitted e : e ∈ emitted (c_sys c) →
    ∃ wid, wid ∈ (views c).*1 ∧ InstanceGUID e = wInstanceGUID wid ∧
      declared (env := env) (Driver wid) (envMetric e);
}.

Lemma safe_start em : world_ok w0 → safe (mkConf sys_init w0 ∅ em None).
Proof.
  intros Hw. split; simpl; try done; [apply inv_init|].
  intros e He. by apply elem_of_nil in He.
Qed.

(** One action of the scheduler, given what the call before it left. *)
Lemma safe_act c l w cs em ls c' :
  safe c → act sch int_overflow l w cs em c = Some (ls, c') →
  world_ok w → result_sets w = result_sets (c_world c) →
  handles w + sum_list_with uses (views c) =
    handles (c_world c) + sum_list_with uses (view_step l (views c)) →
  (∀ n wid, view_step l (views c) !! n = Some (wid, Opened) →
     ∃ k, cs !! n = Some k ∧
       collector_sound (needs (env := env) (Driver wid)) (declared (env := env) (Driver wid)) k) →
  (∀ e, e ∈ emission_of (procs (c_sys c)) l →
     ∃ wid, wid ∈ (views c).*1 ∧ InstanceGUID e = wInstanceGUID wid ∧
       declared (env := env) (Driver wid) (envMetric e)) →
  safe c'.
Proof.
  intros Hs (s & Hex & [= <- <-])%bind_Some Hw Hrs Hh Hcs Hem.
  destruct (exec_view sch int_overflow l _ _ Hex) as [new Hv].
  destruct (exec_emits sch int_overflow l _ _ Hex) as (_ & Hemit & _).
  fold (views c) in Hv. split; cbn [c_panic c_world c_sys c_collectors].
  - done.
  - done.
  - eapply exec_inv; [apply Hs|exact Hex].
  - intros n wid. unfold views at 1. cbn [c_sys]. rewrite Hv.
    intros [?|(_ & (wid' & [= _ [=]] & _)%list_lookup_fmap_Some)]%lookup_app_Some. by apply Hcs.
  - unfold views. cbn [c_sys]. rewrite Hv, sum_list_with_app.
    rewrite (sum_list_with_zero uses ((.,NotCreated) <$> new)); [|by apply Forall_fmap, Forall_true].
    pose proof (safe_handles c Hs). lia.
  - rewrite Hrs. apply Hs.
  - intros e. rewrite Hemit. intros He. unfold views. cbn [c_sys]. rewrite Hv, fmap_app, view_step_fst.
    apply elem_of_app in He as [He|He]; [apply (safe_emitted c Hs) in He|apply Hem in He];
      destruct He as (wid & Hin & ?); exists wid; (split; [|done]); apply elem_of_app; by left.
Qed.

Lemma views_lookup c n p : procs (c_sys c) !! n = Some p → views c !! n = Some (pid p, p_coll p).
Proof. intros Hp. unfold views. by rewrite list_lookup_fmap, Hp. Qed.

Lemma alter_lookup_Some {A} (g : A → A) (l : list A) n x m y :
  l !! n = Some x → alter g n l !! m = Some y → (m = n ∧ y = g x) ∨ (m ≠ n ∧ l !! m = Some y).
Proof.
  intros Hn. rewrite (alter_insert _ _ _ _ Hn). intros [(-> & <- & _)|[? ?]]%list_lookup_insert_Some; auto.
Qed.

(** An action that leaves the collectors alone. *)
Lemma safe_act_quiet c l w em ls c' :
  safe c → act sch int_overflow l w (c_collectors c) em c = Some (ls, c') →
  view_step l (views c) = views c → undisturbed (c_world c) w →
  (∀ e, e ∈ emission_of (procs (c_sys c)) l →
     ∃ wid, wid ∈ (views c).*1 ∧ InstanceGUID e = wInstanceGUID wid ∧
       declared (env := env) (Driver wid) (envMetric e)) →
  safe c'.
Proof.
  intros Hs Hact Hv (Hw & Hh & Hr) Hem. eapply safe_act; [done|done|done|done|..|done]; rewrite Hv.
  - lia.
  - apply Hs.
Qed.

Lemma undisturbed_refl w : world_ok w → undisturbed w w.
Proof. done. Qed.

Lemma worker_driver c n p :
  safe c → procs (c_sys c) !! n = Some p →
  coll_ok p ∧ ∃ d, metricsCollectorDrivers sch !! Driver (pid p) = Some d ∧
    Type_ (instanceInfo (p_worker p)) ∈ SupportedTypes d ∧
    driver_sound (needs (env := env) (Driver (pid p))) (declared (env := env) (Driver (pid p))) d.
Proof.
  intros Hs Hp. destruct (inv_procs sch _ (safe_inv c Hs) n p Hp) as [Hc (d & Hd & Ht & _)].
  split; [done|]. exists d. split_and!; [done|done|]. by apply drivers_sound.
Qed.

Lemma perform_new_safe n p c ls c' :
  safe c → procs (c_sys c) !! n = Some p → p_pc p = WNew →
  perform_new sch int_overflow n p c = Some (ls, c') → safe c'.
Proof.
  intros Hs Hp Hpc. destruct (worker_driver c n p Hs Hp) as (Hc & d & Hd & Ht & Hsound).
  unfold coll_ok in Hc. rewrite Hpc in Hc. unfold perform_new. rewrite Hd. simpl.
  specialize (Hsound (instanceInfo (p_worker p)) _ (safe_world c Hs) Ht).
  pose proof (views_lookup c n p Hp) as Hv. rewrite Hc in Hv.
  destruct (NewCollector d _ _) as [[k|e|m] w]; [|intros Hact|done].
  - destruct Hsound as (Hw & Hh & Hr & Hk). intros Hact.
    eapply safe_act; [done|exact Hact|done|done|..].
    + simpl. pose proof (sum_list_with_alter uses (λ e, (e.1, Opened)) _ _ _ Hv) as Hsum.
      unfold uses at 2 4 in Hsum. simpl in Hsum. rewrite Hh. lia.
    + intros m wid Hm. simpl in Hm. apply (alter_lookup_Some _ _ _ _ _ _ Hv) in Hm as [[-> [= ->]]|[Hne Hm]].
      * rewrite lookup_insert_eq. eauto.
      * rewrite lookup_insert_ne by done. by apply Hs.
    + intros ? []%elem_of_nil.
  - eapply safe_act_quiet; [done|exact Hact|done|done|]. intros ? []%elem_of_nil.
Qed.

Lemma perform_collect_safe n now p k c ls c' :
  safe c → procs (c_sys c) !! n = Some p → (∃ e, p_pc p = WCollecting e) →
  c_collectors c !! n = Some k →
  perform_collect sch int_overflow n now p k c = Some (ls, c') → safe c'.
Proof using TotalEmitter0.
  intros Hs Hp [ec Hpc] Hk. destruct (worker_driver c n p Hs Hp) as (Hc & _).
  unfold coll_ok in Hc. rewrite Hpc in Hc.
  pose proof (views_lookup c n p Hp) as Hv. rewrite Hc in Hv.
  destruct (safe_collectors c Hs _ _ Hv) as (k' & Hk' & Hsound).
  rewrite Hk in Hk'. injection Hk' as <-.
  pose proof (collect_sound _ _ _ Hsound (c_world c) (safe_world c Hs)) as Hcoll.
  unfold perform_collect. destruct (Collect k (c_world c)) as [[ms|e|m] w]; [|intros Hact|done].
  - destruct (emit_all_total now (envelopes (p_worker p) ms) (c_emitter c)) as [em ->].
    destruct Hcoll as [Hw Hms]. intros Hact. eapply safe_act_quiet; [done|exact Hact|done|done|].
    cbn [emission_of]. rewrite Hp. intros e (m & -> & Hm)%list_elem_of_fmap.
    exists (pid p). split; [|split; [done|]].
    + apply list_elem_of_fmap. eexists. split; [|by eapply list_elem_of_lookup_2]. done.
    + rewrite Forall_forall in Hms. by apply Hms.
  - eapply safe_act_quiet; [done|exact Hact|done|done|]. intros ? []%elem_of_nil.
Qed.

Lemma uses_le v n wid : v !! n = Some (wid, Opened) → needs (env := env) (Driver wid) ≤ sum_list_with uses v.
Proof.
  revert n. induction v as [|e v IH]; intros [|n]; simpl; [done..| |].
  - intros [= ->]. unfold uses at 1. simpl. lia.
  - intros Hn%IH. lia.
Qed.

Lemma perform_close_safe n p k c ls c' :
  safe c → procs (c_sys c) !! n = Some p → p_pc p = WClosing → c_collectors c !! n = Some k →
  perform_close sch int_overflow n k c = Some (ls, c') → safe c'.
Proof.
  intros Hs Hp Hpc Hk. destruct (worker_driver c n p Hs Hp) as (Hc & _).
  unfold coll_ok in Hc. rewrite Hpc in Hc.
  pose proof (views_lookup c n p Hp) as Hv. rewrite Hc in Hv.
  destruct (safe_collectors c Hs _ _ Hv) as (k' & Hk' & Hsound).
  rewrite Hk in Hk'. injection Hk' as <-. pose proof (safe_handles c Hs) as Hh. pose proof (uses_le _ _ _ Hv) as Hle.
  pose proof (close_sound _ _ _ Hsound (c_world c) (safe_world c Hs) ltac:(lia)) as Hclose.
  unfold perform_close. intros Hact.
  assert (∀ w, world_ok w ∧ handles w + needs (env := env) (Driver (pid p)) = handles (c_world c) ∧
    result_sets w = result_sets (c_world c) →
    act sch int_overflow (LClose n) w (c_collectors c) (c_emitter c) c = Some (ls, c') → safe c') as Hgo.
  { intros w (Hw & Hh' & Hr') Hact'. eapply safe_act; [done|exact Hact'|done|done|..].
    - simpl. pose proof (sum_list_with_alter uses (λ e, (e.1, Closed)) _ _ _ Hv) as Hsum.
      unfold uses at 2 4 in Hsum. simpl in Hsum. lia.
    - intros m wid Hm. simpl in Hm. apply (alter_lookup_Some _ _ _ _ _ _ Hv) in Hm as [[_ [=]]|[_ Hm]].
      by apply Hs.
    - intros ? []%elem_of_nil. }
  destruct (Close k (c_world c)) as [[[]|e|m] w]; [by eapply Hgo..|done].
Qed.

Lemma perform_safe e c ls c' : safe c → perform sch int_overflow e c = Some (ls, c') → safe c'.
Proof using TotalEmitter0.
  intros Hs. unfold perform. rewrite (safe_panic c Hs). destruct e as [names order|n|n now|n|l].
  - case_decide; [|done].
    destruct (ListInstances (c_world c)) as [infos|err|m] eqn:HL;
      [..|by destruct (broker_sound (sch := sch) (env := env) (c_world c) m (safe_world c Hs))];
      (intros Hact; eapply safe_act_quiet; [done|exact Hact|done|apply undisturbed_refl, Hs|]);
      intros ? []%elem_of_nil.
  - intros (p & Hp & Hact)%bind_Some. destruct (p_pc p) eqn:Hpc; try discriminate Hact.
    by eapply perform_new_safe.
  - intros (p & Hp & (k & Hk & Hact)%bind_Some)%bind_Some.
    destruct (p_pc p) eqn:Hpc; try discriminate Hact. eapply perform_collect_safe; eauto.
  - intros (p & Hp & (k & Hk & Hact)%bind_Some)%bind_Some.
    destruct (p_pc p) eqn:Hpc; try discriminate Hact. by eapply perform_close_safe.
  - destruct (internal l) eqn:Hi; [|done]. intros Hact.
    eapply safe_act_quiet; [done|exact Hact|by destruct l|apply undisturbed_refl, Hs|].
    destruct l; try discriminate Hi; intros ? []%elem_of_nil.
Qed.

Lemma history_safe em0 ls c :
  world_ok w0 → history sch int_overflow env w0 em0 ls c → safe c.
Proof using TotalEmitter0.
  intros Hw. induction 1 as [|ls c e ls' c' _ IH Hp|ls c w _ IH Hn He].
  - by apply safe_start.
  - by eapply perform_safe.
  - destruct IH. destruct (env_sound (sch := sch) _ _ safe_world0 He) as (? & Hh & Hr).
    split; try done; simpl; [by rewrite Hh|by rewrite Hr].
Qed.

(** ** Progress: what the scheduler can do, the program can do *)

Lemma act_enabled l w cs em (c : conf) s :
  exec sch int_overflow l (c_sys c) = Some s →
  act sch int_overflow l w cs em c = Some ([l], mkConf s w cs em None).
Proof. intros Hex. unfold act. by rewrite Hex. Qed.

Lemma exec_worker_pc l n p s s' :
  exec_worker int_overflow l n p s = Some s' →
  match l with
  | LNew _ _ => p_pc p = WNew
  | LCollect _ _ => ∃ ec, p_pc p = WCollecting ec
  | LClose _ => p_pc p = WClosing
  | _ => True
  end.
Proof. unfold exec_worker. destruct l, (p_pc p); try done; eauto. Qed.

Lemma opened_collector c n p :
  safe c → procs (c_sys c) !! n = Some p → (∃ ec, p_pc p = WCollecting ec) ∨ p_pc p = WClosing →
  ∃ k, c_collectors c !! n = Some k ∧
    collector_sound (needs (env := env) (Driver (pid p))) (declared (env := env) (Driver (pid p))) k.
Proof.
  intros Hs Hp Hpc. destruct (worker_driver c n p Hs Hp) as (Hc & _).
  apply (safe_collectors c Hs n). rewrite (views_lookup c n p Hp). do 2 f_equal.
  unfold coll_ok in Hc. by destruct Hpc as [[ec Hpc]|Hpc]; rewrite Hpc in Hc.
Qed.

(** An action that the scheduler can take, with the answer of the component, is
    the action of some event. *)
Lemma perform_complete l c s :
  safe c → exec sch int_overflow l (c_sys c) = Some s → answered sch c l →
  ∃ e c', perform sch int_overflow e c = Some ([l], c') ∧ c_sys c' = s.
Proof using TotalEmitter0.
  intros Hs Hex Ha. destruct (internal l) eqn:Hi.
  { exists (EInternal l). unfold perform. rewrite (safe_panic c Hs), Hi.
    rewrite (act_enabled _ _ _ _ _ _ Hex). eauto. }
  destruct l; try discriminate Hi; cbn [answered] in Ha; pose proof Hex as Hex';
    cbn [exec] in Hex;
    try (apply bind_Some in Hex as (p & Hp & Hex); pose proof (exec_worker_pc _ _ _ _ _ Hex) as Hpc).
  - exists (ERefresh names order). unfold perform. rewrite (safe_panic c Hs). rewrite <-Ha.
    case_decide; [|done]. destruct res; [rewrite (act_enabled _ _ _ _ _ _ Hex'); by eauto..|done].
  - exists (ENew n). unfold perform. rewrite (safe_panic c Hs), Hp. simpl. rewrite Hpc.
    destruct Ha as (p' & d & Hp' & Hd & ->). rewrite Hp in Hp'. injection Hp' as <-.
    unfold perform_new. rewrite Hd. simpl.
    destruct (NewCollector d _ _) as [[k|e|m] w]; cbn [fst fmap outcome_fmap] in *;
      [rewrite (act_enabled _ _ _ _ _ _ Hex'); by eauto..|].
    unfold exec_worker in Hex. by rewrite Hpc in Hex.
  - exists (ECollect n (λ _, 0%Z)). unfold perform. destruct Hpc as [ec Hpc].
    destruct Ha as (k & Hk & ->). rewrite (safe_panic c Hs), Hp. simpl. rewrite Hk. simpl. rewrite Hpc.
    unfold perform_collect. destruct (Collect k (c_world c)) as [[ms|e|m] w]; cbn [fst] in *.
    + destruct (emit_all_total (λ _, 0%Z) (envelopes (p_worker p) ms) (c_emitter c)) as [em ->].
      rewrite (act_enabled _ _ _ _ _ _ Hex'). eauto.
    + rewrite (act_enabled _ _ _ _ _ _ Hex'). eauto.
    + unfold exec_worker in Hex. by rewrite Hpc in Hex.
  - exists (EClose n). unfold perform. rewrite (safe_panic c Hs), Hp. simpl.
    destruct (opened_collector c n p Hs Hp) as (k & Hk & Hsound); [by right|]. rewrite Hk. simpl. rewrite Hpc.
    assert (needs (env := env) (Driver (pid p)) ≤ handles (c_world c)) as Hle.
    { rewrite (safe_handles c Hs). etrans; [|apply Nat.le_add_l]. apply (uses_le _ n).
      rewrite (views_lookup c n p Hp). destruct (worker_driver c n p Hs Hp) as (Hc & _).
      unfold coll_ok in Hc. rewrite Hpc in Hc. by rewrite Hc. }
    pose proof (close_sound _ _ _ Hsound (c_world c) (safe_world c Hs) Hle) as Hclose.
    unfold perform_close.
    destruct (Close k (c_world c)) as [[|e|m] w];
      [rewrite (act_enabled _ _ _ _ _ _ Hex'); by eauto..|done].
Qed.

(** What the pending calls would answer. *)
Definition pending_new (c : conf) (n : nat) : outcome unit :=
  match procs (c_sys c) !! n with
  | Some p =>
      match metricsCollectorDrivers sch !! Driver (pid p) with
      | Some d => (λ _, tt) <$> (NewCollector d (instanceInfo (p_worker p)) (c_world c)).1
      | None => Err ""
      end
  | None => Err ""
  end.
Definition pending_collect (c : conf) (n : nat) : outcome (list Metric) :=
  match views c !! n with
  | Some (_, Opened) => from_option (λ k, (Collect k (c_world c)).1) (Err "") (c_collectors c !! n)
  | _ => Err ""
  end.

Lemma pending_total c :
  safe c → (∀ n m, pending_new c n ≠ Panic m) ∧ (∀ n m, pending_collect c n ≠ Panic m).
Proof.
  intros Hs. split; intros n m.
  - unfold pending_new. destruct (procs (c_sys c) !! n) as [p|] eqn:Hp; [|done].
    destruct (worker_driver c n p Hs Hp) as (_ & d & -> & Ht & Hd).
    specialize (Hd _ _ (safe_world c Hs) Ht). by destruct (NewCollector d _ _) as [[] w].
  - unfold pending_collect. destruct (views c !! n) as [[wid []]|] eqn:Hv; try done.
    destruct (safe_collectors c Hs n wid Hv) as (k & -> & Hk).
    pose proof (collect_sound _ _ _ Hk _ (safe_world c Hs)) as Hc. simpl.
    by destruct (Collect k (c_world c)) as [[] w].
Qed.

Lemma drain_event c :
  safe c → main (c_sys c) = MDrain →
  ∃ e l c', perform sch int_overflow e c = Some ([l], c') ∧ helpful l = true.
Proof using TotalEmitter0.
  intros Hs Hm. destruct (pending_total c Hs) as [Hnew Hcoll].
  destruct (drain_progress sch int_overflow (pending_new c) (pending_collect c) (c_sys c)
    (safe_inv c Hs) Hm Hnew Hcoll) as (l & s & Hl & Hex & Hn & Hc).
  destruct (perform_complete l c s Hs Hex) as (e & c' & Hp & _); [|by eauto].
  destruct l; simpl; try done; cbn [exec] in Hex.
  - by rewrite Hm, decide_False in Hex.
  - apply bind_Some in Hex as (p & Hp & _). rewrite (Hn _ _ eq_refl).
    destruct (worker_driver c n p Hs Hp) as (_ & d & Hd & _). exists p, d.
    unfold pending_new. by rewrite Hp, Hd.
  - apply bind_Some in Hex as (p & Hp & Hex). apply exec_worker_pc in Hex. rewrite (Hc _ _ eq_refl).
    destruct (opened_collector c n p Hs Hp) as (k & Hk & _); [by left|]. exists k. split; [done|].
    unfold pending_collect. destruct (worker_driver c n p Hs Hp) as (Hok & _).
    destruct Hex as [ec Hpc]. unfold coll_ok in Hok. rewrite Hpc in Hok.
    by rewrite (views_lookup c n p Hp), Hok, Hk.
Qed.

(** After [Run] has returned no collector is open. *)
Lemma exited_uses c : safe c → main (c_sys c) = MExited → sum_list_with uses (views c) = 0.
Proof.
  intros Hs Hm. apply sum_list_with_zero, Forall_lookup. intros n [wid st] Hv.
  unfold views in Hv. apply list_lookup_fmap_Some in Hv as (p & [= -> ->] & Hp).
  pose proof (safe_inv c Hs) as Hinv. destruct (worker_driver c n p Hs Hp) as (Hok & _).
  unfold uses. simpl. rewrite decide_False; [done|].
  destruct (decide (p_pc p = WDone)) as [Hd|Hd]; [unfold coll_ok in Hok; by rewrite Hd in Hok|].
  pose proof (inv_live sch _ Hinv n p Hp Hd) as Hw.
  rewrite (inv_main sch _ Hinv Hm) in Hw. by apply lookup_empty_Some in Hw.
Qed.

Lemma shut_down_run k c em0 ls :
  world_ok w0 → work_left (c_sys c) ≤ k → history sch int_overflow env w0 em0 ls c →
  main (c_sys c) = MDrain →
  ∃ ls' c', history sch int_overflow env w0 em0 (ls ++ ls') c' ∧ length ls' ≤ k ∧
    main (c_sys c') = MExited.
Proof using Hclients TotalEmitter0.
  intros Hw. revert c ls. induction k as [|k IH]; intros c ls Hk Hh Hm.
  { unfold work_left in Hk. rewrite Hm, decide_False in Hk by done. lia. }
  destruct (drain_event c (history_safe _ _ _ Hw Hh) Hm) as (e & l & c1 & Hp & Hl).
  pose proof (h_event _ _ _ _ _ _ _ _ _ _ Hh Hp) as Hh1.
  apply perform_simulated in Hp as [_ [(? & _)|(l' & [= <-] & _ & Hex & _)]]; [done|].
  destruct (exec_measure sch int_overflow l _ _ ltac:(by rewrite Hm) Hex) as [Hm1 Hless].
  rewrite Hl in Hless. destruct (main (c_sys c1)) eqn:HM; [done| |].
  - destruct (IH c1 (ls ++ [l])) as (ls' & c' & Hh' & Hlen & Hex'); [lia|done|done|].
    exists (l :: ls'), c'. rewrite <-(assoc_L (++)) in Hh'. split_and!; [done|simpl; lia|done].
  - exists [l], c1. split_and!; [done|simpl; lia|done].
Qed.
End safety.

(** ** Properties *)

(** A world that counts database handles, drivers that open one for each
    collector, a broker with one instance, an emitter that keeps what it gets. *)
Module Counting.
Definition collector : MetricsCollector nat :=
  mkCollector (λ w, (Ok [sample_metric], w)) (λ w, (Ok tt, pred w)).
Definition driver (name : string) : MetricsCollectorDriver nat :=
  mkDriver (λ _ w, (Ok collector, S w)) name ["postgres"] 60.
Definition sched : Scheduler nat :=
  WithDriver (NewScheduler sample_config) [driver "postgres"; driver "cloudwatch"].
Definition broker : BrokerInfo nat := {|
  ListInstances _ := Ok [sample_pg];
  GetInstanceConnectionDetails _ _ := Err "unused";
  GetInstanceName := GUID;
|}.
Definition emitter : MetricsEmitter (list MetricEnvelope) := λ _ me em, Ok (em ++ [me]).
Definition world : WorldSpec nat := {|
  world_ok _ := True; handles w := w; result_sets _ := 0;
|}.

Definition clients : @SchedulerClients nat sched broker world eq.
Proof.
  refine (@Build_SchedulerClients nat sched broker world eq (λ _, 1) (λ _ m, m = sample_metric) _ _ _).
  - done.
  - intros name d Hd.
    assert (∃ n, d = driver n) as [n ->].
    { unfold sched in Hd. simpl in Hd. rewrite !lookup_insert_Some, lookup_empty in Hd. naive_solver. }
    intros i w _ _. simpl. split_and!; [done|lia|done|]. split; simpl.
    + intros w' _. split; [done|by repeat constructor].
    + intros w' _ ?. split_and!; [done|lia|done].
  - by intros w w' _ <-.
Defined.

Definition total : @TotalEmitter (list MetricEnvelope) emitter.
Proof. intros now me em. by eexists. Defined.

(** The broker lists the instance, one worker collects and is collecting again
    when a signal arrives. *)
Definition events : list event :=
  [ ERefresh sample_names sample_order; ENew 0; EInternal (LTimer 0); ECollect 0 (λ _, 7%Z);
    EInternal (LTimer 0); EInternal LSignal ].
Definition start : conf nat (list MetricEnvelope) := mkConf sys_init 0 ∅ [] None.
Definition run : option (list label * conf nat (list MetricEnvelope)) :=
  @perform_all nat (list MetricEnvelope) sched 0 broker emitter events start.

Lemma counting_history ls c :
  run = Some (ls, c) → @history nat (list MetricEnvelope) sched 0 broker emitter eq 0 [] ls c.
Proof.
  intros Hr. change ls with ([] ++ ls).
  eapply (@perform_all_history nat (list MetricEnvelope) sched 0 broker emitter eq); [|exact Hr].
  constructor.
Qed.
End Counting.

(** After the run one handle is open and one metric has been emitted. *)
Lemma counting_run :
  ∃ ls c, Counting.run = Some (ls, c) ∧ c_world c = 1 ∧
    c_emitter c = [mkEnvelope "guid" sample_metric] ∧ main (c_sys c) = MDrain.
Proof.
  assert ((λ r, (c_world r.2, c_emitter r.2, main (c_sys r.2))) <$> Counting.run =
    Some (1, [mkEnvelope "guid" sample_metric], MDrain)) as Hr by (vm_compute; reflexivity).
  destruct Counting.run as [[ls c]|]; simpl in Hr; [|discriminate Hr].
  injection Hr as Hw He Hm. by exists ls, c.
Qed.

(** C9: the program can always be shut down cleanly.  With components that keep
    their contracts, from every configuration in which the main loop has
    returned, some continuation of at most [work_left] events, with the answers
    that the components really give, ends with [Run] returning; by then every
    database handle that was opened since the start has been closed. *)
Theorem system_shuts_down {W E} (sch : Scheduler W) int_overflow `{MetricsEmitter E}
    (env : W → W → Prop) `{SchedulerClients W sch env} `{!TotalEmitter E} w0 em0 ls (c : conf W E) :
  world_ok w0 → history sch int_overflow env w0 em0 ls c → main (c_sys c) = MDrain →
  ∃ ls' c', history sch int_overflow env w0 em0 (ls ++ ls') c' ∧
    length ls' ≤ work_left (c_sys c) ∧ main (c_sys c') = MExited ∧
    handles (c_world c') = handles w0 ∧ result_sets (c_world c') = result_sets w0.
Proof.
  intros Hw Hh Hm.
  destruct (shut_down_run sch int_overflow env w0 (work_left (c_sys c)) c em0 ls Hw ltac:(lia) Hh Hm)
    as (ls' & c' & Hh' & Hlen & Hex).
  pose proof (history_safe sch int_overflow env w0 em0 _ c' Hw Hh') as Hs.
  exists ls', c'. split_and!; [done|done|done| |apply Hs].
  rewrite (safe_handles _ _ _ _ Hs), (exited_uses _ _ _ c' Hs Hex). lia.
Qed.

Lemma system_shuts_down_witness :
  ∃ ls c, Counting.run = Some (ls, c) ∧ c_world c = 1 ∧
    ∃ ls' c', length ls' ≤ work_left (c_sys c) ∧ main (c_sys c') = MExited ∧ c_world c' = 0 ∧
      @history nat (list MetricEnvelope) Counting.sched 0 Counting.broker Counting.emitter eq 0 []
        (ls ++ ls') c'.
Proof.
  destruct counting_run as (ls & c & Hrun & Hw & _ & Hm). exists ls, c.
  split; [exact Hrun|]. split; [exact Hw|].
  edestruct (@system_shuts_down nat (list MetricEnvelope) Counting.sched 0 Counting.emitter eq
    Counting.broker Counting.world Counting.clients Counting.total 0 [])
    as (ls' & c' & Hh & Hlen & Hex & Hhandles & _);
    [exact I|exact (Counting.counting_history ls c Hrun)|exact Hm|].
  exists ls', c'. split; [exact Hlen|]. split; [exact Hex|]. split; [exact Hhandles|exact Hh].
Defined.
