(* ===== verification/SystemMonitor.v ===== *)
(** * The running program as a monitor

    An abstract view of the program that knows nothing of goroutines, contexts and
    channels: the set of workers, each for a driver and an instance, the
    envelopes delivered so far, and the emitter.  The theorem is that each event
    of the program is the corresponding step of the monitor, with the answers that
    the broker, the drivers and the collectors give in the world at that moment. *)

From S2P Require Import Prelude GoStrings Utils Metrics BrokerInfo Collector Config Worker.
From S2P Require Import Scheduler SchedulerInv SchedulerProps System SystemProps.
From stdpp Require Import options.

(** ** The abstract specification *)

Record monitor (E : Type) := mkMonitor {
  mon_workers : gset workerID;
  mon_delivered : list MetricEnvelope;
  mon_emitter : E;
}.
Arguments mkMonitor {E}.
Arguments mon_workers {E}.
Arguments mon_delivered {E}.
Arguments mon_emitter {E}.

Section monitor.
Context {W E : Type} (sch : Scheduler W) `{BrokerInfo W} `{MetricsEmitter E}.

(** A collector that the driver of [wid] made for the instance of [wid]. *)
Definition made_for (wid : workerID) (k : MetricsCollector W) : Prop :=
  ∃ d i w w', metricsCollectorDrivers sch !! Driver wid = Some d ∧ serves sch wid i ∧
    NewCollector d i w = (Ok k, w').

(** A collection of [k] for [wid] in the world [w]: its metrics are delivered,
    addressed to the instance, unless it fails or the emitter does. *)
Definition delivers (wid : workerID) (k : MetricsCollector W) (now : nat → Z) (w : W)
    (m m' : monitor E) : Prop :=
  match (Collect k w).1 with
  | Ok ms =>
      let es := mkEnvelope (wInstanceGUID wid) <$> ms in
      match emit_all now es (mon_emitter m) with
      | Ok em => m' = mkMonitor (mon_workers m) (mon_delivered m ++ es) em
      | _ => m' = m
      end
  | _ => m' = m
  end.

(** The step of the monitor that an event in the world [w] amounts to: a refresh
    adds the workers that the listed instances call for; a collection is one of a
    registered worker, with a collector of its own; a stopped worker is removed;
    no other event has an effect. *)
Definition monitor_step (e : event) (w : W) (m m' : monitor E) : Prop :=
  match e with
  | ERefresh _ _ =>
      match ListInstances w with
      | Ok infos => ∃ D, (∀ wid, wid ∈ D ↔ ∃ i, i ∈ infos ∧ serves sch wid i) ∧
          m' = mkMonitor (mon_workers m ∪ D) (mon_delivered m) (mon_emitter m)
      | _ => m' = m
      end
  | ECollect _ now =>
      ∃ wid k, wid ∈ mon_workers m ∧ made_for wid k ∧ delivers wid k now w m m'
  | EInternal LRecv =>
      ∃ wid, wid ∈ mon_workers m ∧
        m' = mkMonitor (mon_workers m ∖ {[wid]}) (mon_delivered m) (mon_emitter m)
  | _ => m' = m
  end.

(** The monitor that a configuration shows. *)
Definition monitor_of (c : conf W E) : monitor E :=
  mkMonitor (dom (workers (c_sys c))) (emitted (c_sys c)) (c_emitter c).
End monitor.

(** ** Lemmas *)

Section simulation.
Context {W E : Type} (sch : Scheduler W) (int_overflow : Z) `{BrokerInfo W} `{MetricsEmitter E}.
Context (env : W → W → Prop).
Local Abbreviation exec := (exec sch int_overflow).
Local Abbreviation perform := (perform sch int_overflow).
Local Abbreviation conf := (conf W E).

(** Each goroutine's collector was made for its worker. *)
Definition collectors_made (c : conf) : Prop :=
  ∀ n k, c_collectors c !! n = Some k →
    ∃ p, procs (c_sys c) !! n = Some p ∧ made_for sch (pid p) k.

(** An action keeps the goroutines' identities, so it keeps their collectors. *)
Lemma collectors_kept l (c : conf) s w em pa :
  exec l (c_sys c) = Some s → collectors_made c →
  collectors_made (mkConf s w (c_collectors c) em pa).
Proof.
  intros Hex Hmade n k Hk. destruct (Hmade n k Hk) as (p & Hp & Hm).
  destruct (proj1 (proj1 (exec_emits sch int_overflow l _ _ Hex)) n p Hp) as (p' & Hp' & Hid).
  exists p'. by rewrite Hid.
Qed.

Lemma act_made l w em (c : conf) ls c' :
  act sch int_overflow l w (c_collectors c) em c = Some (ls, c') → collectors_made c →
  collectors_made c'.
Proof.
  unfold act. intros (s & Hex & [= <- <-])%bind_Some Hmade. by eapply collectors_kept.
Qed.

Lemma perform_made e (c : conf) ls c' :
  inv sch (c_sys c) → perform e c = Some (ls, c') → collectors_made c → collectors_made c'.
Proof.
  intros Hinv Hp Hmade. unfold System.perform in Hp. destruct (c_panic c); [done|].
  assert (∀ m w, Some ([], crash m w c) = Some (ls, c') → collectors_made c') as Hcrash
    by (by intros m w [= <- <-]).
  destruct e as [names order|n|n now|n|l].
  - case_decide; [|done]. destruct (ListInstances (c_world c)); eauto using act_made.
  - apply bind_Some in Hp as (p & Hn & Hp). destruct (p_pc p); try discriminate Hp.
    unfold perform_new in Hp. apply bind_Some in Hp as (d & Hd & Hp).
    destruct (NewCollector d _ _) as [[k|e|m] w] eqn:HE; [|by eapply act_made|by eapply Hcrash].
    unfold act in Hp. apply bind_Some in Hp as (s & Hex & [= <- <-]).
    intros n' k' Hk'. simpl in Hk'. apply lookup_insert_Some in Hk' as [[<- <-]|[_ Hk']].
    + destruct (proj1 (proj1 (exec_emits sch int_overflow _ _ _ Hex)) n p Hn) as (p' & Hp' & Hid).
      exists p'. split; [done|]. rewrite Hid. exists d, (instanceInfo (p_worker p)), (c_world c), w.
      destruct (inv_procs sch _ Hinv n p Hn) as [_ (d' & Hd' & Ht & Hg & _)].
      split_and!; [done| |done]. by exists d'.
    + by eapply (collectors_kept _ _ _ w (c_emitter c) None Hex Hmade).
  - apply bind_Some in Hp as (p & Hn & (k & Hk & Hp)%bind_Some).
    destruct (p_pc p); try discriminate Hp. unfold perform_collect in Hp.
    destruct (Collect k (c_world c)) as [[ms|e|m] w]; [destruct (emit_all _ _ _)| |];
      eauto using act_made.
  - apply bind_Some in Hp as (p & Hn & (k & Hk & Hp)%bind_Some).
    destruct (p_pc p); try discriminate Hp. unfold perform_close in Hp.
    destruct (Close k (c_world c)) as [[] w]; eauto using act_made.
  - destruct (internal l); [|done]. eauto using act_made.
Qed.

Lemma history_made w0 em0 ls c : history sch int_overflow env w0 em0 ls c → collectors_made c.
Proof.
  induction 1 as [|ls c e ls' c' Hh IH Hp|ls c w Hh IH _ _]; [by intros n k Hk| |done].
  eapply perform_made; [|done|done]. apply reachable_inv with (int_overflow := int_overflow).
  by eapply history_reachable.
Qed.

(** An action that neither registers, nor removes, nor delivers. *)
Lemma act_stays l w (c : conf) ls c' :
  inv sch (c_sys c) → act sch int_overflow l w (c_collectors c) (c_emitter c) c = Some (ls, c') →
  match l with LRefresh (Ok _) _ _ | LRecv | LCollect _ (Ok _) => False | _ => True end →
  monitor_of c' = monitor_of c.
Proof.
  intros Hinv (-> & _ & Hex & _ & _ & Hem)%act_Some Hl. unfold monitor_of. rewrite Hem.
  pose proof (exec_registry sch int_overflow l _ _ Hinv Hex) as Hreg.
  destruct (exec_emits sch int_overflow l _ _ Hex) as (_ & Hlog & _). rewrite Hlog.
  assert (workers (c_sys c') = workers (c_sys c)) as -> by (destruct l as [[]| | | | | | | | | | | | |]; done).
  f_equal. destruct l as [| | | | | | | | | | |n res| |]; simpl; rewrite ?app_nil_r; try done.
  destruct res; by rewrite ?app_nil_r.
Qed.

Lemma perform_new_stays n p (c : conf) ls c' :
  inv sch (c_sys c) → perform_new sch int_overflow n p c = Some (ls, c') →
  monitor_of c' = monitor_of c.
Proof.
  intros Hinv Hp. unfold perform_new in Hp. apply bind_Some in Hp as (d & Hd & Hp).
  destruct (NewCollector d _ _) as [[k|e|m] w]; [|by eapply act_stays|by injection Hp as <- <-].
  unfold act in Hp. apply bind_Some in Hp as (s & Hex & [= <- <-]).
  apply (act_stays (LNew n (Ok tt)) w c [LNew n (Ok tt)] (mkConf s w (c_collectors c) (c_emitter c) None));
    [done| |done]. unfold act. by rewrite Hex.
Qed.

Lemma perform_collect_delivers n now p k (c : conf) ls c' :
  procs (c_sys c) !! n = Some p → inv sch (c_sys c) →
  perform_collect sch int_overflow n now p k c = Some (ls, c') →
  delivers (pid p) k now (c_world c) (monitor_of c) (monitor_of c').
Proof.
  intros Hn Hinv Hp. unfold perform_collect, delivers in *.
  destruct (Collect k (c_world c)) as [[ms|e|m] w]; simpl;
    [|by eapply act_stays|by injection Hp as <- <-].
  change (mkEnvelope (wInstanceGUID (pid p)) <$> ms) with (envelopes (p_worker p) ms).
  destruct (emit_all now (envelopes (p_worker p) ms) (c_emitter c)) as [em|m|m];
    [|by injection Hp as <- <-..].
  apply act_Some in Hp as (_ & _ & Hex & _ & _ & Hem). unfold monitor_of. rewrite Hem.
  pose proof (exec_registry sch int_overflow _ _ _ Hinv Hex) as ->.
  destruct (exec_emits sch int_overflow _ _ _ Hex) as (_ & -> & _). simpl. by rewrite Hn.
Qed.

Lemma perform_monitor e (c : conf) ls c' :
  inv sch (c_sys c) → collectors_made c → perform e c = Some (ls, c') →
  monitor_step sch e (c_world c) (monitor_of c) (monitor_of c').
Proof.
  intros Hinv Hmade Hp. unfold System.perform in Hp. destruct (c_panic c); [done|].
  destruct e as [names order|n|n now|n|l]; cbn [monitor_step].
  - case_decide; [|done].
    destruct (ListInstances (c_world c)) as [infos|e|m]; [|by eapply act_stays|by injection Hp as <- <-].
    apply act_Some in Hp as (_ & _ & Hex & _ & _ & Hem). unfold monitor_of. rewrite Hem.
    destruct (exec_registry sch int_overflow _ _ _ Hinv Hex) as (D & HD & ->). exists D.
    destruct (exec_emits sch int_overflow _ _ _ Hex) as (_ & -> & _). simpl. by rewrite app_nil_r.
  - apply bind_Some in Hp as (p & Hn & Hp). destruct (p_pc p); try discriminate Hp.
    by eapply perform_new_stays.
  - apply bind_Some in Hp as (p & Hn & (k & Hk & Hp)%bind_Some).
    destruct (p_pc p) eqn:Hpc; try discriminate Hp. exists (pid p), k. split_and!.
    + apply elem_of_dom. exists n. apply (inv_live sch _ Hinv); [done|by rewrite Hpc].
    + destruct (Hmade n k Hk) as (p' & Hp' & Hm). congruence.
    + by eapply perform_collect_delivers.
  - apply bind_Some in Hp as (p & Hn & (k & Hk & Hp)%bind_Some).
    destruct (p_pc p); try discriminate Hp. unfold perform_close in Hp.
    destruct (Close k (c_world c)) as [[] w]; [by eapply act_stays..|by injection Hp as <- <-].
  - destruct (internal l) eqn:Hi; [|done]. destruct l; try (by eapply act_stays).
    apply act_Some in Hp as (_ & _ & Hex & _ & _ & Hem). unfold monitor_of. rewrite Hem.
    destruct (exec_registry sch int_overflow _ _ _ Hinv Hex) as (wid & n & p & Hn & _ & _ & _ & ->).
    destruct (exec_emits sch int_overflow _ _ _ Hex) as (_ & -> & _).
    exists wid. split; [apply elem_of_dom; eauto|]. simpl. by rewrite app_nil_r, dom_delete_L.
Qed.
End simulation.

(** ** Properties *)

(** C8: the program implements the monitor.  With any broker, drivers, emitter and
    environment, the program starts as the empty monitor, and each of its events,
    from whatever configuration it has reached and with whatever interleaving of
    its goroutines, is the corresponding step of the monitor in the world at that
    moment.  In particular a worker appears exactly when the broker lists an
    instance that its driver supports, it disappears only by its stop message, and
    the envelopes are those of the collections that succeed, each by a registered
    worker with a collector that its own driver made for its own instance. *)
Theorem system_refines_monitor {W E} (sch : Scheduler W) int_overflow `{BrokerInfo W}
    `{MetricsEmitter E} (env : W → W → Prop) (w0 : W) (em0 : E) :
  monitor_of (mkConf sys_init w0 ∅ em0 None) = mkMonitor ∅ [] em0 ∧
  ∀ ls c e ls' c',
    history sch int_overflow env w0 em0 ls c → perform sch int_overflow e c = Some (ls', c') →
    monitor_step sch e (c_world c) (monitor_of c) (monitor_of c').
Proof.
  split; [unfold monitor_of; simpl; by rewrite dom_empty_L|].
  intros ls c e ls' c' Hh Hp. eapply perform_monitor; [|by eapply history_made|done].
  apply reachable_inv with (int_overflow := int_overflow). by eapply history_reachable.
Qed.

(** The first collection of the sample run, of the worker that [ENew 0] opened. *)
Lemma counting_collects :
  ∃ ls c ls' c',
    @perform_all nat (list MetricEnvelope) Counting.sched 0 Counting.broker Counting.emitter
      (take 3 Counting.events) Counting.start = Some (ls, c) ∧
    @perform nat (list MetricEnvelope) Counting.sched 0 Counting.broker Counting.emitter
      (ECollect 0 (λ _, 7%Z)) c = Some (ls', c') ∧
    mon_delivered (monitor_of c') = [mkEnvelope "guid" sample_metric].
Proof.
  assert (('(ls, c) ← @perform_all nat (list MetricEnvelope) Counting.sched 0 Counting.broker
            Counting.emitter (take 3 Counting.events) Counting.start;
          '(ls', c') ← @perform nat (list MetricEnvelope) Counting.sched 0 Counting.broker
            Counting.emitter (ECollect 0 (λ _, 7%Z)) c;
          Some (mon_delivered (monitor_of c'))) = Some [mkEnvelope "guid" sample_metric]) as Hr
    by (vm_compute; reflexivity).
  apply bind_Some in Hr as ([ls c] & Hrun & Hr). apply bind_Some in Hr as ([ls' c'] & Hp & Hr).
  exists ls, c, ls', c'. split_and!; [exact Hrun|exact Hp|congruence].
Qed.

Lemma system_refines_monitor_witness :
  ∃ c c' : conf nat (list MetricEnvelope),
    mon_delivered (monitor_of c') = [mkEnvelope "guid" sample_metric] ∧
    @monitor_step nat (list MetricEnvelope) Counting.sched Counting.broker Counting.emitter
      (ECollect 0 (λ _, 7%Z)) (c_world c) (monitor_of c) (monitor_of c').
Proof.
  destruct counting_collects as (ls & c & ls' & c' & Hrun & Hp & Hd). exists c, c'.
  split; [exact Hd|].
  eapply (proj2 (@system_refines_monitor nat (list MetricEnvelope) Counting.sched 0 Counting.broker
    Counting.emitter eq 0 []) ([] ++ ls) c (ECollect 0 (λ _, 7%Z)) ls' c'); [|exact Hp].
  eapply perform_all_history; [apply h_start|exact Hrun].
Defined.
