(* ===== verification/Services.v ===== *)
(** * The drivers and the broker keep their contracts

    [ServicesSpec] states what the services outside the process are documented to
    do: [database/sql] returns errors and does not panic, a successful [Open] takes
    a handle and [Close] gives it back, a result set is open from the query until
    it is closed, the RDS client returns no nil instances, CloudWatch's datapoints
    have units.  From it this file derives the contracts of SystemProps for the
    SQL drivers, the CloudWatch driver and the RDS broker information. *)

From S2P Require Import Prelude GoStrings Utils Metrics BrokerInfo Collector SqlCollector.
From S2P Require Import CloudWatchCollector Config Worker Scheduler SystemProps.
From stdpp Require Import options.

(** ** Outcomes that are not panics *)

Definition total {A} (m : outcome A) : Prop := match m with Panic _ => False | _ => True end.

Lemma total_bind {A B} (m : outcome A) (f : A → outcome B) :
  total m → (∀ a, m = Ok a → total (f a)) → total (m ≫= f).
Proof. destruct m; simpl; auto. Qed.

Lemma total_fmap {A B} (f : A → B) (m : outcome A) : total m → total (f <$> m).
Proof. by destruct m. Qed.

Lemma total_mapM {A B} (f : A → outcome B) l : (∀ x, total (f x)) → total (outcome_mapM f l).
Proof.
  intros Hf. induction l as [|x l IH]; [done|]. cbn [outcome_mapM].
  apply total_bind; [done|]. intros y _. by apply total_bind.
Qed.

Lemma total_of_option {A} msg (o : option A) : total (of_option msg o).
Proof. by destruct o. Qed.

#[export] Hint Resolve total_fmap total_mapM total_of_option : gocol.

(** ** A SQL collection does not panic *)

(** A row whose columns and values can be asked for. *)
Definition row_total (r : row) : Prop := total (row_columns r) ∧ total (row_values r).

Section sql_total.
Context `{UnicodeTables} `{SqlFormats}.

Lemma scan_one_total d v : total (scan_one d v).
Proof. destruct d, v; simpl; auto with gocol. Qed.

Lemma scan_all_total ds vs : total (scan_all ds vs).
Proof.
  revert vs. induction ds as [|d ds IH]; intros [|v vs]; try done. cbn [scan_all].
  apply total_bind; [apply scan_one_total|]. intros x _. by apply total_bind.
Qed.

Lemma Scan_total r ds : row_total r → total (Scan r ds).
Proof.
  intros [_ Hv]. apply total_bind; [done|]. intros vs _. case_decide; [apply scan_all_total|done].
Qed.

Lemma rows_loop_total {A} (body : A → row → outcome A) acc rs :
  Forall row_total rs → (∀ a r, row_total r → total (body a r)) → total (rows_loop body acc rs).
Proof.
  intros Hrs Hbody. revert acc. induction Hrs as [|r rs Hr _ IH]; intros acc; [done|].
  cbn [rows_loop]. apply total_bind; [by apply Hbody|]. auto.
Qed.

Lemma column_row_total query metas acc r : row_total r → total (column_row query metas acc r).
Proof.
  intros Hr. apply total_bind.
  - apply total_bind; [apply Hr|]. intros cols _. case_decide; [done|].
    apply total_bind; [by apply Scan_total|done].
  - intros [rowMap tags] _. apply total_bind; [|done]. apply total_mapM.
    intros m. unfold column_metric. by case_match.
Qed.

(** The destinations of [Scan] keep their types: the last branch of [row_row] is
    never taken. *)
Lemma row_row_total query acum r : row_total r → total (row_row query acum r).
Proof.
  intros Hr. apply total_bind; [apply Hr|]. intros cols _. case_decide; [done|].
  apply total_bind; [by apply Scan_total|]. intros xs Hscan.
  apply outcome_bind_Ok in Hscan as (vs & _ & Hscan). case_decide as Hlen; [|done].
  destruct vs as [|vk [|vf rest]]; [done|done|]. cbn [scan_all] in Hscan.
  apply outcome_bind_Ok in Hscan as (x1 & Hx1 & (xs1 & Hscan & [= <-])%outcome_bind_Ok).
  apply outcome_bind_Ok in Hscan as (x2 & Hx2 & (xs2 & _ & [= <-])%outcome_bind_Ok).
  cbn [scan_one] in Hx1, Hx2.
  destruct (convert_string vk); [|done..]. destruct (convert_float64 vf); [|done..].
  by simplify_eq/=.
Qed.

Definition query_result (q : metricQuery) (rows : Rows) : outcome (list Metric) :=
  match q with
  | columnMetricQuery query metas => column_getMetrics query metas rows
  | rowMetricQuery query metas => row_getMetrics query metas rows
  end.

Lemma query_result_total q rows : Forall row_total (rows_data rows) → total (query_result q rows).
Proof.
  intros Hrows. destruct q as [query metas|query metas].
  - apply rows_loop_total; [done|]. intros. by apply column_row_total.
  - apply total_bind; [apply rows_loop_total; [done|]; intros; by apply row_row_total|].
    intros acum _. apply total_mapM. intros m. unfold row_metric. by case_match.
Qed.
End sql_total.

(** ** What the services do *)

Section services.
Context {W : Type} `{WorldSpec W}.

(** A database handle. *)
Record db_sound (db : SqlDB W) : Prop := {
  db_ping w : world_ok w →
    match PingContext w with (Panic _, _) => False | (_, w') => undisturbed w w' end;
  db_query q w : world_ok w →
    match QueryContext q w with
    | (Ok rows, w') => world_ok w' ∧ handles w' = handles w ∧
                       result_sets w' = S (result_sets w) ∧ Forall row_total (rows_data rows)
    | (Err _, w') => undisturbed w w'
    | (Panic _, _) => False
    end;
  db_close_rows w : world_ok w →
    world_ok (CloseRows w) ∧ handles (CloseRows w) = handles w ∧
    result_sets (CloseRows w) = pred (result_sets w);
  db_close w : world_ok w →
    match CloseDB w with
    | (Panic _, _) => False
    | (_, w') => world_ok w' ∧ handles w' = pred (handles w) ∧ result_sets w' = result_sets w
    end;
}.

Class ServicesSpec `{RDSInstance W} `{SqlOpen W} `{CloudWatchAPI W} := {
  open_sound driver url w : world_ok w →
    match Open driver url w with
    | (Ok db, w') => db_sound db ∧ world_ok w' ∧ handles w' = S (handles w) ∧
                     result_sets w' = result_sets w
    | (Err _, w') => undisturbed w w'
    | (Panic _, _) => False
    end;
  describe_sound id w : world_ok w →
    match Describe id w with Ok d => is_Some d | Err _ => True | Panic _ => False end;
  describe_tag_sound k v w : world_ok w →
    match DescribeByTag k v w with Ok l => Forall is_Some l | Err _ => True | Panic _ => False end;
  cloudwatch_sound w instance : world_ok w →
    cw_order w ≡ₚ metricNamesToLabels ∧ api_total (cw_api w) (cw_clock w) instance (cw_order w);
}.
End services.

(** ** SQL drivers *)

(** A metric that one of the queries declares. *)
Definition sql_declared (qs : list metricQuery) (m : Metric) : Prop :=
  ∃ q meta, q ∈ qs ∧ meta ∈ Metrics q ∧ described_by m meta.

Section sql.
Context `{UnicodeTables} `{SqlFormats} {W : Type} `{WorldSpec W} (db : SqlDB W) (Hdb : db_sound db).

Lemma undisturbed_trans (w1 w2 w3 : W) : undisturbed w1 w2 → undisturbed w2 w3 → undisturbed w1 w3.
Proof. intros (_ & ? & ?) (? & ? & ?). split_and!; [done|congruence|congruence]. Qed.

(** What a call that may fail leaves of the world, and what it returns. *)
Definition call_sound {A} (P : A → Prop) (w : W) (r : outcome A * W) : Prop :=
  undisturbed w r.2 ∧ match r.1 with Ok a => P a | Err _ => True | Panic _ => False end.

Lemma getMetrics_sound q w :
  world_ok w →
  call_sound (Forall (λ m, ∃ meta, meta ∈ Metrics q ∧ described_by m meta)) w (getMetrics q w).
Proof using Hdb.
  intros Hw. destruct (getMetrics q w) as [res w'] eqn:Hg.
  assert (∀ ms, res = Ok ms → Forall (λ m, ∃ meta, meta ∈ Metrics q ∧ described_by m meta) ms) as Hms.
  { intros ms ->. apply Forall_forall. apply (getMetrics_described q w w' ms Hg). }
  unfold getMetrics in Hg. pose proof (db_query db Hdb (Query q) w Hw) as Hq.
  destruct (QueryContext (Query q) w) as [[rows|e|p] w1].
  - destruct Hq as (Hw1 & Hh & Hr & Hrows). injection Hg as Hres <-.
    destruct (db_close_rows db Hdb w1 Hw1) as (? & Hh' & Hr').
    split; [split_and!; simpl; [done|congruence|rewrite Hr', Hr; done]|].
    pose proof (query_result_total q rows Hrows) as Ht. unfold query_result in Ht. rewrite Hres in Ht.
    destruct res; [by apply Hms|done|done].
  - by injection Hg as <- <-.
  - done.
Qed.

Lemma collect_queries_sound qs acc w :
  world_ok w → call_sound (λ ms, ∃ new, ms = acc ++ new ∧ Forall (sql_declared qs) new) w
    (collect_queries qs acc w).
Proof using Hdb.
  revert acc w. induction qs as [|q qs IH]; intros acc w Hw; cbn [collect_queries].
  { split; [done|]. exists []. by rewrite app_nil_r. }
  destruct (getMetrics_sound q w Hw) as [Hu Hres]. destruct (getMetrics q w) as [[ms|e|p] w1]; [|done..].
  simpl in Hu, Hres. destruct (IH (acc ++ ms) w1 (proj1 Hu)) as [Hu' Hres'].
  destruct (collect_queries qs (acc ++ ms) w1) as [res w2].
  split; [by eapply undisturbed_trans|]. simpl in *. destruct res as [all| |]; try done.
  destruct Hres' as (new & -> & Hnew). exists (ms ++ new). split; [by rewrite (assoc_L (++))|].
  apply Forall_app. split; (eapply Forall_impl; [eassumption|]).
  - intros m (meta & ? & ?). exists q, meta. split_and!; [left|done|done].
  - intros m (q' & meta & ? & ?). exists q', meta. split; [by right|done].
Qed.

Lemma sql_Collect_sound qs w :
  world_ok w → call_sound (Forall (sql_declared qs)) w (sql_Collect qs w).
Proof using Hdb.
  intros Hw. unfold sql_Collect. pose proof (db_ping db Hdb w Hw) as Hp.
  destruct (PingContext w) as [[[]|e|p] w0]; [|done..].
  destruct (collect_queries_sound qs [] w0 (proj1 Hp)) as [Hu Hres].
  destruct (collect_queries qs [] w0) as [res w1]. split; [by eapply undisturbed_trans|].
  simpl in *. destruct res; [|done..]. by destruct Hres as (new & -> & ?).
Qed.

Lemma sqlMetricsCollector_sound qs : collector_sound 1 (sql_declared qs) (sqlMetricsCollector qs db).
Proof using Hdb.
  split; intros w Hw.
  - simpl. destruct (sql_Collect_sound qs w Hw) as [Hu Hres].
    by destruct (sql_Collect qs w) as [[ms|e|p] w1].
  - intros Hle. simpl. pose proof (db_close db Hdb w Hw) as Hc.
    destruct (CloseDB w) as [[[]|e|p] w1]; [..|done]; destruct Hc as (? & -> & ?); split_and!; (done || lia).
Qed.
End sql.

Section drivers.
Context `{UnicodeTables} `{SqlFormats} `{SliceSort} {W : Type} `{WorldSpec W}.
Context `{RDSInstance W} `{SqlOpen W} `{CloudWatchAPI W} `{Hservices : !ServicesSpec}.
Context (GenerateHash : string → Z → string) (r : RDSBrokerInfo).
Local Instance rds_broker : BrokerInfo W := RDSBrokerInfo_BrokerInfo GenerateHash r.

Lemma list_step_total l acc :
  Forall is_Some l → total (foldl (list_step r) (Ok acc) l).
Proof.
  intros Hl. revert acc. induction Hl as [|d l [d' ->] _ IH]; intros acc; [done|].
  cbn [foldl]. unfold list_step at 2. simpl. case_match; apply IH.
Qed.

(** [ListInstances] and [GetInstanceConnectionDetails] do not panic. *)
Lemma RDS_ListInstances_total w : world_ok w → total (RDS_ListInstances r w).
Proof using Hservices.
  intros Hw. pose proof (describe_tag_sound "Broker Name" (brokerName r) w Hw) as Hd.
  unfold RDS_ListInstances. destruct (DescribeByTag _ _ w); simpl; [|done..]. by apply list_step_total.
Qed.

Lemma RDS_details_total i w : world_ok w → total (RDS_GetInstanceConnectionDetails GenerateHash r i w).
Proof using Hservices.
  intros Hw. unfold RDS_GetInstanceConnectionDetails. case_match; [done|].
  pose proof (describe_sound (dbInstanceIdentifier r (GUID i)) w Hw) as Hd.
  destruct (Describe _ w); simpl; [|done..]. by destruct Hd as [d ->].
Qed.

Lemma sql_driver_sound d : driver_sound 1 (sql_declared (queries d)) (sql_driver d).
Proof using Hservices.
  intros i w Hw _. cbn [NewCollector sql_driver]. unfold sql_NewCollector.
  pose proof (RDS_details_total i w Hw) as Ht. cbn [GetInstanceConnectionDetails rds_broker RDSBrokerInfo_BrokerInfo].
  destruct (RDS_GetInstanceConnectionDetails GenerateHash r i w) as [details|e|p]; [|done..].
  pose proof (open_sound (sqlDriver d) (ConnectionString d details) w Hw) as Ho.
  destruct (Open _ _ w) as [[db|e|p] w1]; [|done..]. destruct Ho as (Hdb & ? & ? & ?).
  split_and!; [done|lia|done|]. by apply sqlMetricsCollector_sound.
Qed.

(** A metric that CloudWatch may report. *)
Definition cw_declared (m : Metric) : Prop :=
  Key m ∈ metricNamesToLabels.*2 ∧ Tags m = {["source" := "cloudwatch"]}.

Lemma cw_driver_sound d : driver_sound 0 cw_declared (cw_driver d).
Proof using Hservices.
  intros i w Hw _. cbn [NewCollector cw_driver cw_NewCollector].
  split_and!; [done|lia|done|]. split; intros w' Hw'; cbn [Collect Close CloudWatchCollector].
  - destruct (cloudwatch_sound w' (GetInstanceName i) Hw') as [Hperm Htot].
    rewrite cw_Collect_omap by done. split; [done|].
    apply Forall_forall. intros m (e & He & Hm)%list_elem_of_omap.
    apply cw_metric_Some in Hm as (Hk & Ht & _). split; [|done]. rewrite Hk.
    apply list_elem_of_fmap. exists e. split; [done|]. by rewrite <-Hperm.
  - intros _. split_and!; [done|lia|done].
Qed.
End drivers.
