(* ===== verification/Main.v ===== *)
(** * main.go: the program put together

    Start-up as a function of the command line: load the configuration, choose
    the log level and the emitter, build the three drivers and the scheduler,
    create the locket runner, and hand both runners to the process group.  The
    libraries it wires (AWS sessions, locket, ifrit) are parameters. *)

From S2P Require Import Prelude GoStrings GoFlags Json Utils Metrics BrokerInfo Config ConfigProps Collector.
From S2P Require Import SqlCollector MysqlCollector PostgresCollector CloudWatchCollector.
From S2P Require Import Worker Scheduler SchedulerInv SchedulerProps.
From stdpp Require Import options.

(** ** Settings *)

Inductive lager_LogLevel := DEBUG | INFO | ERROR | FATAL.

Definition logLevels : list (string * lager_LogLevel) :=
  [("DEBUG", DEBUG); ("INFO", INFO); ("ERROR", ERROR); ("FATAL", FATAL)].

Definition ConnectionTimeout : Z := 10.
Definition MysqlTLS : string := "skip-verify".
Definition PostgresSSLMode : string := "require".

(** The flags that [init] defines, with their defaults. *)
Definition main_flags : FlagSet :=
  <["config" := StringFlag ""]> (<["stdoutEmitter" := BoolFlag false]> ∅).

(** How the process ends before the group runs: [log.Fatal] and [os.Exit(1)], or
    a panic ([lager]'s [Fatal]). *)
Inductive termination :=
  | Exit (code : Z) (message : string)
  | Crash (message : string).

Definition initLogger `{UnicodeTables} (logLevel : string) : termination + lager_LogLevel :=
  match list_find (λ l, l.1 = ToUpper logLevel) logLevels with
  | Some (_, l) => inr l.2
  | None => inl (Exit 1 ("Invalid log level: " +:+ logLevel))
  end.

(** The lock the locket runner holds. *)
Record Resource := mkResource { resKey : string; resOwner : string; resType : string }.

(** [locket.NewClient], the fresh identifier, and the library's lock type. *)
Class LocketClientAPI `{LocketAPI} := {
  LocketClient : Type;
  NewClient : ClientLocketConfig → string + LocketClient;
  NewV4 : string;
  LockType : string;
}.

Inductive emitter `{LoggregatorAPI} :=
  | StdOut
  | Loggregator (client : IngressClient).

Section main.
Context `{UnicodeTables} `{SqlFormats} `{SliceSort}.
Context {W : Type} `{RDSInstance W} `{SqlOpen W} `{CloudWatchAPI W}.
Context (GenerateHash : string → Z → string).
Context `{LocketClientAPI} `{LoggregatorAPI} `{Validator} `{ConfigFS}.

(** The members of the process group, started in this order. *)
Inductive runner :=
  | LockRunner (client : LocketClient) (lock : Resource)
  | SchedulerRunner (s : Scheduler W).

Definition createLocketRunner (cfg : Config) : termination + runner :=
  match NewClient (cfgLocket cfg) with
  | inl err => inl (Crash ("Failed to initialize locket client: " +:+ err))
  | inr client =>
      inr (LockRunner client (mkResource "rds-metrics-collector" NewV4 LockType))
  end.

Definition main_broker (cfg : Config) : BrokerInfo W :=
  RDSBrokerInfo_BrokerInfo GenerateHash (NewRDSBrokerInfo (cfgRDSBrokerInfo cfg)).

Definition main_emitter (useStdoutEmitter : bool) (cfg : Config) : termination + emitter :=
  if useStdoutEmitter then inr StdOut
  else match NewLoggregatorEmitter (cfgLoggregatorEmitter cfg) with
       | Ok client => inr (Loggregator client)
       | Err err => inl (Exit 1 ("connecting to loggregator: " +:+ err))
       | Panic p => inl (Crash p)
       end.

Definition main_scheduler (cfg : Config) : Scheduler W :=
  let rdsBrokerInfo := main_broker cfg in
  let postgresMetricsCollectorDriver :=
    sql_driver (NewPostgresMetricsCollectorDriver
      (SQLMetricCollectorInterval (cfgScheduler cfg)) ConnectionTimeout PostgresSSLMode) in
  let mysqlMetricsCollectorDriver :=
    sql_driver (NewMysqlMetricsCollectorDriver
      (SQLMetricCollectorInterval (cfgScheduler cfg)) ConnectionTimeout MysqlTLS) in
  let cloudWatchMetricsCollectorDriver :=
    cw_driver (NewCloudWatchCollectorDriver (CWMetricCollectorInterval (cfgScheduler cfg))) in
  let scheduler := NewScheduler (cfgScheduler cfg) in
  let scheduler := WithDriver scheduler [postgresMetricsCollectorDriver] in
  let scheduler := WithDriver scheduler [mysqlMetricsCollectorDriver] in
  WithDriver scheduler [cloudWatchMetricsCollectorDriver].

(** Up to [ifrit.Invoke]: the log level, the emitter and the ordered group. *)
Definition main_start (configFilePath : string) (useStdoutEmitter : bool)
  : termination + (lager_LogLevel * emitter * list (string * runner)) :=
  match LoadConfig configFilePath with
  | (_, Some err) =>
      inl (Exit 1 ("Error loading config file: '" +:+ configFilePath +:+ "'. " +:+ err))
  | (cfg, None) =>
      match initLogger (LogLevel cfg) with
      | inl t => inl t
      | inr level =>
          match main_emitter useStdoutEmitter cfg with
          | inl t => inl t
          | inr metricsEmitter =>
              match createLocketRunner cfg with
              | inl t => inl t
              | inr locketRunner =>
                  inr (level, metricsEmitter,
                       [ ("locketRunner", locketRunner);
                         ("scheduleRunner", SchedulerRunner (main_scheduler cfg)) ])
              end
          end
      end
  end.

(** The process: [flag.Parse], then the rest of [main]. *)
Definition main_process (args : list string)
  : termination + (lager_LogLevel * emitter * list (string * runner)) :=
  match Parse main_flags args with
  | inl e => inl (Exit (flag_status e) "usage")
  | inr fs => main_start (string_flag "config" fs) (bool_flag "stdoutEmitter" fs)
  end.

(** The exit status once the group has ended. *)
Definition main_status (err : option string) : Z := match err with Some _ => 1 | None => 0 end.
End main.

(** ** The registry of [database/sql] *)

Section registry.
Context {D : Type}.

(** [sql.Register], which panics on a nil driver or a name used twice, and the
    look-up of [sql.Open]. *)
Definition Register (name : string) (driver : option D) (reg : gmap string D) : outcome (gmap string D) :=
  match driver, reg !! name with
  | None, _ => Panic "sql: Register driver is nil"
  | Some _, Some _ => Panic ("sql: Register called twice for driver " +:+ name)
  | Some driver, None => Ok (<[name := driver]> reg)
  end.
Definition registered (name : string) (reg : gmap string D) : outcome D :=
  of_option ("sql: unknown driver " +:+ name +:+ " (forgotten import?)") (reg !! name).

(** The [init] of fork/pq-timeouts. *)
Definition pqtimeouts_init (timeoutDriver : D) (reg : gmap string D) : outcome (gmap string D) :=
  Register "pq-timeouts" (Some timeoutDriver) reg.

(** The registrations when the program starts: those of lib/pq and of
    go-sql-driver/mysql, which it imports, and that of the fork. *)
Definition sql_init (pq mysql timeoutDriver : D) : outcome (gmap string D) :=
  reg ← Register "postgres" (Some pq) ∅;
  reg ← Register "mysql" (Some mysql) reg;
  pqtimeouts_init timeoutDriver reg.

(** The initialisation does not panic, and each SQL driver of the collector finds
    the database driver it names: the unknown-driver error cannot occur. *)
Lemma sql_init_spec pq mysql timeoutDriver interval timeout sslMode tls :
  ∃ reg, sql_init pq mysql timeoutDriver = Ok reg ∧
    registered (sqlDriver (NewPostgresMetricsCollectorDriver interval timeout sslMode)) reg = Ok timeoutDriver ∧
    registered (sqlDriver (NewMysqlMetricsCollectorDriver interval timeout tls)) reg = Ok mysql.
Proof. eexists. split; [reflexivity|]. by vm_compute. Qed.
End registry.

(** ** Timers: an invariant of every worker *)

Section timers.
Context {W : Type} (sch : Scheduler W) (int_overflow : Z).
Context (Hretries : (0 ≤ collectorMaxRetries sch)%Z).

(** The error count never exceeds the allowed retries, and the timer of a waiting
    worker was set by its last collection: not yet, with the driver's interval
    after a success, with the back-off after a failure. *)
Definition timer_ok (p : proc) : Prop :=
  let w := p_worker p in
  match p_pc p with
  | WLoop c t =>
      (0 ≤ c ≤ maxRetries w)%Z ∧
      (c = 0%Z → t = 0%Z ∨ t = mul64 (collectInterval_s w) time_Second) ∧
      ((0 < c)%Z → t = mul64 (waitTime int_overflow w c) time_Millisecond)
  | WCollecting c => (0 ≤ c ≤ maxRetries w)%Z
  | _ => True
  end.

Lemma reset_ns_success w ms :
  reset_ns ((Emitted <$> envelopes w ms) ++ [TimerReset (mul64 (collectInterval_s w) time_Second)])
  = mul64 (collectInterval_s w) time_Second.
Proof.
  unfold reset_ns. rewrite omap_app. simpl. by rewrite last_snoc.
Qed.

Lemma exec_worker_timer l n p s s' :
  worker_wf sch (p_worker p) → timer_ok p → Forall timer_ok (procs s) →
  exec_worker int_overflow l n p s = Some s' → Forall timer_ok (procs s').
Proof using Hretries.
  intros (d & _ & _ & _ & _ & _ & Hmax & _) Hp Hall Hex.
  assert (∀ p', timer_ok p' → Forall timer_ok (procs (update n p' s))) as Hupd
    by (intros; by apply Forall_insert).
  unfold exec_worker in Hex. unfold timer_ok in Hp.
  destruct l, (p_pc p) as [|c t|c| | |] eqn:Hpc; try discriminate Hex.
  - destruct res; simplify_eq; apply Hupd; unfold timer_ok; simpl; [|done].
    split_and!; [lia|lia|by left|lia].
  - simplify_eq. apply Hupd. by destruct Hp.
  - case_match; simplify_eq. by apply Hupd.
  - destruct res as [ms|e|]; [..|done]; cbn [on_collect] in Hex.
    + simplify_eq. apply (Hupd (set_pc _ p)). unfold timer_ok. simpl.
      rewrite reset_ns_success. split_and!; [lia|lia|by right|lia].
    + case_decide as Hc; simplify_eq; apply (Hupd (set_pc _ p)); unfold timer_ok; simpl; [|done].
      split_and!; [lia|lia|lia|done].
  - simplify_eq. by apply Hupd.
  - case_decide; simplify_eq. by apply (Hupd (set_pc WDone p)).
Qed.

Lemma refresh_timer names order infos s :
  Forall timer_ok (procs s) → Forall timer_ok (procs (refresh sch names order infos s)).
Proof.
  intros Hall. unfold refresh, cancel_missing. simpl.
  assert (Forall timer_ok (procs (start_missing sch (desiredWorkerIDs sch names infos) order s))) as H1.
  { clear -Hall. revert s Hall. induction order as [|wid order IH]; intros s Hall; [done|].
    rewrite start_missing_cons. apply IH. repeat case_match; try done.
    apply Forall_app. split; [done|]. by repeat constructor. }
  apply Forall_lookup. intros n p' Hp'.
  edestruct (Forall2_lookup_r _ _ _ _ _ (proj1 (cancel_foldl _ _ _)) Hp') as (p & Hp & [-> | ->]);
    rewrite Forall_lookup in H1; exact (H1 n p Hp).
Qed.

Lemma exec_timer l s s' :
  inv sch s → Forall timer_ok (procs s) → exec sch int_overflow l s = Some s' →
  Forall timer_ok (procs s').
Proof using Hretries.
  intros Hinv Hall Hex. destruct l; cbn [exec] in Hex;
    try (apply bind_Some in Hex as (p & Hp & Hex); pose proof (inv_procs sch s Hinv _ p Hp) as [_ Hwf];
         rewrite Forall_lookup in Hall; pose proof (Hall _ p Hp); rewrite <-Forall_lookup in Hall;
         by eapply exec_worker_timer);
    try (unfold recv in Hex; repeat case_match; by simplify_eq).
  repeat case_match; simplify_eq; [by apply refresh_timer|done].
Qed.

Lemma reachable_timer s : sched_reachable sch int_overflow s → Forall timer_ok (procs s).
Proof using Hretries.
  intros Hr. assert (inv sch s ∧ Forall timer_ok (procs s)) as [_ ?]; [|done].
  apply (rtc_invariant (sched_step sch int_overflow) (λ s, inv sch s ∧ Forall timer_ok (procs s))
    sys_init s); [| |exact Hr].
  - split; [apply inv_init|constructor].
  - intros a b [Hi Ht] [l Hl]. split; [by eapply exec_inv|by eapply exec_timer].
Qed.
End timers.

(** ** Lemmas on the wiring *)

Section wiring.
Context `{UnicodeTables} `{SqlFormats} `{SliceSort}.
Context {W : Type} `{RDSInstance W} `{SqlOpen W} `{CloudWatchAPI W}.
Context (GenerateHash : string → Z → string) `{LocketAPI} (cfg : Config).
Local Abbreviation sch := (main_scheduler (W := W) GenerateHash cfg).

(** The registered drivers: their names, the types they support, their intervals. *)
Lemma main_drivers name :
  (λ d, (SupportedTypes d, GetCollectInterval d)) <$> metricsCollectorDrivers sch !! name =
  (if decide (name = "cloudwatch")
   then Some (["postgres"; "mysql"], CWMetricCollectorInterval (cfgScheduler cfg))
   else if decide (name = "mysql" ∨ name = "postgres")
   then Some ([name], SQLMetricCollectorInterval (cfgScheduler cfg))
   else None).
Proof.
  unfold main_scheduler. cbn [WithDriver NewScheduler metricsCollectorDrivers foldl].
  destruct (decide (name = "cloudwatch")) as [->|Hn1]; [by rewrite lookup_insert_eq|].
  rewrite lookup_insert_ne by done.
  destruct (decide (name = "mysql")) as [->|Hn2]; [by rewrite lookup_insert_eq|].
  rewrite lookup_insert_ne by done.
  destruct (decide (name = "postgres")) as [->|Hn3]; [by rewrite lookup_insert_eq|].
  rewrite lookup_insert_ne, lookup_empty by done. rewrite decide_False by tauto. done.
Qed.

Lemma serves_drivers wid i :
  serves sch wid i ↔
  ∃ types interval, (λ d, (SupportedTypes d, GetCollectInterval d)) <$>
      metricsCollectorDrivers sch !! Driver wid = Some (types, interval) ∧
    Type_ i ∈ types ∧ GUID i = wInstanceGUID wid.
Proof.
  unfold serves. split.
  - intros (d & Hd & Ht & Hg). eexists _, _. rewrite Hd. split; [reflexivity|done].
  - intros (types & interval & Hd & Ht & Hg).
    apply fmap_Some in Hd as (d & Hd & [= -> ->]). by exists d.
Qed.
End wiring.

(** ** Lemmas on the start-up *)

Lemma initLogger_inr `{UnicodeTables} s level :
  initLogger s = inr level ↔ (ToUpper s, level) ∈ logLevels.
Proof.
  unfold initLogger. destruct (list_find _ logLevels) as [[i [k l]]|] eqn:Hf.
  - apply list_find_Some in Hf as (Hi & Hk & _). simpl in Hk. subst k. split.
    + intros [= <-]. by eapply list_elem_of_lookup_2.
    + intros Hin. simpl. f_equal. apply list_elem_of_lookup_2 in Hi.
      unfold logLevels in *. rewrite !elem_of_cons, elem_of_nil in Hin, Hi.
      destruct Hin as [Hin|[Hin|[Hin|[Hin|[]]]]], Hi as [Hi|[Hi|[Hi|[Hi|[]]]]]; congruence.
  - split; [done|]. intros Hin. exfalso. apply list_find_None in Hf.
    rewrite Forall_forall in Hf. by apply (Hf _ Hin).
Qed.

Section start_up.
Context `{UnicodeTables} `{SqlFormats} `{SliceSort}.
Context {W : Type} `{RDSInstance W} `{SqlOpen W} `{CloudWatchAPI W}.
Context (GenerateHash : string → Z → string).
Context `{LocketClientAPI} `{LoggregatorAPI} `{Validator} `{ConfigFS}.

Lemma main_emitter_inr useStdoutEmitter cfg em :
  main_emitter useStdoutEmitter cfg = inr em ↔
  if useStdoutEmitter then em = StdOut
  else ∃ client, NewLoggregatorEmitter (cfgLoggregatorEmitter cfg) = Ok client ∧ em = Loggregator client.
Proof.
  unfold main_emitter. destruct useStdoutEmitter; [split; congruence|].
  destruct (NewLoggregatorEmitter _) as [client| |]; (split; [intros [= <-]|intros (? & [= <-] & ->)]); eauto.
Qed.

(** Nothing after [flag.Parse] ends the process with status 0. *)
Lemma main_start_inl path useStdoutEmitter t :
  main_start (W := W) GenerateHash path useStdoutEmitter = inl t →
  match t with Exit code _ => code = 1%Z | Crash _ => True end.
Proof.
  unfold main_start, initLogger, main_emitter, createLocketRunner.
  intros Ht. repeat case_match; simplify_eq; done.
Qed.
End start_up.

(** ** Properties *)

(** C17: two workers per instance.  With the drivers main registers, the workers
    that an instance listed by the RDS broker calls for are exactly two: the SQL
    worker of its engine and the CloudWatch worker. *)
Theorem main_two_workers `{UnicodeTables} `{SqlFormats} `{SliceSort} {W} `{RDSInstance W} `{SqlOpen W}
    `{CloudWatchAPI W} GenerateHash `{LocketAPI} (cfg : Config) (r : RDSBrokerInfo) (w : W) infos i :
  RDS_ListInstances r w = Ok infos → i ∈ infos →
  ∀ wid, serves (main_scheduler (W := W) GenerateHash cfg) wid i ↔
    wid = mkWorkerID (Type_ i) (GUID i) ∨ wid = mkWorkerID "cloudwatch" (GUID i).
Proof.
  intros Hl Hi [drv guid]. assert (engine_type i) as Htype.
  { unfold RDS_ListInstances in Hl. destruct (DescribeByTag _ _ w); try done. simpl in Hl.
    apply list_step_types in Hl; [|constructor]. rewrite Forall_forall in Hl. auto. }
  rewrite serves_drivers. setoid_rewrite main_drivers. simpl. split.
  - intros (types & interval & Hd & Ht & ->). repeat case_decide; simplify_eq; [by right|].
    apply list_elem_of_singleton in Ht. rewrite Ht. by left.
  - intros [[= -> ->]|[= -> ->]].
    + eexists _, _. rewrite decide_False, decide_True by (destruct Htype as [-> | ->]; naive_solver).
      split; [done|]. split; [left|done].
    + eexists _, _. split; [done|]. split; [|done]. destruct Htype as [-> | ->]; set_solver.
Qed.

(** A world of database descriptions, without databases or CloudWatch. *)
Definition no_sql : SqlOpen (list DBInstance) := λ _ _ w, (Err "no database", w).
Definition no_cloudwatch : CloudWatchAPI (list DBInstance) := {|
  cw_api _ _ := Ok [];
  cw_clock _ _ := (0, 0)%Z;
  cw_order _ := metricNamesToLabels;
|}.
Definition sample_main : Scheduler (list DBInstance) :=
  @main_scheduler ascii_tables int_formats insertion_SliceSort (list DBInstance) aws_of_list no_sql
    no_cloudwatch (λ s _, s) no_locket sample_loaded.

Lemma main_two_workers_witness :
  serves sample_main (mkWorkerID "cloudwatch" "aaaa-bbbb") (mkInstanceInfo "aaaa-bbbb" "postgres").
Proof.
  apply (@main_two_workers ascii_tables int_formats insertion_SliceSort (list DBInstance) aws_of_list
    no_sql no_cloudwatch (λ s _, s) no_locket sample_loaded sample_broker [sample_db; sample_other]
    [mkInstanceInfo "aaaa-bbbb" "postgres"]); [vm_compute; reflexivity|left|].
  right. reflexivity.
Defined.

(** C32: start-up.  The process gets as far as the process group exactly when the
    command line parses, the configuration loads, its log level is one of the
    four known ones in any case of letters, the loggregator client connects
    unless standard output was asked for, and the locket client connects; the
    group then is the lock, under the collector's key, followed by the scheduler
    built from that configuration.  Otherwise the process ends at the first step
    that fails, with status 0 only when help was asked for. *)
Theorem main_process_spec `{UnicodeTables} `{SqlFormats} `{SliceSort} {W} `{RDSInstance W} `{SqlOpen W}
    `{CloudWatchAPI W} GenerateHash `{LocketClientAPI} `{LoggregatorAPI} `{Validator} `{ConfigFS} args :
  (∀ level em group, main_process (W := W) GenerateHash args = inr (level, em, group) ↔
     ∃ fs cfg client, Parse main_flags args = inr fs ∧
       LoadConfig (string_flag "config" fs) = (cfg, None) ∧
       (ToUpper (LogLevel cfg), level) ∈ logLevels ∧
       (if bool_flag "stdoutEmitter" fs then em = StdOut
        else ∃ ingress, NewLoggregatorEmitter (cfgLoggregatorEmitter cfg) = Ok ingress ∧
               em = Loggregator ingress) ∧
       NewClient (cfgLocket cfg) = inr client ∧
       group = [ ("locketRunner", LockRunner client (mkResource "rds-metrics-collector" NewV4 LockType));
                 ("scheduleRunner", SchedulerRunner (main_scheduler GenerateHash cfg)) ]) ∧
  (∀ code msg, main_process (W := W) GenerateHash args = inl (Exit code msg) →
     code = 0%Z ↔ Parse main_flags args = inl ErrHelp).
Proof.
  unfold main_process. split.
  - intros level em group. destruct (Parse main_flags args) as [e|fs]; [naive_solver|].
    unfold main_start. destruct (LoadConfig (string_flag "config" fs)) as [cfg [err|]] eqn:HL.
    { split; [done|]. intros (fs' & cfg' & client & [= <-] & HL' & _). congruence. }
    transitivity (initLogger (LogLevel cfg) = inr level ∧
      main_emitter (bool_flag "stdoutEmitter" fs) cfg = inr em ∧
      ∃ client, NewClient (cfgLocket cfg) = inr client ∧
        group = [ ("locketRunner", LockRunner client (mkResource "rds-metrics-collector" NewV4 LockType));
                  ("scheduleRunner", SchedulerRunner (main_scheduler GenerateHash cfg)) ]).
    + unfold createLocketRunner. destruct (initLogger (LogLevel cfg)); [naive_solver|].
      destruct (main_emitter _ cfg); [naive_solver|].
      destruct (NewClient (cfgLocket cfg)); naive_solver.
    + rewrite initLogger_inr, main_emitter_inr. split.
      * intros (? & ? & client & ? & ?). exists fs, cfg, client. by split_and!.
      * intros (fs' & cfg' & client & [= <-] & HL' & ? & ? & ? & ?). rewrite HL in HL'.
        injection HL' as <-. eauto 10.
  - intros code msg. destruct (Parse main_flags args) as [e|fs].
    + intros [= <- _]. destruct e; naive_solver.
    + intros Ht%main_start_inl. simpl in Ht. naive_solver lia.
Qed.

(** A locket client that always connects. *)
Definition any_locket : @LocketClientAPI no_locket :=
  @Build_LocketClientAPI no_locket unit (λ _, inr tt) "00000000-0000-4000-8000-000000000000" "lock".

Definition sample_args : list string := ["-stdoutEmitter"; "--config"; "c.json"].
Definition sample_flags : FlagSet :=
  <["config" := StringFlag "c.json"]> (<["stdoutEmitter" := BoolFlag true]> main_flags).

Lemma sample_flags_parsed : Parse main_flags sample_args = inr sample_flags.
Proof. vm_compute. reflexivity. Qed.

Lemma main_process_spec_witness :
  @main_process ascii_tables int_formats insertion_SliceSort (list DBInstance) aws_of_list
    no_sql no_cloudwatch (λ s _, s) no_locket any_locket RefLoggregator.api ref_Validator
    (one_file "c.json" sample_text) sample_args =
  inr (INFO, @StdOut RefLoggregator.api,
       [ ("locketRunner", @LockRunner (list DBInstance) no_locket any_locket tt
            (mkResource "rds-metrics-collector" (@NewV4 no_locket any_locket) "lock"));
         ("scheduleRunner", @SchedulerRunner (list DBInstance) no_locket any_locket sample_main) ]).
Proof.
  apply (proj1 (@main_process_spec ascii_tables int_formats insertion_SliceSort (list DBInstance)
    aws_of_list no_sql no_cloudwatch (λ s _, s) no_locket any_locket RefLoggregator.api ref_Validator
    (one_file "c.json" sample_text) sample_args)).
  exists sample_flags, sample_loaded, tt. split; [exact sample_flags_parsed|].
  split; [exact LoadConfig_example|]. split; [right; left|]. split; [reflexivity|]. split; reflexivity.
Defined.

(** How some command lines end. *)
Example main_process_example :
  (λ args, match @main_process ascii_tables int_formats insertion_SliceSort (list DBInstance) aws_of_list
             no_sql no_cloudwatch (λ s _, s) no_locket any_locket RefLoggregator.api ref_Validator
             (one_file "c.json" sample_text) args with inl t => Some t | inr _ => None end)
  <$> [["-h"]; ["-config"]; []; ["-config=missing.json"]; sample_args] =
  [ Some (Exit 0 "usage"); Some (Exit 2 "usage");
    Some (Exit 1 "Error loading config file: ''. Must provide a config file");
    Some (Exit 1 "Error loading config file: 'missing.json'. no such file"); None ].
Proof. vm_compute. reflexivity. Qed.

(** C18: no timer overflows.  With a configuration that [LoadConfig] accepts, in
    every reachable state of the scheduler that main builds, every worker has at
    most three failures behind it, and the timer it waits on was set to exactly
    the collection interval of its driver, between 1 s and 3600 s, after a
    success, or to 4^c seconds after the c-th failure in a row: the 64-bit
    products never wrap around. *)
Theorem main_timers_exact `{UnicodeTables} `{SqlFormats} `{SliceSort} {W} `{RDSInstance W} `{SqlOpen W}
    `{CloudWatchAPI W} GenerateHash `{LocketAPI} `{ValidatorLaws} `{ConfigFS} path (cfg : Config)
    int_overflow s n p c t :
  LoadConfig path = (cfg, None) →
  sched_reachable (main_scheduler (W := W) GenerateHash cfg) int_overflow s →
  procs s !! n = Some p → p_pc p = WLoop c t →
  (0 ≤ c ≤ 3)%Z ∧
  ((0 < c)%Z → t = (4 ^ c * 1000000000)%Z) ∧
  (c = 0%Z → t = 0%Z ∨
     ∃ interval, t = (interval * 1000000000)%Z ∧ (1 ≤ interval ≤ 3600)%Z ∧
       interval = (if decide (Driver (pid p) = "cloudwatch")
                   then CWMetricCollectorInterval (cfgScheduler cfg)
                   else SQLMetricCollectorInterval (cfgScheduler cfg))).
Proof.
  intros HL Hr Hp Hpc. apply LoadConfig_iff in HL as (_ & _ & _ & _ & _ & _ & Hv).
  apply Validate_spec in Hv as [(_ & _ & Hsql & Hcw & Ht & Hri & Hm) _].
  set (sch := main_scheduler (W := W) GenerateHash cfg) in *.
  assert (collectorMaxRetries sch = 3%Z ∧ collectorRetryInterval sch = 1000%Z) as [Hmax Hretry]
    by (simpl; by rewrite Hm, Hri).
  assert (timer_ok int_overflow p) as Htimer.
  { assert (Forall (timer_ok int_overflow) (procs s)) as Hall
      by (apply (reachable_timer sch int_overflow); [lia|done]).
    rewrite Forall_lookup in Hall. by eapply Hall. }
  apply reachable_inv in Hr. destruct (inv_procs _ _ Hr n p Hp) as [_ (d & Hd & _ & _ & Hi & Hw & Hx & _)].
  unfold timer_ok in Htimer. rewrite Hpc in Htimer. destruct Htimer as (Hc & Hzero & Hpos).
  rewrite Hx, Hmax in Hc. split_and!; [lia|lia| |].
  - intros Hlt. rewrite Hpos by done. rewrite waitTime_exact by lia. rewrite Hw, Hretry. lia.
  - intros Hz. destruct (Hzero Hz) as [->|Ht0]; [by left|right]. exists (collectInterval_s (p_worker p)).
    pose proof (main_drivers (W := W) GenerateHash cfg (Driver (pid p))) as Hdrv.
    fold sch in Hdrv. unfold pid in Hdrv |- *. rewrite Hd in Hdrv. simpl in Hdrv. rewrite Hi.
    assert (1 ≤ GetCollectInterval d ≤ 3600)%Z as Hb
      by (repeat case_decide; simplify_eq; lia).
    split_and!; [|lia|lia|by repeat case_decide; simplify_eq].
    rewrite Ht0, Hi. rewrite mul64_id; [done|]. unfold time_Second. unfold_int64. lia.
Qed.

(** A run of that scheduler: one collection fails. *)
Definition sample_main_run : list label :=
  [ LRefresh (Ok [mkInstanceInfo "aaaa-bbbb" "postgres"]) ["postgres"; "cloudwatch"; "mysql"]
      [mkWorkerID "postgres" "aaaa-bbbb"; mkWorkerID "cloudwatch" "aaaa-bbbb"];
    LNew 0 (Ok tt); LTimer 0; LCollect 0 (Err "timeout") ].

Lemma main_timers_exact_witness :
  ∃ s p t, run_trace sample_main 0 sample_main_run sys_init = Some s ∧
    procs s !! 0 = Some p ∧ p_pc p = WLoop 1 t ∧ t = (4 ^ 1 * 1000000000)%Z.
Proof.
  eexists _, _, _. split; [vm_compute; reflexivity|]. split; [reflexivity|]. split; [reflexivity|].
  eapply (@main_timers_exact ascii_tables int_formats insertion_SliceSort (list DBInstance) aws_of_list
    no_sql no_cloudwatch (λ s _, s) no_locket ref_Validator ref_ValidatorLaws
    (one_file "c.json" sample_text) "c.json" sample_loaded 0 _ 0 _ 1%Z).
  - vm_compute. reflexivity.
  - apply (run_trace_rtc sample_main 0 sample_main_run). vm_compute. reflexivity.
  - reflexivity.
  - reflexivity.
  - lia.
Defined.
