(* ===== verification/SystemMain.v ===== *)
(** * The program that main.go wires, end to end

    The scheduler of main.go with the RDS broker information, the two SQL drivers,
    the CloudWatch driver and the loggregator emitter, over services that behave
    as documented ([ServicesSpec]): it never panics, it holds one database handle
    for each open SQL collector and gives it back, and what reaches loggregator is
    exactly the declared metrics of listed instances. *)

From S2P Require Import Prelude GoStrings Json Utils Metrics BrokerInfo Config ConfigProps Collector.
From S2P Require Import SqlCollector MysqlCollector PostgresCollector CloudWatchCollector.
From S2P Require Import Worker Scheduler SchedulerInv SchedulerProps System SystemProps Services Main.
From stdpp Require Import options.

(** ** Emitters that keep a log *)

(** Each [Emit] appends one entry, which carries the envelope. *)
Class EmitterLog (E X : Type) `{MetricsEmitter E} := {
  e_log : E → list X;
  e_carries : MetricEnvelope → X → Prop;
  e_emit now me em em' : Emit now me em = Ok em' →
    ∃ x, e_log em' = e_log em ++ [x] ∧ e_carries me x;
}.

Section log.
Context {E X : Type} `{EmitterLog E X}.

Lemma emit_all_log now es em em' :
  emit_all now es em = Ok em' →
  ∃ xs, e_log em' = e_log em ++ xs ∧ Forall2 e_carries es xs.
Proof.
  revert now em. induction es as [|e es IH]; intros now em; cbn [emit_all].
  - intros [= <-]. exists []. by rewrite app_nil_r.
  - intros (em1 & Hem1 & Hes)%outcome_bind_Ok. destruct (e_emit _ _ _ _ Hem1) as (x & Hx & Hc).
    destruct (IH _ _ Hes) as (xs & -> & Hxs). exists (x :: xs). rewrite Hx, <-(assoc_L (++)).
    split; [done|]. by constructor.
Qed.

Context {W : Type} (sch : Scheduler W) (int_overflow : Z) `{BrokerInfo W} (env : W → W → Prop).

(** What one event adds to the log is what the scheduler's action emits. *)
Lemma perform_log e c ls (c' : conf W E) :
  perform sch int_overflow e c = Some (ls, c') →
  ∃ new xs, emitted (c_sys c') = emitted (c_sys c) ++ new ∧
    e_log (c_emitter c') = e_log (c_emitter c) ++ xs ∧ Forall2 e_carries new xs.
Proof.
  intros Hp.
  assert (c_emitter c' = c_emitter c → emitted (c_sys c') = emitted (c_sys c) →
    ∃ new xs, emitted (c_sys c') = emitted (c_sys c) ++ new ∧
      e_log (c_emitter c') = e_log (c_emitter c) ++ xs ∧ Forall2 e_carries new xs) as Hsame.
  { intros -> ->. exists [], []. by rewrite !app_nil_r. }
  assert (∀ l w cs, act sch int_overflow l w cs (c_emitter c) c = Some (ls, c') →
    emission_of (procs (c_sys c)) l = [] →
    ∃ new xs, emitted (c_sys c') = emitted (c_sys c) ++ new ∧
      e_log (c_emitter c') = e_log (c_emitter c) ++ xs ∧ Forall2 e_carries new xs) as Hquiet.
  { intros l w cs (_ & _ & Hex & _ & _ & Hem)%act_Some Hno. apply Hsame; [done|].
    destruct (exec_emits sch int_overflow l _ _ Hex) as (_ & -> & _). by rewrite Hno, app_nil_r. }
  unfold perform in Hp. destruct (c_panic c); [done|]. destruct e as [names order|n|n now|n|l].
  - case_decide; [|done].
    destruct (ListInstances _); [by eapply Hquiet..|]. injection Hp as <- <-. by apply Hsame.
  - apply bind_Some in Hp as (p & _ & Hp). destruct (p_pc p); try discriminate Hp.
    unfold perform_new in Hp. apply bind_Some in Hp as (d & _ & Hp).
    destruct (NewCollector _ _ _) as [[] w]; [by eapply Hquiet..|]. injection Hp as <- <-. by apply Hsame.
  - apply bind_Some in Hp as (p & Hn & (k & _ & Hp)%bind_Some). destruct (p_pc p); try discriminate Hp.
    unfold perform_collect in Hp. destruct (Collect k _) as [[ms|err|m] w].
    + destruct (emit_all now (envelopes (p_worker p) ms) (c_emitter c)) as [em|err|m] eqn:Hem;
        [|injection Hp as <- <-; by apply Hsame..].
      apply act_Some in Hp as (_ & _ & Hex & _ & _ & ->).
      destruct (exec_emits sch int_overflow _ _ _ Hex) as (_ & -> & _).
      destruct (emit_all_log _ _ _ _ Hem) as (xs & -> & Hxs).
      exists (envelopes (p_worker p) ms), xs. cbn [emission_of]. by rewrite Hn.
    + by eapply Hquiet.
    + injection Hp as <- <-. by apply Hsame.
  - apply bind_Some in Hp as (p & Hn & (k & _ & Hp)%bind_Some). destruct (p_pc p); try discriminate Hp.
    unfold perform_close in Hp.
    destruct (Close k _) as [[] w]; [by eapply Hquiet..|]. injection Hp as <- <-. by apply Hsame.
  - destruct (internal l) eqn:Hi; [|done]. eapply Hquiet; [done|]. by destruct l.
Qed.

Lemma history_log w0 em0 ls c :
  history sch int_overflow env w0 em0 ls c →
  ∃ xs, e_log (c_emitter c) = e_log em0 ++ xs ∧ Forall2 e_carries (emitted (c_sys c)) xs.
Proof.
  induction 1 as [|ls c e ls' c' _ (xs & Hlog & Hxs) Hp|]; [|..|done].
  - exists []. by rewrite app_nil_r.
  - destruct (perform_log _ _ _ _ Hp) as (new & ys & -> & -> & Hys). exists (xs ++ ys).
    rewrite Hlog, <-(assoc_L (++)). split; [done|]. by apply Forall2_app.
Qed.
End log.

(** ** The loggregator emitter *)

(** The envelope [e] of the client's queue carries the metric of [me]. *)
Definition carries `{LoggregatorLaws} (me : MetricEnvelope) (e : LEnvelope) : Prop :=
  l_gauges e = {[ Key (envMetric me) := (Unit (envMetric me), Value (envMetric me)) ]} ∧
  l_source e = (InstanceGUID me, "0") ∧
  (Timestamp (envMetric me) ≠ 0%Z → l_timestamp e = Timestamp (envMetric me)) ∧
  Tags (envMetric me) ⊆ l_tags e.

Global Instance loggregator_total `{LoggregatorAPI} : @TotalEmitter IngressClient LoggregatorEmitter_Emit.
Proof. intros now me em. unfold Emit. rewrite LoggregatorEmitter_Emit_eq. by eexists. Qed.

Global Instance stdout_total fmt_float : @TotalEmitter string (StdOutEmitter_Emit fmt_float).
Proof. intros now me em. by eexists. Qed.

Global Program Instance loggregator_log `{LoggregatorLaws} :
  @EmitterLog IngressClient LEnvelope LoggregatorEmitter_Emit := {|
  e_log := l_queue;
  e_carries := carries;
|}.
Next Obligation.
  intros L laws now [guid [k t v u g]] c c'. unfold Emit.
  rewrite LoggregatorEmitter_Emit_eq. intros [= <-]. eexists. split; [apply l_enqueue|].
  unfold carries, emit_timestamp. simpl.
  destruct (l_settags g (set_LTimestamp (if decide (t ≠ 0%Z) then t else now)
    (WithGaugeSourceInfo guid "0" (WithGaugeValue k v u (newGaugeEnvelope c now)))))
    as (-> & -> & -> & ->).
  destruct (l_settime (if decide (t ≠ 0%Z) then t else now)
    (WithGaugeSourceInfo guid "0" (WithGaugeValue k v u (newGaugeEnvelope c now))))
    as (-> & -> & -> & _).
  destruct (l_src guid "0" (WithGaugeValue k v u (newGaugeEnvelope c now))) as (-> & -> & _).
  destruct (l_gauge k v u (newGaugeEnvelope c now)) as (-> & _). rewrite l_new.
  split_and!; [done|done| |apply map_union_subseteq_l]. intros. by rewrite decide_True.
Qed.

(** ** The contracts of main's components *)

(** What each registered driver may report, and the handles its collectors take. *)
Definition main_declared (name : string) : Metric → Prop :=
  if decide (name = "cloudwatch") then cw_declared
  else if decide (name = "mysql") then sql_declared mysqlMetricQueries
  else sql_declared postgresMetricQueries.
Definition main_needs (name : string) : nat := if decide (name = "cloudwatch") then 0 else 1.

Section main_system.
Context `{UnicodeTables} `{SqlFormats} `{SliceSort} {W : Type} `{WorldSpec W}.
Context `{RDSInstance W} `{SqlOpen W} `{CloudWatchAPI W} `{Hservices : !ServicesSpec}.
Context (GenerateHash : string → Z → string) `{LocketAPI} (cfg : Config).
Context (env : W → W → Prop) (Henv : ∀ w w', world_ok w → env w w' → undisturbed w w').
Local Abbreviation sch := (main_scheduler (W := W) GenerateHash cfg).

Definition main_clients :
  @SchedulerClients W sch (main_broker GenerateHash cfg) _ env.
Proof using Henv Hservices.
  refine (@Build_SchedulerClients W sch (main_broker GenerateHash cfg) _ env main_needs main_declared _ _ Henv).
  - intros w m Hw Hl. pose proof (RDS_ListInstances_total (NewRDSBrokerInfo (cfgRDSBrokerInfo cfg)) w Hw) as Ht.
    change (RDS_ListInstances (NewRDSBrokerInfo (cfgRDSBrokerInfo cfg)) w = Panic m) in Hl. by rewrite Hl in Ht.
  - intros name d. unfold main_scheduler. cbn [WithDriver NewScheduler metricsCollectorDrivers foldl].
    intros [[<- <-]|[Hn1 [[<- <-]|[Hn2 [[<- <-]|[Hn3 Hd]]%lookup_insert_Some]]%lookup_insert_Some]]%lookup_insert_Some.
    + by apply cw_driver_sound.
    + by apply sql_driver_sound.
    + by apply sql_driver_sound.
    + by apply lookup_empty_Some in Hd.
Defined.
End main_system.

(** ** Runs of the wired program *)

(** A run of main's scheduler with main's broker and an emitter. *)
Definition main_history `{UnicodeTables} `{SqlFormats} `{SliceSort} {W} `{RDSInstance W} `{SqlOpen W}
    `{CloudWatchAPI W} (GenerateHash : string → Z → string) `{LocketAPI} (cfg : Config) {E}
    `{MetricsEmitter E} (int_overflow : Z) (env : W → W → Prop) : W → E → list label → conf W E → Prop :=
  @history W E (main_scheduler GenerateHash cfg) int_overflow (main_broker GenerateHash cfg) _ env.

(** The goroutines whose SQL collector is open. *)
Definition open_sql (s : sys) : list proc :=
  filter (λ p, p_coll p = Opened ∧ Driver (pid p) ≠ "cloudwatch") (procs s).

(** The metric [m] is one that the workers of the instance [i] may report. *)
Definition declared_for (i : InstanceInfo) (m : Metric) : Prop :=
  cw_declared m ∨
  (Type_ i = "mysql" ∧ sql_declared mysqlMetricQueries m) ∨
  (Type_ i = "postgres" ∧ sql_declared postgresMetricQueries m).

Section runs.
Context `{UnicodeTables} `{SqlFormats} `{SliceSort} {W : Type} `{WorldSpec W}.
Context `{RDSInstance W} `{SqlOpen W} `{CloudWatchAPI W} `{Hservices : !ServicesSpec}.
Context (GenerateHash : string → Z → string) `{LocketAPI} (cfg : Config).
Context {E : Type} `{MetricsEmitter E} `{!TotalEmitter E} (int_overflow : Z).
Context (env : W → W → Prop) (Henv : ∀ w w', world_ok w → env w w' → undisturbed w w').
Context (w0 : W) (em0 : E) (Hw0 : world_ok w0).
Local Abbreviation sch := (main_scheduler (W := W) GenerateHash cfg).
Local Abbreviation history := (main_history GenerateHash cfg int_overflow env w0 em0).
Local Abbreviation clients := (main_clients GenerateHash cfg env Henv).
Local Abbreviation safe := (@safe W E sch env _ _ clients w0).

Lemma main_safe ls c : history ls c → safe c.
Proof using Hw0 TotalEmitter0. by apply history_safe. Qed.

Lemma sum_open_sql (ps : list proc) :
  sum_list_with (@uses W sch env _ _ clients) (view <$> ps) =
  length (filter (λ p, p_coll p = Opened ∧ Driver (pid p) ≠ "cloudwatch") ps).
Proof.
  induction ps as [|p ps IH]; [done|]. rewrite filter_cons. cbn [fmap list_fmap sum_list_with].
  rewrite IH. unfold uses. cbn [fst snd view needs main_clients main_needs].
  unfold main_needs. repeat case_decide; try done; naive_solver.
Qed.

Lemma main_called_for ls c wid :
  history ls c → called_for sch ls wid →
  ∃ w infos i, world_ok w ∧ RDS_ListInstances (NewRDSBrokerInfo (cfgRDSBrokerInfo cfg)) w = Ok infos ∧
    i ∈ infos ∧ serves sch wid i.
Proof using Henv Hservices Hw0 TotalEmitter0.
  intros Hh (infos & names & order & i & (ls1 & ls2 & Heq)%list_elem_of_split & Hi & Hs).
  destruct (history_answered _ _ _ _ _ _ _ Hh _ _ _ Heq) as (c1 & Hh1 & Ha).
  exists (c_world c1), infos, i. split_and!; [by eapply safe_world, main_safe| |done|done].
  symmetry. exact Ha.
Qed.

Lemma main_serves wid i m :
  serves sch wid i → main_declared (Driver wid) m → GUID i = wInstanceGUID wid ∧ declared_for i m.
Proof.
  rewrite serves_drivers. setoid_rewrite main_drivers. intros (types & interval & Hd & Ht & Hg) Hm.
  split; [done|]. unfold main_declared in Hm. unfold declared_for.
  destruct (decide (Driver wid = "cloudwatch")); [by left|right].
  destruct (decide (Driver wid = "mysql" ∨ Driver wid = "postgres")) as [Hn|]; [|done].
  injection Hd as <- <-. apply list_elem_of_singleton in Ht.
  case_decide as Hmy; [left|right]; (split; [|done]); [congruence|]. destruct Hn; congruence.
Qed.

Lemma main_declared_listed ls c me :
  history ls c → me ∈ emitted (c_sys c) →
  ∃ w infos i, world_ok w ∧ RDS_ListInstances (NewRDSBrokerInfo (cfgRDSBrokerInfo cfg)) w = Ok infos ∧
    i ∈ infos ∧ GUID i = InstanceGUID me ∧ declared_for i (envMetric me).
Proof using Henv Hservices Hw0 TotalEmitter0.
  intros Hh Hme. pose proof (main_safe ls c Hh) as Hs.
  destruct (safe_emitted _ _ _ _ Hs me Hme) as (wid & Hwid & -> & Hd).
  unfold views in Hwid. rewrite <-list_fmap_compose in Hwid.
  apply list_elem_of_fmap in Hwid as (p & -> & [n Hn]%list_elem_of_lookup).
  pose proof (history_run _ _ _ _ _ _ _ Hh) as Hrun.
  destruct (emissions_invariant sch int_overflow ls _ Hrun) as (_ & _ & Hcall).
  destruct (main_called_for ls c (pid p) Hh (Hcall n p Hn)) as (w & infos & i & ? & ? & ? & Hsv).
  destruct (main_serves _ _ _ Hsv Hd) as [Hg Hdecl]. exists w, infos, i. split_and!; done.
Qed.
End runs.

(** ** A concrete world, for the witnesses *)

(** One PostgreSQL instance; its database knows one setting, CloudWatch answers
    as [sample_api]; the process's handles and result sets are counted. *)
Module SampleWorld.
Record world := mkWorld { dbs : list DBInstance; open_handles : nat; open_sets : nat }.

Definition spec : WorldSpec world := {|
  world_ok _ := True; handles := open_handles; result_sets := open_sets;
|}.
Definition rds : RDSInstance world := {|
  DescribeByTag k v w := @DescribeByTag _ aws_of_list k v (dbs w);
  Describe i w := @Describe _ aws_of_list i (dbs w);
|}.
Definition answer (q : string) : Rows :=
  if decide (q = Query pg_max_connections_query)
  then mkRows [mkRow (Ok ["max_connections"]) (Ok [VInt 100])] None else mkRows [] None.
Definition db : SqlDB world := {|
  PingContext w := (Ok tt, w);
  QueryContext q w := (Ok (answer q), mkWorld (dbs w) (open_handles w) (S (open_sets w)));
  CloseRows w := mkWorld (dbs w) (open_handles w) (pred (open_sets w));
  CloseDB w := (Ok tt, mkWorld (dbs w) (pred (open_handles w)) (open_sets w));
|}.
Definition sql : SqlOpen world := λ _ _ w, (Ok db, mkWorld (dbs w) (S (open_handles w)) (open_sets w)).
Definition cloudwatch : CloudWatchAPI world := {|
  cw_api _ := sample_api; cw_clock _ _ := (0, 1)%Z; cw_order _ := metricNamesToLabels;
|}.

Lemma db_ok : @db_sound world spec db.
Proof.
  split; try done. intros q w _. simpl. split_and!; try done.
  unfold answer. case_decide; repeat constructor.
Qed.

Definition services : @ServicesSpec world spec rds sql cloudwatch.
Proof.
  refine (@Build_ServicesSpec world spec rds sql cloudwatch _ _ _ _).
  - intros driver url w _. simpl. split_and!; [apply db_ok|done..].
  - intros i w _. simpl. by destruct (list_find _ _) as [[? ?]|].
  - intros k v w _. simpl. apply Forall_fmap, Forall_forall. by eexists.
  - intros w instance _. split; [done|]. intros entry _. simpl. unfold sample_api. simpl.
    repeat case_decide; [|constructor|done]. repeat constructor; eauto.
Defined.

Definition quiet (w w' : world) : Prop := w' = w.
Lemma quiet_ok w w' : @world_ok _ spec w → quiet w w' → @undisturbed _ spec w w'.
Proof. by intros _ ->. Qed.

Definition start_world : world :=
  mkWorld [mkDBInstance (Some "rdsbroker-1234") (Some "postgres") None (Some "admin") (Some "main")] 0 0.
Definition client : RefLoggregator.client := RefLoggregator.mkClient ∅ [].

Definition scheduler : Scheduler world :=
  @main_scheduler ascii_tables int_formats insertion_SliceSort world rds sql cloudwatch (λ s _, s)
    no_locket sample_loaded.
Definition broker : BrokerInfo world :=
  @main_broker world rds (λ s _, s) no_locket sample_loaded.
Definition emitter : MetricsEmitter RefLoggregator.client := @LoggregatorEmitter_Emit RefLoggregator.api.

(** Both workers of the instance collect once. *)
Definition events : list event :=
  [ ERefresh ["postgres"; "cloudwatch"; "mysql"]
      [mkWorkerID "postgres" "1234"; mkWorkerID "cloudwatch" "1234"];
    ENew 0; EInternal (LTimer 0); ECollect 0 (λ _, 7%Z);
    ENew 1; EInternal (LTimer 1); ECollect 1 (λ _, 8%Z) ].

Definition run : option (list label * conf world RefLoggregator.client) :=
  @perform_all world RefLoggregator.client scheduler 0 broker emitter events
    (mkConf sys_init start_world ∅ client None).

Lemma sample_history ls c :
  run = Some (ls, c) →
  @main_history ascii_tables int_formats insertion_SliceSort world rds sql cloudwatch (λ s _, s)
    no_locket sample_loaded RefLoggregator.client emitter 0 quiet start_world client ls c.
Proof.
  intros Hr. change ls with ([] ++ ls).
  eapply (@perform_all_history world RefLoggregator.client scheduler 0 broker emitter quiet);
    [|exact Hr]. constructor.
Qed.
End SampleWorld.

Lemma sample_world_runs : is_Some SampleWorld.run.
Proof.
  assert (match SampleWorld.run with Some _ => true | None => false end = true) as Hr
    by (vm_compute; reflexivity).
  destruct SampleWorld.run; [by eexists|discriminate Hr].
Qed.

Example sample_world_run :
  (λ r : list label * conf SampleWorld.world RefLoggregator.client,
     (SampleWorld.open_handles (c_world r.2),
      (λ e, (RefLoggregator.r_time e, RefLoggregator.r_source e, RefLoggregator.r_gauges e)) <$>
        RefLoggregator.r_queue (c_emitter r.2))) <$> SampleWorld.run =
  Some (1, [ (7%Z, ("1234", "0"), {["max_connections" := ("conn", float64_of_int 100)]});
             (200%Z, ("1234", "0"), {["cpu" := ("percent", float64_of_int 9)]}) ]).
Proof. vm_compute. reflexivity. Qed.

(** ** Properties *)

(** C6: the program neither panics nor gets stuck.  With services that behave as
    documented and an emitter that accepts envelopes, in every run of the program
    that main wires, no call to the broker, to a driver or to a collector has
    panicked; and whatever action the scheduler can take next, with the answer
    that the component really gives, the program can take. *)
Theorem main_type_sound `{UnicodeTables} `{SqlFormats} `{SliceSort} {W} `{WorldSpec W} `{RDSInstance W}
    `{SqlOpen W} `{CloudWatchAPI W} `{!ServicesSpec} GenerateHash `{LocketAPI} (cfg : Config)
    {E} `{MetricsEmitter E} `{!TotalEmitter E} int_overflow (env : W → W → Prop) w0 em0 ls c :
  (∀ w w', world_ok w → env w w' → undisturbed w w') → world_ok w0 →
  main_history GenerateHash cfg int_overflow env w0 em0 ls c →
  let sch := main_scheduler (W := W) GenerateHash cfg in
  c_panic c = None ∧ world_ok (c_world c) ∧
  (∀ l s, exec sch int_overflow l (c_sys c) = Some s →
     @answered W E sch (main_broker GenerateHash cfg) c l →
     ∃ e c', @perform W E sch int_overflow (main_broker GenerateHash cfg) _ e c = Some ([l], c') ∧
       c_sys c' = s ∧ c_panic c' = None).
Proof.
  intros Henv Hw Hh. pose proof (main_safe GenerateHash cfg int_overflow env Henv w0 em0 Hw ls c Hh) as Hs.
  split_and!; [apply Hs|apply Hs|]. intros l s Hex Ha.
  destruct (perform_complete _ _ _ _ _ _ _ Hs Hex Ha) as (e & c' & Hp & Hsys). exists e, c'.
  split_and!; [done|done|]. by eapply safe_panic, perform_safe.
Qed.

Lemma main_type_sound_witness :
  ∃ ls c, SampleWorld.run = Some (ls, c) ∧ c_panic c = None.
Proof.
  destruct sample_world_runs as [[ls c] Hrun]. exists ls, c. split; [exact Hrun|].
  eapply (@main_type_sound ascii_tables int_formats insertion_SliceSort SampleWorld.world
    SampleWorld.spec SampleWorld.rds SampleWorld.sql SampleWorld.cloudwatch SampleWorld.services
    (λ s _, s) no_locket sample_loaded RefLoggregator.client SampleWorld.emitter
    (@loggregator_total RefLoggregator.api) 0%Z SampleWorld.quiet SampleWorld.start_world SampleWorld.client);
    [apply SampleWorld.quiet_ok|exact I|].
  exact (SampleWorld.sample_history ls c Hrun).
Defined.

(** C7: database handles.  At any moment of a run of the program, the handles it
    has open are those it had at the start and one for each worker goroutine with
    an open SQL collector; between collections no result set is open; and once
    [Run] has returned, every handle has been closed. *)
Theorem main_handles `{UnicodeTables} `{SqlFormats} `{SliceSort} {W} `{WorldSpec W} `{RDSInstance W}
    `{SqlOpen W} `{CloudWatchAPI W} `{!ServicesSpec} GenerateHash `{LocketAPI} (cfg : Config)
    {E} `{MetricsEmitter E} `{!TotalEmitter E} int_overflow (env : W → W → Prop) w0 em0 ls c :
  (∀ w w', world_ok w → env w w' → undisturbed w w') → world_ok w0 →
  main_history GenerateHash cfg int_overflow env w0 em0 ls c →
  handles (c_world c) = handles w0 + length (open_sql (c_sys c)) ∧
  result_sets (c_world c) = result_sets w0 ∧
  (main (c_sys c) = MExited → handles (c_world c) = handles w0).
Proof.
  intros Henv Hw Hh. pose proof (main_safe GenerateHash cfg int_overflow env Henv w0 em0 Hw ls c Hh) as Hs.
  pose proof (safe_handles _ _ _ _ Hs) as Hhandles. split_and!.
  - rewrite Hhandles. unfold views. by rewrite sum_open_sql.
  - apply Hs.
  - intros Hm. rewrite Hhandles, (exited_uses _ _ _ c Hs Hm). lia.
Qed.

Lemma main_handles_witness :
  ∃ ls c, SampleWorld.run = Some (ls, c) ∧
    SampleWorld.open_handles (c_world c) = 0 + length (open_sql (c_sys c)).
Proof.
  destruct sample_world_runs as [[ls c] Hrun]. exists ls, c. split; [exact Hrun|].
  eapply (@main_handles ascii_tables int_formats insertion_SliceSort SampleWorld.world
    SampleWorld.spec SampleWorld.rds SampleWorld.sql SampleWorld.cloudwatch SampleWorld.services
    (λ s _, s) no_locket sample_loaded RefLoggregator.client SampleWorld.emitter
    (@loggregator_total RefLoggregator.api) 0%Z SampleWorld.quiet SampleWorld.start_world SampleWorld.client);
    [apply SampleWorld.quiet_ok|exact I|].
  exact (SampleWorld.sample_history ls c Hrun).
Defined.

(** C3: what reaches loggregator, end to end.  Over any run of the program that
    main wires with the loggregator emitter, the client has been handed exactly
    one gauge envelope for each metric that the scheduler emitted, in that order,
    with the metric's key, value, unit, tags and own timestamp, and the GUID of
    the instance as source; and each of these metrics is, with its key and unit,
    one that the SQL queries of the instance's engine or the CloudWatch table
    declare, for an instance that the RDS broker listed during the run. *)
Theorem main_emissions `{UnicodeTables} `{SqlFormats} `{SliceSort} {W} `{WorldSpec W} `{RDSInstance W}
    `{SqlOpen W} `{CloudWatchAPI W} `{!ServicesSpec} GenerateHash `{LocketAPI} (cfg : Config)
    `{LoggregatorLaws} int_overflow (env : W → W → Prop) w0 client ls c :
  (∀ w w', world_ok w → env w w' → undisturbed w w') → world_ok w0 →
  @main_history _ _ _ W _ _ _ GenerateHash _ cfg IngressClient LoggregatorEmitter_Emit int_overflow env
    w0 client ls c →
  ∃ sent, l_queue (c_emitter c) = l_queue client ++ sent ∧
    Forall2 carries (emitted (c_sys c)) sent ∧
    (∀ me, me ∈ emitted (c_sys c) →
       ∃ w infos i, world_ok w ∧
         RDS_ListInstances (NewRDSBrokerInfo (cfgRDSBrokerInfo cfg)) w = Ok infos ∧
         i ∈ infos ∧ GUID i = InstanceGUID me ∧ declared_for i (envMetric me)).
Proof.
  intros Henv Hw Hh.
  destruct (history_log (X := LEnvelope) _ _ _ _ _ _ _ Hh) as (sent & Hlog & Hsent).
  exists sent. split_and!; [done|done|]. intros me Hme.
  eapply (main_declared_listed GenerateHash cfg int_overflow env Henv w0 client Hw ls c me Hh Hme).
Qed.

Lemma main_emissions_witness :
  ∃ ls c, SampleWorld.run = Some (ls, c) ∧
    ∃ sent, RefLoggregator.r_queue (c_emitter c) = [] ++ sent ∧
      Forall2 (@carries _ RefLoggregator.laws) (emitted (c_sys c)) sent.
Proof.
  destruct sample_world_runs as [[ls c] Hrun]. exists ls, c. split; [exact Hrun|].
  edestruct (@main_emissions ascii_tables int_formats insertion_SliceSort SampleWorld.world
    SampleWorld.spec SampleWorld.rds SampleWorld.sql SampleWorld.cloudwatch SampleWorld.services
    (λ s _, s) no_locket sample_loaded RefLoggregator.api RefLoggregator.laws
    0%Z SampleWorld.quiet SampleWorld.start_world SampleWorld.client) as (sent & Hq & Hs & _);
    [apply SampleWorld.quiet_ok|exact I|exact (SampleWorld.sample_history ls c Hrun)|].
  exists sent. split; [exact Hq|exact Hs].
Defined.
