(* ===== verification/TestHelpers.v ===== *)
(** * testhelpers and fakebrokerinfo: the stand-ins of the test suites

    The locket server of the integration tests (its handler [testHandler], a
    counter and a mode; its [main]; and [MockLocketServer], which runs it with a
    command line), the loggregator server ([BatchSender] filling a channel of
    capacity 1000, its set-up, [Start] and [Stop]) and the mocked broker.
    [mock.Mock], TLS files, sockets and gRPC are parameters. *)

From S2P Require Import Prelude GoStrings GoPath GoFlags Metrics BrokerInfo Main.
From S2P Require Import Collector Worker Scheduler System SystemMain.
From stdpp Require Import options.

(** ** testHandler (mock_locket_server/main.go) *)

Record testHandler := mkTestHandler {
  mode : string;
  lockCount : Z;
}.

Section locket_server.
(** [models.ErrLockCollision] *)
Context (ErrLockCollision : string).

(** The error, or a response: [LockResponse] is empty. *)
Definition Lock (h : testHandler) : (string + unit) * testHandler :=
  let h := mkTestHandler (mode h) (add64 (lockCount h) 1) in
  (if decide (mode h = "alwaysGrantLock") then inr tt
   else if decide (mode h = "neverGrantLock") then inl ErrLockCollision
   else if decide (mode h = "grantLockAfterFiveAttempts") then
     if decide (lockCount h ≤ 5)%Z then inl ErrLockCollision else inr tt
   else if decide (mode h = "grantLockOnceThenFail") then
     if decide (lockCount h ≤ 1)%Z then inr tt else inl ErrLockCollision
   else inl ("Unexpected mode " +:+ mode h), h).

Definition Release (h : testHandler) : (string + unit) * testHandler := (inr tt, h).
(** The owner of the fetched resource. *)
Definition Fetch (h : testHandler) : (string + string) * testHandler := (inr "some-owner", h).
Definition FetchAll (h : testHandler) : (string + list string) * testHandler := (inr [], h).

(** The answers to [n] requests for the lock. *)
Fixpoint lock_requests (n : nat) (h : testHandler) : list (string + unit) :=
  match n with
  | O => []
  | S n => let '(r, h) := Lock h in r :: lock_requests n h
  end.

Lemma lock_requests_lookup n h k :
  (0 ≤ lockCount h)%Z → (lockCount h + Z.of_nat n ≤ int64_max)%Z → k < n →
  lock_requests n h !! k = Some (Lock (mkTestHandler (mode h) (lockCount h + Z.of_nat k))).1.
Proof.
  revert h k. induction n as [|n IH]; intros h k H0 Hmax Hk; [lia|].
  assert (add64 (lockCount h) 1 = lockCount h + 1)%Z as Hadd
    by (apply add64_id; unfold_int64; lia).
  destruct k as [|k].
  - simpl. rewrite Z.add_0_r. by destruct h.
  - assert (lockCount h + Z.of_nat (S k) = lockCount h + 1 + Z.of_nat k)%Z as -> by lia.
    change (lock_requests (S n) h !! S k)
      with (lock_requests n (mkTestHandler (mode h) (add64 (lockCount h) 1)) !! k).
    rewrite Hadd, IH by (cbn [lockCount]; lia). done.
Qed.

(** The modes, request by request: the [k]-th request, counting from 0. *)
Lemma lock_modes n k m :
  k < n → (Z.of_nat n ≤ int64_max)%Z →
  (λ r, bool_decide (r = inr tt)) <$> lock_requests n (mkTestHandler m 0) !! k =
  Some (bool_decide (m = "alwaysGrantLock" ∨
    (m = "grantLockAfterFiveAttempts" ∧ 5 ≤ k) ∨ (m = "grantLockOnceThenFail" ∧ k = 0))).
Proof.
  intros Hk Hn. rewrite lock_requests_lookup by (simpl; lia). simpl. f_equal.
  rewrite add64_id by (unfold_int64; lia).
  apply bool_decide_ext. repeat case_decide; subst; split; try naive_solver lia.
Qed.

End locket_server.

(** ** The server's process (mock_locket_server/main.go) *)

(** Key pairs on disk: [tls.LoadX509KeyPair]. *)
Class TLSFiles := {
  Certificate : Type;
  LoadX509KeyPair : string → string → string + Certificate;
}.

(** What [grpcserver.NewGRPCServer] is given. *)
Record GRPCServer `{TLSFiles} := mkGRPCServer {
  srv_address : string;
  srv_certificates : list Certificate;
  srv_handler : testHandler;
}.

Definition mock_flags : FlagSet :=
  <["fixturesPath" := StringFlag ""]>
  (<["mode" := StringFlag "alwaysGrantLock"]> (<["listenAddress" := StringFlag ""]> ∅)).

(** Up to [ifrit.Invoke]. *)
Definition mock_main `{TLSFiles} (args : list string) : termination + GRPCServer :=
  match Parse mock_flags args with
  | inl e => inl (Exit (flag_status e) "usage")
  | inr fs =>
      let fixturesPath := string_flag "fixturesPath" fs in
      let handler := mkTestHandler (string_flag "mode" fs) 0 in
      match LoadX509KeyPair (path_Join [fixturesPath; "locket-server.cert.pem"])
              (path_Join [fixturesPath; "locket-server.key.pem"]) with
      | inl err => inl (Exit 1 ("Error loading certs: " +:+ err))
      | inr certificate => inr (mkGRPCServer _ (string_flag "listenAddress" fs) [certificate] handler)
      end
  end.

(** The exit status once the server has ended. *)
Definition mock_status (err : option string) : Z := match err with Some _ => 1 | None => 0 end.

(** ** MockLocketServer (mock_locket_server.go) *)

Record MockLocketServer := mkMockLocketServer {
  compiledPath : string;
  ListenAddress : string;
}.

(** [Expect(err).NotTo(HaveOccurred())]: a failed expectation panics. *)
Definition expect {A} (r : outcome A) : outcome A :=
  match r with Err e => Panic ("Unexpected error: " +:+ e) | _ => r end.

(** [built]: what [gexec.Build] returns. *)
Definition Build (built : outcome string) (server : MockLocketServer) : outcome MockLocketServer :=
  compiledPath ← expect built; Ok (mkMockLocketServer compiledPath (ListenAddress server)).

(** [port]: what [freeport.GetFreePort] returns; [gexec_Start]: starts a command
    with its arguments. *)
Definition Run {Session} (gexec_Start : string → list string → outcome Session) (port : outcome Z)
    (fixturesPath lockingMode : string) (server : MockLocketServer)
  : outcome (MockLocketServer * Session) :=
  port ← expect port;
  let address := "127.0.0.1:" +:+ Itoa port in
  session ← expect (gexec_Start (compiledPath server)
    [ "-fixturesPath=" +:+ fixturesPath; "-mode=" +:+ lockingMode; "-listenAddress=" +:+ address ]);
  Ok (mkMockLocketServer (compiledPath server) address, session).

(** The flags of [Run] are read back by the server's [main]. *)
Lemma Run_flags fixturesPath lockingMode address :
  Parse mock_flags [ "-fixturesPath=" +:+ fixturesPath; "-mode=" +:+ lockingMode;
                     "-listenAddress=" +:+ address ] =
  inr (insert_all [ ("fixturesPath", StringFlag fixturesPath); ("mode", StringFlag lockingMode);
                    ("listenAddress", StringFlag address) ] mock_flags).
Proof.
  apply (Parse_flag_args [("fixturesPath", fixturesPath); ("mode", lockingMode); ("listenAddress", address)]).
  repeat constructor; by eexists.
Qed.

(** C37: the mock locket server does what a test asks it to.  The process that
    [MockLocketServer.Run] starts, with any fixtures directory and locking mode,
    whatever bytes they contain, listens on the address the test is told, serves
    the key pair of the fixtures directory, and answers the [k]-th request for
    the lock as the mode says: always, never, from the sixth request on, or for
    the first request only; if the key pair cannot be loaded it exits with
    status 1. *)
Theorem mock_server_protocol `{TLSFiles} {Session} (gexec_Start : string → list string → outcome Session)
    ErrLockCollision port fixturesPath lockingMode server :
  ∃ args,
    Run gexec_Start (Ok port) fixturesPath lockingMode server =
      (session ← expect (gexec_Start (compiledPath server) args);
       Ok (mkMockLocketServer (compiledPath server) ("127.0.0.1:" +:+ Itoa port), session)) ∧
    match LoadX509KeyPair (path_Join [fixturesPath; "locket-server.cert.pem"])
            (path_Join [fixturesPath; "locket-server.key.pem"]) with
    | inl _ => ∃ msg, mock_main args = inl (Exit 1 msg)
    | inr certificate =>
        ∃ srv, mock_main args = inr srv ∧ srv_address srv = "127.0.0.1:" +:+ Itoa port ∧
          srv_certificates srv = [certificate] ∧
          ∀ n k, k < n → (Z.of_nat n ≤ int64_max)%Z →
            (λ r, bool_decide (r = inr tt)) <$> lock_requests ErrLockCollision n (srv_handler srv) !! k =
            Some (bool_decide (lockingMode = "alwaysGrantLock" ∨
              (lockingMode = "grantLockAfterFiveAttempts" ∧ 5 ≤ k) ∨
              (lockingMode = "grantLockOnceThenFail" ∧ k = 0)))
    end.
Proof.
  eexists. split; [done|]. unfold mock_main. rewrite Run_flags.
  change (string_flag "fixturesPath" _) with fixturesPath.
  destruct (LoadX509KeyPair _ _) as [err|certificate]; [by eexists|].
  eexists. split; [done|]. split; [done|]. split; [done|].
  intros n k Hk Hn. by apply lock_modes.
Qed.

(** ** FakeLoggregatorIngressServer (loggregator/fake_loggregator.go) *)

Section loggregator_server.
Context {E : Type}.

(** [BatchSender] over the batches it receives before [Recv] fails with [err]:
    what is put on [ReceivedEnvelopes], which holds 1000 envelopes and is read
    by the test; [None] while the send blocks. *)
Definition received_capacity : nat := 1000.

Fixpoint BatchSender (batches : list (list E)) (err : string) (received : list E)
  : option (string * list E) :=
  match batches with
  | [] => Some (err, received)
  | envBatch :: batches =>
      if decide (length (received ++ envBatch) ≤ received_capacity)
      then BatchSender batches err (received ++ envBatch) else None
  end.

Definition Unimplemented : string := "Unimplemented".
Definition Sender : string := Unimplemented.
Definition Send : string := Unimplemented.

(** *** Set-up *)

(** Sockets, certificate pools and the gRPC server of the test. *)
Class ServerNet `{TLSFiles} := {
  CertPool : Type;
  ReadFile : string → string + string;
  (** [NewCertPool] followed by [AppendCertsFromPEM], whose result is dropped *)
  PoolFromPEM : string → CertPool;
  Listener : Type;
  Listen : string → string → string + Listener;
  listener_Addr : Listener → string;
  ErrServerStopped : string;
}.

Inductive ClientAuthType := NoClientCert | RequestClientCert.

Record tls_Config `{ServerNet} := mkTlsConfig {
  Certificates : list Certificate;
  ClientAuth : ClientAuthType;
  InsecureSkipVerify : bool;
  RootCAs : option CertPool;
}.

(** A gRPC server: its credentials, and the listener it serves while it runs. *)
Record grpc_Server `{ServerNet} := mkGrpc {
  creds : option tls_Config;
  serving : option Listener;
}.

Record FakeLoggregatorIngressServer `{ServerNet} := mkFakeServer {
  ReceivedEnvelopes : list E;
  Addr : string;
  tlsConfig : option tls_Config;
  grpcServer : option grpc_Server;
}.

Definition NewFakeLoggregatorIngressServer `{ServerNet} (serverCert serverKey caCert : string)
  : outcome FakeLoggregatorIngressServer :=
  match LoadX509KeyPair serverCert serverKey with
  | inl err => Err err
  | inr cert =>
      match ReadFile caCert with
      | inl err => Err err
      | inr caCertBytes =>
          Ok (mkFakeServer _ _ [] "localhost:0"
                (Some (mkTlsConfig _ _ [cert] RequestClientCert false (Some (PoolFromPEM caCertBytes)))) None)
      end
  end.

Definition Start `{ServerNet} (t : FakeLoggregatorIngressServer) : outcome FakeLoggregatorIngressServer :=
  match Listen "tcp4" (Addr t) with
  | inl err => Err err
  | inr listener =>
      Ok (mkFakeServer _ _ (ReceivedEnvelopes t) (listener_Addr listener) (tlsConfig t)
            (Some (mkGrpc _ _ (tlsConfig t) (Some listener))))
  end.

(** The goroutine of [Start], when [Serve] returns. *)
Definition serve_ends `{ServerNet} (err : option string) : option termination :=
  match err with
  | Some e => if decide (e = ErrServerStopped) then None else Some (Exit 1 ("failed to serve: " +:+ e))
  | None => None
  end.

(** [grpcServer] is nil before [Start]. *)
Definition Stop `{ServerNet} (t : FakeLoggregatorIngressServer) : outcome FakeLoggregatorIngressServer :=
  match grpcServer t with
  | None => Panic "nil pointer dereference"
  | Some g => Ok (mkFakeServer _ _ (ReceivedEnvelopes t) (Addr t) (tlsConfig t)
                    (Some (mkGrpc _ _ (creds g) None)))
  end.

(** Within the capacity every envelope arrives, in order. *)
Lemma BatchSender_all batches err received :
  length received + length (concat batches) ≤ received_capacity →
  BatchSender batches err received = Some (err, received ++ concat batches).
Proof.
  revert received. induction batches as [|b bs IH]; intros received Hlen; simpl in *.
  - by rewrite app_nil_r.
  - rewrite length_app in Hlen. rewrite decide_True by (rewrite length_app; lia).
    rewrite IH by (rewrite length_app; lia). by rewrite <-(assoc_L (++)).
Qed.
End loggregator_server.

(** A key pair for every directory, and sockets on which listening succeeds. *)
Definition any_files : TLSFiles := {|
  Certificate := string; LoadX509KeyPair cert _ := inr cert;
|}.

Lemma mock_server_protocol_witness :
  ∃ args srv, Run (λ _ args, Ok args) (Ok 8891%Z) "fixtures/" "grantLockOnceThenFail"
      (mkMockLocketServer "/bin/mock" "") = Ok (mkMockLocketServer "/bin/mock" "127.0.0.1:8891", args) ∧
    @mock_main any_files args = inr srv ∧ srv_certificates srv = ["fixtures/locket-server.cert.pem"] ∧
    (λ r, bool_decide (r = inr tt)) <$> lock_requests "lock-collision" 2 (srv_handler srv) !! 1 = Some false.
Proof.
  destruct (@mock_server_protocol any_files _ (λ _ args, Ok args) "lock-collision" 8891 "fixtures/" "grantLockOnceThenFail"
    (mkMockLocketServer "/bin/mock" "")) as (args & Hrun & srv & Hm & _ & Hc & Hlock).
  exists args, srv. split; [exact Hrun|]. split; [exact Hm|]. split; [exact Hc|].
  rewrite (Hlock 2 1); [reflexivity|lia|unfold int64_max; lia].
Defined.

(** C38: from the emitter to the test.  Whatever is emitted to a fresh loggregator
    client, in whatever batches the client sends it, the fake server receives, up
    to the 1000 envelopes its channel holds, exactly one envelope per emitted
    metric, in order, carrying the metric and the instance's GUID. *)
Theorem emitted_received `{LoggregatorLaws} now es (c c' : IngressClient) batches err :
  l_queue c = [] → @emit_all IngressClient LoggregatorEmitter_Emit now es c = Ok c' →
  concat batches = l_queue c' → length es ≤ received_capacity →
  ∃ received, BatchSender batches err [] = Some (err, received) ∧ Forall2 carries es received.
Proof.
  intros Hc Hem Hb Hlen.
  destruct (emit_all_log (X := LEnvelope) _ _ _ _ Hem) as (xs & Hlog & Hxs).
  change (l_queue c' = l_queue c ++ xs) in Hlog. rewrite Hc in Hlog. simpl in Hlog.
  exists xs. split; [|exact Hxs]. rewrite BatchSender_all; [by rewrite Hb, Hlog|].
  rewrite Hb, Hlog. apply Forall2_length in Hxs. simpl. lia.
Qed.

(** Two metrics, and the client after they are emitted. *)
Definition sample_envelopes : list MetricEnvelope :=
  [ mkEnvelope "a" (mkMetric "cpu" 5 float64_zero "percent" ∅);
    mkEnvelope "b" (mkMetric "connections" 0 float64_zero "conn" ∅) ].
Definition sample_client : RefLoggregator.client :=
  RefLoggregator.mkClient ∅
    [ RefLoggregator.mk 5 ("a", "0") {["cpu" := ("percent", float64_zero)]} ∅;
      RefLoggregator.mk 9 ("b", "0") {["connections" := ("conn", float64_zero)]} ∅ ].
Definition sample_batches : list (list RefLoggregator.envelope) :=
  [ take 1 (RefLoggregator.r_queue sample_client); []; drop 1 (RefLoggregator.r_queue sample_client) ].

Lemma emitted_received_witness :
  ∃ received, BatchSender sample_batches "EOF" [] = Some ("EOF", received) ∧
    Forall2 (@carries _ RefLoggregator.laws) sample_envelopes received.
Proof.
  apply (@emitted_received RefLoggregator.api RefLoggregator.laws (λ _, 9%Z) sample_envelopes
    (RefLoggregator.mkClient ∅ []) sample_client sample_batches "EOF");
    [reflexivity|vm_compute; reflexivity|reflexivity|].
  unfold received_capacity. simpl. lia.
Defined.

(** ** FakeBrokerInfo (fakebrokerinfo.go) *)

(** [mock.Mock]: the values recorded for a call of a method, or a panic. *)
Class Mock := {
  Called_details : InstanceInfo → outcome (InstanceConnectionDetails * option string);
  Called_list : outcome (list InstanceInfo * option string);
  Called_name : InstanceInfo → outcome string;
}.

Definition with_error {A} (r : outcome (A * option string)) : outcome A :=
  '(a, e) ← r; match e with Some e => Err e | None => Ok a end.

Definition Fake_GetInstanceConnectionDetails `{Mock} (i : InstanceInfo)
  : outcome InstanceConnectionDetails := with_error (Called_details i).
Definition Fake_ListInstances `{Mock} : outcome (list InstanceInfo) := with_error Called_list.
Definition Fake_GetInstanceName `{Mock} (i : InstanceInfo) : outcome string := Called_name i.
