(* ===== verification/TestConfig.v ===== *)
(** * testhelpers/config.go: the configuration file of the integration tests

    [BuildTempConfigFile] writes a configuration with [json.Marshal] into a new
    temporary file; the collector under test loads it with [LoadConfig].  The
    fields of locket's struct and the file system are classes with their laws. *)

From S2P Require Import Prelude GoStrings GoPath Json Metrics BrokerInfo Config ConfigProps TestHelpers.
From stdpp Require Import options.

(** ** Definitions *)

(** The struct literal of [locket.ClientLocketConfig], and the members that
    [json.Marshal] writes for it. *)
Class LocketMarshal `{LocketAPI} := {
  mkClientLocketConfig : string → string → string → string → ClientLocketConfig;
  locket_members : ClientLocketConfig → list (string * json);
}.

(** Temporary files. *)
Class TempFS (F : Type) := {
  TempFile : string → string → F → outcome (string * F);
  WriteFile : string → string → F → outcome F;
}.

(** The members of the embedded struct follow the struct's own. *)
Definition marshal_full `{LocketMarshal} (c : Config) : json :=
  match marshal_config c with
  | JObj ms => JObj (ms ++ locket_members (cfgLocket c))
  | j => j
  end.

Section build.
Context `{LocketMarshal} {F : Type} `{TempFS F}.

Definition rdsMetricCollectorConfig (locketAddress fixturesPath : string) : Config := {|
  LogLevel := "debug";
  AWS := {| Region := "eu-west-1"; AWSPartition := "aws" |};
  cfgRDSBrokerInfo := {|
    cfgBrokerName := "mybroker";
    cfgDBPrefix := "build-test";
    cfgMasterPasswordSeed := "something-secret";
  |};
  cfgScheduler := {|
    InstanceRefreshInterval := 30;
    CollectorTimeoutMs := None;
    CollectorRetryIntervalMs := None;
    CollectorMaxRetries := None;
    SQLMetricCollectorInterval := 5;
    CWMetricCollectorInterval := 5;
  |};
  cfgLoggregatorEmitter := {|
    MetronURL := "localhost:3458";
    CACertPath := path_Join [fixturesPath; "ca.cert.pem"];
    CertPath := path_Join [fixturesPath; "client.cert.pem"];
    KeyPath := path_Join [fixturesPath; "client.key.pem"];
  |};
  cfgLocket := mkClientLocketConfig
    locketAddress
    (path_Join [fixturesPath; "ca.cert.pem"])
    (path_Join [fixturesPath; "client.cert.pem"])
    (path_Join [fixturesPath; "client.key.pem"]);
|}.

Definition BuildTempConfigFile (locketAddress fixturesPath : string) (fs : F) : outcome (string * F) :=
  '(configFilePath, fs) ← expect (TempFile "" "rds-metrics-collector-config-" fs);
  let configJSON := print_json (marshal_full (rdsMetricCollectorConfig locketAddress fixturesPath)) in
  fs ← expect (WriteFile configFilePath configJSON fs);
  Ok (configFilePath, fs).
End build.

(** ** Laws *)

Definition own_keys : list string :=
  ["log_level"; "aws"; "rds_broker"; "scheduler"; "loggregator_emitter"].

(** What is documented of locket's struct: its JSON keys are its own, decoding
    what was encoded into the zero value restores it, it has no failing tags. *)
Class LocketMarshalLaws `{LocketMarshal} := {
  lm_ok a ca cert key : Forall (λ s, string_all is_ascii s = true) [a; ca; cert; key] →
    forallb member_ok (locket_members (mkClientLocketConfig a ca cert key)) = true;
  lm_flat l : Forall (λ m, json_depth m.2 = 0%Z) (locket_members l);
  lm_keys l : Forall (λ m, Forall (λ k, fold_key k ≠ fold_key m.1) own_keys) (locket_members l);
  lm_decode a ca cert key :
    foldl (dec_member locket_fields) (zero_locket, None) (locket_members (mkClientLocketConfig a ca cert key))
    = (mkClientLocketConfig a ca cert key, None);
  lm_valid a ca cert key :
    Forall (λ f : string * string * fval, tag_ok f.1.2 f.2 = true)
      (locket_validated (mkClientLocketConfig a ca cert key));
}.

(** What is documented of temporary files: they have a name, and what is written
    to a file is read from it. *)
Class TempFSLaws (F : Type) `{TempFS F} := {
  fs_view : F → ConfigFS;
  temp_named dir pattern fs name fs' : TempFile dir pattern fs = Ok (name, fs') → name ≠ "";
  write_read name data fs fs' : WriteFile name data fs = Ok fs' →
    ∃ file, @os_Open (fs_view fs') name = inr file ∧ @ReadAll (fs_view fs') file = inr data;
}.

(** ** Lemmas *)

Section marshal.
Context `{LocketMarshalLaws}.

Lemma find_field_locket k :
  Forall (λ o, fold_key o ≠ fold_key k) own_keys →
  find_field config_fields k = field cfgLocket set_Locket <$> find_field locket_fields k.
Proof.
  intros Hk. unfold find_field, config_fields.
  assert (∀ P : string * decoder Config → Prop, ∀ `{∀ x, Decision (P x)} own,
    Forall (λ f, ¬ P f) own → list_find P (own ++ (prod_map id (field cfgLocket set_Locket) <$> locket_fields)) =
    prod_map (λ n, n + length own) (prod_map id (field cfgLocket set_Locket)) <$>
      list_find (λ f, P (prod_map id (field cfgLocket set_Locket) f)) locket_fields) as Hfind.
  { intros P HP own Hown. rewrite list_find_app_r by (by apply list_find_None).
    rewrite list_find_fmap. unfold compose.
    destruct (list_find _ locket_fields) as [[i f]|]; done. }
  rewrite !Hfind; [|unfold own_keys in Hk; rewrite !Forall_cons in Hk; repeat constructor; simpl; naive_solver..].
  change (λ f : string * decoder ClientLocketConfig, (prod_map id (field cfgLocket set_Locket) f).1 = k)
    with (λ f : string * decoder ClientLocketConfig, f.1 = k).
  destruct (list_find (λ f : string * decoder ClientLocketConfig, f.1 = k) locket_fields) as [[i f]|]; [done|].
  simpl. by destruct (list_find (λ f : string * decoder ClientLocketConfig, fold_key f.1 = fold_key k) locket_fields)
    as [[i f]|].
Qed.

(** The promoted members are decoded into the embedded struct. *)
Lemma dec_members_locket ms c e :
  Forall (λ m, Forall (λ k, fold_key k ≠ fold_key m.1) own_keys) ms →
  foldl (dec_member config_fields) (c, e) ms =
  (let '(l, e') := foldl (dec_member locket_fields) (cfgLocket c, e) ms in (set_Locket l c, e')).
Proof.
  intros Hms. revert c e. induction Hms as [|m ms Hm _ IH]; intros c e; cbn [foldl].
  - by destruct c.
  - unfold dec_member at 2 4. rewrite find_field_locket by done.
    destruct (find_field locket_fields m.1) as [d|]; cbn [fmap option_fmap option_map]; [|apply IH].
    unfold field. cbn [fst snd]. destruct (d m.2 (cfgLocket c)) as [l e'].
    rewrite IH. destruct c. unfold set_Locket. simpl.
    by destruct (foldl (dec_member locket_fields) _ ms).
Qed.

Lemma fixture_file f :
  f = "ca.cert.pem" ∨ f = "client.cert.pem" ∨ f = "client.key.pem" →
  file_name f ∧ string_all is_ascii f = true.
Proof. intros [->|[->| ->]]; (split; [|done]); apply (bool_decide_unpack _); vm_compute; exact I. Qed.

Lemma fixture_path d f :
  f = "ca.cert.pem" ∨ f = "client.cert.pem" ∨ f = "client.key.pem" → string_all is_ascii d = true →
  path_Join [d; f] ≠ "" ∧ string_all is_ascii (path_Join [d; f]) = true.
Proof.
  intros [Hf Ha]%fixture_file Hd. split; [by apply path_Join_file_nonempty|].
  by apply path_Join_file_all.
Qed.

Lemma temp_marshallable a d :
  string_all is_ascii d = true → marshallable (rdsMetricCollectorConfig a d).
Proof.
  intros Hd. split; cbv zeta; simpl; repeat constructor; try (unfold_int64; simpl; lia);
    apply fixture_path; auto.
Qed.

Lemma temp_valid a d :
  string_all is_ascii d = true → config_valid (rdsMetricCollectorConfig a d).
Proof.
  intros Hd. split; [|cbv zeta; simpl; split_and!; (lia || done)].
  simpl. repeat constructor; try done; apply fixture_path; auto.
Qed.

Lemma temp_json_ok a d :
  string_all is_ascii a = true → string_all is_ascii d = true →
  json_ok (marshal_full (rdsMetricCollectorConfig a d)) = true.
Proof using H1.
  intros Ha Hd.
  assert (∀ f, f = "ca.cert.pem" ∨ f = "client.cert.pem" ∨ f = "client.key.pem" →
    string_all is_ascii (path_Join [d; f]) = true) as Hp by (intros; by apply fixture_path).
  unfold marshal_full, marshal_config. cbv zeta. cbn [json_ok]. rewrite forallb_app. apply andb_true_iff. split.
  - cbn [forallb json_ok fst snd rdsMetricCollectorConfig]. simpl. rewrite !Hp by auto. done.
  - apply (lm_ok a). repeat constructor; auto.
Qed.

Lemma temp_fits a d : fits 0 (marshal_full (rdsMetricCollectorConfig a d)).
Proof using H1.
  unfold marshal_full, marshal_config. cbv zeta. apply fits_obj. split; [done|].
  apply Forall_app. split.
  - repeat constructor; unfold fits; simpl; unfold maxNestingDepth; lia.
  - eapply Forall_impl; [apply lm_flat|]. intros m Hm. unfold fits. simpl in Hm. rewrite Hm. done.
Qed.

Lemma temp_Unmarshal a d :
  string_all is_ascii a = true → string_all is_ascii d = true →
  Unmarshal (print_json (marshal_full (rdsMetricCollectorConfig a d))) default_config =
  (rdsMetricCollectorConfig a d, None).
Proof using H1.
  intros Ha Hd. unfold Unmarshal. rewrite parse_print_json by (by apply temp_json_ok || apply temp_fits).
  set (c := rdsMetricCollectorConfig a d).
  pose proof (dec_config_marshal c default_config (temp_marshallable a d Hd)) as Hown.
  unfold dec_config, dec_struct in Hown |- *. unfold marshal_full.
  destruct (marshal_config c) as [| | | | |ms] eqn:Hms; try discriminate Hms.
  rewrite foldl_app, Hown, dec_members_locket by apply lm_keys.
  change (cfgLocket (set_Locket (cfgLocket default_config) c)) with zero_locket.
  unfold c. cbn [cfgLocket rdsMetricCollectorConfig]. by rewrite lm_decode.
Qed.
End marshal.

(** ** Properties *)

(** C36: the configuration of the integration tests loads.  For any ASCII locket
    address and fixtures directory, if [BuildTempConfigFile] returns a path, then
    [LoadConfig] of that path gives, without an error, exactly the configuration
    that was built, the embedded locket settings included; and
    [BuildTempConfigFile] does return unless creating or writing the file fails. *)
Theorem temp_config_roundtrip `{LocketMarshalLaws} `{ValidatorLaws} `{TempFSLaws F}
    locketAddress fixturesPath (fs : F) :
  string_all is_ascii locketAddress = true → string_all is_ascii fixturesPath = true →
  (∀ path fs', BuildTempConfigFile locketAddress fixturesPath fs = Ok (path, fs') →
     @LoadConfig _ _ (fs_view fs') path = (rdsMetricCollectorConfig locketAddress fixturesPath, None)) ∧
  (∀ path fs1, TempFile "" "rds-metrics-collector-config-" fs = Ok (path, fs1) →
     (∀ data, is_Ok (WriteFile path data fs1) = true) →
     is_Ok (BuildTempConfigFile locketAddress fixturesPath fs) = true).
Proof.
  intros Ha Hd. split.
  - intros path fs'. unfold BuildTempConfigFile.
    destruct (TempFile _ _ fs) as [[name fs1]| |] eqn:Ht; [|done..]. simpl.
    destruct (WriteFile name _ fs1) as [fs2| |] eqn:Hw; [|done..]. intros [= <- <-].
    apply LoadConfig_iff. split; [by eapply temp_named|].
    destruct (write_read _ _ _ _ Hw) as (file & Ho & Hr). eexists file, _.
    split_and!; [done|done|by apply temp_Unmarshal|].
    apply Validate_spec. split; [by apply temp_valid|apply lm_valid].
  - intros path fs1 Ht Hw. unfold BuildTempConfigFile. rewrite Ht. simpl.
    match goal with |- context [WriteFile path ?data fs1] =>
      specialize (Hw data); by destruct (WriteFile path data fs1) end.
Qed.

(** Locket's settings as four strings, and a file system as a map. *)
Module SampleLocket.
Record config := mk { address : string; ca : string; cert : string; key : string }.

Definition api : LocketAPI := {|
  ClientLocketConfig := config;
  zero_locket := mk "" "" "" "";
  locket_fields :=
    [ ("locket_address", field address (λ a x, mk a (ca x) (cert x) (key x)) dec_string);
      ("locket_ca_cert_file", field ca (λ a x, mk (address x) a (cert x) (key x)) dec_string);
      ("locket_client_cert_file", field cert (λ a x, mk (address x) (ca x) a (key x)) dec_string);
      ("locket_client_key_file", field key (λ a x, mk (address x) (ca x) (cert x) a) dec_string) ];
  locket_validated _ := [];
|}.
Definition marshal : @LocketMarshal api := {|
  mkClientLocketConfig := mk : string → string → string → string → @ClientLocketConfig api;
  locket_members (l : @ClientLocketConfig api) :=
    [ ("locket_address", JStr (address l)); ("locket_ca_cert_file", JStr (ca l));
      ("locket_client_cert_file", JStr (cert l)); ("locket_client_key_file", JStr (key l)) ];
|}.
Definition laws : @LocketMarshalLaws api marshal.
Proof.
  refine (@Build_LocketMarshalLaws api marshal _ _ _ _ _).
  - intros a b c d. rewrite !Forall_cons. intros (Ha & Hb & Hc & Hd & _). unfold member_ok. simpl.
    by rewrite Ha, Hb, Hc, Hd.
  - intros l. by repeat constructor.
  - intros l. repeat constructor; discriminate.
  - intros a b c d. reflexivity.
  - intros a b c d. constructor.
Defined.

Definition temp : TempFS (gmap string string) := {|
  TempFile _ pattern fs := Ok ("/tmp/" +:+ pattern +:+ "1", <["/tmp/" +:+ pattern +:+ "1" := ""]> fs);
  WriteFile name data fs := Ok (<[name := data]> fs);
|}.
Definition view (fs : gmap string string) : ConfigFS := {|
  File := string;
  os_Open p := match fs !! p with Some text => inr text | None => inl "no such file" end;
  ReadAll text := inr text;
|}.
Definition temp_laws : @TempFSLaws (gmap string string) temp.
Proof.
  refine (@Build_TempFSLaws (gmap string string) temp view _ _).
  - intros dir pattern fs name fs' [= <- _]. discriminate.
  - intros name data fs fs' [= <-]. exists data. simpl. by rewrite lookup_insert_eq.
Defined.
End SampleLocket.

Lemma temp_config_roundtrip_witness :
  ∃ path fs, @BuildTempConfigFile _ SampleLocket.marshal _ SampleLocket.temp "127.0.0.1:8891" "../fixtures/" ∅
      = Ok (path, fs) ∧
    @LoadConfig _ ref_Validator (SampleLocket.view fs) path =
      (@rdsMetricCollectorConfig _ SampleLocket.marshal "127.0.0.1:8891" "../fixtures/", None).
Proof.
  eexists _, _. split; [reflexivity|].
  eapply (proj1 (@temp_config_roundtrip _ SampleLocket.marshal SampleLocket.laws ref_Validator
    ref_ValidatorLaws _ SampleLocket.temp SampleLocket.temp_laws "127.0.0.1:8891" "../fixtures/" ∅
    eq_refl eq_refl)). reflexivity.
Defined.

Example temp_config_paths :
  CACertPath (cfgLoggregatorEmitter (@rdsMetricCollectorConfig _ SampleLocket.marshal "a" "../x//fixtures/"))
  = "../x/fixtures/ca.cert.pem".
Proof. reflexivity. Qed.
